(* ===== verification/_CoqProject ===== *)
-Q . S2P
Prelude.v
GoFloat.v
FloatBounds.v
Fifo.v
Ring.v
RingRefine.v
RtpTypes.v
Seq16.v
Jitter.v
JitterSpec.v
JitterProps.v
JitterOrder.v
JitterLines.v
SeqWriter.v
SeqProps.v
Receive.v
ReceiveProps.v
Mixer.v
MixerProps.v
Dtmf.v
DtmfProps.v
G711.v
G711Props.v
Media.v
MediaProps.v
GoStr.v
Codecs.v
CodecsProps.v
CodecList.v
CodecListProps.v
Srtp.v
SrtpProps.v
Sdp.v
SdpParse.v
SdpProps.v
Mux.v
Listen.v
Pipe.v
PipeProps.v
PipeClose.v
Session.v
SessionProps.v
SessionDemux.v
Beep.v
BeepProps.v
Soxr.v
SoxrProps.v
SoxrLife.v
Tones.v
SdpFormats.v
Generate.v
Writers.v
FileWriter.v
Resample.v
Opus.v
Amrwb.v
G722.v
AudioCodec.v
RtpCodecs.v
WritersProps.v
FileWriterProps.v
ResampleProps.v
CodecLaws.v
AudioCodecProps.v
OpusProps.v
AmrwbProps.v
LawChain.v
SrtpSession.v
SrtpSessionProps.v
RtpCodecsProps.v
CallSetup.v
Res.v
