(* ===== verification/Prelude.v ===== *)
(** * media-sdk: a verification library

    [src/] is a Go library for telephony media: it negotiates codecs and keys
    in SDP, receives RTP packets, puts them back in order, decodes, resamples
    and mixes their audio, and sends audio, tones and telephone events as RTP
    packets again.  This library models it in Rocq and proves what makes each
    part correct.

    ** How the parts interact

    An offer and its answer ([Sdp]) choose a codec among those of a codec set
    ([Codecs], [CodecList]) and SRTP keys ([Srtp]).  A UDP port is bound
    ([Listen]); packets arrive at a [Session], which gives each SSRC a stream;
    a [Mux] sends them to the handler of their payload type; a loop reads them
    and a [Jitter] buffer puts them in order ([Receive]).  An encrypted session
    ([SrtpSession]) is one of pion's.  The handler of a codec ([RtpCodecs])
    decodes payloads ([G711], [G722], [Opus], [Amrwb], each behind [AudioCodec]);
    frames are resampled ([Resample] chooses [Beep] or [Soxr]), cut, amplified
    and switched ([Media], [Writers]), carried between goroutines ([Pipe]), put
    into files ([FileWriter]), read from resources ([Res]) and mixed ([Mixer]
    over [Ring]).  Frames, tones ([Tones]) and telephone events ([Dtmf]) leave
    through the streams of a [SeqWriter].

    ** Files

    - [Prelude]: outcomes of calls, errors, machine integers, Go slices, the
      scope [go_scope], tactics, hints and lemmas shared by every file.
    - [GoFloat], [FloatBounds]: [float64] and [float32], what rounding does, and the
      bounds that it keeps.
    - [Fifo]: the interface of a bounded queue (a class of operations and a
      class of laws); [Ring], [RingRefine]: [src/ring/buffer.go], the instance.
    - [RtpTypes]: packets and headers as the program uses them.
    - [Seq16]: 16-bit sequence arithmetic; [Jitter]: [src/jitter/buffer.go],
      [packet.go], [lines.go]; [JitterSpec]: the same buffer as a transition
      system; [JitterProps], [JitterOrder], [JitterLines]: its theorems.
    - [SeqWriter], [SeqProps]: [SeqWriter] and its streams of [src/rtp/rtp.go].
    - [Receive], [ReceiveProps]: [HandleLoop] and the typed streams of
      [src/rtp/rtp.go], and [src/rtp/jitter.go]; the file that composes a
      sender ([SeqWriter]) with a receiver ([Jitter]).
    - [Mixer], [MixerProps]: [src/mixer/mixer.go], against [Fifo].
    - [Dtmf], [DtmfProps]: [src/dtmf/dtmf.go], writing through [SeqWriter].
    - [G711], [G711Props]: [src/g711/].
    - [Media], [MediaProps]: [src/buffers.go], [src/gain.go], [src/media.go],
      [src/pcm.go], [src/bytes.go].
    - [GoStr]: the functions of Go's [strings] and [strconv] in use.
    - [Codecs], [CodecsProps]: [src/codecs.go]; [CodecList], [CodecListProps]:
      the codecs of [src/all] and the tables of [src/rtp/codecs.go] and
      [src/sdp/codecs.go].
    - [Srtp], [SrtpProps]: profiles of [src/srtp/srtp.go], crypto attributes of
      [src/sdp/offer.go], base64.
    - [Sdp]: [src/sdp/offer.go], [src/sdp/helpers.go]; [SdpParse]: rendering and
      parsing; [SdpProps], [SdpFormats]: negotiation, and formats without name.
    - [Mux]: [src/rtp/mux.go]; [Listen]: [src/rtp/listen.go].
    - [Pipe], [PipeProps], [PipeClose]: [src/pipe.go].
    - [Session], [SessionProps], [SessionDemux]: [src/rtp/session.go].
    - [Beep], [BeepProps]: [src/resampler_beep.go], [src/resample_beep.go];
      [Soxr], [SoxrProps]: [src/resample_soxr.go]; [SoxrLife]: its C object, from
      [newSoxr] to [soxr_delete].
    - [Tones], [Generate]: [src/tones/tones.go]: the cadences, and the samples.
    - [Writers]: the interface of a writer of frames ([WriterOps], [RateOps], the
      classes of laws [Serves] and [HasRate]), and every writer of the root
      package as a state over the state of the writer below; [WritersProps]: their
      laws.  The functions of single frames are those of [Media].
    - [FileWriter], [FileWriterProps]: [src/bytes.go], [src/dump.go],
      [src/webm/writer.go], over an [io.WriteCloser] ([FileOps], [FileLaws]).
    - [Resample], [ResampleProps]: [src/resample.go], and the resamplers as writers.
    - [Opus], [OpusProps], [Amrwb], [AmrwbProps], [G722]: [src/opus/opus.go],
      [src/amrwb/amrwb.go], [src/g722/g722.go]; [CodecLaws]: what the libraries
      promise, and small libraries that keep the promises.
    - [AudioCodec], [AudioCodecProps]: [src/audio.go] and the constructors that the
      codecs register, as chains of writers; [LawChain]: the chains of G.711.
    - [RtpCodecs], [RtpCodecsProps]: [src/rtp/codecs.go], a codec between PCM and RTP.
    - [CallSetup]: the negotiation composed with the codecs and the streams, as an
      application composes them.
    - [SrtpSession], [SrtpSessionProps]: the session of [src/srtp/srtp.go].
    - [Res]: [src/res/embed.go].

    ** Conventions

    A Go method is a function of the receiver's state that returns the new one;
    names are the code's.  [outcome] is a call that may panic; an error that a
    method returns is an [option error] or the right of a sum.  Integers are [Z]
    and wrap where the code's type does ([u8] to [i64]); an index out of range
    and a division by zero are panics ([go_index], [go_quot]).  Products of a
    length and a sample rate ([Soxr], [Beep]) are not wrapped: an int64 holds them
    for any slice that fits in memory.  What a method
    reads from outside is an argument: the clock, the random generator, the
    outcome of a call on the writer below.  What it sends outside is recorded in
    its state, in order.

    Concurrency.  Methods that run under one lock are one step, and a theorem
    is about every sequence of steps ([Mixer.runAll], [Jitter.run],
    [SeqWriter.execAll]).  In [Pipe], [Session], [SrtpSession], [SoxrLife] and
    [Receive] goroutines block and race, so a goroutine is the call it makes and
    the point that its code has reached, and a schedule chooses which goroutine
    moves and which ready case of a [select] it takes; the theorems hold for
    every schedule.

    Chains.  A writer over a writer is a state that holds the state of the one
    below, and an instance of [WriterOps]; a chain of writers is a type.  A
    writer [Serves] a kind of frames ([pcm], [raw]) when no write or close of it
    panics and its invariant is kept; the instances of [Serves] compose as the
    writers do, so that a theorem about a chain is found by type classes.  A call that
    does not return is a [Panic] of its chain: the caller does not go on.

    Bounds.  Recursion that is not structural carries fuel, given by the
    definition itself, and is shown not to run out:
    the loops of the jitter buffer get the length of the queue, which each of
    their turns shortens ([JitterSpec]); [Codecs.lookupSets] gets the number of sets, since a
    parent is older than its children ([CodecsProps.chain_fuel]);
    [Codecs.OfferDepth] gets depth 1, since the offer of telephone-event looks at
    the offers of the other codecs only ([CodecsProps.Offer_depth]); [GoStr.itoa] gets
    the binary logarithm of its argument; [Listen.tryPorts] the number of ports
    of the range; [Beep.passes] one more than the samples that are left to read,
    since every turn reads one; the loops of [Soxr] the size of the input and of
    the room, under the documented progress of the library; the loops
    of [Amrwb] the size of their input, of which every turn takes some, and
    [FileWriter.bufLoop] two more than it, since a file that takes nothing
    reports an error.

    Outside.  Code that is not under [src/] is an argument, with its documented
    behaviour as a hypothesis of the theorems that need it: pion's reading and
    writing of packets and descriptions, sockets, files, and the libraries of
    the codecs and of the resampler, each behind a class ([OpusLib], [AmrwbLib],
    [G722Lib], [ResampleLib]) with its laws in another.  So is the
    sine of [tones.Generate].  Floats are computed as IEEE 754 says
    ([GoFloat]); a conversion of a float to an integer type that cannot hold it is
    the class [Conversions], since the language leaves it to the implementation.

    ** What is shown

    - From end to end: [ReceiveProps.audio_end_to_end] (what a [SeqWriter]
      sends is received in order and at most once, and what is missing is
      counted, in whatever order it arrives within the range of the comparison of
      numbers; always if at most 3000 packets were sent), [handle_loop_forwards];
      [RtpCodecsProps.g711_call] (PCM frames that are encoded, sent, received and
      decoded are the same frames up to the error of the law);
      [CallSetup.negotiated_call] (the codec that was selected in a description
      makes a PCM writer whose packets, of the payload type that was negotiated,
      its own decoder takes, at the writers' rates that [decodable] describes).
    - Codecs: [AudioCodecProps.encode_bytes_typed], [decode_bytes_typed] and
      [transcode_total] (chains of codecs, configured as negotiated, take any
      frames without a panic: the files of dumps can be created, if a dump is on,
      and a resampler, if one is needed, is that of the C library, since the
      predictable one panics on short frames), [LawChain.law_transcode],
      [OpusProps.opus_decoder_errors], [AmrwbProps.amrwb_encoder_stream].
    - Files: [FileWriterProps.dump_frames_file]; [webm_drifts] (the timestamps of
      a WebM file when a frame is not a whole number of milliseconds).
    - Queues: [RingRefine.ring_refines_queue] (the ring buffer is a queue that
      drops its oldest), from which the mixer's theorems follow by the
      interface: [MixerProps.mix_is_clamped_sum], [mixer_conserves] (over a
      run, the output is the sums of all mixes in order, and every sample is
      mixed once and in order, waits, or is counted as dropped), [tick_accounts].
    - Receiving: [SessionDemux.accept_demux] and [reads_in_order] (every packet
      reaches its stream, in order), [overlapping_reads_race] (unless two reads
      overlap), [written_datagrams]; [Mux.mux_dispatches];
      [Listen.bind_visits_range], [WithConfig_ipv6]; the jitter buffer's
      accounting, whole samples, order and loss ([JitterProps], [JitterOrder]; the
      last two within the range in which it compares numbers) and its choice
      between sequence lines ([JitterLines]); [JitterProps.popReady_timely] (how
      long its head may wait, and that the timer empties it) and
      [older_sample_waits] (a sample behind a younger head waits longer).
    - Sending: [SeqProps.sequence_numbers], [automatic_timestamps];
      [DtmfProps.Write_schedule] (a digit string is sent as its schedule asks),
      [event_roundtrip]; [Tones.play_repeats_cadence].
    - Frames: [G711Props] (error bounds and round trips of companding),
      [MediaProps] (rechunking, switches, byte encoding),
      [gain_as_set]; [Generate.generate_bounds];
      [BeepProps.beep_buffer_is_reference] (the two buffers of the resampler
      compute, in float64, what one buffer with the whole source computes),
      [beep_short_frames_panic], [beep_frame_edges] and [beep_overshoots],
      [SoxrProps.soxr_writer_conserves] (against [served], the calls of the C
      library that a frame takes),
      [SoxrLife.soxr_deleted_once] (the C object is deleted once and not used
      after), [ResampleProps.resample_appends], [Res.splitFrames_spec].
    - Goroutines: [PipeProps.pipe_delivers], [PipeClose.pipe_progress],
      [close_errors]; [SrtpSessionProps.srtp_closed_once],
      [srtp_close_promise] and [srtp_accept_leaks] (closing a session while it accepts).
    - Negotiation: [SdpProps.negotiation_agrees] (after offer and answer both
      sides hold the same codecs and mirrored keys), [offer_is_read],
      [select_audio]; [SdpFormats.nameless_format_panics] and [nil_set_types];
      [CodecsProps.codec_sets]; [CodecListProps.negotiated_config_stable];
      [SrtpProps.crypto_attr_roundtrip], [mki_encoding].

    ** Not modelled

    - What the encoders and decoders of the codecs compute, the C library of the
      resampler, the Vorbis decoder and the WebM container: third-party code.
    - The constants of [src/rtp/media.go], type aliases, the interface types of
      [src/processor.go] and [src/audio.go], which have no behaviour; interfaces
      that have one are the classes [WriterOps], [RateOps], [HandlerOps] and [Fifo].
    - [Size] and [CopyTo] of the byte samples are the same four lines in every
      codec, and are modelled once ([Writers.rawFrame]); so are the methods of the
      mu-law writers, with the law as an argument ([AudioCodec.lawDecoder]).
    - [OpenWriteStream] and [WriteRTP] of [src/srtp/srtp.go], which only call pion.
    - [String] methods, logging and [WithLogger].
    - [src/all]: blank imports. *)

From Stdlib Require Import ZArith Lia Bool.
From stdpp Require Import base tactics list list_numbers numbers option strings sorting.

#[global] Open Scope Z_scope.

Declare Scope go_scope.
Delimit Scope go_scope with go.

(** ** Outcomes: a Go call returns or panics *)

Inductive outcome (A : Type) : Type :=
| Ok (a : A)
| Panic.
Arguments Ok {A} a.
Arguments Panic {A}.

(** Sequencing: a panic of the first call is a panic of both. *)
Definition obind {A B : Type} (m : outcome A) (f : A -> outcome B) : outcome B :=
  match m with
  | Ok a => f a
  | Panic => Panic
  end.

Notation "'let!' x ':=' m 'in' k" :=
  (obind m (fun x => k))
  (at level 200, x pattern, m at level 100, k at level 200) : go_scope.

Lemma obind_Ok {A B : Type} (m : outcome A) (f : A -> outcome B) (r : B) :
  obind m f = Ok r <-> exists a, m = Ok a /\ f a = Ok r.
Proof. destruct m; simpl; naive_solver. Qed.

(** ** Errors: the sentinel values the program returns and compares *)

Inductive error : Type :=
| EOF                      (* io.EOF *)
| ErrShortBuffer           (* io.ErrShortBuffer *)
| ErrUnexpectedEOF         (* io.ErrUnexpectedEOF *)
| ErrClosedPipe            (* io.ErrClosedPipe *)
| Errorf (what : string).  (* errors.New, fmt.Errorf *)

#[export] Instance error_eq_dec : EqDecision error.
Proof. solve_decision. Defined.

(** ** Machine integers: the Go types at their width *)

Definition u8 (z : Z) : Z := z mod 256.
Definition u16 (z : Z) : Z := z mod 65536.
Definition u32 (z : Z) : Z := z mod 4294967296.
Definition u64 (z : Z) : Z := z mod 18446744073709551616.
Definition i16 (z : Z) : Z := (z + 32768) mod 65536 - 32768.
Definition i32 (z : Z) : Z := (z + 2147483648) mod 4294967296 - 2147483648.
Definition i64 (z : Z) : Z :=
  (z + 9223372036854775808) mod 18446744073709551616 - 9223372036854775808.

(** Integer division and remainder of Go: truncated, panicking on zero. *)
Definition go_quot (a b : Z) : outcome Z := if b =? 0 then Panic else Ok (Z.quot a b).
Definition go_rem (a b : Z) : outcome Z := if b =? 0 then Panic else Ok (Z.rem a b).

(** ** Slices: the contents of a Go slice as a list, indices as [int] *)

Section slices.
Context {T : Type}.
Implicit Types l p : list T.

Definition zlen l : Z := Z.of_nat (length l).

(** [l[i]] *)
Definition go_index l (i : Z) : outcome T :=
  if i <? 0 then Panic
  else match l !! Z.to_nat i with Some x => Ok x | None => Panic end.

(** [l[i] = x] *)
Definition go_set l (i : Z) (x : T) : outcome (list T) :=
  if (i <? 0) || (zlen l <=? i) then Panic
  else Ok (<[Z.to_nat i := x]> l).

(** [l[lo:hi]], for a slice whose capacity is its length *)
Definition go_slice l (lo hi : Z) : outcome (list T) :=
  if (lo <? 0) || (hi <? lo) || (zlen l <? hi) then Panic
  else Ok (take (Z.to_nat (hi - lo)) (drop (Z.to_nat lo) l)).

(** [copy(dst, src)]: the new contents of [dst] and the count *)
Definition go_copy (dst src : list T) : list T * Z :=
  let n := Nat.min (length dst) (length src) in
  (take n src ++ drop n dst, Z.of_nat n).

(** [copy(l[lo:], src)]: the destination is a suffix of [l] *)
Definition go_copy_at l (lo : Z) (src : list T) : outcome (list T * Z) :=
  match go_slice l lo (zlen l) with
  | Ok suffix =>
      let '(suffix', n) := go_copy suffix src in
      Ok (take (Z.to_nat lo) l ++ suffix', n)
  | Panic => Panic
  end.

End slices.

(** ** Time: [time.Time] as nanoseconds since Go's zero time, [time.Duration]
    as nanoseconds *)

Definition time := Z.
Definition duration := Z.
Definition zeroTime : time := 0.
Definition IsZero (t : time) : bool := t =? 0.
Definition maxDuration : duration := 9223372036854775807.
Definition minDuration : duration := -9223372036854775808.
Definition Microsecond : duration := 1000.
Definition Millisecond : duration := 1000000.
Definition Second : duration := 1000000000.

(** [t.Sub(u)] saturates at the bounds of [Duration]. *)
Definition Sub (t u : time) : duration := Z.max minDuration (Z.min maxDuration (t - u)).
Definition Add (t : time) (d : duration) : time := t + d.
Definition Before (t u : time) : bool := t <? u.

(** [d.Round(m)]: to the nearest multiple, halves away from zero, saturating. *)
Definition Round (d m : duration) : duration :=
  if m <=? 0 then d
  else
    let r := Z.rem d m in
    if d <? 0 then
      let r := - r in
      if r + r <? m then d + r
      else let d1 := i64 (d - m + r) in if d1 <? d then d1 else minDuration
    else
      if r + r <? m then d - r
      else let d1 := i64 (d + m - r) in if d <? d1 then d1 else maxDuration.

(** [DefFrameDur] and [DefFramesPerSec] of [src/media.go]. *)
Definition DefFrameDur : duration := 20 * Millisecond.
Definition DefFramesPerSec : Z := 50.

(** ** Tactics *)

Ltac Zify.zify_post_hook ::= Z.to_euclidean_division_equations.

(** Case analysis on the boolean tests of the code, as propositions. *)
Ltac bool_cases :=
  repeat match goal with
  | H : (_ && _)%bool = true |- _ => apply andb_true_iff in H as [? ?]
  | H : (_ || _)%bool = false |- _ => apply orb_false_iff in H as [? ?]
  | H : negb _ = true |- _ => apply negb_true_iff in H
  | H : negb _ = false |- _ => apply negb_false_iff in H
  | H : (_ <? _)%Z = true |- _ => apply Z.ltb_lt in H
  | H : (_ <? _)%Z = false |- _ => apply Z.ltb_ge in H
  | H : (_ <=? _)%Z = true |- _ => apply Z.leb_le in H
  | H : (_ <=? _)%Z = false |- _ => apply Z.leb_gt in H
  | H : (_ =? _)%Z = true |- _ => apply Z.eqb_eq in H
  | H : (_ =? _)%Z = false |- _ => apply Z.eqb_neq in H
  end.

(** Split the first test of the goal. *)
Ltac case_if :=
  match goal with
  | |- context [if ?b then _ else _] =>
      match type of b with bool => destruct b eqn:?; bool_cases end
  end.

(** Arithmetic on machine integers. *)
Ltac word_lia := unfold u8, u16, u32, u64, i16, i32, i64 in *; lia.

Create HintDb go discriminated.

(** ** Machine integer lemmas *)

Lemma u8_range z : 0 <= u8 z < 256.
Proof. word_lia. Qed.
Lemma u16_range z : 0 <= u16 z < 65536.
Proof. word_lia. Qed.
Lemma u32_range z : 0 <= u32 z < 4294967296.
Proof. word_lia. Qed.
Lemma i16_range z : -32768 <= i16 z <= 32767.
Proof. word_lia. Qed.
Lemma i32_range z : -2147483648 <= i32 z <= 2147483647.
Proof. word_lia. Qed.
Lemma i16_id z : -32768 <= z <= 32767 -> i16 z = z.
Proof. word_lia. Qed.
Lemma i32_id z : -2147483648 <= z <= 2147483647 -> i32 z = z.
Proof. word_lia. Qed.
Lemma u16_id z : 0 <= z < 65536 -> u16 z = z.
Proof. word_lia. Qed.

(** ** List lemmas *)

Lemma Sorted_snoc {A : Type} (R : A -> A -> Prop) (l : list A) a b :
  Sorted R l -> last l = Some a -> R a b -> Sorted R (l ++ [b]).
Proof.
  induction 1 as [|x l Hs IH Hx]; [done|]. intros Hl Hab. destruct l as [|y l].
  - injection Hl as ->. simpl. by repeat constructor.
  - simpl. constructor; [by apply IH|]. inversion Hx. by constructor.
Qed.

(** Sums. *)
Definition zsum (l : list Z) : Z := foldr Z.add 0 l.

Lemma zsum_app l1 l2 : zsum (l1 ++ l2) = zsum l1 + zsum l2.
Proof. induction l1; simpl; lia. Qed.

Lemma zsum_insert l i x y : l !! i = Some x -> zsum (<[i := y]> l) = zsum l - x + y.
Proof.
  revert i. induction l as [|z l IH]; intros [|i] Hl; simpl in *; try done.
  - injection Hl as ->. lia.
  - rewrite (IH i Hl). lia.
Qed.

(** ** Slice lemmas *)

Section slice_lemmas.
Context {T : Type}.
Implicit Types l p : list T.

Lemma zlen_nonneg l : 0 <= zlen l.
Proof. unfold zlen. lia. Qed.

Lemma zlen_app l p : zlen (l ++ p) = zlen l + zlen p.
Proof. unfold zlen. rewrite length_app. lia. Qed.

Lemma zlen_drop l (n : nat) : (n <= length l)%nat -> zlen (drop n l) = zlen l - Z.of_nat n.
Proof. unfold zlen. rewrite length_drop. lia. Qed.

Lemma zlen_insert l (i : nat) x : zlen (<[i := x]> l) = zlen l.
Proof. unfold zlen. rewrite length_insert. done. Qed.

Lemma zlen_0 l : zlen l = 0 -> l = [].
Proof. unfold zlen. destruct l; simpl; [done|lia]. Qed.

Lemma go_index_Ok l i x :
  0 <= i -> l !! Z.to_nat i = Some x -> go_index l i = Ok x.
Proof. intros Hi Hl. unfold go_index. rewrite Hl. case_if; [lia|done]. Qed.

Lemma go_set_Ok l i x :
  0 <= i < zlen l -> go_set l i x = Ok (<[Z.to_nat i := x]> l).
Proof.
  intros Hi. unfold go_set.
  destruct (i <? 0) eqn:?, (zlen l <=? i) eqn:?; simpl; bool_cases; done || lia.
Qed.

Lemma go_slice_Ok l lo hi :
  0 <= lo <= hi -> hi <= zlen l ->
  go_slice l lo hi = Ok (take (Z.to_nat (hi - lo)) (drop (Z.to_nat lo) l)).
Proof.
  intros Hlo Hhi. unfold go_slice.
  destruct (lo <? 0) eqn:?, (hi <? lo) eqn:?, (zlen l <? hi) eqn:?; simpl; bool_cases; done || lia.
Qed.

Lemma go_copy_at_Ok l lo src :
  0 <= lo <= zlen l ->
  let n := Nat.min (length l - Z.to_nat lo) (length src) in
  go_copy_at l lo src =
    Ok (take (Z.to_nat lo) l ++ take n src ++ drop (Z.to_nat lo + n) l, Z.of_nat n).
Proof.
  intros Hlo n. unfold go_copy_at. rewrite go_slice_Ok by (unfold zlen in *; lia).
  unfold go_copy. rewrite (take_ge (drop _ l)) by (rewrite length_drop; unfold zlen in *; lia).
  rewrite length_drop, drop_drop. done.
Qed.

Lemma go_copy_at_fits l lo src :
  0 <= lo -> lo + zlen src <= zlen l ->
  go_copy_at l lo src = Ok (take (Z.to_nat lo) l ++ src ++ drop (Z.to_nat (lo + zlen src)) l, zlen src).
Proof.
  intros Hlo Hl. pose proof (zlen_nonneg src). rewrite go_copy_at_Ok by lia. unfold zlen in *.
  rewrite Nat.min_r, (take_ge src) by lia.
  by replace (Z.to_nat (lo + Z.of_nat (length src))) with (Z.to_nat lo + length src)%nat by lia.
Qed.

Lemma go_rem_Ok a b : 0 <= a -> 0 < b -> go_rem a b = Ok (a mod b).
Proof.
  intros Ha Hb. unfold go_rem. case_if; [lia|].
  rewrite Z.rem_mod_nonneg by lia. done.
Qed.

(** Suffixes: the newest [n] elements of a list. *)
Definition lastn (n : nat) l : list T := drop (length l - n) l.

Lemma lastn_all n l : (length l <= n)%nat -> lastn n l = l.
Proof. intros. unfold lastn. replace (length l - n)%nat with 0%nat by lia. done. Qed.

Lemma length_lastn n l : length (lastn n l) = Nat.min n (length l).
Proof. unfold lastn. rewrite length_drop. lia. Qed.

End slice_lemmas.

#[export] Hint Resolve zlen_nonneg u8_range u16_range u32_range i16_range i32_range : go.
#[export] Hint Rewrite @zlen_app @length_lastn : go.
