(* ===== verification/GoFloat.v ===== *)
(** * GoFloat: floating point numbers of Go

    [float64] and [float32] are IEEE 754 numbers, rounded to nearest; their
    operations are those of the Standard Library's specification of floats.
    Each operation rounds: a compiler that fuses a multiplication with an
    addition, as the language allows, computes something else. *)

From Stdlib Require Import SpecFloat.
From stdpp Require Import base tactics numbers list.
From S2P Require Import Prelude.

#[local] Open Scope go_scope.

Definition float : Type := spec_float.

Definition fmul : float -> float -> float := SFmul 53 1024.
Definition fdiv : float -> float -> float := SFdiv 53 1024.
Definition fadd : float -> float -> float := SFadd 53 1024.
Definition fsub : float -> float -> float := SFsub 53 1024.
Definition fmul32 : float -> float -> float := SFmul 24 128.

(** [float64(n)] of an integer *)
Definition ofInt (n : Z) : float := binary_normalize 53 1024 n 0 false.
Definition ofInt32 (n : Z) : float := binary_normalize 24 128 n 0 false.

Definition isNaN (f : float) : bool := match f with S754_nan => true | _ => false end.
Definition isInf (f : float) : bool := match f with S754_infinity _ => true | _ => false end.

(** The integer part of [m * 2^e]. *)
Definition scaled (m e : Z) : Z := if 0 <=? e then m * 2 ^ e else m / 2 ^ (- e).

(** The conversion to an integer drops the fraction. *)
Definition truncated (f : float) : option Z :=
  match f with
  | S754_zero _ => Some 0
  | S754_finite s m e => Some (if s then - scaled (Z.pos m) e else scaled (Z.pos m) e)
  | _ => None
  end.

(** A number that the integer type cannot represent converts to a number that
    the implementation chooses, of that type. *)
Class Conversions : Type := {
  beyond : Z -> Z -> float -> Z;
  beyond_range lo hi f : lo <= hi -> lo <= beyond lo hi f <= hi;
}.

Section convert.
Context `{Conversions}.

(** [T(f)] for an integer type [T] from [lo] to [hi]. *)
Definition convert (lo hi : Z) (f : float) : Z :=
  match truncated f with
  | Some n => if (lo <=? n) && (n <=? hi) then n else beyond lo hi f
  | None => beyond lo hi f
  end.

Definition toInt : float -> Z := convert (-9223372036854775808) 9223372036854775807.
Definition toInt16 : float -> Z := convert (-32768) 32767.
Definition toUint32 : float -> Z := convert 0 4294967295.

Lemma convert_range lo hi f : lo <= hi -> lo <= convert lo hi f <= hi.
Proof.
  intros Hle. unfold convert. destruct (truncated f) as [n|]; [|by apply beyond_range].
  destruct (lo <=? n) eqn:?, (n <=? hi) eqn:?; simpl; bool_cases; [lia|by apply beyond_range..].
Qed.

Lemma convert_fits lo hi f n : truncated f = Some n -> lo <= n <= hi -> convert lo hi f = n.
Proof. intros Ht Hn. unfold convert. rewrite Ht. by destruct (Z.leb_spec lo n), (Z.leb_spec n hi); [|lia..]. Qed.

End convert.

Lemma scaled_shift m x j : 0 <= j -> scaled (m * 2 ^ j) (x - j) = scaled m x.
Proof.
  intros Hj. assert (0 < 2 ^ j) by (apply Z.pow_pos_nonneg; lia). unfold scaled.
  destruct (Z.leb_spec 0 (x - j)), (Z.leb_spec 0 x); try lia.
  - rewrite <- Z.mul_assoc, <- Z.pow_add_r by lia. do 2 f_equal. lia.
  - replace (2 ^ j) with (2 ^ x * 2 ^ (- (x - j))) by (rewrite <- Z.pow_add_r by lia; f_equal; lia).
    assert (0 < 2 ^ (- (x - j))) by (apply Z.pow_pos_nonneg; lia). rewrite Z.mul_assoc. apply Z.div_mul. lia.
  - replace (2 ^ (- (x - j))) with (2 ^ (- x) * 2 ^ j) by (rewrite <- Z.pow_add_r by lia; f_equal; lia).
    assert (0 < 2 ^ (- x)) by (apply Z.pow_pos_nonneg; lia). apply Z.div_mul_cancel_r; lia.
Qed.

Lemma scaled_nonneg m e : 0 <= m -> 0 <= scaled m e.
Proof. intros Hm. unfold scaled. case_if; [apply Z.mul_nonneg_nonneg; [done|apply Z.pow_nonneg; lia]|apply Z.div_pos; [done|apply Z.pow_pos_nonneg; lia]]. Qed.

(** ** What rounding does

    A positive number is [N / D * 2^e]; its mantissa before rounding is [m], and
    the location says where between [m] and [m + 1] the quotient lies. *)
Definition located (N D m : Z) (l : location) : Prop :=
  0 < D /\ m * D <= N < (m + 1) * D /\
  match l with
  | loc_Exact => N = m * D
  | loc_Inexact c => N <> m * D /\ (2 * (N - m * D) ?= D) = c
  end.

Lemma located_exact m : located m 1 m loc_Exact.
Proof. unfold located. lia. Qed.

(** The record of a shift, read as a location. *)
Definition recordAt (N D : Z) (r : shr_record) : Prop := located N D (shr_m r) (loc_of_shr_record r).

Lemma recordAt_loc N D m l : located N D m l -> recordAt N D (shr_record_of_loc m l).
Proof. unfold recordAt. by destruct l as [|[]]. Qed.

Lemma shr_1_at N D r : 0 <= shr_m r -> recordAt N D r -> recordAt N (2 * D) (shr_1 r) /\ shr_m (shr_1 r) = shr_m r / 2.
Proof.
  unfold recordAt, located. destruct r as [m rb sb]. simpl. intros Hm (HD & Hb & Hl).
  destruct m as [|[p|p|]|p]; simpl; [| | | |lia];
    destruct rb, sb; simpl in *; repeat split; try lia;
    try (rewrite ?Z.compare_lt_iff, ?Z.compare_gt_iff, ?Z.compare_eq_iff in *; lia).
Qed.

Lemma iter_pos_nat {A : Type} (f : A -> A) (n : positive) (x : A) : SpecFloat.iter_pos f n x = Nat.iter (Pos.to_nat n) f x.
Proof.
  revert x. induction n as [n IH|n IH|]; intros x; [| |done]; cbn [SpecFloat.iter_pos]; rewrite !IH, <- Nat.iter_add.
  - rewrite Pos2Nat.inj_xI, <- Nat.iter_succ_r. f_equal. lia.
  - rewrite Pos2Nat.inj_xO. f_equal. lia.
Qed.

Lemma shr_iter_at N D (k : nat) r : 0 <= shr_m r -> recordAt N D r ->
  recordAt N (2 ^ Z.of_nat k * D) (Nat.iter k shr_1 r) /\ shr_m (Nat.iter k shr_1 r) = shr_m r / 2 ^ Z.of_nat k.
Proof.
  intros Hm Hr. induction k as [|k [IH1 IH2]]; [by rewrite Z.mul_1_l, Z.div_1_r|].
  assert (0 < 2 ^ Z.of_nat k) by (apply Z.pow_pos_nonneg; lia).
  assert (0 <= shr_m (Nat.iter k shr_1 r)) as Hk by (rewrite IH2; by apply Z.div_pos).
  destruct (shr_1_at _ _ _ Hk IH1) as [H1 H2]. rewrite Nat2Z.inj_succ, Z.pow_succ_r by lia. simpl. split.
  - by rewrite <- Z.mul_assoc.
  - rewrite H2, IH2, Z.mul_comm, Z.div_div by lia. done.
Qed.

Lemma shr_at N D m l e k : 0 <= m -> located N D m l ->
  exists r, shr (shr_record_of_loc m l) e k = (r, e + Z.max 0 k) /\
    recordAt N (2 ^ Z.max 0 k * D) r /\ shr_m r = m / 2 ^ Z.max 0 k.
Proof.
  intros Hm Hl. apply recordAt_loc in Hl as Hr. assert (shr_m (shr_record_of_loc m l) = m) as Hs by by destruct l as [|[]].
  destruct k as [|k|k]; simpl; [| |].
  - eexists. split; [f_equal; lia|]. by rewrite Z.mul_1_l, Z.div_1_r.
  - eexists. split; [done|]. rewrite iter_pos_nat.
    destruct (shr_iter_at N D (Pos.to_nat k) (shr_record_of_loc m l)) as [H1 H2]; [by rewrite Hs|done|].
    rewrite positive_nat_Z in H1, H2. by rewrite Hs in H2.
  - eexists. split; [f_equal; lia|]. by rewrite Z.mul_1_l, Z.div_1_r.
Qed.

(** The nearest integer. *)
Lemma nearest N D r n : recordAt N D r -> n = round_nearest_even (shr_m r) (loc_of_shr_record r) ->
  2 * Z.abs (n * D - N) <= D /\ shr_m r <= n <= shr_m r + 1 /\ (N = shr_m r * D -> n = shr_m r).
Proof.
  unfold recordAt, located. destruct r as [m rb sb]. simpl. intros (HD & Hb & Hl) ->.
  destruct rb, sb; simpl in *; try (rewrite ?Z.compare_lt_iff, ?Z.compare_gt_iff, ?Z.compare_eq_iff in Hl);
    try case_if; nia.
Qed.

Lemma digits2_pos_size p : digits2_pos p = Pos.size p.
Proof. by induction p as [p IH|p IH|]; simpl; rewrite ?IH. Qed.

Lemma Zdigits2_log2 m : 0 < m -> Zdigits2 m = Z.log2 m + 1.
Proof. destruct m as [|p|p]; try lia. intros _. simpl. rewrite digits2_pos_size. destruct p; simpl; lia. Qed.

Lemma Zdigits2_unique m d : 0 < d -> 2 ^ (d - 1) <= m < 2 ^ d -> Zdigits2 m = d.
Proof.
  intros Hd Hm. assert (0 < 2 ^ (d - 1)) by (apply Z.pow_pos_nonneg; lia). rewrite Zdigits2_log2 by lia.
  rewrite (Z.log2_unique m (d - 1)); [lia|lia|]. by replace (Z.succ (d - 1)) with d by lia.
Qed.

Lemma Zdigits2_spec m : 0 < m -> 0 < Zdigits2 m /\ 2 ^ (Zdigits2 m - 1) <= m < 2 ^ Zdigits2 m.
Proof.
  intros Hm. rewrite Zdigits2_log2 by done. pose proof (Z.log2_nonneg m). pose proof (Z.log2_spec m Hm).
  replace (Z.log2 m + 1 - 1) with (Z.log2 m) by lia. split; [lia|]. by rewrite Z.add_1_r.
Qed.

Lemma fexp_normal prec emax x : 3 - emax <= x -> fexp prec emax x = x - prec.
Proof. unfold fexp, emin. lia. Qed.

Lemma shr_none prec emax n e : fexp prec emax (Zdigits2 n + e) <= e ->
  shr_fexp prec emax n e loc_Exact = (shr_record_of_loc n loc_Exact, e).
Proof. unfold shr_fexp, shr. intros H. by destruct (fexp prec emax (Zdigits2 n + e) - e) eqn:?; [|lia|]. Qed.

(** A product that needs no rounding. *)
Lemma round_exact prec emax s m e q K :
  0 < q -> 0 <= K -> m = q * 2 ^ K -> K = Z.max 0 (fexp prec emax (Zdigits2 m + e) - e) ->
  binary_round_aux prec emax s m e loc_Exact =
    if e + K <=? emax - prec then S754_finite s (Z.to_pos q) (e + K) else S754_infinity s.
Proof.
  intros Hq HK Hm HKe. assert (0 < 2 ^ K) as HP by (apply Z.pow_pos_nonneg; lia).
  assert (0 < m) as Hm0 by (rewrite Hm; nia).
  unfold binary_round_aux. unfold shr_fexp at 1.
  destruct (shr_at m 1 m loc_Exact e (fexp prec emax (Zdigits2 m + e) - e)) as (r & -> & Hr & Hrm); [lia|apply located_exact|].
  rewrite <- HKe in *. rewrite Hm, Z.div_mul in Hrm by lia.
  destruct (nearest _ _ _ _ Hr eq_refl) as (_ & _ & Hn). rewrite Hn, Hrm by (rewrite Hrm, Hm; lia).
  assert (Zdigits2 m = Zdigits2 q + K) as Hd.
  { rewrite Hm, !Zdigits2_log2 by lia. rewrite Z.log2_mul_pow2 by lia. lia. }
  rewrite shr_none by (rewrite Hd in HKe; replace (Zdigits2 q + (e + K)) with (Zdigits2 q + K + e) by lia; lia).
  simpl. by destruct q.
Qed.

Section float64.

(** A mantissa of at least 53 bits, whose number is not subnormal, rounds to 53
    bits; the error is at most a part in [2^53]. *)
Lemma round_normal s N D m e l :
  located N D m l -> 2 ^ 52 <= m -> -1074 <= e -> e + Zdigits2 m <= 1023 ->
  exists m' e', binary_round_aux 53 1024 s m e l = S754_finite s m' e' /\
    2 ^ 52 <= Z.pos m' < 2 ^ 53 /\ e <= e' <= e + Zdigits2 m - 52 /\
    2 ^ 53 * Z.abs (Z.pos m' * 2 ^ (e' - e) * D - N) <= N.
Proof.
  intros Hl Hm He Hd. destruct (Zdigits2_spec m) as [Hd0 Hdm]; [lia|].
  assert (53 <= Zdigits2 m) as Hd53.
  { destruct (Z.le_gt_cases 53 (Zdigits2 m)) as [|Hlt]; [done|]. exfalso.
    pose proof (Z.pow_le_mono_r 2 (Zdigits2 m) 52). lia. }
  set (K := Zdigits2 m - 53) in *. set (d := Zdigits2 m) in *.
  unfold binary_round_aux. unfold shr_fexp at 1. rewrite fexp_normal by lia. fold d. clearbody d.
  destruct (shr_at N D m l e (d + e - 53 - e)) as (r & -> & Hr & Hrm); [lia|done|].
  replace (Z.max 0 (d + e - 53 - e)) with K in * by lia.
  set (n := round_nearest_even (shr_m r) (loc_of_shr_record r)). destruct (nearest _ _ _ _ Hr (eq_refl n)) as (Herr & Hn & _). clearbody n.
  set (P := 2 ^ K) in *. assert (0 < P) as HP by (apply Z.pow_pos_nonneg; lia).
  assert (2 ^ 52 * P <= m < 2 ^ 53 * P) as [Hm1 Hm2].
  { unfold P. rewrite <- !Z.pow_add_r by lia. replace (52 + K) with (d - 1) by lia. by replace (53 + K) with d by lia. }
  assert (2 ^ 52 <= shr_m r < 2 ^ 53) as Hr2.
  { rewrite Hrm. split; [apply Z.div_le_lower_bound; lia|apply Z.div_lt_upper_bound; lia]. }
  assert (0 < D /\ m * D <= N) as [HD HN] by (destruct Hl as (? & ? & ?); lia).
  assert (2 ^ 52 * (P * D) <= N) as HPD by nia.
  assert (2 ^ 53 * Z.abs (n * (P * D) - N) <= N) as Hrel.
  { replace (2 ^ 53) with (2 ^ 52 * 2) by done. lia. }
  destruct (decide (n = 2 ^ 53)) as [Heq|Hne].
  - subst n. unfold shr_fexp. change (Zdigits2 (2 ^ 53)) with 54. rewrite fexp_normal by lia.
    replace (54 + (e + K) - 53 - (e + K)) with 1 by lia. change (2 ^ 53) with 9007199254740992. simpl.
    change 9007199254740992 with (2 ^ 53).
    destruct (Z.leb_spec (e + K + 1) (1024 - 53)); [|lia]. eexists _, (e + K + 1). split; [done|].
    split; [lia|]. split; [lia|]. replace (e + K + 1 - e) with (K + 1) by lia. rewrite Z.pow_add_r by lia. fold P.
    replace (4503599627370496 * (P * 2 ^ 1) * D) with (2 ^ 53 * (P * D)) by lia. done.
  - assert (Zdigits2 n = 53) as Hdn by (apply Zdigits2_unique; lia).
    rewrite shr_none by (rewrite Hdn, fexp_normal by lia; lia). simpl. destruct n as [|n|n]; [lia| |lia].
    destruct (Z.leb_spec (e + K) (1024 - 53)); [|lia]. eexists _, (e + K). split; [done|].
    split; [lia|]. split; [lia|]. replace (e + K - e) with K by lia. fold P. by rewrite <- Z.mul_assoc.
Qed.

(** A number of 53 bits. *)
Definition normal (f : float) (m e : Z) : Prop :=
  exists p, f = S754_finite false p e /\ m = Z.pos p /\ 2 ^ 52 <= m < 2 ^ 53.

Lemma iter_xO p (n : positive) : Z.pos (Pos.iter xO p n) = Z.pos p * 2 ^ Z.pos n.
Proof.
  revert p. induction n as [|n IH] using Pos.peano_ind; intros p; [simpl; lia|].
  rewrite Pos.iter_succ, Pos2Z.inj_xO, IH, Pos2Z.inj_succ, Z.pow_succ_r by lia. lia.
Qed.

Lemma ofInt_normal n : 0 < n < 2 ^ 53 -> exists m e, normal (ofInt n) m e /\ -52 <= e <= 0 /\ m = n * 2 ^ (- e).
Proof.
  intros Hn. destruct (Zdigits2_spec n) as [Hd Hdn]; [lia|]. destruct n as [|p|p]; [lia| |lia].
  set (d := Zdigits2 (Z.pos p)) in *. assert (d <= 53) as Hd53.
  { destruct (Z.le_gt_cases d 53) as [|Hgt]; [done|]. pose proof (Z.pow_le_mono_r 2 53 (d - 1)). lia. }
  unfold ofInt. simpl. unfold binary_round. change (Z.pos (digits2_pos p)) with d. rewrite fexp_normal by lia.
  assert (exists q, shl_align p 0 (d + 0 - 53) = (q, d - 53) /\ Z.pos q = Z.pos p * 2 ^ (53 - d)) as (q & -> & Hq).
  { unfold shl_align. destruct (d + 0 - 53 - 0) as [|x|x] eqn:Ex; [|lia|].
    - exists p. split; [f_equal; lia|]. replace (53 - d) with 0 by lia. lia.
    - exists (Pos.iter xO p x). split; [f_equal; lia|]. rewrite iter_xO. do 2 f_equal. lia. }
  assert (2 ^ 52 <= Z.pos q < 2 ^ 53) as Hq53.
  { rewrite Hq. replace (2 ^ 52) with (2 ^ (d - 1) * 2 ^ (53 - d)) by (rewrite <- Z.pow_add_r by lia; f_equal; lia).
    replace (2 ^ 53) with (2 ^ d * 2 ^ (53 - d)) by (rewrite <- Z.pow_add_r by lia; f_equal; lia).
    assert (0 < 2 ^ (53 - d)) by (apply Z.pow_pos_nonneg; lia). nia. }
  assert (Zdigits2 (Z.pos q) = 53) as Hdq by (apply Zdigits2_unique; lia).
  unfold binary_round_aux. rewrite shr_none by (rewrite Hdq, fexp_normal by lia; lia). cbn [shr_record_of_loc shr_m loc_of_shr_record round_nearest_even].
  rewrite shr_none by (rewrite Hdq, fexp_normal by lia; lia). cbn [shr_record_of_loc shr_m].
  destruct (Z.leb_spec (d - 53) (1024 - 53)); [|lia]. exists (Z.pos q), (d - 53). split; [by exists q|]. split; [lia|].
  rewrite Hq. do 2 f_equal. lia.
Qed.

Lemma fmul_normal x y m1 e1 m2 e2 :
  normal x m1 e1 -> normal y m2 e2 -> -400 <= e1 <= 400 -> -400 <= e2 <= 400 ->
  exists m e, normal (fmul x y) m e /\ e1 + e2 <= e <= e1 + e2 + 54 /\
    2 ^ 53 * Z.abs (m * 2 ^ (e - (e1 + e2)) - m1 * m2) <= m1 * m2.
Proof.
  intros (p1 & -> & -> & H1) (p2 & -> & -> & H2) He1 He2. unfold fmul. cbn [SFmul xorb].
  rewrite Pos2Z.inj_mul. assert (Zdigits2 (Z.pos p1 * Z.pos p2) <= 106) as Hd.
  { rewrite Zdigits2_log2 by lia. assert (Z.pos p1 * Z.pos p2 < 2 ^ 106) as Hlt.
    { replace (2 ^ 106) with (2 ^ 53 * 2 ^ 53) by done. nia. }
    apply Z.log2_lt_pow2 in Hlt; lia. }
  destruct (round_normal false (Z.pos p1 * Z.pos p2) 1 (Z.pos p1 * Z.pos p2) (e1 + e2) loc_Exact) as (m & e & -> & Hm & He & Herr);
    [apply located_exact|nia|lia|lia|].
  rewrite Z.mul_1_r in Herr. exists (Z.pos m), e. split; [by exists m|]. split; [lia|done].
Qed.

Lemma new_location_at N D r q : 0 < D -> N = D * q + r -> 0 <= r < D -> located N D q (new_location D r).
Proof.
  intros HD HN Hr. unfold located, new_location, new_location_even, new_location_odd.
  split; [done|]. split; [nia|]. replace (N - q * D) with r by lia.
  destruct (Z.even D) eqn:Ee; destruct (r =? 0) eqn:E0; bool_cases; try lia; (split; [lia|]); [done|].
  assert (Z.odd D = true) as Ho by (by rewrite <- Z.negb_even, Ee). apply Z.odd_spec in Ho as [k Hk].
  destruct (2 * r + 1 ?= D) eqn:Ec; rewrite ?Z.compare_lt_iff, ?Z.compare_gt_iff, ?Z.compare_eq_iff in *; lia.
Qed.

Lemma fdiv_normal x y m1 e1 m2 e2 :
  normal x m1 e1 -> normal y m2 e2 -> -400 <= e1 <= 400 -> -400 <= e2 <= 400 ->
  exists m e, normal (fdiv x y) m e /\ e1 - e2 - 53 <= e <= e1 - e2 - 51 /\
    2 ^ 53 * Z.abs (m * 2 ^ (e - (e1 - e2 - 53)) * m2 - m1 * 2 ^ 53) <= m1 * 2 ^ 53.
Proof.
  intros (p1 & -> & -> & H1) (p2 & -> & -> & H2) He1 He2. unfold fdiv. cbn [SFdiv xorb].
  unfold SFdiv_core_binary. rewrite !(Zdigits2_unique _ 53) by lia. rewrite fexp_normal by lia.
  replace (Z.min (53 + e1 - (53 + e2) - 53) (e1 - e2)) with (e1 - e2 - 53) by lia.
  replace (e1 - e2 - (e1 - e2 - 53)) with 53 by lia. rewrite Z.shiftl_mul_pow2 by lia.
  destruct (Z.div_eucl (Z.pos p1 * 2 ^ 53) (Z.pos p2)) as [q r] eqn:Hqr.
  pose proof (Z_div_mod (Z.pos p1 * 2 ^ 53) (Z.pos p2)) as Hdiv. rewrite Hqr in Hdiv. destruct Hdiv as [HN Hr]; [lia|].
  assert (2 ^ 52 <= q < 2 ^ 54) as Hq by nia.
  assert (Zdigits2 q <= 54) as Hd.
  { rewrite Zdigits2_log2 by lia. destruct Hq as [_ Hq]. apply Z.log2_lt_pow2 in Hq; lia. }
  destruct (round_normal false (Z.pos p1 * 2 ^ 53) (Z.pos p2) q (e1 - e2 - 53) (new_location (Z.pos p2) r)) as (m & e & -> & Hm & He & Herr);
    [by apply new_location_at|lia|lia|lia|].
  exists (Z.pos m), e. split; [by exists m|]. split; [lia|done].
Qed.

End float64.

(** ** Values in units of [2^-200] *)

Definition one : Z := 2 ^ 200.
Definition units (m e : Z) : Z := m * 2 ^ (e + 200).

Lemma one_pos : 0 < one.
Proof. done. Qed.

Lemma rescale a b k : 0 <= a -> 0 <= b -> k = a + b -> 2 ^ a * 2 ^ b = 2 ^ k.
Proof. intros Ha Hb ->. by rewrite Z.pow_add_r. Qed.

Lemma scale_error A B C T : 0 <= T -> 2 ^ 53 * Z.abs (A - B) <= C -> 2 ^ 53 * Z.abs (A * T - B * T) <= C * T.
Proof.
  intros HT H. rewrite <- Z.mul_sub_distr_r, Z.abs_mul, (Z.abs_eq T), Z.mul_assoc by done.
  by apply Z.mul_le_mono_nonneg_r.
Qed.

Lemma ofInt_units n : 0 < n < 2 ^ 53 -> exists m e, normal (ofInt n) m e /\ -52 <= e <= 0 /\ units m e = n * one.
Proof.
  intros Hn. destruct (ofInt_normal n Hn) as (m & e & Hf & He & Hm). exists m, e. split_and!; [done|lia..|].
  unfold units, one. rewrite Hm, <- Z.mul_assoc. f_equal. apply rescale; lia.
Qed.

Lemma fmul_units x y m1 e1 m2 e2 :
  normal x m1 e1 -> normal y m2 e2 -> -60 <= e1 <= 60 -> -110 <= e2 <= 110 ->
  exists m e, normal (fmul x y) m e /\ e1 + e2 <= e <= e1 + e2 + 54 /\
    2 ^ 53 * Z.abs (units m e * one - units m1 e1 * units m2 e2) <= units m1 e1 * units m2 e2.
Proof.
  intros Hx Hy He1 He2. destruct (fmul_normal x y m1 e1 m2 e2 Hx Hy) as (m & e & Hf & He & Herr); [lia..|].
  exists m, e. split_and!; [done|lia..|].
  apply (scale_error _ _ _ (2 ^ (e1 + e2 + 400))) in Herr; [|apply Z.pow_nonneg; lia].
  replace (units m e * one) with (m * 2 ^ (e - (e1 + e2)) * 2 ^ (e1 + e2 + 400)).
  2: { unfold units, one. rewrite <- !Z.mul_assoc. f_equal. rewrite !(rescale _ _ (e + 400)); lia. }
  replace (units m1 e1 * units m2 e2) with (m1 * m2 * 2 ^ (e1 + e2 + 400)); [done|].
  unfold units. rewrite <- (rescale (e1 + 200) (e2 + 200) (e1 + e2 + 400)) by lia. ring.
Qed.

Lemma fdiv_units x y m1 e1 m2 e2 :
  normal x m1 e1 -> normal y m2 e2 -> -60 <= e1 <= 60 -> -60 <= e2 <= 60 ->
  exists m e, normal (fdiv x y) m e /\ e1 - e2 - 53 <= e <= e1 - e2 - 51 /\
    2 ^ 53 * Z.abs (units m e * units m2 e2 - units m1 e1 * one) <= units m1 e1 * one.
Proof.
  intros Hx Hy He1 He2. destruct (fdiv_normal x y m1 e1 m2 e2 Hx Hy) as (m & e & Hf & He & Herr); [lia..|].
  exists m, e. split_and!; [done|lia..|].
  apply (scale_error _ _ _ (2 ^ (e1 + 347))) in Herr; [|apply Z.pow_nonneg; lia].
  replace (units m e * units m2 e2) with (m * 2 ^ (e - (e1 - e2 - 53)) * m2 * 2 ^ (e1 + 347)).
  2: { unfold units. transitivity (m * m2 * (2 ^ (e - (e1 - e2 - 53)) * 2 ^ (e1 + 347))); [ring|].
       rewrite (rescale (e - (e1 - e2 - 53)) (e1 + 347) (e + 200 + (e2 + 200))) by lia.
       rewrite <- (rescale (e + 200) (e2 + 200) (e + 200 + (e2 + 200))) by lia. ring. }
  replace (units m1 e1 * one) with (m1 * 2 ^ 53 * 2 ^ (e1 + 347)); [done|].
  unfold units, one. rewrite <- !Z.mul_assoc. f_equal. rewrite !(rescale _ _ (e1 + 400)); lia.
Qed.

Lemma truncated_units f m e : normal f m e -> -200 <= e -> truncated f = Some (units m e / one) /\ 0 < units m e.
Proof.
  intros (p & -> & -> & Hm) He. simpl. unfold units. split; [|apply Z.mul_pos_pos; [lia|apply Z.pow_pos_nonneg; lia]].
  f_equal. rewrite <- (scaled_shift (Z.pos p) e (e + 200)) by lia. unfold scaled, one.
  replace (e - (e + 200)) with (-200) by lia. done.
Qed.

(** Conversions that choose the lowest number of the type, as an example. *)
#[refine] Definition lowest : Conversions := {| beyond lo hi f := lo |}.
Proof. intros lo hi f Hle. lia. Defined.
