(* ===== verification/FloatBounds.v ===== *)
(** * FloatBounds: a bound is kept by rounding

    A float whose value is at most an integer in absolute value stays so under
    the rounding of an operation whose exact result is. *)

From Stdlib Require Import SpecFloat.
From stdpp Require Import base tactics numbers list.
From S2P Require Import Prelude GoFloat.

#[local] Open Scope go_scope.

(** [f] is finite and at most [b] in absolute value. *)
Definition within (b : Z) (f : float) : Prop :=
  match f with
  | S754_zero _ => 0 <= b
  | S754_finite _ m e => -1074 <= e <= 0 /\ Z.pos m <= b * 2 ^ (- e)
  | _ => False
  end.

(** The largest bound in use. *)
Definition top : Z := 2 ^ 50.

Lemma within_nonneg b f : within b f -> 0 <= b.
Proof.
  destruct f as [s|s| |s m e]; simpl; try done. intros [He Hm].
  assert (0 < 2 ^ (- e)) by (apply Z.pow_pos_nonneg; lia). nia.
Qed.

Lemma within_le b c f : b <= c -> within b f -> within c f.
Proof.
  intros Hc. destruct f as [s|s| |s m e]; simpl; try done; [lia|]. intros [He Hm]. split; [done|].
  etrans; [done|]. apply Z.mul_le_mono_nonneg_r; [apply Z.pow_nonneg; lia|done].
Qed.

Lemma within_truncated b f : within b f -> exists t, truncated f = Some t /\ - b <= t <= b.
Proof.
  destruct f as [s|s| |s m e]; simpl; try done; [intros Hb; exists 0; split; [done|lia]|]. intros [He Hm].
  assert (0 < 2 ^ (- e)) by (apply Z.pow_pos_nonneg; lia).
  assert (0 <= scaled (Z.pos m) e <= b) as Ht.
  { split; [by apply scaled_nonneg|]. unfold scaled. case_if; [assert (e = 0) as -> by lia; simpl in *; lia|].
    apply Z.div_le_upper_bound; lia. }
  eexists. split; [done|]. destruct s; lia.
Qed.

Lemma Zdigits2_le m d : 0 <= d -> 0 <= m < 2 ^ d -> 0 <= Zdigits2 m <= d.
Proof.
  intros Hd [Hm0 Hm]. destruct (decide (m = 0)) as [->|Hne]; [simpl; lia|].
  rewrite Zdigits2_log2 by lia. pose proof (Z.log2_nonneg m). apply Z.log2_lt_pow2 in Hm; lia.
Qed.

(** Rounding at the exponent [e'] that the mantissa gets. *)
Lemma round_within s N D m e l F :
  located N D m l -> 0 <= m -> -2200 <= e <= 0 -> 0 <= F <= top -> N <= F * 2 ^ (- e) * D ->
  within F (binary_round_aux 53 1024 s m e l).
Proof.
  intros Hl Hm He HF HN. assert (0 < D /\ m * D <= N) as [HD HmN] by (destruct Hl as (? & ? & ?); lia).
  assert (m <= F * 2 ^ (- e)) as HmF by nia. unfold top in HF.
  assert (0 <= Zdigits2 m <= 51 - e) as Hd.
  { apply Zdigits2_le; [lia|]. split; [done|]. assert (0 < 2 ^ (- e)) by (apply Z.pow_pos_nonneg; lia).
    replace (51 - e) with (51 + - e) by lia. rewrite Z.pow_add_r by lia. nia. }
  set (K := Z.max 0 (fexp 53 1024 (Zdigits2 m + e) - e)).
  assert (0 <= K /\ -1074 <= e + K <= 0 /\ Zdigits2 m <= 53 + K) as (HK & HeK & HdK) by (unfold K, fexp, emin; lia).
  unfold binary_round_aux. unfold shr_fexp at 1.
  destruct (shr_at N D m l e (fexp 53 1024 (Zdigits2 m + e) - e)) as (r & -> & Hr & Hrm); [done..|].
  fold K in Hr, Hrm. fold K. clearbody K.
  destruct (nearest _ _ _ _ Hr eq_refl) as (Herr & Hn & _).
  set (n := round_nearest_even (shr_m r) (loc_of_shr_record r)) in *. clearbody n.
  set (P := 2 ^ K) in *. assert (0 < P) as HP by (apply Z.pow_pos_nonneg; lia).
  set (G := 2 ^ (- (e + K))). assert (0 < G) as HG by (apply Z.pow_pos_nonneg; lia).
  assert (2 ^ (- e) = P * G) as HPG by (symmetry; apply rescale; lia).
  assert (n <= F * G) as HnF.
  { rewrite HPG in HN. assert (2 * (n * (P * D)) <= (2 * (F * G) + 1) * (P * D)) as H1 by lia.
    rewrite Z.mul_assoc in H1. apply Z.mul_le_mono_pos_r in H1; [|by apply Z.mul_pos_pos]. clear - H1. lia. }
  assert (0 <= n <= 2 ^ 53) as Hn53.
  { assert (0 <= shr_m r < 2 ^ 53); [|lia]. rewrite Hrm. split; [by apply Z.div_pos|]. apply Z.div_lt_upper_bound; [done|].
    apply Z.lt_le_trans with (2 ^ (53 + K)); [|rewrite Z.pow_add_r by lia; fold P; lia].
    destruct (decide (m = 0)) as [->|]; [apply Z.pow_pos_nonneg; lia|].
    destruct (Zdigits2_spec m) as [_ [_ H2]]; [lia|]. eapply Z.lt_le_trans; [exact H2|]. apply Z.pow_le_mono_r; lia. }
  destruct (decide (n = 2 ^ 53)) as [->|Hne].
  - assert (e + K <= -3) as Hsmall.
    { destruct (Z.le_gt_cases (e + K) (-3)) as [|Hgt]; [done|]. exfalso.
      assert (G <= 2 ^ 2) by (apply Z.pow_le_mono_r; lia). nia. }
    unfold shr_fexp. change (Zdigits2 (2 ^ 53)) with 54. rewrite (fexp_normal _ _ (54 + (e + K))) by lia.
    replace (54 + (e + K) - 53 - (e + K)) with 1 by lia. change (2 ^ 53) with 9007199254740992 in *. simpl.
    destruct (Z.leb_spec (e + K + 1) (1024 - 53)); [|lia]. simpl. split; [lia|].
    assert (G = 2 * 2 ^ (- (e + K + 1))) as HG2.
    { unfold G. rewrite <- (rescale 1 (- (e + K + 1)) (- (e + K))) by lia. done. }
    lia.
  - assert (0 <= Zdigits2 n <= 53) by (apply Zdigits2_le; lia).
    rewrite shr_none by (unfold fexp, emin; lia). simpl. destruct n as [|n|n]; simpl; [lia| |lia].
    destruct (Z.leb_spec (e + K) (1024 - 53)); [|lia]. simpl. split; [lia|done].
Qed.

Lemma fmul_within a b x y : within a x -> within b y -> a * b <= top -> within (a * b) (fmul x y).
Proof.
  intros Hx Hy Hab. pose proof (within_nonneg _ _ Hx). pose proof (within_nonneg _ _ Hy).
  destruct x as [s|s| |s m e], y as [s'|s'| |s' m' e']; simpl in *; try done; try lia.
  destruct Hx as [He Hm], Hy as [He' Hm'].
  apply round_within with (N := Z.pos (m * m')) (D := 1); [apply located_exact|lia|lia|nia|].
  rewrite Z.mul_1_r, Pos2Z.inj_mul. replace (- (e + e')) with (- e + - e') by lia. rewrite Z.pow_add_r by lia.
  assert (0 < 2 ^ (- e) /\ 0 < 2 ^ (- e')) as [? ?] by (split; apply Z.pow_pos_nonneg; lia). nia.
Qed.

(** An integer [n * 2^e], rounded. *)
Lemma normalize_within n e z b : -1074 <= e <= 0 -> Z.abs n <= b * 2 ^ (- e) -> b <= top -> within b (binary_normalize 53 1024 n e z).
Proof.
  intros He Hn Hb. assert (0 < 2 ^ (- e)) as Hp by (apply Z.pow_pos_nonneg; lia). assert (0 <= b) as Hb0 by nia.
  assert (forall s p, Z.abs n = Z.pos p -> within b (binary_round 53 1024 s p e)) as Hr.
  { intros s p Hnp. rewrite Hnp in Hn. unfold binary_round, shl_align. set (x := fexp _ _ _).
    assert (-1074 <= x) by (unfold x, fexp, emin; lia).
    destruct (x - e) as [|d|d] eqn:Ed.
    - by apply round_within with (N := Z.pos p) (D := 1); [apply located_exact|lia|lia|lia|lia].
    - by apply round_within with (N := Z.pos p) (D := 1); [apply located_exact|lia|lia|lia|lia].
    - apply round_within with (N := Z.pos (Pos.iter xO p d)) (D := 1); [apply located_exact|lia|lia|lia|].
      rewrite Z.mul_1_r, iter_xO. replace (- x) with (- e + Z.pos d) by lia. rewrite Z.pow_add_r by lia.
      assert (0 < 2 ^ Z.pos d) by (apply Z.pow_pos_nonneg; lia). nia. }
  destruct n as [|p|p]; simpl; [done|by apply Hr..].
Qed.

Lemma ofInt_within n b : Z.abs n <= b <= top -> within b (ofInt n).
Proof. intros Hn. apply normalize_within; simpl; lia. Qed.

Lemma align_spec m e ez : ez <= e -> Z.pos (fst (shl_align m e ez)) = Z.pos m * 2 ^ (e - ez).
Proof.
  intros He. unfold shl_align. destruct (ez - e) as [|d|d] eqn:Ed; [|lia|]; simpl.
  - replace (e - ez) with 0 by lia. lia.
  - rewrite iter_xO. do 2 f_equal. lia.
Qed.

Lemma fadd_within a b x y : within a x -> within b y -> a + b <= top -> within (a + b) (fadd x y).
Proof.
  intros Hx Hy Hab. pose proof (within_nonneg _ _ Hx). pose proof (within_nonneg _ _ Hy).
  destruct x as [s|s| |s m e], y as [s'|s'| |s' m' e']; try done; unfold fadd; cbn [SFadd].
  - destruct s, s'; simpl; lia.
  - by apply within_le with b; [lia|].
  - by apply within_le with a; [lia|].
  - destruct Hx as [He Hm], Hy as [He' Hm']. cbn zeta. set (ez := Z.min e e').
    pose proof (align_spec m e ez) as H1. pose proof (align_spec m' e' ez) as H2.
    destruct (shl_align m e ez) as [p ?], (shl_align m' e' ez) as [p' ?]. simpl in H1, H2.
    specialize (H1 ltac:(lia)). specialize (H2 ltac:(lia)).
    apply normalize_within; [lia| |lia].
    assert (Z.pos p <= a * 2 ^ (- ez)) as Hp.
    { rewrite H1. replace (- ez) with (- e + (e - ez)) by lia. rewrite Z.pow_add_r, Z.mul_assoc by lia.
      apply Z.mul_le_mono_nonneg_r; [apply Z.pow_nonneg; lia|done]. }
    assert (Z.pos p' <= b * 2 ^ (- ez)) as Hp'.
    { rewrite H2. replace (- ez) with (- e' + (e' - ez)) by lia. rewrite Z.pow_add_r, Z.mul_assoc by lia.
      apply Z.mul_le_mono_nonneg_r; [apply Z.pow_nonneg; lia|done]. }
    rewrite Z.mul_add_distr_r. destruct s, s'; simpl; lia.
Qed.

(** Division by an integer. *)
Lemma fdiv_within b n x : within (b * n) x -> 1 <= n <= top -> b * n <= top -> within b (fdiv x (ofInt n)).
Proof.
  intros Hx Hn Hb. pose proof (within_nonneg _ _ Hx) as Hb0. assert (0 <= b) as Hb1 by nia. unfold top in *.
  destruct (ofInt_normal n) as (m2 & e2 & (p2 & -> & -> & Hm2) & He2 & Hm2n); [lia|].
  destruct x as [s|s| |s m e]; try done. destruct Hx as [He Hm]. unfold fdiv. cbn [SFdiv].
  unfold SFdiv_core_binary. rewrite (Zdigits2_unique (Z.pos p2) 53) by lia. set (d1 := Zdigits2 (Z.pos m)).
  assert (0 <= d1 <= 51 - e) as Hd1.
  { apply Zdigits2_le; [lia|]. split; [lia|]. assert (0 < 2 ^ (- e)) by (apply Z.pow_pos_nonneg; lia).
    replace (51 - e) with (51 + - e) by lia. rewrite Z.pow_add_r by lia. nia. }
  set (e' := Z.min (fexp 53 1024 (d1 + e - (53 + e2))) (e - e2)).
  assert (-1074 <= e' /\ e' <= e - e2 /\ e' <= 0) as (H1 & H2 & H3) by (unfold e', fexp, emin; lia).
  cbn zeta. fold e'. clearbody e'. set (sh := e - e2 - e') in *.
  assert (match sh with Z0 => Z.pos m | Z.pos _ => Z.shiftl (Z.pos m) sh | Z.neg _ => 0 end = Z.pos m * 2 ^ sh) as ->.
  { destruct sh as [|d|d] eqn:Ed; [lia| |lia]. by rewrite Z.shiftl_mul_pow2. }
  destruct (Z.div_eucl (Z.pos m * 2 ^ sh) (Z.pos p2)) as [q r] eqn:Hqr.
  pose proof (Z_div_mod (Z.pos m * 2 ^ sh) (Z.pos p2)) as Hdiv. rewrite Hqr in Hdiv. destruct Hdiv as [HN Hr]; [lia|].
  assert (0 < 2 ^ sh) by (apply Z.pow_pos_nonneg; lia).
  apply round_within with (N := Z.pos m * 2 ^ sh) (D := Z.pos p2); [by apply new_location_at|nia|lia|unfold top; nia|].
  rewrite Hm2n. transitivity (b * n * 2 ^ (- e) * 2 ^ sh); [by apply Z.mul_le_mono_pos_r|].
  apply Z.eq_le_incl. transitivity (b * n * (2 ^ (- e) * 2 ^ sh)); [ring|].
  rewrite (rescale (- e) sh (- e' + - e2)) by lia. rewrite Z.pow_add_r by lia. ring.
Qed.
