(* ===== verification/Fifo.v ===== *)
(** * Fifo: the abstract bounded queue

    The contract that [ring.Buffer] offers to its clients and that the mixer
    relies on: a queue of at most [fifo_cap q] elements, whose [Write]
    discards the oldest elements when the new ones do not fit, and whose
    [Read] takes the oldest elements first.  [Ring] provides the instance;
    [Mixer] is proved against the interface alone. *)

From stdpp Require Import base tactics list numbers.
From S2P Require Import Prelude.

(** The operations a client calls. *)
Class FifoOps (T Q : Type) : Type := {
  fifo_new : Z -> outcome Q;
  fifo_Size : Q -> Z;
  fifo_Len : Q -> Z;
  fifo_Read : Q -> list T -> outcome (Q * list T * Z * option error);
  fifo_Write : Q -> list T -> outcome (Q * Z * option error);
}.

(** Their contract: [fifo_contents] is the abstract value of the queue, the
    oldest element first. *)
Class Fifo (T Q : Type) `{FifoOps T Q} : Type := {
  fifo_wf : Q -> Prop;
  fifo_contents : Q -> list T;
  fifo_new_spec (sz : Z) :
    0 <= sz ->
    exists q, fifo_new sz = Ok q /\ fifo_wf q /\
      fifo_contents q = [] /\ fifo_Size q = sz;
  fifo_Len_spec (q : Q) : fifo_wf q -> fifo_Len q = zlen (fifo_contents q);
  fifo_bounded (q : Q) : fifo_wf q -> zlen (fifo_contents q) <= fifo_Size q;
  fifo_Read_spec (q : Q) (p : list T) :
    fifo_wf q ->
    let n := Nat.min (length p) (length (fifo_contents q)) in
    exists q' err,
      fifo_Read q p = Ok (q', take n (fifo_contents q) ++ drop n p, Z.of_nat n, err) /\
      err = (if (negb (zlen p =? 0) && (zlen (fifo_contents q) =? 0))%bool
             then Some EOF else None) /\
      fifo_wf q' /\ fifo_Size q' = fifo_Size q /\
      fifo_contents q' = drop n (fifo_contents q);
  fifo_Write_spec (q : Q) (p : list T) :
    fifo_wf q ->
    exists q',
      fifo_Write q p = Ok (q', zlen p, None) /\
      fifo_wf q' /\ fifo_Size q' = fifo_Size q /\
      fifo_contents q' =
        lastn (Z.to_nat (fifo_Size q)) (fifo_contents q ++ p);
}.
