(* ===== verification/Ring.v ===== *)
(** * Ring: the ring buffer of [src/ring/buffer.go] *)

From stdpp Require Import base tactics list numbers.
From S2P Require Import Prelude Fifo.

#[local] Open Scope go_scope.

(** ** The data and the operations *)

Section ring.
Context {T : Type} (zero : T).

(** [type Buffer[T any] struct] *)
Record Buffer : Type := mkBuffer {
  buf : list T;
  write : Z;
  read : Z;
  full : bool;
}.

Definition NewBuffer (sz : Z) : outcome Buffer :=
  if sz <? 0 then Panic
  else Ok (mkBuffer (replicate (Z.to_nat sz) zero) 0 0 false).

Definition Size (b : Buffer) : Z := zlen (buf b).

Definition Len (b : Buffer) : Z :=
  if read b =? write b then
    (if full b then zlen (buf b) else 0)
  else if read b <? write b then write b - read b
  else write b - read b + zlen (buf b).

Definition TryPeek (b : Buffer) : outcome (T * bool) :=
  if (negb (full b) && (read b =? write b))%bool then Ok (zero, false)
  else let! v := go_index (buf b) (read b) in Ok (v, true).

Definition Peek (b : Buffer) : outcome T :=
  let! (v, _) := TryPeek b in Ok v.

Definition TryPop (b : Buffer) : outcome (Buffer * T * bool) :=
  if (negb (full b) && (read b =? write b))%bool then Ok (b, zero, false)
  else
    let! v := go_index (buf b) (read b) in
    let! rd := go_rem (read b + 1) (zlen (buf b)) in
    Ok (mkBuffer (buf b) (write b) rd false, v, true).

Definition Pop (b : Buffer) : outcome (Buffer * T) :=
  let! (b', v, _) := TryPop b in Ok (b', v).

Definition TryPush (b : Buffer) (v : T) : outcome (Buffer * bool) :=
  if full b then Ok (b, false)
  else
    let! buf' := go_set (buf b) (write b) v in
    let! wr := go_rem (write b + 1) (zlen buf') in
    Ok (mkBuffer buf' wr (read b) (wr =? read b), true).

Definition Push (b : Buffer) (v : T) : outcome Buffer :=
  let! rd := (if full b then go_rem (read b + 1) (zlen (buf b)) else Ok (read b)) in
  let! buf' := go_set (buf b) (write b) v in
  let! wr := go_rem (write b + 1) (zlen buf') in
  Ok (mkBuffer buf' wr rd (wr =? rd)).

(** [Read(p)] returns the buffer, the new contents of [p], [n] and the error. *)
Definition Read (b : Buffer) (p : list T) : outcome (Buffer * list T * Z * option error) :=
  if zlen p =? 0 then Ok (b, p, 0, None)
  else if Len b =? 0 then Ok (b, p, 0, Some EOF)
  else
    let end_ := if read b <? write b then write b else zlen (buf b) in
    let! src := go_slice (buf b) (read b) end_ in
    let '(p1, dn) := go_copy p src in
    let! rd := go_rem (read b + dn) (zlen (buf b)) in
    let! rest := go_slice p1 dn (zlen p1) in
    if ((zlen rest =? 0) || (rd =? write b))%bool then
      Ok (mkBuffer (buf b) (write b) rd false, p1, dn, None)
    else
      let! src2 := go_slice (buf b) rd (write b) in
      let! (p2, dn2) := go_copy_at p1 dn src2 in
      let! rd2 := go_rem (rd + dn2) (zlen (buf b)) in
      Ok (mkBuffer (buf b) (write b) rd2 false, p2, dn + dn2, None).

(** The tail of [Write]: [p] fits, old elements were dropped. *)
Definition writeWrapped (b : Buffer) (n : Z) (p : list T) : outcome (Buffer * Z * option error) :=
  let! (buf1, dn) := go_copy_at (buf b) (write b) p in
  let! wr1 := go_rem (write b + dn) (zlen buf1) in
  let! p1 := go_slice p dn (zlen p) in
  if 0 <? zlen p1 then
    let! (buf2, dn2) := go_copy_at buf1 wr1 p1 in
    let! wr2 := go_rem (wr1 + dn2) (zlen buf2) in
    Ok (mkBuffer buf2 wr2 (read b) (wr2 =? read b), n + dn + dn2, None)
  else
    Ok (mkBuffer buf1 wr1 (read b) (wr1 =? read b), n + dn, None).

Definition Write (b : Buffer) (p : list T) : outcome (Buffer * Z * option error) :=
  if zlen p =? 0 then Ok (b, 0, None)
  else
    let! (n, p) :=
      (let dn := zlen p - zlen (buf b) in
       if 0 <? dn then let! p' := go_slice p dn (zlen p) in Ok (dn, p') else Ok (0, p)) in
    let dn := Len b + zlen p - Size b in
    if 0 <=? dn then
      if zlen p =? zlen (buf b) then
        let '(buf', c) := go_copy (buf b) p in
        Ok (mkBuffer buf' 0 0 true, n + c, None)
      else
        let! rd := go_rem (read b + dn) (zlen (buf b)) in
        writeWrapped (mkBuffer (buf b) (write b) rd (full b)) n p
    else writeWrapped b n p.

(** ** The abstract value *)

(** The representation invariant. *)
Definition wf (b : Buffer) : Prop :=
  (0 <= read b < zlen (buf b) \/ (zlen (buf b) = 0 /\ read b = 0)) /\
  (0 <= write b < zlen (buf b) \/ (zlen (buf b) = 0 /\ write b = 0)) /\
  (full b = true -> read b = write b).

(** The elements in the order [Pop] returns them. *)
Definition contents (b : Buffer) : list T :=
  take (Z.to_nat (Len b)) (drop (Z.to_nat (read b)) (buf b ++ buf b)).

End ring.
Arguments Buffer : clear implicits.
Arguments mkBuffer {T}.

(** ** Lemmas on the circular layout *)

Section ring_lemmas.
Context {T : Type} (zero : T).
Implicit Types (b : Buffer T) (l p : list T).

Lemma lookup_copy_at l lo src n i :
  (lo <= length l)%nat -> n = Nat.min (length l - lo) (length src) ->
  (take lo l ++ take n src ++ drop (lo + n) l) !! i =
    if decide (lo <= i < lo + n)%nat then src !! (i - lo)%nat else l !! i.
Proof.
  intros Hlo Hn. case_decide.
  - rewrite lookup_app_r by (rewrite length_take; lia).
    rewrite lookup_app_l by (rewrite !length_take; lia).
    rewrite lookup_take, length_take by lia. rewrite decide_True by lia. f_equal; lia.
  - destruct (decide (i < lo)%nat).
    + rewrite lookup_app_l by (rewrite length_take; lia).
      rewrite lookup_take, decide_True by lia. done.
    + rewrite lookup_app_r by (rewrite length_take; lia).
      rewrite lookup_app_r by (rewrite !length_take; lia).
      rewrite lookup_drop, !length_take. f_equal; lia.
Qed.

Lemma Len_bounds b : wf b -> 0 <= Len b <= zlen (buf b).
Proof.
  intros (Hr & Hw & Hf). unfold Len. pose proof (zlen_nonneg (buf b)).
  repeat case_if; lia.
Qed.

Lemma length_contents b : wf b -> length (contents b) = Z.to_nat (Len b).
Proof.
  intros Hwf. pose proof (Len_bounds b Hwf). destruct Hwf as (Hr & Hw & Hf).
  unfold contents. rewrite length_take, length_drop, length_app. unfold zlen in *. lia.
Qed.

Lemma zlen_contents b : wf b -> zlen (contents b) = Len b.
Proof.
  intros Hwf. unfold zlen. rewrite length_contents by done.
  pose proof (Len_bounds b Hwf). lia.
Qed.

(** Positions wrap once: [circ a n] is [a mod n] for [0 <= a < 2 * n]. *)
Definition circ (a n : Z) : Z := if a <? n then a else a - n.

Lemma go_rem_circ a n : 0 <= a < 2 * n -> go_rem a n = Ok (circ a n).
Proof.
  intros Ha. rewrite go_rem_Ok by lia. unfold circ. case_if.
  - rewrite Z.mod_small by lia. done.
  - replace a with ((a - n) + 1 * n) by lia. rewrite Z.mod_add, Z.mod_small by lia.
    f_equal. lia.
Qed.

Ltac circ_lia :=
  unfold circ, zlen in *; simpl in *;
  repeat match goal with
  | |- context [if ?b then _ else _] => destruct b eqn:?; bool_cases
  | H : context [if ?b then _ else _] |- _ => destruct b eqn:?; bool_cases
  end; try done; lia.

(** [b] holds the queue [l]: [l] starts at [read], wraps at the end of the
    backing array, and [write] and [full] agree with its length. *)
Record repr b l : Prop := {
  repr_pos : 0 < zlen (buf b);
  repr_read : 0 <= read b < zlen (buf b);
  repr_len : zlen l <= zlen (buf b);
  repr_write : write b = circ (read b + zlen l) (zlen (buf b));
  repr_full : full b = true <-> zlen l = zlen (buf b);
  repr_elems : forall i : nat, Z.of_nat i < zlen l ->
    buf b !! Z.to_nat (circ (read b + Z.of_nat i) (zlen (buf b))) = l !! i;
}.

Lemma repr_wf b l : repr b l -> wf b.
Proof. intros []. unfold wf. split; [circ_lia|]. split; [circ_lia|]. intros ?%repr_full0. circ_lia. Qed.

Lemma repr_Len b l : repr b l -> Len b = zlen l.
Proof. 
  intros [Hp Hr Hl Hw Hf _]. unfold Len. destruct (full b) eqn:E.
  - assert (zlen l = zlen (buf b)) by tauto. rewrite Hw. circ_lia.
  - assert (zlen l <> zlen (buf b)) by (intros ?%Hf; done). rewrite Hw. circ_lia.
Qed.

Lemma lookup_backing b (i : nat) :
  0 <= read b < zlen (buf b) -> Z.of_nat i < Len b <= zlen (buf b) ->
  contents b !! i = buf b !! Z.to_nat (circ (read b + Z.of_nat i) (zlen (buf b))).
Proof.
  intros Hr Hi. unfold contents.
  rewrite lookup_take, decide_True, lookup_drop by lia.
  unfold circ. case_if;
    [rewrite lookup_app_l by circ_lia | rewrite lookup_app_r by circ_lia];
    f_equal; circ_lia.
Qed.

Lemma repr_contents b l : repr b l -> contents b = l.
Proof.
  intros Hr. pose proof (repr_wf _ _ Hr) as Hwf. pose proof (repr_Len _ _ Hr) as HLen.
  destruct Hr as [? ? ? ? ? He].
  apply list_eq_same_length with (length l); [done| |].
  - rewrite length_contents by done. unfold zlen in *. lia.
  - intros i x y Hi Hx Hy. rewrite <- He in Hy by circ_lia.
    enough (Some x = Some y) by congruence. rewrite <- Hx, <- Hy.
    rewrite lookup_backing by circ_lia. done.
Qed.

Lemma wf_repr b : wf b -> 0 < zlen (buf b) -> repr b (contents b).
Proof.
  intros Hwf Hpos. pose proof (zlen_contents b Hwf) as HLen.
  pose proof (Len_bounds b Hwf) as Hb. 
  destruct Hwf as (Hr & Hw & Hf).
  assert (HL : Len b = Len b) by done. unfold Len in HL at 2.
  split; rewrite ?HLen; [done|lia|lia| | |].
  - destruct (full b); [rewrite Hf in * by done|]; circ_lia.
  - destruct (full b); [rewrite Hf in * by done|]; split; circ_lia.
  - intros i Hi. rewrite lookup_backing by circ_lia. done.
Qed.

(** ** The operations on a buffer that holds [l] *)

Lemma repr_drop b l (n : nat) :
  repr b l -> (n <= length l)%nat -> (0 < n)%nat ->
  repr (mkBuffer (buf b) (write b) (circ (read b + Z.of_nat n) (zlen (buf b))) false) (drop n l).
Proof.
  intros [Hp Hr Hl Hw Hf He] Hn Hpos. split; simpl; rewrite ?zlen_drop by done;
    [done|circ_lia|lia|circ_lia|split; circ_lia|].
  intros i Hi. rewrite lookup_drop, <- He by (unfold zlen in *; lia). f_equal. circ_lia.
Qed.

Lemma repr_snoc b l v :
  repr b l -> zlen l < zlen (buf b) ->
  let buf' := <[Z.to_nat (write b) := v]> (buf b) in
  let wr' := circ (write b + 1) (zlen (buf b)) in
  repr (mkBuffer buf' wr' (read b) (wr' =? read b)) (l ++ [v]).
Proof.
  intros [Hp Hr Hl Hw Hf He] Hlt buf' wr'.
  assert (Hz : zlen buf' = zlen (buf b)) by apply zlen_insert.
  assert (Hs : zlen (l ++ [v]) = zlen l + 1) by (rewrite zlen_app; done).
  subst wr'. split; simpl; rewrite ?Hz, ?Hs; [done|done|lia|circ_lia| |].
  - rewrite Z.eqb_eq. split; circ_lia.
  - intros i Hi. unfold buf'. destruct (decide (Z.of_nat i = zlen l)) as [Hi'|Hi'].
    + rewrite Hi', <- Hw, list_lookup_insert_eq by circ_lia.
      rewrite lookup_app_r by circ_lia. replace (i - length l)%nat with 0%nat by circ_lia. done.
    + rewrite list_lookup_insert_ne by (rewrite Hw; circ_lia).
      rewrite He by lia. rewrite lookup_app_l by circ_lia. done.
Qed.

Lemma TryPeek_repr b l :
  repr b l ->
  TryPeek zero b = Ok (match l with [] => (zero, false) | x :: _ => (x, true) end).
Proof.
  intros Hrep. pose proof Hrep as [Hp Hr Hl Hw Hf He]. unfold TryPeek.
  destruct l as [|x l].
  - assert (Hff : full b = false) by (destruct (full b); [circ_lia|done]).
    replace (write b) with (read b) by circ_lia. rewrite Hff, Z.eqb_refl. done.
  - assert (negb (full b) && (read b =? write b) = false)%bool as ->.
    { destruct (full b) eqn:E; [done|]. simpl. apply Z.eqb_neq.
      assert (zlen (x :: l) <> zlen (buf b)) by (intros ?%Hf; done). circ_lia. }
    rewrite (go_index_Ok _ _ x); [done|lia|].
    etrans; [|apply (He 0%nat); circ_lia]. f_equal. circ_lia.
Qed.

Lemma TryPop_repr b l :
  repr b l ->
  match l with
  | [] => TryPop zero b = Ok (b, zero, false)
  | x :: l' => exists b', TryPop zero b = Ok (b', x, true) /\ repr b' l' /\ Size b' = Size b
  end.
Proof.
  intros Hrep. pose proof (TryPeek_repr b l Hrep) as Hpeek.
  unfold TryPeek in Hpeek. unfold TryPop. destruct l as [|x l].
  - destruct (_ && _)%bool; [done|]. destruct (go_index _ _); simpl in *; congruence.
  - destruct (_ && _)%bool; [congruence|]. destruct (go_index _ _); simpl in *; [|congruence].
    pose proof Hrep as [Hp Hr Hl Hw Hf He].
    rewrite go_rem_circ by lia. simpl. eexists. split; [|split].
    + injection Hpeek as <-. done.
    + apply (repr_drop b (x :: l) 1 Hrep); simpl; lia.
    + done.
Qed.

Lemma TryPush_repr b l v :
  repr b l ->
  if zlen l <? Size b
  then exists b', TryPush b v = Ok (b', true) /\ repr b' (l ++ [v]) /\ Size b' = Size b
  else TryPush b v = Ok (b, false).
Proof.
  intros Hrep. pose proof Hrep as [Hp Hr Hl Hw Hf He]. unfold TryPush, Size. case_if.
  - assert (full b = false) as -> by (destruct (full b); [circ_lia|done]).
    rewrite go_set_Ok by circ_lia. simpl.
    rewrite zlen_insert, go_rem_circ by circ_lia. simpl. eexists. split; [done|].
    split; [apply repr_snoc; done|]. apply zlen_insert.
  - assert (full b = true) as -> by (apply Hf; lia). done.
Qed.

(** Dropping the [n] oldest elements, [n] possibly zero, whatever [full] says. *)
Lemma repr_drop_any b l (n : nat) :
  repr b l -> (n <= length l)%nat ->
  exists f, repr (mkBuffer (buf b) (write b) (circ (read b + Z.of_nat n) (zlen (buf b))) f) (drop n l).
Proof.
  intros Hrep Hn. destruct (decide (n = 0)%nat) as [->|].
  - exists (full b). pose proof Hrep as [Hp Hr Hl Hw Hf He].
    replace (circ (read b + Z.of_nat 0) (zlen (buf b))) with (read b) by circ_lia.
    destruct b. exact Hrep.
  - exists false. apply repr_drop; done || lia.
Qed.

Lemma Push_repr b l v :
  repr b l ->
  exists b', Push b v = Ok b' /\ repr b' (lastn (Z.to_nat (Size b)) (l ++ [v])) /\ Size b' = Size b.
Proof.
  intros Hrep. pose proof Hrep as [Hp Hr Hl Hw Hf He]. unfold Push, Size.
  set (k := if full b then 1%nat else 0%nat).
  assert (Hk : (if full b then go_rem (read b + 1) (zlen (buf b)) else Ok (read b))
             = Ok (circ (read b + Z.of_nat k) (zlen (buf b)))).
  { unfold k. destruct (full b); [apply go_rem_circ; lia|]. f_equal. circ_lia. }
  rewrite Hk. simpl. rewrite go_set_Ok by circ_lia. simpl.
  rewrite zlen_insert, go_rem_circ by circ_lia. simpl. eexists. split; [done|].
  assert (Hkl : (k <= length l)%nat) by (unfold k; destruct (full b); circ_lia).
  destruct (repr_drop_any b l k Hrep Hkl) as [f Hrep'].
  assert (Hlt : zlen (drop k l) < zlen (buf b)).
  { rewrite zlen_drop by done. unfold k. destruct (full b) eqn:E; [lia|].
    assert (zlen l <> zlen (buf b)) by (intros ?%Hf; done). lia. }
  pose proof (repr_snoc _ _ v Hrep' Hlt) as Hs. simpl in Hs. split.
  - replace (lastn _ (l ++ [v])) with (drop k l ++ [v]); [exact Hs|].
    unfold lastn. rewrite length_app. simpl. rewrite <- drop_app_le by done. f_equal.
    unfold k. destruct (full b) eqn:E; [circ_lia|].
    assert (zlen l <> zlen (buf b)) by (intros ?%Hf; done). circ_lia.
  - apply zlen_insert.
Qed.

(** The part of the queue that lies in one piece from [read]. *)
Lemma repr_slice b l (j : Z) :
  repr b l -> 0 <= j <= zlen l -> read b + j <= zlen (buf b) ->
  go_slice (buf b) (read b) (read b + j) = Ok (take (Z.to_nat j) l).
Proof.
  intros [Hp Hr Hl Hw Hf He] Hj Hend. rewrite go_slice_Ok by lia. f_equal.
  apply list_eq_same_length with (Z.to_nat j);
    [rewrite length_take; circ_lia|rewrite length_take, length_drop; circ_lia|].
  intros i x y Hi Hx Hy.
  rewrite lookup_take, decide_True, lookup_drop in Hx by lia.
  rewrite lookup_take, decide_True, <- He in Hy by circ_lia.
  replace (circ _ _) with (read b + Z.of_nat i) in Hy by circ_lia.
  replace (Z.to_nat (read b) + i)%nat with (Z.to_nat (read b + Z.of_nat i)) in Hx by lia.
  congruence.
Qed.

(** The end of the first piece that [Read] copies. *)
Lemma Read_first b l :
  repr b l -> l <> [] ->
  let k := Z.min (zlen l) (zlen (buf b) - read b) in
  (if read b <? write b then write b else zlen (buf b)) = read b + k.
Proof.
  intros [Hp Hr Hl Hw Hf He] Hne. destruct l as [|x l]; [done|]. simpl.
  rewrite Hw. circ_lia.
Qed.

Lemma go_copy_fst (dst src : list T) :
  fst (go_copy dst src) =
    take (Nat.min (length dst) (length src)) src ++ drop (Nat.min (length dst) (length src)) dst.
Proof. done. Qed.

(** The second piece, when the queue wraps and the first one was not enough. *)
Lemma Read_second b l p (n1 : nat) :
  repr b l -> read b = 0 -> 0 <> write b -> (n1 < length p)%nat ->
  let n2 := Nat.min (length p - n1) (length l) in
  exists src, go_slice (buf b) 0 (write b) = Ok src /\
    go_copy_at p (Z.of_nat n1) src =
      Ok (take n1 p ++ take n2 l ++ drop (n1 + n2) p, Z.of_nat n2) /\
    (0 < n2)%nat.
Proof.
  intros Hrep Hr0 Hw0 Hn n2. pose proof Hrep as [Hp Hr Hl Hw _ _].
  assert (Hw' : write b = zlen l) by (revert Hw; unfold circ; rewrite Hr0; case_if; lia).
  pose proof (repr_slice b l (zlen l) Hrep) as Hs. rewrite Hr0, Z.add_0_l in Hs.
  rewrite Hw', Hs by (unfold zlen in *; lia).
  rewrite take_ge by (unfold zlen; lia). exists l.
  rewrite go_copy_at_Ok by (unfold zlen; lia). rewrite Nat2Z.id. fold n2.
  split; [done|]. split; [done|]. unfold n2, zlen in *. lia.
Qed.

(** The two pieces lie one after the other. *)
Lemma Read_pieces (l p : list T) n1 n2 :
  (n1 <= length l)%nat ->
  let p1 := take n1 l ++ drop n1 p in
  take n1 p1 ++ take n2 (drop n1 l) ++ drop (n1 + n2) p1 = take (n1 + n2) l ++ drop (n1 + n2) p.
Proof.
  intros Hn p1. unfold p1. rewrite take_app_le, take_take, Nat.min_id by (rewrite length_take; lia).
  rewrite drop_app_ge by (rewrite length_take; lia).
  rewrite length_take, drop_drop, <- take_take_drop, <- app_assoc. repeat f_equal. lia.
Qed.

(** A first piece that fills neither the frame nor the queue ends at the end of
    the buffer. *)
Lemma Read_wraps b l (n : nat) p :
  repr b l -> n = Nat.min (length p) (Z.to_nat (Z.min (zlen l) (zlen (buf b) - read b)) `min` length l) ->
  (n < length p)%nat -> circ (read b + Z.of_nat n) (zlen (buf b)) <> write b ->
  circ (read b + Z.of_nat n) (zlen (buf b)) = 0.
Proof.
  intros [Hp Hr Hl Hw Hf He] Hn Hlt Hne.
  assert (n <> length l) by (intros ->; rewrite Hw in Hne; circ_lia).
  unfold circ. case_if; unfold zlen in *; lia.
Qed.

Lemma Read_repr b l p :
  repr b l ->
  let n := Nat.min (length p) (length l) in
  exists b' err,
    Read b p = Ok (b', take n l ++ drop n p, Z.of_nat n, err) /\
    err = (if (negb (zlen p =? 0) && (zlen l =? 0))%bool then Some EOF else None) /\
    repr b' (drop n l) /\ Size b' = Size b.
Proof.
  intros Hrep n. pose proof Hrep as [Hp Hr Hl Hw Hf He]. unfold Read.
  rewrite (repr_Len b l Hrep).
  destruct (zlen p =? 0) eqn:Hp0; bool_cases.
  { apply zlen_0 in Hp0 as ->. exists b, None. simpl. subst n. simpl. rewrite drop_0. done. }
  destruct (zlen l =? 0) eqn:Hl0; bool_cases.
  { apply zlen_0 in Hl0 as ->. exists b, (Some EOF). subst n. simpl.
    rewrite Nat.min_0_r, drop_0. done. }
  assert (Hne : l <> []) by (intros ->; done).
  rewrite (Read_first b l Hrep Hne). set (k := Z.min _ _).
  rewrite (repr_slice b l k Hrep) by (unfold k, zlen in *; lia). cbn [obind].
  unfold go_copy. rewrite length_take.
  set (n1 := (length p `min` _)%nat).
  assert (Hn1 : (0 < n1 <= length l)%nat) by (unfold n1, k, zlen in *; lia).
  assert (Hn1p : (n1 <= length p)%nat) by (unfold n1; lia).
  rewrite go_rem_circ by (unfold n1, k, zlen in *; lia). cbn [obind].
  rewrite take_take. replace (n1 `min` Z.to_nat k)%nat with n1 by (unfold n1, k, zlen in *; lia).
  set (p1 := take n1 l ++ drop n1 p).
  assert (Hlp1 : length p1 = length p).
  { unfold p1. rewrite length_app, length_take, length_drop. lia. }
  rewrite (go_slice_Ok p1) by (unfold zlen in *; lia). cbn [obind].
  rewrite Nat2Z.id, (take_ge (drop n1 p1)) by (rewrite length_drop; unfold zlen; lia).
  pose proof (repr_drop b l n1 Hrep ltac:(lia) ltac:(lia)) as Hrep1.
  destruct (_ || _)%bool eqn:Hdone.
  - assert (n = n1) as ->.
    { apply orb_true_iff in Hdone as [H|H]; bool_cases.
      - unfold zlen in H. rewrite length_drop in H. unfold n, n1, k, zlen in *. lia.
      - assert (n1 = length l) by (rewrite Hw in H; unfold n1, k in *; circ_lia). lia. }
    eexists _, None. done.
  - bool_cases. unfold zlen in H. rewrite length_drop in H.
    pose proof (Read_wraps b l n1 p Hrep eq_refl ltac:(lia) H0) as Hcirc.
    rewrite Hcirc in *.
    destruct (Read_second _ (drop n1 l) p1 n1 Hrep1) as (src & Hsrc & Hcopy & Hpos); simpl;
      [done|done|lia|].
    simpl in Hsrc. rewrite Hsrc. cbn [obind].
    rewrite Hcopy, length_drop, Hlp1 in *. cbn [obind].
    set (n2 := ((length p - n1) `min` (length l - n1))%nat) in *.
    assert (Hn : n = (n1 + n2)%nat) by lia.
    rewrite go_rem_circ by (unfold n2, zlen in *; lia). cbn [obind].
    pose proof (repr_drop _ _ n2 Hrep1) as Hrep2. rewrite length_drop, drop_drop in Hrep2.
    eexists _, None. split.
    + pose proof (Read_pieces l p n1 n2 ltac:(lia)) as Hpc. cbv zeta in Hpc. fold p1 in Hpc.
      by rewrite Hpc, Hn, Nat2Z.inj_add.
    + split; [done|]. split; [|done]. rewrite Hn. apply Hrep2; lia.
Qed.

(** ** Writing *)

(** [bf2] is [bf] with [p] laid out circularly from [wr]. *)
Record written bf (wr : Z) p bf2 : Prop := {
  written_len : zlen bf2 = zlen bf;
  written_new : forall i : nat, Z.of_nat i < zlen p ->
    bf2 !! Z.to_nat (circ (wr + Z.of_nat i) (zlen bf)) = p !! i;
  written_old : forall j : nat,
    (forall i : nat, Z.of_nat i < zlen p -> circ (wr + Z.of_nat i) (zlen bf) <> Z.of_nat j) ->
    bf2 !! j = bf !! j;
}.

(** In one piece. *)
Lemma written_one bf wr p bf1 :
  0 <= wr -> wr + zlen p <= zlen bf ->
  bf1 = take (Z.to_nat wr) bf ++ take (length p) p ++ drop (Z.to_nat wr + length p) bf ->
  written bf wr p bf1.
Proof.
  intros Hwr Hfit Hbf.
  assert (Hl : forall j, bf1 !! j = if decide (Z.to_nat wr <= j < Z.to_nat wr + length p)%nat
                        then p !! (j - Z.to_nat wr)%nat else bf !! j).
  { intros j. subst bf1. apply lookup_copy_at; unfold zlen in *; lia. }
  split.
  - subst bf1. unfold zlen in *. rewrite !length_app, !length_take, length_drop. lia.
  - intros i Hi. rewrite Hl. unfold circ, zlen in *. case_if; [|lia].
    rewrite decide_True by lia. f_equal. lia.
  - intros j Hj. rewrite Hl, decide_False; [done|]. intros Hjj.
    apply (Hj (j - Z.to_nat wr)%nat); unfold circ, zlen in *; [lia|]. case_if; lia.
Qed.

(** In two pieces: the second one from the start of the array. *)
Lemma written_two bf wr p (n : nat) bf1 bf2 :
  0 <= wr -> Z.of_nat n = zlen bf - wr -> Z.of_nat n < zlen p <= zlen bf ->
  written bf wr (take n p) bf1 ->
  bf2 = take 0 bf1 ++ take (length p - n) (drop n p) ++ drop (0 + (length p - n)) bf1 ->
  written bf wr p bf2.
Proof.
  intros Hwr Hn Hp [Hz Hnew Hold] Hbf.
  assert (Hl : forall j, bf2 !! j = if decide (0 <= j < 0 + (length p - n))%nat
                        then drop n p !! (j - 0)%nat else bf1 !! j).
  { intros j. subst bf2. apply lookup_copy_at; [lia|]. rewrite length_drop. unfold zlen in *. lia. }
  split; unfold zlen in *; rewrite length_take in *.
  - subst bf2. rewrite !length_app, !length_take, !length_drop. lia.
  - intros i Hi. rewrite Hl. destruct (decide (i < n)%nat).
    + rewrite decide_False by (unfold circ; case_if; lia).
      rewrite Hnew by lia. rewrite lookup_take, decide_True by lia. done.
    + unfold circ, zlen in *. case_if; [lia|].
      rewrite decide_True by lia. rewrite lookup_drop. f_equal. lia.
  - intros j Hj. rewrite Hl, decide_False.
    + apply Hold. intros i Hi. apply Hj. lia.
    + intros Hjj. apply (Hj (j + n)%nat); unfold circ, zlen in *; [lia|]. case_if; lia.
Qed.

(** A write of [p] after [l]. *)
Lemma repr_append bf wr rd f l p bf2 wr2 :
  repr (mkBuffer bf wr rd f) l -> zlen l + zlen p <= zlen bf -> 0 < zlen p ->
  written bf wr p bf2 -> wr2 = circ (wr + zlen p) (zlen bf) ->
  repr (mkBuffer bf2 wr2 rd (wr2 =? rd)) (l ++ p).
Proof.
  intros [Hp Hr Hl Hw _ He] Hfit Hp0 [Hz Hnew Hold] ->. simpl in *.
  pose proof (zlen_nonneg l) as Hl0.
  split; simpl; rewrite ?Hz, ?zlen_app; [done|done|lia| | |].
  - revert Hw; unfold circ; repeat case_if; lia.
  - rewrite Z.eqb_eq. revert Hw. unfold circ. repeat case_if; split; lia.
  - intros i Hi. destruct (decide (Z.of_nat i < zlen l)).
    + rewrite Hold; [rewrite He, lookup_app_l by (unfold zlen in *; lia); done|].
      intros k Hk. revert Hw. unfold circ. repeat case_if; unfold zlen in *; lia.
    + rewrite lookup_app_r by (unfold zlen in *; lia).
      rewrite <- Hnew by (unfold zlen in *; lia). f_equal. f_equal.
      revert Hw. unfold circ. repeat case_if; unfold zlen in *; lia.
Qed.

(** A write that fits, into a buffer whose [full] flag may be stale. *)
Lemma writeWrapped_repr bf wr rd f f' l n p :
  repr (mkBuffer bf wr rd f') l -> zlen l + zlen p <= zlen bf -> p <> [] ->
  exists b',
    writeWrapped (mkBuffer bf wr rd f) n p = Ok (b', n + zlen p, None) /\
    repr b' (l ++ p) /\ Size b' = zlen bf.
Proof.
  intros Hrep Hfit Hne. pose proof Hrep as [Hp Hr Hl Hw _ _]. simpl in *.
  assert (Hp0 : 0 < zlen p) by (destruct p; [done|unfold zlen; simpl; lia]).
  assert (Hwr : 0 <= wr < zlen bf) by (rewrite Hw; unfold circ; case_if; unfold zlen in *; lia).
  unfold writeWrapped. cbn [buf write read].
  rewrite go_copy_at_Ok by lia. cbn [obind].
  set (n1 := ((length bf - Z.to_nat wr) `min` length p)%nat).
  set (bf1 := take _ bf ++ _).
  assert (Hw1 : written bf wr (take n1 p) bf1).
  { apply written_one; [lia|unfold zlen in *; rewrite length_take; lia|].
    unfold bf1. rewrite length_take, take_take. do 2 f_equal; f_equal; lia. }
  clearbody bf1. rewrite (written_len _ _ _ _ Hw1).
  rewrite go_rem_circ by (unfold zlen in *; lia). cbn [obind].
  rewrite go_slice_Ok by (unfold zlen in *; lia). cbn [obind].
  rewrite Nat2Z.id, (take_ge (drop n1 p)) by (rewrite length_drop; unfold zlen; lia).
  rewrite zlen_drop by lia. destruct (0 <? zlen p - Z.of_nat n1) eqn:Hwrap; bool_cases.
  - assert (Hn1 : Z.of_nat n1 = zlen bf - wr) by (unfold n1, zlen in *; lia).
    replace (circ (wr + Z.of_nat n1) (zlen bf)) with 0 by (unfold circ; case_if; lia).
    rewrite go_copy_at_Ok by (unfold zlen; lia). cbn [obind].
    change (Z.to_nat 0) with 0%nat. rewrite Nat.sub_0_r, length_drop.
    pose proof (written_len _ _ _ _ Hw1) as Hz1.
    replace (length bf1 `min` (length p - n1))%nat with (length p - n1)%nat by (unfold zlen in *; lia).
    set (bf2 := take 0 bf1 ++ _).
    assert (Hw2 : written bf wr p bf2)
      by (apply (written_two bf wr p n1 bf1); unfold zlen in *; done || lia).
    clearbody bf2. rewrite (written_len _ _ _ _ Hw2).
    rewrite go_rem_circ by (unfold zlen in *; lia).
    cbn [obind]. eexists. split; [do 3 f_equal; unfold zlen in *; lia|].
    split; [|apply (written_len _ _ _ _ Hw2)].
    eapply repr_append; [exact Hrep|done|done|done|].
    unfold circ. repeat case_if; unfold zlen in *; lia.
  - assert (Hn1 : n1 = length p) by (unfold n1, zlen in *; lia).
    rewrite Hn1, take_ge in * by lia. eexists. split; [done|].
    split; [|apply (written_len _ _ _ _ Hw1)]. eapply repr_append; done.
Qed.

Lemma lastn_app_big (n : nat) l p :
  (n <= length p)%nat -> lastn n (l ++ p) = drop (length p - n) p.
Proof.
  intros Hn. unfold lastn. rewrite length_app, drop_app_ge by lia. f_equal. lia.
Qed.

Lemma lastn_app_small (n : nat) l p :
  (length p <= n)%nat -> lastn n (l ++ p) = drop (length l + length p - n) l ++ p.
Proof. intros Hn. unfold lastn. rewrite length_app, drop_app_le by lia. done. Qed.

(** A write of at least the whole capacity replaces the buffer. *)
Lemma repr_replace (bf : list T) p : 0 < zlen bf -> zlen p = zlen bf -> repr (mkBuffer p 0 0 true) p.
Proof.
  intros Hp Hz. split; simpl; rewrite ?Hz; try lia; try done.
  - unfold circ. case_if; lia.
  - intros i Hi. unfold circ. case_if; [|lia]. f_equal. lia.
Qed.

Lemma Write_repr b l p :
  repr b l ->
  exists b', Write b p = Ok (b', zlen p, None) /\
    repr b' (lastn (Z.to_nat (Size b)) (l ++ p)) /\ Size b' = Size b.
Proof.
  intros Hrep. pose proof Hrep as [Hp Hr Hl Hw Hf He]. unfold Write, Size.
  destruct (zlen p =? 0) eqn:Hp0; bool_cases.
  { apply zlen_0 in Hp0 as ->. exists b. rewrite app_nil_r, lastn_all by (unfold zlen in *; lia).
    done. }
  rewrite (repr_Len b l Hrep).
  destruct (decide (zlen (buf b) <= zlen p)) as [Hbig|Hsmall].
  - set (d := zlen p - zlen (buf b)). set (p' := drop (Z.to_nat d) p).
    assert (Hz' : zlen p' = zlen (buf b)) by (unfold p', d; rewrite zlen_drop; unfold zlen in *; lia).
    assert (Hcut : (if 0 <? d then let! p' := go_slice p d (zlen p) in Ok (d, p') else Ok (0, p))
              = Ok (d, p')).
    { case_if.
      - rewrite go_slice_Ok by lia. simpl. do 2 f_equal.
        unfold p'. apply take_ge. rewrite length_drop. unfold zlen in *. lia.
      - unfold p'. replace d with 0 by lia. done. }
    rewrite Hcut. cbn [obind]. rewrite Hz', Z.eqb_refl.
    rewrite (proj2 (Z.leb_le _ _)) by (unfold zlen; lia).
    unfold go_copy. replace (length (buf b) `min` length p')%nat with (length p') by (unfold zlen in *; lia).
    rewrite take_ge, drop_ge, app_nil_r by (unfold zlen in *; lia).
    replace (d + Z.of_nat (length p')) with (zlen p) by (change (Z.of_nat (length p')) with (zlen p'); lia).
    eexists. split; [done|]. split; [|done].
    rewrite lastn_app_big by (unfold zlen in *; lia).
    replace (length p - Z.to_nat (zlen (buf b)))%nat with (Z.to_nat d) by (unfold d, zlen in *; lia).
    apply (repr_replace (buf b)); done.
  - rewrite (proj2 (Z.ltb_ge _ _)) by lia. cbn [obind].
    rewrite (proj2 (Z.eqb_neq (zlen p) (zlen (buf b)))) by lia.
    assert (Hne : p <> []) by (intros ->; done).
    rewrite lastn_app_small by (unfold zlen in *; lia).
    case_if.
    + set (k := (length l + length p - Z.to_nat (zlen (buf b)))%nat).
      rewrite go_rem_circ by (unfold zlen in *; lia). cbn [obind].
      destruct (repr_drop_any b l k Hrep) as [f' Hrep']; [unfold k, zlen in *; lia|].
      replace (zlen l + zlen p - zlen (buf b)) with (Z.of_nat k) by (unfold k, zlen in *; lia).
      apply (writeWrapped_repr _ _ _ _ f' _ 0); [done| |done].
      rewrite zlen_drop; unfold k, zlen in *; lia.
    + replace (length l + length p - _)%nat with 0%nat by (unfold zlen in *; lia).
      destruct b as [bf wr rd f]. apply (writeWrapped_repr _ _ _ _ f l 0); simpl in *; [done|lia|done].
Qed.

End ring_lemmas.
