(* ===== verification/RingRefine.v ===== *)
(** * RingRefine: the ring buffer implements the bounded queue of [Fifo] *)

From stdpp Require Import base tactics list numbers.
From S2P Require Import Prelude Fifo Ring.

#[local] Open Scope go_scope.

(** ** Any sequence of calls *)

Section refinement.
Context {T : Type} (zero : T).
Implicit Types (b : Buffer T) (l p q : list T).

(** A call on the buffer, and what it returns. *)
Inductive call : Type :=
| CSize | CLen | CTryPeek | CPeek | CTryPop | CPop
| CTryPush (v : T) | CPush (v : T) | CRead (p : list T) | CWrite (p : list T).

Inductive reply : Type :=
| RInt (n : Z)
| RValue (v : T)
| RTry (v : T) (ok : bool)
| RBool (ok : bool)
| RDone
| RRead (p : list T) (n : Z) (err : option error)
| RWrite (n : Z) (err : option error).

(** The buffer's answer. *)
Definition exec (b : Buffer T) (c : call) : outcome (Buffer T * reply) :=
  match c with
  | CSize => Ok (b, RInt (Size b))
  | CLen => Ok (b, RInt (Len b))
  | CTryPeek => let! (v, ok) := TryPeek zero b in Ok (b, RTry v ok)
  | CPeek => let! v := Peek zero b in Ok (b, RValue v)
  | CTryPop => let! (b', v, ok) := TryPop zero b in Ok (b', RTry v ok)
  | CPop => let! (b', v) := Pop zero b in Ok (b', RValue v)
  | CTryPush v => let! (b', ok) := TryPush b v in Ok (b', RBool ok)
  | CPush v => let! b' := Push b v in Ok (b', RDone)
  | CRead p => let! (b', p', n, err) := Read b p in Ok (b', RRead p' n err)
  | CWrite p => let! (b', n, err) := Write b p in Ok (b', RWrite n err)
  end.

(** The answer of a queue [q] of at most [cap] elements that drops the oldest. *)
Definition exec_spec (cap : nat) (q : list T) (c : call) : list T * reply :=
  match c with
  | CSize => (q, RInt (Z.of_nat cap))
  | CLen => (q, RInt (zlen q))
  | CTryPeek => (q, match q with [] => RTry zero false | x :: _ => RTry x true end)
  | CPeek => (q, RValue (default zero (head q)))
  | CTryPop => match q with [] => (q, RTry zero false) | x :: q' => (q', RTry x true) end
  | CPop => (tail q, RValue (default zero (head q)))
  | CTryPush v => if bool_decide (length q < cap)%nat then (q ++ [v], RBool true) else (q, RBool false)
  | CPush v => (lastn cap (q ++ [v]), RDone)
  | CRead p =>
      let n := Nat.min (length p) (length q) in
      (drop n q,
       RRead (take n q ++ drop n p) (Z.of_nat n)
         (if (negb (zlen p =? 0) && (zlen q =? 0))%bool then Some EOF else None))
  | CWrite p => (lastn cap (q ++ p), RWrite (zlen p) None)
  end.

Fixpoint run (b : Buffer T) (cs : list call) : outcome (Buffer T * list reply) :=
  match cs with
  | [] => Ok (b, [])
  | c :: cs =>
      let! (b', r) := exec b c in
      let! (b'', rs) := run b' cs in
      Ok (b'', r :: rs)
  end.

Fixpoint run_spec (cap : nat) (q : list T) (cs : list call) : list T * list reply :=
  match cs with
  | [] => (q, [])
  | c :: cs =>
      let '(q', r) := exec_spec cap q c in
      let '(q'', rs) := run_spec cap q' cs in
      (q'', r :: rs)
  end.

Lemma exec_simulates b q c :
  repr b q ->
  exists b', exec b c = Ok (b', snd (exec_spec (length (buf b)) q c)) /\
    repr b' (fst (exec_spec (length (buf b)) q c)) /\ Size b' = Size b.
Proof.
  intros Hrep. assert (Hcap : length (buf b) = Z.to_nat (Size b)) by (unfold Size, zlen; lia).
  destruct c; simpl.
  - exists b. done.
  - exists b. rewrite (repr_Len b q) by done. done.
  - rewrite (TryPeek_repr zero b q) by done. exists b. destruct q; done.
  - unfold Peek. rewrite (TryPeek_repr zero b q) by done. exists b. destruct q; done.
  - pose proof (TryPop_repr zero b q Hrep) as H. destruct q as [|x q].
    + rewrite H. exists b. done.
    + destruct H as (b' & -> & Hr & Hs). exists b'. done.
  - unfold Pop. pose proof (TryPop_repr zero b q Hrep) as H. destruct q as [|x q].
    + rewrite H. exists b. done.
    + destruct H as (b' & -> & Hr & Hs). exists b'. done.
  - pose proof (TryPush_repr b q v Hrep) as H. unfold Size in H at 1.
    case_bool_decide; destruct (zlen q <? zlen (buf b)) eqn:E; bool_cases; unfold zlen in *; try lia.
    + destruct H as (b' & -> & Hr & Hs). exists b'. done.
    + rewrite H. exists b. done.
  - destruct (Push_repr b q v Hrep) as (b' & -> & Hr & Hs). exists b'. rewrite Hcap. done.
  - destruct (Read_repr b q p Hrep) as (b' & err & -> & -> & Hr & Hs). exists b'. done.
  - destruct (Write_repr b q p Hrep) as (b' & -> & Hr & Hs). exists b'. rewrite Hcap. done.
Qed.

Lemma run_simulates cs : forall b q,
  repr b q ->
  exists b', run b cs = Ok (b', snd (run_spec (length (buf b)) q cs)) /\
    repr b' (fst (run_spec (length (buf b)) q cs)).
Proof.
  induction cs as [|c cs IH]; intros b q Hrep; simpl; [by exists b|].
  destruct (exec_simulates b q c Hrep) as (b1 & -> & Hrep1 & Hs1). simpl.
  destruct (exec_spec _ q c) as [q1 r] eqn:E. simpl in *.
  replace (length (buf b)) with (length (buf b1)) by (unfold Size, zlen in Hs1; lia).
  destruct (IH b1 q1 Hrep1) as (b2 & -> & Hrep2). simpl.
  destruct (run_spec _ q1 cs) as [q2 rs]. exists b2. done.
Qed.

Lemma run_Size cs : forall b q b' rs,
  repr b q -> run b cs = Ok (b', rs) -> Size b' = Size b.
Proof.
  induction cs as [|c cs IH]; intros b q b' rs Hrep; simpl; [congruence|].
  destruct (exec_simulates b q c Hrep) as (b1 & -> & Hrep1 & Hs1). simpl.
  destruct (run b1 cs) as [[b2 rs2]|] eqn:E; simpl; [|done]. intros [= <- _].
  rewrite <- Hs1. eapply IH; done.
Qed.

Lemma NewBuffer_repr sz :
  0 < sz -> exists b, NewBuffer zero sz = Ok b /\ repr b [] /\ Size b = sz /\ length (buf b) = Z.to_nat sz.
Proof.
  intros Hsz. unfold NewBuffer. rewrite (proj2 (Z.ltb_ge sz 0)) by lia. eexists. split; [done|].
  split; [|unfold Size, zlen; simpl; rewrite length_replicate; lia].
  split; unfold zlen, circ; simpl; rewrite ?length_replicate; try case_if; try lia; done.
Qed.

Fixpoint pushAll (b : Buffer T) (p : list T) : outcome (Buffer T) :=
  match p with
  | [] => Ok b
  | v :: p => let! b' := Push b v in pushAll b' p
  end.

Lemma lastn_lastn_app (n : nat) l p : lastn n (lastn n l ++ p) = lastn n (l ++ p).
Proof.
  unfold lastn. rewrite !length_app, length_drop.
  destruct (decide (length l <= n)%nat).
  - replace (length l - n)%nat with 0%nat by lia. rewrite drop_0. f_equal. lia.
  - replace (length l - (length l - n) + length p - n)%nat with (length p `min` (n + length p - n))%nat by lia.
    rewrite <- (drop_app_le _ p (length l - n)) by lia.
    rewrite drop_drop. f_equal. lia.
Qed.

Lemma pushAll_repr p : forall b l,
  repr b l ->
  exists b', pushAll b p = Ok b' /\ repr b' (lastn (Z.to_nat (Size b)) (l ++ p)).
Proof.
  induction p as [|v p IH]; intros b l Hrep; simpl.
  - exists b. rewrite app_nil_r, lastn_all; [done|]. destruct Hrep. unfold Size, zlen in *. lia.
  - destruct (Push_repr b l v Hrep) as (b1 & -> & Hrep1 & Hs1). simpl.
    destruct (IH b1 _ Hrep1) as (b2 & -> & Hrep2). exists b2. split; [done|].
    rewrite Hs1, lastn_lastn_app, <- app_assoc in Hrep2. exact Hrep2.
Qed.

End refinement.

(** ** The contract of [Fifo] *)

Section instance.
Context {T : Type} (zero : T).
Implicit Types (b : Buffer T) (l p q : list T).

#[export] Instance ring_ops : FifoOps T (Buffer T) := {|
  fifo_new := NewBuffer zero;
  fifo_Size := Size;
  fifo_Len := Len;
  fifo_Read := Read;
  fifo_Write := Write;
|}.

(** A buffer of size zero holds nothing and drops every write. *)
Lemma wf_zero b : wf b -> zlen (buf b) = 0 -> contents b = [] /\ Len b = 0.
Proof.
  intros Hwf Hz. pose proof (Len_bounds b Hwf) as HL. split; [|lia].
  apply zlen_0. rewrite zlen_contents by done. lia.
Qed.

Lemma Write_zero b p :
  wf b -> zlen (buf b) = 0 -> exists b', Write b p = Ok (b', zlen p, None) /\ wf b' /\ Size b' = 0.
Proof.
  intros Hwf Hz. destruct (wf_zero b Hwf Hz) as [_ HL]. unfold Write, Size. rewrite HL, Hz.
  destruct (zlen p =? 0) eqn:Hp; bool_cases; [exists b; rewrite Hp; done|].
  rewrite Z.sub_0_r. pose proof (zlen_nonneg p).
  rewrite (proj2 (Z.ltb_lt 0 (zlen p))) by lia.
  rewrite go_slice_Ok by lia. rewrite Z.sub_diag. simpl.
  eexists. split; [f_equal; f_equal; f_equal; lia|].
  rewrite Nat.min_0_r. simpl. rewrite drop_0. split; [|done].
  unfold wf. simpl. repeat split; try lia; right; done.
Qed.

Lemma ring_read_spec b p :
  wf b ->
  let n := Nat.min (length p) (length (contents b)) in
  exists b' err,
    Read b p = Ok (b', take n (contents b) ++ drop n p, Z.of_nat n, err) /\
    err = (if (negb (zlen p =? 0) && (zlen (contents b) =? 0))%bool then Some EOF else None) /\
    wf b' /\ Size b' = Size b /\ contents b' = drop n (contents b).
Proof.
  intros Hwf n. destruct (decide (zlen (buf b) = 0)) as [Hz|Hz].
  - destruct (wf_zero b Hwf Hz) as [Hc HL]. unfold n, Read. rewrite Hc, HL. simpl.
    rewrite Nat.min_0_r. simpl. rewrite drop_0.
    destruct (zlen p =? 0); simpl; eexists b, _; (split; [done|]); done.
  - assert (Hpos : 0 < zlen (buf b)) by (pose proof (zlen_nonneg (buf b)); lia).
    destruct (Read_repr b _ p (wf_repr b Hwf Hpos)) as (b' & err & HR & He & Hrep & Hs).
    exists b', err. split_and!; eauto using repr_wf, repr_contents.
Qed.

#[export, refine] Instance ring_fifo : Fifo T (Buffer T) := {|
  fifo_wf := wf;
  fifo_contents := contents;
|}.
Proof.
  - intros sz Hsz. simpl. destruct (decide (sz = 0)) as [->|].
    + eexists. split; [done|]. unfold wf, contents. simpl. repeat split; try lia; right; done.
    + destruct (NewBuffer_repr zero sz) as (b & -> & Hr & Hs & _); [lia|]. exists b.
      split_and!; eauto using repr_wf, repr_contents.
  - intros b Hwf. symmetry. apply zlen_contents, Hwf.
  - intros b Hwf. rewrite zlen_contents by done. apply Len_bounds, Hwf.
  - intros b p Hwf n. apply ring_read_spec, Hwf.
  - intros b p Hwf. simpl. destruct (decide (zlen (buf b) = 0)) as [Hz|Hz].
    + destruct (Write_zero b p Hwf Hz) as (b' & -> & Hwf' & Hs). exists b'.
      destruct (wf_zero b' Hwf' Hs) as [-> _]. unfold Size at 2 3. rewrite Hz.
      split; [done|]. split; [done|]. split; [done|]. symmetry. apply nil_length_inv.
      rewrite length_lastn. done.
    + assert (Hpos : 0 < zlen (buf b)) by (pose proof (zlen_nonneg (buf b)); lia).
      destruct (Write_repr b _ p (wf_repr b Hwf Hpos)) as (b' & -> & Hrep & Hs). exists b'.
      split_and!; eauto using repr_wf, repr_contents.
Defined.

End instance.

(** ** Properties *)

Section properties.
Context {T : Type} (zero : T).

(** C4: the ring buffer refines the bounded queue: from [NewBuffer(sz)], any
    sequence of calls (pushes, pops, peeks, bulk reads and writes, in any
    order) runs without a panic and returns exactly what a queue of at most
    [sz] elements that drops its oldest ones returns, and leaves the buffer
    well formed with that queue's elements. *)
Theorem ring_refines_queue (sz : Z) (cs : list (@call T)) :
  0 < sz ->
  exists b0 b, NewBuffer zero sz = Ok b0 /\
    run zero b0 cs = Ok (b, snd (run_spec zero (Z.to_nat sz) [] cs)) /\
    wf b /\ contents b = fst (run_spec zero (Z.to_nat sz) [] cs) /\ Len b <= sz.
Proof.
  intros Hsz. destruct (NewBuffer_repr zero sz Hsz) as (b0 & H0 & Hrep & Hs & Hl).
  destruct (run_simulates zero cs b0 [] Hrep) as (b & Hrun & Hrep'). rewrite Hl in *.
  exists b0, b. split_and!; [done|done|by eapply repr_wf|by eapply repr_contents|].
  rewrite (repr_Len _ _ Hrep'). etrans; [apply (repr_len _ _ Hrep')|].
  pose proof (run_Size zero cs _ _ _ _ Hrep Hrun) as HS. unfold Size in *. lia.
Qed.

(** [Write], which copies at most two slices, leaves the same elements as
    pushing the values one at a time. *)
Theorem Write_is_pushes (b : Buffer T) (p : list T) :
  wf b -> 0 < Size b ->
  exists b1 b2, Write b p = Ok (b1, zlen p, None) /\ pushAll b p = Ok b2 /\
    wf b1 /\ wf b2 /\ contents b1 = contents b2.
Proof.
  intros Hwf Hs. pose proof (wf_repr b Hwf Hs) as Hrep.
  destruct (Write_repr b _ p Hrep) as (b1 & H1 & Hrep1 & _).
  destruct (pushAll_repr p b _ Hrep) as (b2 & H2 & Hrep2).
  exists b1, b2. split_and!; eauto using repr_wf.
  rewrite (repr_contents _ _ Hrep1), (repr_contents _ _ Hrep2). done.
Qed.

End properties.

(** ** Witnesses *)

Definition ring_example : list (@call Z) :=
  [CWrite [1; 2; 3]; CPush 4; CRead [0; 0]; CWrite [5; 6; 7]; CTryPush 8; CPop; CLen; CSize].

Lemma ring_refines_queue_witness :
  exists b0 b, NewBuffer 0 3 = Ok b0 /\
    run 0 b0 ring_example =
      Ok (b, [RWrite 3 None; RDone; RRead [2; 3] 2 None; RWrite 3 None; RBool false;
              RValue 5; RInt 2; RInt 3]) /\
    wf b /\ contents b = [6; 7].
Proof.
  destruct (ring_refines_queue 0 3 ring_example) as (b0 & b & H0 & Hr & Hwf & Hc & _); [lia|].
  exists b0, b. vm_compute in Hr, Hc. split_and!; assumption.
Defined.

Lemma Write_is_pushes_witness :
  exists b1 b2, Write (mkBuffer [1; 2; 3] 1 1 true) [4; 5] = Ok (b1, 2, None) /\
    pushAll (mkBuffer [1; 2; 3] 1 1 true) [4; 5] = Ok b2 /\
    wf b1 /\ wf b2 /\ contents b1 = contents b2.
Proof.
  apply (Write_is_pushes (mkBuffer [1; 2; 3] 1 1 true) [4; 5]).
  - unfold wf, zlen. simpl. lia.
  - unfold Size, zlen. simpl. lia.
Defined.
