(* ===== verification/RtpTypes.v ===== *)
(** * RtpTypes: the packet data shared by the RTP components

    [Header] and [Packet] are the structs of github.com/pion/rtp, restricted
    to the fields that [src/] reads or writes.  [Depacketizer] is pion's
    interface of the same name: the jitter buffer only calls the two methods
    below, whose results are a parameter of the model. *)

From stdpp Require Import base tactics list numbers.
From S2P Require Import Prelude.

Record Header : Type := mkHeader {
  Version : Z;         (* uint8 *)
  Padding : bool;
  Marker : bool;
  PayloadType : Z;     (* uint8 *)
  SequenceNumber : Z;  (* uint16 *)
  Timestamp : Z;       (* uint32 *)
  SSRC : Z;            (* uint32 *)
}.

Record Packet : Type := mkPacket {
  header : Header;
  Payload : list Z;    (* bytes *)
}.

#[export] Instance header_eq_dec : EqDecision Header.
Proof. solve_decision. Defined.

#[export] Instance packet_eq_dec : EqDecision Packet.
Proof. solve_decision. Defined.

(** The widths of the fields the program computes with. *)
Definition packet_wf (p : Packet) : Prop :=
  0 <= SequenceNumber (header p) < 65536 /\ 0 <= SSRC (header p) < 4294967296.

Class Depacketizer : Type := {
  IsPartitionHead : list Z -> bool;
  IsPartitionTail : bool -> list Z -> bool;
}.

(** [type audioDepacketizer struct{}] of [src/rtp/jitter.go]: every packet is a
    whole sample. *)
Definition audioDepacketizer : Depacketizer := {|
  IsPartitionHead := fun _ => true;
  IsPartitionTail := fun _ _ => true;
|}.
