(* ===== verification/Seq16.v ===== *)
(** * Seq16: RTP sequence number arithmetic

    The three helpers at the end of [src/jitter/buffer.go], on 16-bit sequence
    numbers, and the lemmas that relate them to signed distances. *)

From stdpp Require Import base tactics list numbers.
From S2P Require Import Prelude.

(** [uint64(sn - prevSN - 1)] *)
Definition missingBetween (sn prevSN : Z) : Z := u64 (u16 (sn - prevSN - 1)).

(** [(b-a)&0x8000 == 0] *)
Definition before (a b : Z) : bool := Z.land (u16 (b - a)) 32768 =? 0.

(** [a-b < 3000 || b-a < 3000] *)
Definition withinRange (a b : Z) : bool := (u16 (a - b) <? 3000) || (u16 (b - a) <? 3000).

(** [b] is ahead of [a], by less than the range of [withinRange]. *)
Definition ahead (a b : Z) : Prop := 0 < u16 (b - a) < 3000.

Lemma land_bit15 z : 0 <= z < 65536 -> (Z.land z 32768 =? 0) = (z <? 32768).
Proof.
  intros Hz. change 32768 with (2 ^ 15) at 1.
  assert (Hl : Z.land z (2 ^ 15) = if Z.testbit z 15 then 2 ^ 15 else 0).
  { apply Z.bits_inj'. intros n Hn. rewrite Z.land_spec, Z.pow2_bits_eqb by lia.
    destruct (15 =? n) eqn:E; bool_cases.
    - subst n. destruct (Z.testbit z 15) eqn:Eb; [done|]. done.
    - rewrite andb_false_r. destruct (Z.testbit z 15); [|by rewrite Z.bits_0].
      rewrite Z.pow2_bits_eqb by lia. symmetry. apply Z.eqb_neq. done. }
  rewrite Hl, Z.testbit_eqb by lia. change (2 ^ 15) with 32768.
  destruct (z <? 32768) eqn:E; bool_cases.
  - rewrite Z.div_small by lia. done.
  - replace (z / 32768) with 1 by lia. done.
Qed.

Lemma before_spec a b : before a b = (u16 (b - a) <? 32768).
Proof. apply land_bit15, u16_range. Qed.

Lemma before_refl a : before a a = true.
Proof. rewrite before_spec, Z.sub_diag. done. Qed.

Lemma withinRange_spec a b :
  withinRange a b = true <-> u16 (a - b) < 3000 \/ u16 (b - a) < 3000.
Proof. unfold withinRange. rewrite orb_true_iff, !Z.ltb_lt. done. Qed.

(** Within range and not behind means equal or ahead. *)
Lemma ahead_of a b :
  0 <= a < 65536 -> 0 <= b < 65536 -> withinRange a b = true -> before a b = false -> ahead b a.
Proof. rewrite withinRange_spec, before_spec. unfold ahead. intros. bool_cases. word_lia. Qed.

Lemma behind_of a b :
  0 <= a < 65536 -> 0 <= b < 65536 -> withinRange a b = true -> before a b = true -> a <> b -> ahead a b.
Proof. rewrite withinRange_spec, before_spec. unfold ahead. intros. bool_cases. word_lia. Qed.

Lemma ahead_before a b : ahead a b -> before a b = true.
Proof. rewrite before_spec. unfold ahead. intros. apply Z.ltb_lt. lia. Qed.

Lemma ahead_not_before a b : ahead a b -> before b a = false.
Proof. rewrite before_spec. unfold ahead. intros. apply Z.ltb_ge. word_lia. Qed.

Lemma ahead_withinRange a b : ahead a b -> withinRange a b = true.
Proof. rewrite withinRange_spec. unfold ahead. lia. Qed.

Lemma ahead_withinRange' a b : ahead a b -> withinRange b a = true.
Proof. rewrite withinRange_spec. unfold ahead. lia. Qed.

Lemma ahead_neq a b : ahead a b -> a <> b.
Proof. unfold ahead. intros H ->. rewrite Z.sub_diag in H. unfold u16 in H. simpl in H. lia. Qed.

(** Ahead of something ahead, and still in range: ahead. *)
Lemma ahead_trans a b c :
  ahead a b -> ahead b c -> withinRange a c = true -> ahead a c.
Proof. rewrite withinRange_spec. unfold ahead. word_lia. Qed.

(** The number of sequence numbers strictly between two packets in order. *)
Lemma missingBetween_ahead sn prev :
  ahead prev sn -> missingBetween sn prev = u16 (sn - prev) - 1.
Proof. unfold ahead, missingBetween. word_lia. Qed.

Lemma missingBetween_next prev : missingBetween (u16 (prev + 1)) prev = 0.
Proof. unfold missingBetween. word_lia. Qed.

#[export] Hint Resolve ahead_before ahead_not_before ahead_withinRange ahead_withinRange' ahead_neq : go.
