(* ===== verification/Jitter.v ===== *)
(** * Jitter: the jitter buffer of [src/jitter/]

    The doubly linked list of packets from [b.head] to [b.tail] is the list
    [queue]; a node's [prev] and [next] are its neighbours in it, and [b.head]
    is nil when it is empty.  The free list [b.pool] only recycles nodes and is
    not represented.  Calls of the three handlers are recorded, oldest first,
    in [events].  A method that may dereference a nil node returns an
    [outcome]. *)

From stdpp Require Import base tactics numbers list.
From S2P Require Import Prelude GoFloat RtpTypes Seq16.

#[local] Open Scope go_scope.

(** ** Data *)

Record ExtPacket : Type := mkExt { ReceivedAt : time; pkt : Packet }.

(** [type packet struct], less its links. *)
Record packet : Type := mkPkt {
  extPacket : ExtPacket;
  start : bool;
  end_ : bool;
  discont : bool;
}.

(** The fields of [BufferStats]; a [BufferStats] maps each to its uint64. *)
Inductive counter : Type :=
| PacketsPushed | PaddingPushed | PacketsLost | PacketsDropped | PacketsPopped
| SamplesPopped | SSRCSwitches | PacketsReordered | SequenceRestarts
| PacketsStray | PacketsDuplicate.

#[export] Instance counter_eq_dec : EqDecision counter.
Proof. solve_decision. Defined.

Definition BufferStats : Type := counter -> Z.
Definition zeroStats : BufferStats := fun _ => 0.

(** [stats.c += n] *)
Definition bumpStats (c : counter) (n : Z) (s : BufferStats) : BufferStats :=
  fun c' => if decide (c = c') then u64 (s c + n) else s c'.

(** A sequence line and the pair of them ([lines.go]). *)
Record seqLine : Type := mkLine {
  ok : bool;
  high : Z;
  first : time;
  lastAt : time;
  at_ : list time;
}.

Definition emptyLine : seqLine := mkLine false 0 zeroTime zeroTime [].

Record lineVote : Type := mkVote { cur : seqLine; alt : seqLine }.

Definition emptyVote : lineVote := mkVote emptyLine emptyLine.

Inductive event : Type :=
| OnPacket (sample : list ExtPacket)
| OnPacketLoss (packetsLost packetsDropped : Z)
| OnStats (s : BufferStats).

(** [type Buffer struct]; [hasLoss] and [hasStats] say whether [onPacketLoss]
    and [onStats] are set, [timer] is the argument of the last [timer.Reset]
    (none once stopped). *)
Record Buffer : Type := mkBuf {
  latency : duration;
  hasLoss : bool;
  hasStats : bool;
  closed : bool;
  initialized : bool;
  prevSN : Z;
  ssrc : Z;
  hasSSRC : bool;
  detectRestarts : bool;
  lines : lineVote;
  queue : list packet;
  stats : BufferStats;
  timer : option duration;
  size : Z;
  events : list event;
}.

(** Field updates. *)
Definition set_latency (x : duration) (b : Buffer) : Buffer :=
  mkBuf x (hasLoss b) (hasStats b) (closed b) (initialized b) (prevSN b) (ssrc b) (hasSSRC b)
    (detectRestarts b) (lines b) (queue b) (stats b) (timer b) (size b) (events b).
Definition set_closed (x : bool) (b : Buffer) : Buffer :=
  mkBuf (latency b) (hasLoss b) (hasStats b) x (initialized b) (prevSN b) (ssrc b) (hasSSRC b)
    (detectRestarts b) (lines b) (queue b) (stats b) (timer b) (size b) (events b).
Definition set_sync (i : bool) (sn : Z) (b : Buffer) : Buffer :=
  mkBuf (latency b) (hasLoss b) (hasStats b) (closed b) i sn (ssrc b) (hasSSRC b)
    (detectRestarts b) (lines b) (queue b) (stats b) (timer b) (size b) (events b).
Definition set_ssrc (x : Z) (h : bool) (b : Buffer) : Buffer :=
  mkBuf (latency b) (hasLoss b) (hasStats b) (closed b) (initialized b) (prevSN b) x h
    (detectRestarts b) (lines b) (queue b) (stats b) (timer b) (size b) (events b).
Definition set_lines (x : lineVote) (b : Buffer) : Buffer :=
  mkBuf (latency b) (hasLoss b) (hasStats b) (closed b) (initialized b) (prevSN b) (ssrc b) (hasSSRC b)
    (detectRestarts b) x (queue b) (stats b) (timer b) (size b) (events b).
Definition set_queue (x : list packet) (b : Buffer) : Buffer :=
  mkBuf (latency b) (hasLoss b) (hasStats b) (closed b) (initialized b) (prevSN b) (ssrc b) (hasSSRC b)
    (detectRestarts b) (lines b) x (stats b) (timer b) (size b) (events b).
Definition set_timer (x : option duration) (b : Buffer) : Buffer :=
  mkBuf (latency b) (hasLoss b) (hasStats b) (closed b) (initialized b) (prevSN b) (ssrc b) (hasSSRC b)
    (detectRestarts b) (lines b) (queue b) (stats b) x (size b) (events b).
Definition set_size (x : Z) (b : Buffer) : Buffer :=
  mkBuf (latency b) (hasLoss b) (hasStats b) (closed b) (initialized b) (prevSN b) (ssrc b) (hasSSRC b)
    (detectRestarts b) (lines b) (queue b) (stats b) (timer b) x (events b).

(** [b.stats.c += n] *)
Definition bump (c : counter) (n : Z) (b : Buffer) : Buffer :=
  mkBuf (latency b) (hasLoss b) (hasStats b) (closed b) (initialized b) (prevSN b) (ssrc b) (hasSSRC b)
    (detectRestarts b) (lines b) (queue b) (bumpStats c n (stats b)) (timer b) (size b) (events b).

(** A handler call. *)
Definition emit (e : event) (b : Buffer) : Buffer :=
  mkBuf (latency b) (hasLoss b) (hasStats b) (closed b) (initialized b) (prevSN b) (ssrc b) (hasSSRC b)
    (detectRestarts b) (lines b) (queue b) (stats b) (timer b) (size b) (events b ++ [e]).

(** ** Sequence lines ([lines.go]) *)

Definition lineAhead : Z := 50.
Definition lineBehind : Z := 100.
Definition lineQuiet : duration := 60 * Millisecond.
Definition lineWindow : duration := 300 * Millisecond.
Definition lineMinPackets : Z := 5.
Definition lineParallel : duration := Second.

Definition fits (l : seqLine) (sn : Z) : bool :=
  ok l && ((u16 (sn - high l) <=? lineAhead) || (u16 (high l - sn) <=? lineBehind)).

Definition continues (l : seqLine) (sn hi : Z) : bool :=
  let step := u16 (sn - high l) in
  let jump := u16 (sn - hi) in
  ok l && (1 <=? step) && (step <? jump) && (jump <=? lineAhead).

Definition addLine (l : seqLine) (sn : Z) (at' : time) : seqLine :=
  mkLine true
    (if (negb (ok l) || before (high l) sn) then sn else high l)
    (if negb (ok l) then at' else first l)
    at'
    (at_ l ++ [at']).

(** The leading elements of [l] older than [window] at [now], removed. *)
Fixpoint dropOlder (now : time) (window : duration) (l : list time) : list time :=
  match l with
  | [] => []
  | t :: l' => if window <? Sub now t then dropOlder now window l' else l
  end.

Definition count (l : seqLine) (now : time) (window : duration) : Z * seqLine :=
  let at' := dropOlder now lineParallel (at_ l) in
  (zlen (dropOlder now window at'), mkLine (ok l) (high l) (first l) (lastAt l) at').

(** [seqLine{at: l.at[:0]}] *)
Definition resetLine (l : seqLine) : seqLine := mkLine false 0 zeroTime zeroTime [].

(** ** The packet list ([packet.go]) *)

Section buffer.
Context `{Depacketizer}.

Definition sn (p : packet) : Z := SequenceNumber (header (pkt (extPacket p))).

(** [newPacket]: the node for a packet; the caller's buffer grows by one. *)
Definition newPacket (pk : Packet) (receivedAt : time) (b : Buffer) : packet * Buffer :=
  (mkPkt (mkExt receivedAt pk)
     (IsPartitionHead (Payload pk))
     (IsPartitionTail (Marker (header pk)) (Payload pk)) false,
   set_size (size b + 1) b).

Definition set_discont (x : bool) (p : packet) : packet :=
  mkPkt (extPacket p) (start p) (end_ p) x.

(** The loop of [isComplete], from [c] with the nodes after it. *)
Fixpoint completeFrom (c : packet) (next : list packet) : bool :=
  match next with
  | [] => false
  | n :: next' =>
      if negb (sn n =? u16 (sn c + 1)) then false
      else if end_ n then true
      else completeFrom n next'
  end.

(** [isComplete] of the head of a list of nodes. *)
Definition isComplete (p : packet) (next : list packet) : bool :=
  if negb (start p) then false
  else if end_ p then true
  else completeFrom p next.

Definition free (b : Buffer) : Buffer := set_size (size b - 1) b.

(** ** Removing packets *)

(** [popHead] panics on an empty list. *)
Definition popHead (b : Buffer) : outcome (packet * Buffer) :=
  match queue b with
  | [] => Panic
  | c :: next => Ok (c, set_queue next (set_sync (initialized b) (sn c) b))
  end.

(** The loop of [popSample]; it runs at most once per node. *)
Fixpoint popSampleLoop (fuel : nat) (sample : list ExtPacket) (b : Buffer)
    : outcome (list ExtPacket * Buffer) :=
  match fuel with
  | O => Panic
  | S fuel =>
      let! (c, b) := popHead b in
      let sample := if Padding (header (pkt (extPacket c))) then sample
                    else sample ++ [extPacket c] in
      let b := free (bump PacketsPopped 1 b) in
      if end_ c then Ok (sample, b) else popSampleLoop fuel sample b
  end.

Definition popSample (b : Buffer) : outcome (list ExtPacket * Buffer) :=
  let! (sample, b) := popSampleLoop (S (length (queue b))) [] b in
  Ok (sample, bump SamplesPopped 1 (set_sync true (prevSN b) b)).

(** [if sample := b.popSample(); len(sample) > 0 { b.onPacket(sample) }] *)
Definition popAndEmit (b : Buffer) : outcome Buffer :=
  let! (sample, b) := popSample b in
  Ok (if 0 <? zlen sample then emit (OnPacket sample) b else b).

(** [b.head.SequenceNumber == b.prevSN+1 || b.head.discont || !b.initialized] *)
Definition headIsNext (p : packet) (b : Buffer) : bool :=
  (sn p =? u16 (prevSN b + 1)) || discont p || negb (initialized b).

Fixpoint dropIncompleteLoop (fuel : nat) (expiry : time) (force : bool) (dropped : bool)
    (b : Buffer) : outcome (bool * Buffer) :=
  match fuel with
  | O => Ok (dropped, b)
  | S fuel =>
      match queue b with
      | [] => Ok (dropped, b)
      | p :: next =>
          if negb (isComplete p next) && (force || Before (ReceivedAt (extPacket p)) expiry) then
            let b := if initialized b && negb (discont p)
                     then bump PacketsLost (missingBetween (sn p) (prevSN b)) b else b in
            let! (_, b) := popHead b in
            dropIncompleteLoop fuel expiry force true (bump PacketsDropped 1 (free b))
          else Ok (dropped, b)
      end
  end.

Definition dropIncomplete (expiry : time) (force : bool) (b : Buffer) : outcome (bool * Buffer) :=
  dropIncompleteLoop (length (queue b)) expiry force false b.

(** [if b.onPacketLoss != nil { b.onPacketLoss(lost, dropped) }] *)
Definition notifyLoss (b : Buffer) : Buffer :=
  if hasLoss b then emit (OnPacketLoss (stats b PacketsLost) (stats b PacketsDropped)) b else b.

(** [statsLocked]: a copy, field by field. *)
Definition statsLocked (b : Buffer) : BufferStats := fun c =>
  match c with
  | PacketsPushed => stats b PacketsPushed
  | PaddingPushed => stats b PaddingPushed
  | PacketsLost => stats b PacketsLost
  | PacketsDropped => stats b PacketsDropped
  | PacketsPopped => stats b PacketsPopped
  | SamplesPopped => stats b SamplesPopped
  | SSRCSwitches => stats b SSRCSwitches
  | PacketsReordered => stats b PacketsReordered
  | SequenceRestarts => stats b SequenceRestarts
  | PacketsStray => stats b PacketsStray
  | PacketsDuplicate => stats b PacketsDuplicate
  end.

Definition notifyStats (b : Buffer) : Buffer :=
  if hasStats b then emit (OnStats (statsLocked b)) b else b.

Definition dropIncompleteExpired (expiry : time) (b : Buffer) : outcome Buffer :=
  let! (dropped, b) := dropIncomplete expiry false b in
  Ok (if dropped then notifyLoss b else b).

Fixpoint popReadyLoop (fuel : nat) (expiry : time) (loss : bool) (b : Buffer)
    : outcome (bool * Buffer) :=
  match fuel with
  | O => Ok (loss, b)
  | S fuel =>
      match queue b with
      | [] => Ok (loss, b)
      | p :: next =>
          if negb (isComplete p next) then Ok (loss, b)
          else if headIsNext p b then
            let! b := popAndEmit b in popReadyLoop fuel expiry loss b
          else if negb (Before expiry (ReceivedAt (extPacket p))) then
            let b := bump PacketsLost (missingBetween (sn p) (prevSN b)) b in
            let! b := popAndEmit b in popReadyLoop fuel expiry true b
          else Ok (loss, b)
      end
  end.

(** [b.timer.Reset(b.head.extPacket.ReceivedAt.Add(b.latency).Sub(mono.Now()))] *)
Definition resetTimer (now : time) (b : Buffer) : Buffer :=
  match queue b with
  | [] => b
  | p :: _ => set_timer (Some (Sub (Add (ReceivedAt (extPacket p)) (latency b)) now)) b
  end.

(** [popReady] reads the clock twice: [now] for the expiry, [now'] for the timer. *)
Definition popReady (now now' : time) (b : Buffer) : outcome Buffer :=
  let expiry := Add now (- latency b) in
  let! b := dropIncompleteExpired expiry b in
  let! (loss, b) := popReadyLoop (length (queue b)) expiry false b in
  let b := if loss then notifyLoss b else b in
  Ok (resetTimer now' b).

Fixpoint flushLoop (fuel : nat) (loss dropped : bool) (b : Buffer)
    : outcome (bool * bool * Buffer) :=
  match fuel with
  | O => Ok (loss, dropped, b)
  | S fuel =>
      match queue b with
      | [] => Ok (loss, dropped, b)
      | p :: next =>
          if negb (isComplete p next) then Ok (loss, dropped, b)
          else
            let loss' := negb (headIsNext p b) in
            let b := if loss' then bump PacketsLost (missingBetween (sn p) (prevSN b)) b else b in
            let! b := popAndEmit b in
            let! (d, b) := dropIncomplete zeroTime true b in
            flushLoop fuel (loss || loss') (dropped || d) b
      end
  end.

Definition flushLocked (b : Buffer) : outcome Buffer :=
  let! (dropped, b) := dropIncomplete zeroTime true b in
  let! (loss, dropped, b) := flushLoop (length (queue b)) false dropped b in
  Ok (if loss || dropped then notifyLoss b else b).

Definition resetStream (b : Buffer) : outcome Buffer :=
  let! b := flushLocked b in
  Ok (set_sync false 0 b).

Definition switchStream (newSSRC : Z) (b : Buffer) : outcome Buffer :=
  let! b := resetStream b in
  Ok (notifyStats (bump SSRCSwitches 1 (set_lines emptyVote (set_ssrc newSSRC (hasSSRC b) b)))).

Definition shouldSwitch (pk : Packet) : bool := true.

Definition acceptLine (n : Z) (at' : time) (b : Buffer) : outcome (bool * Buffer) :=
  let v := lines b in
  if negb (ok (cur v)) || (fits (cur v) n && negb (continues (alt v) n (high (cur v)))) then
    Ok (true, set_lines (mkVote (addLine (cur v) n at') (alt v)) b)
  else
    let alt1 := if negb (fits (alt v) n) then resetLine (alt v) else alt v in
    let alt2 := addLine alt1 n at' in
    let parallel := lineParallel <=? Sub (lastAt (cur v)) (first alt2) in
    let quiet := negb parallel && (lineQuiet <=? Sub at' (lastAt (cur v))) in
    let '(takeOver, v') :=
      if negb quiet then
        let window := if parallel then lineParallel else lineWindow in
        let '(na, alt3) := count alt2 at' window in
        if na <? lineMinPackets then (false, mkVote (cur v) alt3)
        else
          let '(nc, cur3) := count (cur v) at' window in
          (negb (na <? 2 * nc), mkVote cur3 alt3)
      else (true, mkVote (cur v) alt2) in
    let b := set_lines v' b in
    if negb takeOver then Ok (false, b)
    else
      let isAhead := before (high (cur v')) n && withinRange n (high (cur v')) in
      let! b := (if negb isAhead then resetStream b else Ok b) in
      let b := if negb quiet || negb isAhead
               then notifyStats (bump SequenceRestarts 1 b) else b in
      Ok (true, set_lines (mkVote (alt v') (resetLine (cur v'))) b).

(** ** Adding packets *)

Definition reordered (b : Buffer) : Buffer := notifyStats (bump PacketsReordered 1 b).

Definition duplicate (pk : Packet) (b : Buffer) : Buffer :=
  if Padding (header pk) then b else notifyStats (bump PacketsDuplicate 1 b).

(** The result of looking for the place of a packet. *)
Inductive placement : Type :=
| Inserted (q : list packet)
| AlreadyThere
| NoPlace.

(** [for c := b.tail.prev; c != nil; c = c.prev]: the nodes up to [c] in
    reverse, and the nodes after it. *)
Fixpoint insertFromTail (p : packet) (upTo after : list packet) : placement :=
  match upTo with
  | [] => NoPlace
  | c :: upTo' =>
      if sn p =? sn c then AlreadyThere
      else
        let d := negb (withinRange (sn p) (sn c)) in
        if negb (before (sn p) (sn c)) || d then
          Inserted (rev upTo ++ set_discont (d && start p) p :: after)
        else insertFromTail p upTo' (c :: after)
  end.

(** [for c := b.head.next; c != nil; c = c.next]: the nodes before [c] in
    reverse, and the nodes from it. *)
Fixpoint insertFromHead (p : packet) (upTo from : list packet) : placement :=
  match from with
  | [] => NoPlace
  | c :: from' =>
      if sn p =? sn c then AlreadyThere
      else
        let d := negb (withinRange (sn p) (sn c)) in
        if before (sn p) (sn c) || d then
          Inserted (rev upTo ++ p :: from)
        else insertFromHead p (c :: upTo) from'
  end.

(** What [push] does with the place found by a search. *)
Definition place (pk : Packet) (r : placement) (b : Buffer) : Buffer :=
  match r with
  | Inserted q => set_queue q (reordered b)
  | AlreadyThere => duplicate pk (free b)
  | NoPlace => b
  end.

(** The insertion at the end of [push], in a list that is not empty. *)
Definition pushInto (pk : Packet) (p : packet) (disc : bool) (hd tl : packet) (b : Buffer) : Buffer :=
  let n := sn p in
  let beforeHead := before n (sn hd) in
  let afterTail := negb (before n (sn tl)) in
  let withinHeadRange := withinRange n (sn hd) in
  let withinTailRange := withinRange n (sn tl) in
  if beforeHead && withinHeadRange then
    set_queue (set_discont (disc && start p) p :: queue b) (reordered b)
  else if afterTail && withinTailRange then
    set_queue (queue b ++ [p]) b
  else if withinTailRange then
    place pk (insertFromTail p (tail (rev (queue b))) [tl]) b
  else if withinHeadRange then
    place pk (insertFromHead p [hd] (tail (queue b))) b
  else
    set_queue (queue b ++ [set_discont (start p) p]) b.

(** [push] after the stream checks: expiry, duplicates of the ends, insertion. *)
Definition pushAccepted (pk : Packet) (receivedAt : time) (b : Buffer) : Buffer :=
  let n := SequenceNumber (header pk) in
  if initialized b && before n (prevSN b) then
    if Padding (header pk) then b else notifyLoss (bump PacketsDropped 1 b)
  else
    match queue b, last (queue b) with
    | hd :: _, Some tl =>
        if (n =? sn hd) || (n =? sn tl) then duplicate pk b
        else
          let '(p, b) := newPacket pk receivedAt b in
          let disc := negb (initialized b) || negb (withinRange n (prevSN b)) in
          pushInto pk p disc hd tl b
    | _, _ =>
        let '(p, b) := newPacket pk receivedAt b in
        let disc := negb (initialized b) || negb (withinRange n (prevSN b)) in
        set_queue [set_discont (disc && start p) p] b
    end.

Definition push (pk : Packet) (receivedAt : time) (b : Buffer) : outcome Buffer :=
  let b := bump PacketsPushed 1 b in
  let b := if Padding (header pk) then bump PaddingPushed 1 b else b in
  if Padding (header pk) && negb (initialized b) then Ok b
  else
    let! b :=
      (if negb (hasSSRC b) then Ok (set_ssrc (SSRC (header pk)) true b)
       else if negb (SSRC (header pk) =? ssrc b) && shouldSwitch pk
       then switchStream (SSRC (header pk)) b
       else Ok b) in
    let! (accepted, b) :=
      (if detectRestarts b then acceptLine (SequenceNumber (header pk)) receivedAt b
       else Ok (true, b)) in
    if negb accepted then
      Ok (if Padding (header pk) then b
          else notifyStats (notifyLoss (bump PacketsDropped 1 (bump PacketsStray 1 b))))
    else Ok (pushAccepted pk receivedAt b).

(** ** The exported methods *)

(** [PushAt]; [now] and [now'] are the clock readings of its [popReady]. *)
Definition PushAt (pk : Packet) (receivedAt now now' : time) (b : Buffer) : outcome Buffer :=
  let! b := push pk receivedAt b in
  match queue b with
  | [] => Ok b
  | _ => popReady now now' b
  end.

(** [Push]; [received] is the clock reading that it passes on. *)
Definition Push (pk : Packet) (received now now' : time) (b : Buffer) : outcome Buffer :=
  PushAt pk received now now' b.

Definition PushExtPacket (p : ExtPacket) (now now' : time) (b : Buffer) : outcome Buffer :=
  PushAt (pkt p) (ReceivedAt p) now now' b.

(** Each packet comes with the clock readings of its own [PushAt]. *)
Fixpoint PushExtPacketBatch (batch : list (ExtPacket * time * time)) (b : Buffer) : outcome Buffer :=
  match batch with
  | [] => Ok b
  | (p, now, now') :: batch =>
      let! b := PushExtPacket p now now' b in
      PushExtPacketBatch batch b
  end.

Definition UpdateLatency (l : duration) (now : time) (b : Buffer) : Buffer :=
  resetTimer now (set_latency l b).

Definition Flush (b : Buffer) : outcome Buffer := flushLocked b.

Definition Close (b : Buffer) : outcome Buffer :=
  let! b := Flush b in
  Ok (set_closed true (set_timer None b)).

Definition Size (b : Buffer) : Z := size b.

Definition Stats (b : Buffer) : BufferStats := statsLocked b.

(** [BufferStats.PacketLoss] *)
Definition PacketLoss (s : BufferStats) : float :=
  if s PacketsPushed =? 0 then ofInt 0 else fdiv (ofInt (s PacketsDropped)) (ofInt (s PacketsPushed)).

(** Options of [NewBuffer]. *)
Inductive option_ : Type :=
| WithPacketLossHandler
| WithStatsHandler
| WithSequenceRestartDetection.

Definition applyOption (b : Buffer) (o : option_) : Buffer :=
  mkBuf (latency b)
    (match o with WithPacketLossHandler => true | _ => hasLoss b end)
    (match o with WithStatsHandler => true | _ => hasStats b end)
    (closed b) (initialized b) (prevSN b) (ssrc b) (hasSSRC b)
    (match o with WithSequenceRestartDetection => true | _ => detectRestarts b end)
    (lines b) (queue b) (stats b) (timer b) (size b) (events b).

Definition NewBuffer (lat : duration) (opts : list option_) : Buffer :=
  fold_left applyOption opts
    (mkBuf lat false false false false 0 0 false false emptyVote [] zeroStats (Some lat) 0 []).

(** ** The calls a buffer receives *)

Inductive input : Type :=
| InPush (pk : Packet) (receivedAt now now' : time)
| InTimer (now now' : time)   (* the goroutine of [NewBuffer] *)
| InFlush
| InUpdateLatency (l : duration) (now : time)
| InClose.

(** The goroutine when the timer fires.  After [Close] it has returned. *)
Definition timerFired (now now' : time) (b : Buffer) : outcome Buffer :=
  if closed b then Ok b else popReady now now' b.

(** One call. *)
Definition step (b : Buffer) (i : input) : outcome Buffer :=
  match i with
  | InPush pk receivedAt now now' => PushAt pk receivedAt now now' b
  | InTimer now now' => timerFired now now' b
  | InFlush => Flush b
  | InUpdateLatency l now => Ok (UpdateLatency l now b)
  | InClose => Close b
  end.

Fixpoint run (b : Buffer) (ins : list input) : outcome Buffer :=
  match ins with
  | [] => Ok b
  | i :: ins => let! b := step b i in run b ins
  end.

End buffer.
