(* ===== verification/JitterSpec.v ===== *)
(** * JitterSpec: the jitter buffer as a transition system

    Every method of [Jitter.Buffer] is shown to be a sequence of elementary
    transitions: a complete sample leaves the head of the queue, an incomplete
    packet is dropped from the head, a packet enters the queue or is refused,
    a counter or a handler is updated.  Invariants are then proved by rule
    induction on these transitions. *)

From stdpp Require Import base tactics numbers list relations.
From S2P Require Import Prelude RtpTypes Seq16 Jitter.

#[local] Open Scope go_scope.

(** ** Samples *)

(** The packets of a sample after its first packet [c]. *)
Inductive continuation (c : packet) : list packet -> Prop :=
| cont_end n : sn n = u16 (sn c + 1) -> end_ n = true -> continuation c [n]
| cont_more n ns : sn n = u16 (sn c + 1) -> end_ n = false -> continuation n ns ->
    continuation c (n :: ns).

(** A complete sample: from a start packet to the first end packet, with
    consecutive sequence numbers. *)
Inductive is_sample : list packet -> Prop :=
| sample_one p : start p = true -> end_ p = true -> is_sample [p]
| sample_more p ns : start p = true -> end_ p = false -> continuation p ns ->
    is_sample (p :: ns).

(** What the handler receives of it: padding is left out. *)
Definition visible (nodes : list packet) : list ExtPacket :=
  extPacket <$> filter (fun c => Padding (header (pkt (extPacket c))) = false) nodes.

(** The sequence numbers given to the packet handler, in order. *)
Definition emittedOf (e : event) : list Z :=
  match e with
  | OnPacket sample => (fun p => SequenceNumber (header (pkt p))) <$> sample
  | _ => []
  end.

Definition emitted (b : Buffer) : list Z := concat (emittedOf <$> events b).

(** ** Elementary transitions *)

(** [c] leaves the head of the queue as part of a sample. *)
Definition popNode (b : Buffer) (c : packet) : Buffer :=
  free (bump PacketsPopped 1 (set_queue (tail (queue b)) (set_sync (initialized b) (sn c) b))).

Definition afterSample (nodes : list packet) (b : Buffer) : Buffer :=
  let b := fold_left popNode nodes b in
  let b := bump SamplesPopped 1 (set_sync true (prevSN b) b) in
  if 0 <? zlen (visible nodes) then emit (OnPacket (visible nodes)) b else b.

(** [p] is dropped from the head of the queue. *)
Definition afterDrop (p : packet) (b : Buffer) : Buffer :=
  bump PacketsDropped 1 (free (set_queue (tail (queue b)) (set_sync (initialized b) (sn p) b))).

Definition is_report (e : event) : Prop :=
  match e with OnPacket _ => False | _ => True end.

(** The loss counted when the head leaves the queue. *)
Definition lossAt (p : packet) (b : Buffer) : Z := missingBetween (sn p) (prevSN b).

(** Transitions that keep the stream. *)
Inductive internal : Buffer -> Buffer -> Prop :=
| int_sample b nodes rest :
    queue b = nodes ++ rest -> is_sample nodes ->
    (exists p, head nodes = Some p /\ headIsNext p b = true) ->
    internal b (afterSample nodes b)
| int_late_sample b nodes rest p :
    queue b = nodes ++ rest -> is_sample nodes -> head nodes = Some p ->
    headIsNext p b = false ->
    internal b (afterSample nodes (bump PacketsLost (lossAt p b) b))
| int_drop b p rest :
    queue b = p :: rest -> isComplete p rest = false ->
    initialized b && negb (discont p) = false ->
    internal b (afterDrop p b)
| int_drop_lost b p rest :
    queue b = p :: rest -> isComplete p rest = false ->
    initialized b && negb (discont p) = true ->
    internal b (afterDrop p (bump PacketsLost (lossAt p b) b))
| int_report b e : is_report e -> internal b (emit e b)
| int_timer b t : internal b (set_timer t b)
| int_latency b l : internal b (set_latency l b)
| int_close b : internal b (set_closed true b).

(** Transitions that move to another stream. *)
Inductive resync : Buffer -> Buffer -> Prop :=
| res_sync b : queue b = [] -> resync b (set_sync false 0 b)
| res_ssrc b s h : resync b (set_ssrc s h b)
| res_lines b v : resync b (set_lines v b)
| res_switch b : resync b (bump SSRCSwitches 1 b)
| res_restart b : resync b (bump SequenceRestarts 1 b).

(** What happens to a pushed packet. *)
Inductive disposed (pk : Packet) (receivedAt : time) (b : Buffer) : Buffer -> Prop :=
| disp_padding : Padding (header pk) = true -> disposed pk receivedAt b b
| disp_expired : Padding (header pk) = false ->
    disposed pk receivedAt b (bump PacketsDropped 1 b)
| disp_stray : Padding (header pk) = false ->
    disposed pk receivedAt b (bump PacketsDropped 1 (bump PacketsStray 1 b))
| disp_duplicate : Padding (header pk) = false ->
    (exists c, c ∈ queue b /\ sn c = SequenceNumber (header pk)) ->
    disposed pk receivedAt b (bump PacketsDuplicate 1 b)
| disp_queued p l1 l2 b' :
    queue b = l1 ++ l2 -> extPacket p = mkExt receivedAt pk ->
    b' = b \/ b' = bump PacketsReordered 1 b ->
    disposed pk receivedAt b (set_queue (l1 ++ p :: l2) (set_size (size b + 1) b')).

(** ** Complete samples *)

Section samples.
Context `{Depacketizer}.

Lemma completeFrom_spec next : forall c,
  completeFrom c next = true <->
  exists ns rest, next = ns ++ rest /\ continuation c ns.
Proof.
  induction next as [|n next IH]; intros c; simpl.
  - split; [done|]. intros (ns & rest & Heq & Hc). destruct Hc; done.
  - destruct (sn n =? u16 (sn c + 1)) eqn:Hn; simpl; bool_cases.
    + destruct (end_ n) eqn:He.
      * split; [|done]. intros _. exists [n], next. split; [done|]. by constructor.
      * rewrite IH. split.
        -- intros (ns & rest & -> & Hc). exists (n :: ns), rest. split; [done|]. by apply cont_more.
        -- intros (ns & rest & Heq & Hc). destruct Hc as [|n' ns' ? ? Hc];
             simplify_eq/=; [congruence|]. eauto.
    + split; [done|]. intros (ns & rest & Heq & Hc). destruct Hc; simplify_eq/=.
Qed.

Lemma isComplete_spec p next :
  isComplete p next = true <->
  exists ns rest, next = ns ++ rest /\ is_sample (p :: ns).
Proof.
  unfold isComplete. destruct (start p) eqn:Hs; simpl; [destruct (end_ p) eqn:He|].
  - split; [|done]. intros _. exists [], next. split; [done|]. by constructor.
  - rewrite completeFrom_spec. split.
    + intros (ns & rest & -> & Hc). exists ns, rest. split; [done|]. by constructor.
    + intros (ns & rest & -> & Hc). exists ns, rest. split; [done|].
      inversion Hc; simplify_eq; congruence.
  - split; [done|]. intros (ns & rest & -> & Hc). inversion Hc; congruence.
Qed.

(** The nodes that the loop of [popSample] takes. *)
Inductive ends_at_last : list packet -> Prop :=
| eal_one c : end_ c = true -> ends_at_last [c]
| eal_more c ns : end_ c = false -> ends_at_last ns -> ends_at_last (c :: ns).

Lemma continuation_ends c ns : continuation c ns -> ends_at_last ns.
Proof. induction 1; by constructor. Qed.

Lemma sample_ends nodes : is_sample nodes -> ends_at_last nodes.
Proof. destruct 1; constructor; eauto using continuation_ends. Qed.

Lemma visible_cons c ns :
  visible (c :: ns) =
    (if Padding (header (pkt (extPacket c))) then [] else [extPacket c]) ++ visible ns.
Proof.
  unfold visible. rewrite filter_cons.
  destruct (Padding (header (pkt (extPacket c)))); case_decide; done.
Qed.

Lemma popSampleLoop_spec nodes : ends_at_last nodes -> forall fuel acc b rest,
  queue b = nodes ++ rest -> (length nodes <= fuel)%nat ->
  popSampleLoop fuel acc b = Ok (acc ++ visible nodes, fold_left popNode nodes b).
Proof.
  induction 1 as [c Hc|c ns Hc Hns IH]; intros fuel acc b rest Hq Hf;
    (destruct fuel as [|fuel]; [simpl in Hf; lia|]); simpl; unfold popHead; rewrite Hq; simpl;
    rewrite Hc.
  - f_equal. f_equal; [|unfold popNode; rewrite Hq; done].
    rewrite visible_cons. destruct (Padding _); rewrite ?app_nil_r; done.
  - rewrite (IH _ _ _ rest); [|done|simpl in Hf; lia]. f_equal. f_equal.
    + rewrite visible_cons. destruct (Padding _); rewrite <- ?app_assoc; done.
    + unfold popNode at 3. rewrite Hq. done.
Qed.

Lemma popAndEmit_spec b nodes rest :
  queue b = nodes ++ rest -> is_sample nodes -> popAndEmit b = Ok (afterSample nodes b).
Proof.
  intros Hq Hs. unfold popAndEmit, popSample.
  rewrite (popSampleLoop_spec nodes (sample_ends _ Hs) _ _ _ rest);
    [done|done|rewrite Hq, length_app; lia].
Qed.

Lemma popNode_fold nodes : forall b rest,
  queue b = nodes ++ rest ->
  queue (fold_left popNode nodes b) = rest /\
  events (fold_left popNode nodes b) = events b /\
  initialized (fold_left popNode nodes b) = initialized b /\
  size (fold_left popNode nodes b) = size b - zlen nodes /\
  (forall c, c <> PacketsPopped -> stats (fold_left popNode nodes b) c = stats b c) /\
  u64 (stats (fold_left popNode nodes b) PacketsPopped) = u64 (stats b PacketsPopped + zlen nodes) /\
  prevSN (fold_left popNode nodes b) = default (prevSN b) (sn <$> last nodes).
Proof.
  induction nodes as [|c nodes IH]; intros b rest Hq; simpl.
  - unfold zlen; simpl. rewrite Z.sub_0_r, Z.add_0_r. done.
  - destruct (IH (popNode b c) rest) as (H1 & H2 & H3 & H4 & H5 & H6 & H7).
    { simpl. rewrite Hq. done. }
    rewrite H1, H2, H3, H4, H6, H7. unfold zlen in *. split_and!; try done.
    + simpl. lia.
    + intros c' Hc'. rewrite H5 by done. simpl. unfold bumpStats. rewrite decide_False; done.
    + simpl. unfold bumpStats. rewrite decide_True by done. word_lia.
    + rewrite last_cons. destruct (last nodes); done.
Qed.

Lemma afterSample_spec nodes b rest :
  queue b = nodes ++ rest -> is_sample nodes ->
  queue (afterSample nodes b) = rest /\
  initialized (afterSample nodes b) = true /\
  size (afterSample nodes b) = size b - zlen nodes /\
  (forall c, c <> PacketsPopped -> c <> SamplesPopped -> stats (afterSample nodes b) c = stats b c) /\
  u64 (stats (afterSample nodes b) PacketsPopped) = u64 (stats b PacketsPopped + zlen nodes) /\
  prevSN (afterSample nodes b) = default (prevSN b) (sn <$> last nodes) /\
  events (afterSample nodes b) =
    events b ++ (if decide (visible nodes = []) then [] else [OnPacket (visible nodes)]).
Proof.
  intros Hq _. destruct (popNode_fold nodes b rest Hq) as (H1 & H2 & H3 & H4 & H5 & H6 & H7).
  unfold afterSample.
  assert (Hv : 0 <? zlen (visible nodes) = negb (bool_decide (visible nodes = []))).
  { destruct (visible nodes); [done|]. apply Z.ltb_lt. unfold zlen. simpl. lia. }
  rewrite Hv. case_bool_decide; case_decide; try done; simpl;
    rewrite ?H1, ?H2, ?H4, ?H7, ?app_nil_r; split_and!; try done;
    try (intros c Hc Hc'; unfold bumpStats; rewrite decide_False by done; by apply H5);
    unfold bumpStats; rewrite decide_False by done; done.
Qed.

End samples.

(** ** The loops that empty the head of the queue *)

Section loops.
Context `{Depacketizer}.

(** [dropIncomplete] stops at a head it must keep. *)
Definition keeps_head (expiry : time) (force : bool) (b : Buffer) : Prop :=
  match queue b with
  | [] => True
  | p :: next =>
      isComplete p next = true \/ (force = false /\ expiry <= ReceivedAt (extPacket p))
  end.

Lemma dropIncompleteLoop_spec expiry force fuel : forall dropped b,
  (length (queue b) <= fuel)%nat ->
  exists d b', dropIncompleteLoop fuel expiry force dropped b = Ok (d, b') /\
    rtc internal b b' /\ keeps_head expiry force b' /\
    (length (queue b') <= length (queue b))%nat.
Proof.
  induction fuel as [|fuel IH]; intros dropped b Hf; simpl.
  - exists dropped, b. split_and!; [done|done| |lia].
    unfold keeps_head. destruct (queue b); [done|simpl in Hf; lia].
  - destruct (queue b) as [|p next] eqn:Hq.
    + exists dropped, b. unfold keeps_head. rewrite Hq. done.
    + destruct (isComplete p next) eqn:Hc; simpl.
      { exists dropped, b. unfold keeps_head. rewrite Hq. split_and!; try done. by left. }
      destruct (force || _) eqn:He; simpl.
      2: { exists dropped, b. unfold keeps_head. rewrite Hq. split_and!; try done.
           right. unfold Before in He. bool_cases. done. }
      set (b0 := if initialized b && negb (discont p) then _ else b).
      assert (Hq0 : queue b0 = p :: next) by (unfold b0; destruct (_ && _); done).
      assert (Hi : internal b (afterDrop p b0)).
      { unfold b0. destruct (initialized b && negb (discont p)) eqn:E.
        - by apply (int_drop_lost b p next).
        - by apply (int_drop b p next). }
      unfold popHead. rewrite Hq0. simpl.
      replace (bump _ _ _) with (afterDrop p b0) by (unfold afterDrop; rewrite Hq0; done).
      destruct (IH true (afterDrop p b0)) as (d & b' & -> & Hr & Hk & Hl).
      { simpl. rewrite Hq0. simpl in *. lia. }
      exists d, b'. split_and!; [done|by eapply rtc_l|done|].
      simpl in *. rewrite Hq0 in Hl. simpl in Hl. lia.
Qed.

Lemma dropIncomplete_spec expiry force b :
  exists d b', dropIncomplete expiry force b = Ok (d, b') /\
    rtc internal b b' /\ keeps_head expiry force b' /\
    (length (queue b') <= length (queue b))%nat.
Proof. apply dropIncompleteLoop_spec. done. Qed.

Lemma notifyLoss_internal b : rtc internal b (notifyLoss b).
Proof. unfold notifyLoss. case_if; [apply rtc_once; by constructor|done]. Qed.

Lemma notifyStats_internal b : rtc internal b (notifyStats b).
Proof. unfold notifyStats. case_if; [apply rtc_once; by constructor|done]. Qed.

(** [popReady] stops at a head that is incomplete, or behind a gap and young. *)
Definition not_ready (expiry : time) (b : Buffer) : Prop :=
  match queue b with
  | [] => True
  | p :: next =>
      isComplete p next = false \/
      (headIsNext p b = false /\ expiry < ReceivedAt (extPacket p))
  end.

(** One sample taken from a complete head. *)
Lemma popAndEmit_head b p next :
  queue b = p :: next -> isComplete p next = true ->
  exists nodes, is_sample nodes /\ head nodes = Some p /\
    (forall n, popAndEmit (bump PacketsLost n b) = Ok (afterSample nodes (bump PacketsLost n b))) /\
    popAndEmit b = Ok (afterSample nodes b) /\
    exists rest, queue b = nodes ++ rest /\
      queue (afterSample nodes b) = rest /\
      (forall n, queue (afterSample nodes (bump PacketsLost n b)) = rest) /\
      (length rest < length (queue b))%nat.
Proof.
  intros Hq Hc. apply isComplete_spec in Hc as (ns & rest & -> & Hs).
  exists (p :: ns). split_and!; try done.
  - intros n. by apply (popAndEmit_spec _ (p :: ns) rest).
  - by apply (popAndEmit_spec _ (p :: ns) rest).
  - exists rest. split_and!; try done.
    + by apply (afterSample_spec (p :: ns) b rest).
    + intros n. by apply (afterSample_spec (p :: ns) (bump PacketsLost n b) rest).
    + rewrite Hq. simpl. rewrite length_app. lia.
Qed.

Lemma popReadyLoop_spec expiry fuel : forall loss b,
  (length (queue b) <= fuel)%nat ->
  exists l b', popReadyLoop fuel expiry loss b = Ok (l, b') /\
    rtc internal b b' /\ not_ready expiry b'.
Proof.
  induction fuel as [|fuel IH]; intros loss b Hf; simpl.
  - exists loss, b. split_and!; [done|done|].
    unfold not_ready. destruct (queue b); [done|simpl in Hf; lia].
  - destruct (queue b) as [|p next] eqn:Hq.
    + exists loss, b. unfold not_ready. rewrite Hq. done.
    + destruct (isComplete p next) eqn:Hc; simpl.
      2: { exists loss, b. unfold not_ready. rewrite Hq. split_and!; try done. by left. }
      destruct (popAndEmit_head b p next Hq Hc)
        as (nodes & Hs & Hh & Hl & He & rest & Hq' & Hr & Hr' & Hlen).
      rewrite Hq in Hlen. simpl in Hf, Hlen.
      destruct (headIsNext p b) eqn:Hn.
      * rewrite He. simpl. destruct (IH loss (afterSample nodes b)) as (l & b' & -> & Hi & Hk);
          [rewrite Hr; lia|].
        exists l, b'. split_and!; try done. eapply rtc_l; [|done].
        eapply int_sample; eauto.
      * destruct (Before expiry _) eqn:Hb; simpl.
        { exists loss, b. unfold not_ready. rewrite Hq. split_and!; try done. right.
          unfold Before in Hb. bool_cases. done. }
        rewrite Hl. simpl.
        destruct (IH true (afterSample nodes (bump PacketsLost (missingBetween (sn p) (prevSN b)) b)))
          as (l & b' & -> & Hi & Hk); [rewrite Hr'; lia|].
        exists l, b'. split_and!; try done. eapply rtc_l; [|done].
        eapply int_late_sample; eauto.
Qed.

Lemma resetTimer_internal now b : rtc internal b (resetTimer now b).
Proof. unfold resetTimer. destruct (queue b); [done|]. apply rtc_once. by constructor. Qed.

(** A transition takes packets from the head of the queue only. *)
Lemma fold_popNode_queue nodes : forall b, queue (fold_left popNode nodes b) = drop (length nodes) (queue b).
Proof.
  induction nodes as [|p nodes IH]; intros b; simpl; [by rewrite drop_0|]. rewrite IH. simpl. destruct (queue b); simpl; by rewrite ?drop_nil.
Qed.

Lemma afterSample_queue nodes b : queue (afterSample nodes b) = drop (length nodes) (queue b).
Proof. unfold afterSample. rewrite <- fold_popNode_queue. by case_if. Qed.

Lemma internals_suffix b b' : rtc internal b b' -> exists k, queue b' = drop k (queue b).
Proof.
  induction 1 as [b|b b1 b2 Hi _ (k & IH)]; [by exists 0%nat|]. rewrite IH.
  assert (exists j, queue b1 = drop j (queue b)) as (j & ->) by (destruct Hi as [| |b p rest Hq|b p rest Hq| | | |];
    rewrite ?afterSample_queue; first [by eexists|exists 1%nat; simpl; by rewrite Hq|by exists 0%nat]).
  rewrite drop_drop. by eexists.
Qed.

Lemma suffix_same {A} k (l : list A) : length (drop k l) = length l -> drop k l = l.
Proof. rewrite length_drop. intros Hl. destruct (decide (k = 0%nat)) as [->|]; [done|]. destruct l; [by rewrite drop_nil|simpl in Hl; lia]. Qed.

Lemma popReady_spec now now' b :
  exists b', popReady now now' b = Ok b' /\ rtc internal b b' /\
    not_ready (now - latency b) b' /\
    (match queue b' with
     | [] => True
     | p :: _ => timer b' = Some (Sub (Add (ReceivedAt (extPacket p)) (latency b')) now')
     end) /\
    (length (queue b') = length (queue b) ->
     keeps_head (now - latency b) false b').
Proof.
  unfold popReady, dropIncompleteExpired. change (Add now (- latency b)) with (now - latency b).
  destruct (dropIncomplete_spec (now - latency b) false b) as (d & b1 & -> & Hi1 & Hk1 & _). simpl.
  set (b2 := if d then notifyLoss b1 else b1).
  assert (Hi2 : rtc internal b1 b2) by (unfold b2; destruct d; [apply notifyLoss_internal|done]).
  destruct (popReadyLoop_spec (now - latency b) (length (queue b2)) false b2)
    as (l & b3 & -> & Hi3 & Hn); [done|]. simpl.
  set (b4 := if l then notifyLoss b3 else b3).
  assert (Hi4 : rtc internal b3 b4) by (unfold b4; destruct l; [apply notifyLoss_internal|done]).
  assert (Hn4 : not_ready (now - latency b) b4).
  { unfold b4. destruct l; [|done]. unfold notifyLoss. destruct (hasLoss b3); done. }
  eexists. split; [done|]. split_and!.
  - do 3 (etrans; [eassumption|]). etrans; [exact Hi4|apply resetTimer_internal].
  - revert Hn4. unfold not_ready, resetTimer. destruct (queue b4) as [|p next] eqn:Hq; simpl;
      rewrite ?Hq; done.
  - unfold resetTimer. destruct (queue b4) as [|p next] eqn:Hq; simpl; rewrite ?Hq; done.
  - assert (Hq4 : queue (resetTimer now' b4) = queue b4) by (unfold resetTimer; by destruct (queue b4) eqn:?).
    assert (rtc internal b1 b4) as Hi14 by (do 2 (etrans; [eassumption|]); done).
    unfold keeps_head in *. rewrite Hq4. intros Hl.
    destruct (internals_suffix _ _ Hi1) as (k1 & H1), (internals_suffix _ _ Hi14) as (k2 & H2).
    assert (queue b4 = queue b1) as ->; [|done]. rewrite H2. apply suffix_same. rewrite <- H2, Hl, H1.
    pose proof (length_drop (queue b) k1). rewrite H2, H1, !length_drop in Hl. rewrite length_drop. lia.
Qed.

Lemma flushLoop_spec fuel : forall loss dropped b,
  (length (queue b) <= fuel)%nat -> keeps_head zeroTime true b ->
  exists l d b', flushLoop fuel loss dropped b = Ok (l, d, b') /\
    rtc internal b b' /\ queue b' = [].
Proof.
  induction fuel as [|fuel IH]; intros loss dropped b Hf Hk; simpl.
  - exists loss, dropped, b. split_and!; [done|done|]. destruct (queue b); [done|simpl in Hf; lia].
  - destruct (queue b) as [|p next] eqn:Hq; [by exists loss, dropped, b|].
    unfold keeps_head in Hk. rewrite Hq in Hk. destruct Hk as [Hc|[? _]]; [|done].
    rewrite Hc. simpl.
    destruct (popAndEmit_head b p next Hq Hc)
      as (nodes & Hs & Hh & Hl & He & rest & Hq' & Hr & Hr' & Hlen).
    rewrite Hq in Hlen. simpl in Hf, Hlen.
    set (b1 := if negb (headIsNext p b) then _ else b).
    assert (H1 : popAndEmit b1 = Ok (afterSample nodes b1) /\
                 internal b (afterSample nodes b1) /\ queue (afterSample nodes b1) = rest).
    { unfold b1. destruct (headIsNext p b) eqn:Hn; simpl.
      - split_and!; [done|eapply int_sample; eauto|done].
      - split_and!; [done|eapply int_late_sample; eauto|done]. }
    destruct H1 as (-> & Hi1 & Hq1). simpl.
    destruct (dropIncomplete_spec zeroTime true (afterSample nodes b1))
      as (d & b2 & -> & Hi2 & Hk2 & Hl2). simpl. rewrite Hq1 in Hl2.
    destruct (IH (loss || negb (headIsNext p b)) (dropped || d) b2) as (l' & d' & b' & -> & Hi3 & Hq3);
      [lia|done|].
    exists l', d', b'. split_and!; [done| |done].
    eapply rtc_l; [exact Hi1|]. by etrans.
Qed.

Lemma flushLocked_spec b :
  exists b', flushLocked b = Ok b' /\ rtc internal b b' /\ queue b' = [].
Proof.
  unfold flushLocked.
  destruct (dropIncomplete_spec zeroTime true b) as (d & b1 & -> & Hi1 & Hk1 & _). simpl.
  destruct (flushLoop_spec (length (queue b1)) false d b1) as (l & d' & b2 & -> & Hi2 & Hq2);
    [done|done|]. simpl.
  eexists. split; [done|]. split.
  - etrans; [exact Hi1|]. etrans; [exact Hi2|].
    destruct (l || d'); [apply notifyLoss_internal|done].
  - destruct (l || d'); [|done]. unfold notifyLoss. destruct (hasLoss b2); done.
Qed.

End loops.

(** ** Adding a packet *)

Definition moves (b b' : Buffer) : Prop := internal b b' \/ resync b b'.

Section pushing.
Context `{Depacketizer}.

Lemma internal_moves b b' : rtc internal b b' -> rtc moves b b'.
Proof. apply rtc_subrel. intros x y ?. by left. Qed.

(** What a search returns: a place in the list, or a packet of the list with
    the same sequence number. *)
Definition placed_in (p : packet) (l : list packet) (r : placement) : Prop :=
  match r with
  | Inserted q => exists l1 l2 p', l = l1 ++ l2 /\ q = l1 ++ p' :: l2 /\ extPacket p' = extPacket p
  | AlreadyThere => exists c, c ∈ l /\ sn c = sn p
  | NoPlace => False
  end.

Lemma insertFromTail_place p hd upTo : forall after,
  last upTo = Some hd ->
  before (sn p) (sn hd) && withinRange (sn p) (sn hd) = false ->
  placed_in p (rev upTo ++ after) (insertFromTail p upTo after).
Proof.
  induction upTo as [|c upTo IH]; intros after Hl Hhd; [done|]. cbn [insertFromTail].
  destruct (sn p =? sn c) eqn:E; bool_cases.
  { exists c. split; [|done]. simpl. set_solver. }
  destruct (negb (before (sn p) (sn c)) || negb (withinRange (sn p) (sn c))) eqn:Eb.
  - exists (rev (c :: upTo)), after. eexists. split_and!; done.
  - destruct upTo as [|c' upTo].
    + simpl in Hl. simplify_eq. exfalso. bool_cases. rewrite H0, H1 in Hhd. done.
    + specialize (IH (c :: after)). simpl rev in *. rewrite <- !app_assoc in *. simpl in *.
      apply IH; done.
Qed.

Lemma insertFromHead_place p tl from : forall upTo,
  last from = Some tl -> withinRange (sn p) (sn tl) = false ->
  placed_in p (rev upTo ++ from) (insertFromHead p upTo from).
Proof.
  induction from as [|c from IH]; intros upTo Hl Htl; [done|]. cbn [insertFromHead].
  destruct (sn p =? sn c) eqn:E; bool_cases.
  { exists c. split; [|done]. set_solver. }
  destruct (before (sn p) (sn c) || negb (withinRange (sn p) (sn c))) eqn:Eb.
  - exists (rev upTo), (c :: from), p. split_and!; done.
  - destruct from as [|c' from].
    + simpl in Hl. simplify_eq. bool_cases. congruence.
    + specialize (IH (c :: upTo)). simpl rev in IH. rewrite <- app_assoc in IH. simpl in IH.
      apply IH; done.
Qed.

(** The buffer after [newPacket]. *)
Definition grown (b : Buffer) : Buffer := set_size (size b + 1) b.

Lemma free_grown b : free (grown b) = b.
Proof. destruct b. unfold free, grown, set_size. simpl. f_equal. lia. Qed.

Lemma duplicate_disposed pk receivedAt b :
  (exists c, c ∈ queue b /\ sn c = SequenceNumber (header pk)) ->
  exists b2, disposed pk receivedAt b b2 /\ rtc internal b2 (duplicate pk b).
Proof.
  intros Hc. unfold duplicate. destruct (Padding (header pk)) eqn:Hp.
  - exists b. split; [by constructor|done].
  - eexists. split; [by apply disp_duplicate|apply notifyStats_internal].
Qed.

Lemma queued_disposed pk receivedAt b p l1 l2 :
  queue b = l1 ++ l2 -> extPacket p = mkExt receivedAt pk ->
  disposed pk receivedAt b (set_queue (l1 ++ p :: l2) (grown b)).
Proof. intros Hq Hp. change (grown b) with (set_size (size b + 1) b). eapply disp_queued; eauto. Qed.

Lemma reordered_disposed pk receivedAt b p l1 l2 :
  queue b = l1 ++ l2 -> extPacket p = mkExt receivedAt pk ->
  exists b2, disposed pk receivedAt b b2 /\
    rtc internal b2 (set_queue (l1 ++ p :: l2) (reordered (grown b))).
Proof.
  intros Hq Hp.
  exists (set_queue (l1 ++ p :: l2) (set_size (size b + 1) (bump PacketsReordered 1 b))).
  split; [eapply disp_queued; eauto|].
  unfold reordered, notifyStats. simpl. destruct (hasStats b); [|done].
  apply rtc_once.
  exact (int_report (set_queue (l1 ++ p :: l2) (set_size (size b + 1) (bump PacketsReordered 1 b)))
           (OnStats (statsLocked (bump PacketsReordered 1 (grown b)))) I).
Qed.

Lemma place_disposed pk receivedAt b p r :
  extPacket p = mkExt receivedAt pk -> placed_in p (queue b) r ->
  exists b2, disposed pk receivedAt b b2 /\ rtc internal b2 (place pk r (grown b)).
Proof.
  intros Hp Hr. destruct r as [q| |]; simpl in *.
  - destruct Hr as (l1 & l2 & p' & Hq & -> & Hp'). apply reordered_disposed; congruence.
  - rewrite free_grown. apply duplicate_disposed.
    destruct Hr as (c & Hc & Hsn). exists c. split; [done|]. rewrite Hsn. unfold sn. by rewrite Hp.
  - done.
Qed.

Lemma pushInto_disposed pk receivedAt b p disc hd tl rest :
  queue b = hd :: rest -> last (queue b) = Some tl -> extPacket p = mkExt receivedAt pk ->
  exists b2, disposed pk receivedAt b b2 /\ rtc internal b2 (pushInto pk p disc hd tl (grown b)).
Proof.
  intros Hq Hl Hp. unfold pushInto. cbn [queue grown set_size].
  destruct (before (sn p) (sn hd) && withinRange (sn p) (sn hd)) eqn:E1.
  { apply (reordered_disposed pk receivedAt b (set_discont (disc && start p) p) [] (queue b)); done. }
  destruct (negb (before (sn p) (sn tl)) && withinRange (sn p) (sn tl)) eqn:E2.
  { eexists. split; [|done]. apply (queued_disposed pk receivedAt b p (queue b) []); [by rewrite app_nil_r|done]. }
  destruct (withinRange (sn p) (sn tl)) eqn:E3; [|destruct (withinRange (sn p) (sn hd)) eqn:E4].
  - apply (place_disposed pk receivedAt b p); [done|].
    destruct (rev (queue b)) as [|t ups] eqn:Hrev.
    { rewrite Hq in Hrev. simpl in Hrev. by apply app_nil in Hrev as [_ ?]. }
    assert (Hqr : queue b = rev ups ++ [t]) by (rewrite <- (rev_involutive (queue b)), Hrev; done).
    assert (t = tl) as -> by (rewrite Hqr, last_snoc in Hl; congruence).
    cbn [tail]. rewrite Hqr. destruct ups as [|u ups'].
    + simpl in Hqr. rewrite Hq in Hqr. simplify_eq. exfalso.
      rewrite E3 in E1. destruct (before _ _); done.
    + apply insertFromTail_place with hd; [|done].
      pose proof Hqr as Hqr'. rewrite Hq in Hqr'. simpl in Hqr'.
      destruct (rev ups') as [|x xs] eqn:Hx; simpl in Hqr'; simplify_eq.
      * rewrite <- (rev_involutive ups'), Hx. done.
      * rewrite <- (rev_involutive ups'), Hx. simpl. rewrite app_comm_cons, last_snoc. done.
  - apply (place_disposed pk receivedAt b p); [done|]. rewrite Hq. cbn [tail].
    change (hd :: rest) with (rev [hd] ++ rest).
    apply insertFromHead_place with tl; [|done].
    rewrite Hq in Hl. destruct rest as [|r rest]; [simpl in Hl; simplify_eq; congruence|done].
  - eexists. split; [|done].
    apply (queued_disposed pk receivedAt b (set_discont (start p) p) (queue b) []); [by rewrite app_nil_r|done].
Qed.

End pushing.

(** ** The methods as sequences of transitions *)

Section methods.
Context `{Depacketizer}.

Lemma pushAccepted_disposed pk receivedAt b :
  exists b2, disposed pk receivedAt b b2 /\ rtc internal b2 (pushAccepted pk receivedAt b).
Proof.
  unfold pushAccepted.
  destruct (initialized b && before _ _) eqn:He.
  { destruct (Padding (header pk)) eqn:Hp.
    - exists b. split; [by constructor|done].
    - eexists. split; [by apply disp_expired|apply notifyLoss_internal]. }
  destruct (queue b) as [|hd rest] eqn:Hq.
  { eexists. split; [|done]. cbn [newPacket].
    match goal with |- disposed _ _ _ (set_queue [?p'] _) =>
      apply (queued_disposed pk receivedAt b p' [] []) end; done. }
  destruct (last (hd :: rest)) as [tl|] eqn:Hl; [|by apply last_None in Hl].
  destruct ((_ =? sn hd) || (_ =? sn tl)) eqn:Hd.
  - apply duplicate_disposed. apply orb_true_iff in Hd as [E|E]; bool_cases.
    + exists hd. rewrite Hq. set_solver.
    + exists tl. rewrite Hq. split; [|done]. apply last_Some_elem_of in Hl. done.
  - unfold newPacket. cbn zeta beta iota.
    eapply pushInto_disposed; [exact Hq|by rewrite Hq|done].
Qed.

Lemma resetStream_spec b :
  exists b1, resetStream b = Ok (set_sync false 0 b1) /\ rtc internal b b1 /\ queue b1 = [].
Proof.
  unfold resetStream. destruct (flushLocked_spec b) as (b1 & -> & Hi & Hq). by exists b1.
Qed.

Lemma resetStream_moves b :
  exists b', resetStream b = Ok b' /\ rtc moves b b' /\ queue b' = [].
Proof.
  destruct (resetStream_spec b) as (b1 & -> & Hi & Hq). eexists. split_and!; [done| |done].
  eapply rtc_r; [by apply internal_moves|]. right. by constructor.
Qed.

Lemma resync_step b b' : resync b b' -> rtc moves b b'.
Proof. intros. apply rtc_once. by right. Qed.

Lemma switchStream_moves s b : exists b', switchStream s b = Ok b' /\ rtc moves b b'.
Proof.
  unfold switchStream. destruct (resetStream_moves b) as (b1 & -> & Hm & _). simpl.
  eexists. split; [done|]. etrans; [exact Hm|].
  etrans; [apply resync_step, (res_ssrc b1 s (hasSSRC b1))|].
  etrans; [apply resync_step, (res_lines _ emptyVote)|].
  etrans; [apply resync_step, res_switch|]. apply internal_moves, notifyStats_internal.
Qed.

(** A packet that is not accepted leaves everything but the votes alone. *)
Lemma acceptLine_moves n t b :
  exists r b', acceptLine n t b = Ok (r, b') /\ rtc moves b b' /\
    (r = false -> exists v, b' = set_lines v b).
Proof.
  unfold acceptLine. destruct (_ || _) eqn:E.
  { eexists true, _. split_and!; [done| |done]. apply resync_step. constructor. }
  set (alt2 := addLine _ n t). set (quiet := _ && (lineQuiet <=? _)). clearbody quiet alt2.
  set (d := if negb quiet then _ else _). destruct d as [takeOver v'].
  destruct takeOver; simpl.
  2: { eexists false, _. split_and!; [done| |by eexists]. apply resync_step. constructor. }
  set (isAhead := _ && _). clearbody isAhead.
  destruct (resetStream_moves (set_lines v' b)) as (b1 & Hr & Hm & _).
  set (m := if negb isAhead then _ else _).
  assert (exists b2, m = Ok b2 /\ rtc moves b b2) as (b2 & -> & Hm2).
  { unfold m. destruct isAhead; simpl.
    - eexists. split; [done|]. apply resync_step. constructor.
    - rewrite Hr. eexists. split; [done|]. etrans; [|exact Hm]. apply resync_step. constructor. }
  simpl. eexists true, _. split_and!; [done| |done].
  etrans; [exact Hm2|]. destruct (negb quiet || negb isAhead).
  - etrans; [apply resync_step, res_restart|].
    etrans; [apply internal_moves, notifyStats_internal|]. apply resync_step. constructor.
  - apply resync_step. constructor.
Qed.

(** The counters that [push] bumps first. *)
Definition received (pk : Packet) (b : Buffer) : Buffer :=
  let b := bump PacketsPushed 1 b in
  if Padding (header pk) then bump PaddingPushed 1 b else b.

Lemma push_spec pk receivedAt b :
  exists b1 b2 b', push pk receivedAt b = Ok b' /\
    rtc moves (received pk b) b1 /\ disposed pk receivedAt b1 b2 /\ rtc internal b2 b'.
Proof.
  unfold push. fold (received pk b). set (b0 := received pk b). clearbody b0.
  destruct (Padding (header pk) && negb (initialized b0)) eqn:Hp.
  { exists b0, b0, b0. split_and!; try done. apply andb_true_iff in Hp as [? _]. by constructor. }
  set (m := if negb (hasSSRC b0) then _ else _).
  assert (exists b1, m = Ok b1 /\ rtc moves b0 b1) as (b1 & -> & Hm1).
  { unfold m. destruct (hasSSRC b0); simpl.
    - destruct (negb (_ =? _) && _); [apply switchStream_moves|by eexists].
    - eexists. split; [done|]. apply resync_step. constructor. }
  simpl. set (a := if detectRestarts b1 then _ else _).
  assert (exists r b2, a = Ok (r, b2) /\ rtc moves b1 b2) as (r & b2 & -> & Hm2).
  { unfold a. destruct (detectRestarts b1); [|by exists true, b1].
    destruct (acceptLine_moves (SequenceNumber (header pk)) receivedAt b1) as (r & b2 & -> & ? & _).
    by exists r, b2. }
  assert (Hm : rtc moves b0 b2) by (by etrans).
  simpl. destruct r; simpl.
  - destruct (pushAccepted_disposed pk receivedAt b2) as (b3 & Hd & Hi).
    exists b2, b3. eexists. split_and!; eauto.
  - destruct (Padding (header pk)) eqn:Hpad.
    + exists b2, b2, b2. split_and!; try done. by constructor.
    + exists b2, (bump PacketsDropped 1 (bump PacketsStray 1 b2)). eexists.
      split_and!; [done|done|by apply disp_stray|].
      etrans; [apply notifyLoss_internal|apply notifyStats_internal].
Qed.

(** A transition of the whole buffer: the effect of one call. *)
Inductive called (b : Buffer) : input -> Buffer -> Prop :=
| called_push pk receivedAt now now' b1 b2 b' :
    rtc moves (received pk b) b1 -> disposed pk receivedAt b1 b2 -> rtc internal b2 b' ->
    called b (InPush pk receivedAt now now') b'
| called_internal i b' :
    match i with InPush _ _ _ _ => False | _ => True end ->
    rtc internal b b' -> called b i b'.

Lemma step_called b i : exists b', step b i = Ok b' /\ called b i b'.
Proof.
  destruct i as [pk receivedAt now now'|now now'| |l now|]; cbn [step].
  - unfold PushAt. destruct (push_spec pk receivedAt b) as (b1 & b2 & b3 & -> & Hm & Hd & Hi).
    simpl. destruct (popReady_spec now now' b3) as (b4 & Hp & Hi4 & _).
    destruct (queue b3).
    + exists b3. split; [done|]. by eapply called_push.
    + exists b4. split; [done|]. eapply called_push; [done|done|by etrans].
  - unfold timerFired. destruct (closed b).
    + exists b. split; [done|]. by constructor.
    + destruct (popReady_spec now now' b) as (b4 & Hp & Hi4 & _). exists b4.
      split; [done|]. by constructor.
  - unfold Flush. destruct (flushLocked_spec b) as (b1 & -> & Hi & _). exists b1.
    split; [done|]. by constructor.
  - eexists. split; [done|]. constructor; [done|]. unfold UpdateLatency.
    eapply rtc_l; [apply int_latency|]. apply resetTimer_internal.
  - unfold Close, Flush. destruct (flushLocked_spec b) as (b1 & -> & Hi & _). simpl.
    eexists. split; [done|]. constructor; [done|]. etrans; [exact Hi|].
    eapply rtc_l; [apply int_timer|]. apply rtc_once. constructor.
Qed.

(** No sequence of calls panics. *)
Lemma run_Ok ins : forall b, exists b', run b ins = Ok b'.
Proof.
  induction ins as [|i ins IH]; intros b; simpl; [by eexists|].
  destruct (step_called b i) as (b1 & -> & _). simpl. apply IH.
Qed.

(** Rule induction over the calls. *)
Lemma run_invariant (I : Buffer -> Prop) :
  (forall b i b', I b -> called b i b' -> I b') ->
  forall ins b b', I b -> run b ins = Ok b' -> I b'.
Proof.
  intros Hstep. induction ins as [|i ins IH]; intros b b' Hb; simpl; [congruence|].
  destruct (step_called b i) as (b1 & -> & Hc). simpl. apply IH. by eapply Hstep.
Qed.

End methods.
