(* ===== verification/JitterProps.v ===== *)
(** * JitterProps: what the jitter buffer guarantees over any sequence of calls *)

From stdpp Require Import base tactics numbers list relations.
From S2P Require Import Prelude GoFloat FloatBounds RtpTypes Seq16 Jitter JitterSpec.

#[local] Open Scope go_scope.

(** ** Invariants of the transitions *)

(** What has been delivered to the packet handler, in order. *)
Definition deliveredOf (e : event) : list ExtPacket :=
  match e with OnPacket sample => sample | _ => [] end.
Definition delivered (b : Buffer) : list ExtPacket := concat (deliveredOf <$> events b).

(** Delivered or still waiting. *)
Definition held (b : Buffer) : list ExtPacket := delivered b ++ (extPacket <$> queue b).

(** The packets pushed by a sequence of calls, and how many are padding. *)
Definition pushedBy (i : input) : list ExtPacket :=
  match i with InPush pk receivedAt _ _ => [mkExt receivedAt pk] | _ => [] end.
Definition pushes (ins : list input) : list ExtPacket := concat (pushedBy <$> ins).
Definition paddings (ins : list input) : Z :=
  zlen (filter (fun p => Padding (header (pkt p)) = true) (pushes ins)).

(** The number of packets the counters and the queue account for, less the
    number pushed. *)
Definition balance (b : Buffer) : Z :=
  stats b PacketsPopped + stats b PacketsDropped + stats b PacketsDuplicate + size b
  - stats b PacketsPushed.

Definition sized (b : Buffer) : Prop := size b = zlen (queue b).

(** A sample handed to the packet handler is a complete one. *)
Definition event_ok (e : event) : Prop :=
  match e with
  | OnPacket sample => sample <> [] /\ exists nodes, is_sample nodes /\ sample = visible nodes
  | _ => True
  end.

(** What a transition may do to the books. *)
Definition keeps_books (b b' : Buffer) : Prop :=
  (sized b -> sized b') /\ u64 (balance b') = u64 (balance b) /\
  (Forall event_ok (events b) -> Forall event_ok (events b')) /\ held b' ⊆+ held b.

#[export] Instance keeps_books_preorder : PreOrder keeps_books.
Proof.
  split; [done|]. intros b1 b2 b3 (? & ? & ? & ?) (? & ? & ? & ?).
  split_and!; [tauto|congruence|tauto|by etrans].
Qed.

Section books.
Context `{Depacketizer}.

Ltac stats_simpl :=
  simpl in *; unfold bumpStats in *;
  repeat match goal with
  | |- context [decide (?c = ?c')] =>
      first [rewrite (decide_True (P := c = c')) by done | rewrite (decide_False (P := c = c')) by done]
  end.

Lemma visible_submseteq nodes : visible nodes ⊆+ extPacket <$> nodes.
Proof.
  unfold visible. apply fmap_submseteq. induction nodes as [|c nodes IH]; [done|].
  rewrite filter_cons. case_decide; [by apply submseteq_skip|by apply submseteq_cons].
Qed.

Lemma afterSample_books b nodes rest :
  queue b = nodes ++ rest -> is_sample nodes -> keeps_books b (afterSample nodes b).
Proof.
  intros Hq Hs. destruct (afterSample_spec nodes b rest Hq Hs) as (H1 & _ & H2 & H3 & H4 & _ & H5).
  unfold keeps_books, sized, balance, held, delivered. rewrite H1, H2, H5.
  rewrite (H3 PacketsDropped), (H3 PacketsDuplicate), (H3 PacketsPushed) by done.
  split_and!.
  - rewrite Hq, zlen_app. lia.
  - unfold u64 in *. lia.
  - intros Hev. apply Forall_app. split; [done|]. case_decide; [done|].
    apply Forall_singleton. split; [done|]. by exists nodes.
  - rewrite Hq, fmap_app, fmap_app, concat_app. rewrite <- app_assoc.
    apply submseteq_skips_l, submseteq_skips_r.
    case_decide; simpl; [apply submseteq_nil_l|]. rewrite app_nil_r. apply visible_submseteq.
Qed.

Lemma bump_lost_books n b : keeps_books b (bump PacketsLost n b).
Proof. unfold keeps_books, sized, balance. stats_simpl. done. Qed.

Lemma afterDrop_books p rest b : queue b = p :: rest -> keeps_books b (afterDrop p b).
Proof.
  intros Hq. unfold keeps_books, sized, balance, held, delivered, afterDrop. stats_simpl.
  rewrite Hq. split_and!.
  - unfold zlen. simpl. lia.
  - unfold u64. lia.
  - done.
  - simpl. apply submseteq_skips_l, submseteq_cons. done.
Qed.

Lemma internal_books b b' : internal b b' -> keeps_books b b'.
Proof.
  destruct 1 as [b nodes rest Hq Hs _|b nodes rest p Hq Hs _ _|b p rest Hq _ _|b p rest Hq _ _|b e He|?|?|?].
  - by eapply afterSample_books.
  - etrans; [apply bump_lost_books|]. by eapply afterSample_books.
  - by eapply afterDrop_books.
  - etrans; [apply bump_lost_books|]. by eapply afterDrop_books.
  - unfold keeps_books, sized, balance, held, delivered. simpl.
    rewrite fmap_app, concat_app, Forall_app. simpl. split_and!; try done.
    + intros. split; [done|]. apply Forall_singleton. by destruct e.
    + destruct e; [done|..]; by rewrite !app_nil_r.
  - done.
  - done.
  - done.
Qed.

Lemma resync_books b b' : resync b b' -> keeps_books b b'.
Proof. destruct 1; unfold keeps_books, sized, balance; stats_simpl; done. Qed.

Lemma moves_books b b' : rtc moves b b' -> keeps_books b b'.
Proof.
  induction 1 as [|x y z [Hi|Hr] _ IH]; [done|..]; (etrans; [|exact IH]);
    [by apply internal_books|by apply resync_books].
Qed.

(** Counters that only [push] touches. *)
Lemma internals_keep_counter b b' c :
  rtc internal b b' -> c ∈ [PacketsPushed; PaddingPushed; PacketsDuplicate] ->
  stats b' c = stats b c.
Proof.
  intros Hi Hc. induction Hi as [|x y z Hxy _ IH]; [done|]. rewrite IH. clear IH.
  assert (Hne : c <> PacketsPopped /\ c <> SamplesPopped /\ c <> PacketsLost /\ c <> PacketsDropped)
    by set_solver.
  destruct Hne as (? & ? & ? & ?).
  destruct Hxy as [b nodes rest Hq Hs _|b nodes rest p Hq Hs _ _|b p rest Hq _ _|b p rest Hq _ _|b e He|?|?|?];
    try done.
  - destruct (afterSample_spec nodes b rest Hq Hs) as (_&_&_&Hst&_). by apply Hst.
  - destruct (afterSample_spec nodes (bump PacketsLost (lossAt p b) b) rest Hq Hs)
      as (_&_&_&Hst&_).
    rewrite Hst by done. simpl. unfold bumpStats. by rewrite decide_False.
  - simpl. unfold bumpStats. by rewrite decide_False.
  - simpl. unfold bumpStats. by rewrite !decide_False.
Qed.

Lemma internals_books b b' : rtc internal b b' -> keeps_books b b'.
Proof. intros Hi. by apply moves_books, internal_moves. Qed.

(** A push and what becomes of the packet balance, except for padding. *)
Lemma received_books pk b :
  (sized b -> sized (received pk b)) /\
  u64 (balance (received pk b)) = u64 (balance b - 1) /\
  events (received pk b) = events b /\ held (received pk b) = held b.
Proof.
  unfold received, sized, balance, held, delivered.
  destruct (Padding (header pk)); stats_simpl; split_and!; try done; unfold u64; lia.
Qed.

Lemma disposed_books pk receivedAt b b' :
  disposed pk receivedAt b b' ->
  (sized b -> sized b') /\
  (exists k, 0 <= k <= (if Padding (header pk) then 1 else 0) /\
     u64 (balance b') = u64 (balance b + 1 - k)) /\
  events b' = events b /\ held b' ⊆+ mkExt receivedAt pk :: held b.
Proof.
  unfold sized, balance, held, delivered.
  destruct 1 as [Hp|Hp|Hp|Hp _|p l1 l2 b' Hq Hx Hb']; stats_simpl.
  - split_and!; [done| |done|by apply submseteq_cons]. exists 1. rewrite Hp.
    split; [lia|]. f_equal. lia.
  - split_and!; [done| |done|by apply submseteq_cons]. exists 0. rewrite Hp.
    split; [lia|]. unfold u64. lia.
  - split_and!; [done| |done|by apply submseteq_cons]. exists 0. rewrite Hp.
    split; [lia|]. unfold u64. lia.
  - split_and!; [done| |done|by apply submseteq_cons]. exists 0. rewrite Hp.
    split; [lia|]. unfold u64. lia.
  - assert (He : events b' = events b) by (by destruct Hb' as [->| ->]).
    assert (Hst : forall c, c <> PacketsReordered -> stats b' c = stats b c).
    { intros c Hc. destruct Hb' as [->| ->]; [done|]. simpl. unfold bumpStats.
      by rewrite decide_False. }
    rewrite He, !(Hst _) by done. split_and!; [| |done|].
    + rewrite Hq, !zlen_app. unfold zlen. simpl. lia.
    + exists 0. split; [destruct (Padding _); lia|]. f_equal. lia.
    + rewrite Hq, !fmap_app. simpl. rewrite Hx.
      rewrite !app_assoc. rewrite <- Permutation_middle. done.
Qed.

Lemma called_books b i b' :
  called b i b' ->
  (sized b -> sized b') /\
  (exists k, 0 <= k <= zlen (filter (fun p => Padding (header (pkt p)) = true) (pushedBy i)) /\
     u64 (balance b') = u64 (balance b - k)) /\
  (Forall event_ok (events b) -> Forall event_ok (events b')) /\
  held b' ⊆+ pushedBy i ++ held b.
Proof.
  destruct 1 as [pk receivedAt now now' b1 b2 b' Hm Hd Hi|i b' Hi Hm].
  - destruct (received_books pk b) as (Hs0 & Hb0 & He0 & Hh0).
    destruct (moves_books _ _ Hm) as (Hs1 & Hb1 & He1 & Hh1).
    destruct (disposed_books _ _ _ _ Hd) as (Hs2 & (k & Hk & Hb2) & He2 & Hh2).
    destruct (internals_books _ _ Hi) as (Hs3 & Hb3 & He3 & Hh3).
    split_and!; [tauto| | |].
    + exists k. simpl. rewrite filter_cons. simpl. destruct (Padding (header pk));
        (split; [case_decide; [unfold zlen; simpl; lia|done]|]); unfold u64 in *; lia.
    + intros. apply He3. rewrite He2. apply He1. by rewrite He0.
    + simpl. etrans; [exact Hh3|]. etrans; [exact Hh2|]. apply submseteq_skip. by rewrite <- Hh0.
  - destruct (internals_books _ _ Hm) as (Hs & Hb & He & Hh).
    split_and!; [done| |done|etrans; [exact Hh|by apply submseteq_inserts_l]].
    exists 0. split; [unfold zlen; lia|]. by rewrite Z.sub_0_r.
Qed.

Lemma pushes_cons i ins : pushes (i :: ins) = pushedBy i ++ pushes ins.
Proof. done. Qed.

Lemma paddings_cons i ins :
  paddings (i :: ins) =
    zlen (filter (fun p => Padding (header (pkt p)) = true) (pushedBy i)) + paddings ins.
Proof. unfold paddings. by rewrite pushes_cons, filter_app, zlen_app. Qed.

Lemma run_books ins : forall b b',
  run b ins = Ok b' ->
  (sized b -> sized b') /\
  (exists k, 0 <= k <= paddings ins /\ u64 (balance b') = u64 (balance b - k)) /\
  (Forall event_ok (events b) -> Forall event_ok (events b')) /\
  held b' ⊆+ pushes ins ++ held b.
Proof.
  induction ins as [|i ins IH]; intros b b'; simpl.
  - intros [= <-]. split_and!; try done. exists 0. by rewrite Z.sub_0_r.
  - destruct (step_called b i) as (b1 & -> & Hc). simpl. intros Hr.
    destruct (called_books _ _ _ Hc) as (Hs1 & (k1 & Hk1 & Hb1) & He1 & Hh1).
    destruct (IH _ _ Hr) as (Hs2 & (k2 & Hk2 & Hb2) & He2 & Hh2).
    split_and!; [tauto| |tauto|].
    + exists (k1 + k2). rewrite paddings_cons. split; [lia|]. unfold u64 in *. lia.
    + etrans; [exact Hh2|]. rewrite pushes_cons.
      etrans; [by apply submseteq_skips_l|]. rewrite !app_assoc.
      by rewrite (Permutation_app_comm (pushes ins)).
Qed.

Lemma applyOption_fresh b o :
  queue (applyOption b o) = queue b /\ stats (applyOption b o) = stats b /\
  size (applyOption b o) = size b /\ events (applyOption b o) = events b /\
  initialized (applyOption b o) = initialized b /\ hasSSRC (applyOption b o) = hasSSRC b.
Proof. done. Qed.

Lemma NewBuffer_fresh lat opts :
  let b := NewBuffer lat opts in
  queue b = [] /\ stats b = zeroStats /\ size b = 0 /\ events b = [] /\
  initialized b = false /\ hasSSRC b = false.
Proof.
  unfold NewBuffer.
  assert (Hgen : forall b, let b' := fold_left applyOption opts b in
    queue b' = queue b /\ stats b' = stats b /\ size b' = size b /\ events b' = events b /\
    initialized b' = initialized b /\ hasSSRC b' = hasSSRC b).
  { induction opts as [|o opts IH]; intros b; simpl; [done|].
    destruct (IH (applyOption b o)) as (-> & -> & -> & -> & -> & ->). done. }
  destruct (Hgen (mkBuf lat false false false false 0 0 false false emptyVote [] zeroStats (Some lat) 0 []))
    as (-> & -> & -> & -> & -> & ->). done.
Qed.

(** The ratio of lost packets is between -1 and 1. *)
Lemma PacketLoss_within (s : BufferStats) :
  0 <= s PacketsDropped <= s PacketsPushed -> s PacketsPushed <= top -> within 1 (PacketLoss s).
Proof.
  intros Hd Hp. unfold PacketLoss. case_if; [by apply ofInt_within|].
  apply fdiv_within; [apply ofInt_within|..]; lia.
Qed.

(** C6: bookkeeping of the jitter buffer: no sequence of calls panics; the size
    counter is the number of buffered packets; and every pushed packet is
    accounted for exactly once, as popped, dropped, duplicate or still
    buffered, padding packets apart (counters are uint64). *)
Theorem jitter_bookkeeping (lat : duration) (opts : list option_) (ins : list input) :
  exists b, run (NewBuffer lat opts) ins = Ok b /\
    Size b = zlen (queue b) /\
    exists k, 0 <= k <= paddings ins /\
      u64 (stats b PacketsPopped + stats b PacketsDropped + stats b PacketsDuplicate + size b + k)
      = u64 (stats b PacketsPushed).
Proof.
  destruct (run_Ok ins (NewBuffer lat opts)) as [b Hr]. exists b. split; [done|].
  destruct (run_books _ _ _ Hr) as (Hs & (k & Hk & Hb) & _ & _).
  destruct (NewBuffer_fresh lat opts) as (Hq & Hst & Hsz & _).
  split; [apply Hs; unfold sized; rewrite Hq, Hsz; done|].
  exists k. split; [done|]. revert Hb. unfold balance. rewrite Hst, Hsz.
  unfold zeroStats, u64. lia.
Qed.

(** C19: what the packet handler receives is whole samples only: each call gets
    the non-padding packets, at least one, of a run of consecutive sequence
    numbers from a partition head to the first partition tail; and every pushed
    packet is delivered at most once and never invented. *)
Theorem jitter_delivers_samples (lat : duration) (opts : list option_) (ins : list input) :
  exists b, run (NewBuffer lat opts) ins = Ok b /\
    (forall sample, OnPacket sample ∈ events b ->
       sample <> [] /\ exists nodes, is_sample nodes /\ sample = visible nodes) /\
    delivered b ++ (extPacket <$> queue b) ⊆+ pushes ins.
Proof.
  destruct (run_Ok ins (NewBuffer lat opts)) as [b Hr]. exists b. split; [done|].
  destruct (run_books _ _ _ Hr) as (_ & _ & He & Hh).
  destruct (NewBuffer_fresh lat opts) as (Hq & _ & _ & Hev & _).
  rewrite Hev in He. split.
  - intros sample Hin. specialize (He (Forall_nil_2 _)).
    rewrite Forall_forall in He. apply (He (OnPacket sample) Hin).
  - fold (held b). etrans; [exact Hh|]. unfold held, delivered. rewrite Hev, Hq. simpl.
    by rewrite app_nil_r.
Qed.

(** ** The timer empties the buffer *)

Lemma ends_at_last_unique n1 r1 : ends_at_last n1 -> forall n2 r2,
  ends_at_last n2 -> n1 ++ r1 = n2 ++ r2 -> n1 = n2 /\ r1 = r2.
Proof.
  induction 1 as [c Hc|c ns Hc _ IH]; intros n2 r2 H2; destruct H2 as [c2 Hc2|c2 ns2 Hc2 H2]; simpl; intros [= <- Heq].
  - by subst.
  - congruence.
  - congruence.
  - by destruct (IH _ _ H2 Heq) as [-> ->].
Qed.

Lemma visible_app l1 l2 : visible (l1 ++ l2) = visible l1 ++ visible l2.
Proof. unfold visible. by rewrite filter_app, fmap_app. Qed.

(** A queue of complete samples. *)
Definition whole (q : list packet) : Prop := exists samples, q = concat samples /\ Forall is_sample samples.

Lemma whole_sample nodes rest : is_sample nodes -> whole (nodes ++ rest) -> whole rest.
Proof.
  intros Hn ([|n1 l] & Hq & Hl); simpl in Hq.
  { apply app_nil in Hq as [-> _]. inversion Hn. }
  apply Forall_cons in Hl as [Hn1 Hl].
  destruct (ends_at_last_unique _ _ (sample_ends _ Hn) _ _ (sample_ends _ Hn1) Hq) as [_ ->]. by exists l.
Qed.

Lemma whole_complete p rest : whole (p :: rest) -> isComplete p rest = true.
Proof.
  intros ([|n l] & Hq & Hl); simpl in Hq; [done|]. apply Forall_cons in Hl as [Hn _].
  destruct n as [|p' n]; [inversion Hn|]. injection Hq as -> ->. apply isComplete_spec. by exists n, (concat l).
Qed.

Lemma afterSample_whole nodes rest b b0 :
  queue b = nodes ++ rest -> is_sample nodes -> queue b = queue b0 -> events b = events b0 -> whole (queue b0) ->
  whole (queue (afterSample nodes b)) /\
  delivered (afterSample nodes b) ++ visible (queue (afterSample nodes b)) = delivered b0 ++ visible (queue b0).
Proof.
  intros Hq Hs Hq0 He Hw. destruct (afterSample_spec nodes b rest Hq Hs) as (H1 & _ & _ & _ & _ & _ & H5).
  rewrite <- Hq0 in *. rewrite Hq in Hw. split; [rewrite H1; by eapply whole_sample|].
  unfold delivered. rewrite H1, H5, He, fmap_app, concat_app, Hq, visible_app, <- app_assoc. f_equal.
  case_decide as Hv; simpl; [by rewrite Hv|by rewrite app_nil_r].
Qed.

(** A buffer of complete samples drops nothing. *)
Lemma internal_whole b b' :
  internal b b' -> whole (queue b) ->
  whole (queue b') /\ delivered b' ++ visible (queue b') = delivered b ++ visible (queue b).
Proof.
  destruct 1 as [b nodes rest Hq Hs _|b nodes rest p Hq Hs _ _|b p rest Hq Hc _|b p rest Hq Hc _|b e He|?|?|?]; intros Hw; try done.
  - by eapply afterSample_whole.
  - by eapply (afterSample_whole nodes rest).
  - rewrite Hq in Hw. apply whole_complete in Hw. congruence.
  - rewrite Hq in Hw. apply whole_complete in Hw. congruence.
  - split; [done|]. unfold delivered. simpl. rewrite fmap_app, concat_app. simpl. destruct e; by rewrite ?app_nil_r.
Qed.

Lemma internals_whole b b' :
  rtc internal b b' -> whole (queue b) ->
  whole (queue b') /\ delivered b' ++ visible (queue b') = delivered b ++ visible (queue b).
Proof.
  induction 1 as [|x y z Hxy _ IH]; intros Hw; [done|]. destruct (internal_whole _ _ Hxy Hw) as [Hwy <-]. by apply IH.
Qed.

(** The timer fires again and again without a push in between, each time after
    the moment it was set for, at which the head has waited the latency. *)
Fixpoint overdue (b : Buffer) (fires : list (time * time)) : bool :=
  match fires with
  | [] => true
  | (now, now') :: fires =>
      negb (closed b) &&
      match queue b with [] => true | p :: _ => ReceivedAt (extPacket p) + latency b <? now end &&
      match timerFired now now' b with Ok b => overdue b fires | Panic => false end
  end.

Definition firings (fires : list (time * time)) : list input := (fun t => InTimer t.1 t.2) <$> fires.

(** A firing takes at least the head. *)
Lemma timer_shrinks now now' b :
  closed b = false -> match queue b with [] => True | p :: _ => ReceivedAt (extPacket p) + latency b < now end ->
  exists b', timerFired now now' b = Ok b' /\ rtc internal b b' /\ (length (queue b') <= length (queue b) - 1)%nat.
Proof.
  intros Hc Hhead. unfold timerFired. rewrite Hc.
  destruct (popReady_spec now now' b) as (b' & Hp & Hi & Hn & _ & Hk). exists b'. split; [done|]. split; [done|].
  destruct (internals_suffix _ _ Hi) as [k Hq]. pose proof (length_drop (queue b) k) as Hl. rewrite <- Hq in Hl.
  destruct (decide (length (queue b') = length (queue b))) as [Heq|]; [|lia].
  specialize (Hk Heq). rewrite Hq in Heq. apply suffix_same in Heq. rewrite Heq in Hq.
  unfold not_ready, keeps_head in *. rewrite Hq in *. destruct (queue b) as [|p next]; [simpl; lia|].
  exfalso. destruct Hk as [Hk|[_ Hk]], Hn as [Hn|[_ Hn]]; (congruence || lia).
Qed.

Lemma firings_drain fires : forall b,
  overdue b fires = true ->
  exists b', run b (firings fires) = Ok b' /\ rtc internal b b' /\
    (length (queue b') <= length (queue b) - length fires)%nat.
Proof.
  induction fires as [|[now now'] fires IH]; intros b Ho; cbn [overdue firings fmap list_fmap run] in *.
  { exists b. split_and!; [done|done|simpl; lia]. }
  rewrite !andb_true_iff, negb_true_iff in Ho. destruct Ho as [[Hc Hh] Ho].
  destruct (timer_shrinks now now' b Hc) as (b1 & Hb1 & Hi1 & Hl1).
  { destruct (queue b); [done|lia]. }
  rewrite Hb1 in Ho. destruct (IH b1 Ho) as (b' & Hr & Hi & Hl). exists b'. cbn [step fst snd]. rewrite Hb1. cbn [obind].
  split_and!; [exact Hr|by etrans|simpl; lia].
Qed.

(** C20: what the buffer holds after [popReady] waits for its head only: the head
    is incomplete, or it is behind a gap and was received less than the latency
    ago; and the timer is set for the moment at which the head has waited the
    latency.  When the timer fires after that moment, at least the head leaves:
    without another push the buffer is empty after at most as many firings as it
    held packets, and if it held complete samples only, each of them has been
    delivered, in order.  (A complete sample that a younger packet went before
    may itself wait longer than the latency: [older_sample_waits].) *)
Theorem popReady_timely (now now' : time) (b : Buffer) :
  exists b', popReady now now' b = Ok b' /\
    match queue b' with
    | [] => True
    | p :: next =>
        (isComplete p next = true ->
           headIsNext p b' = false /\ now - latency b < ReceivedAt (extPacket p)) /\
        timer b' = Some (Sub (Add (ReceivedAt (extPacket p)) (latency b')) now')
    end /\
    forall fires, overdue b' fires = true ->
      exists b'', run b' (firings fires) = Ok b'' /\
        (length (queue b'') <= length (queue b') - length fires)%nat /\
        (whole (queue b') -> delivered b'' ++ visible (queue b'') = delivered b' ++ visible (queue b')).
Proof.
  destruct (popReady_spec now now' b) as (b' & Hp & _ & Hn & Ht & _). exists b'. split; [done|]. split.
  - unfold not_ready in Hn. destruct (queue b') as [|p next]; [done|]. split; [|done].
    intros Hc. destruct Hn as [Hn|Hn]; [congruence|done].
  - intros fires Ho. destruct (firings_drain fires b' Ho) as (b'' & Hr & Hi & Hl). exists b''. split_and!; [done|done|].
    intros Hw. by apply internals_whole.
Qed.

(** [Flush] leaves nothing behind: whatever the buffer holds, the queue is
    empty afterwards, and exactly the buffered packets have moved to the popped
    and dropped counters. *)
Theorem Flush_empties (b : Buffer) :
  Size b = zlen (queue b) ->
  exists b', Flush b = Ok b' /\ queue b' = [] /\ Size b' = 0 /\
    u64 (stats b' PacketsPopped + stats b' PacketsDropped)
    = u64 (stats b PacketsPopped + stats b PacketsDropped + zlen (queue b)).
Proof.
  intros Hs. destruct (flushLocked_spec b) as (b' & Hf & Hi & Hq). exists b'.
  destruct (internals_books _ _ Hi) as (Hs' & Hb & _ & _).
  specialize (Hs' Hs). unfold sized in Hs'. rewrite Hq in Hs'.
  split_and!; [done|done|done|].
  revert Hb. unfold balance. rewrite <- Hs. unfold Size.
  rewrite (internals_keep_counter b b' PacketsDuplicate), (internals_keep_counter b b' PacketsPushed)
    by (done || set_solver).
  rewrite Hs'. unfold zlen, u64. simpl. lia.
Qed.

End books.

(** ** Witnesses *)

(** Two packets behind a gap. *)
Definition flush_example : Buffer :=
  let pk n := mkPacket (mkHeader 2 false false 0 n 0 7) [1] in
  mkBuf (20 * Millisecond) true false false true 9 7 true false emptyVote
    [mkPkt (mkExt 5 (pk 12)) true true false; mkPkt (mkExt 6 (pk 13)) true true false]
    zeroStats None 2 [].

Lemma Flush_empties_witness :
  exists b', @Flush flush_example = Ok b' /\ queue b' = [] /\ Size b' = 0 /\
    u64 (stats b' PacketsPopped + stats b' PacketsDropped) = 2.
Proof. exact (@Flush_empties flush_example eq_refl). Defined.

(** Packet 12 is complete at 1000; packet 10, received at 1049, goes before it,
    so that at 1060, with a latency of 50, packet 12 still waits. *)
#[local] Existing Instance audioDepacketizer.

Definition younger_head : list input :=
  let push n t := InPush (mkPacket (mkHeader 2 false false 0 n 0 7) [1]) t t t in
  [push 7 900; push 12 1000; push 10 1049].

Lemma older_sample_waits :
  exists b b', run (NewBuffer 50 []) younger_head = Ok b /\ popReady 1060 1060 b = Ok b' /\
    emitted b' = [7] /\ (sn <$> queue b') = [10; 12] /\ timer b' = Some 39.
Proof. eexists _, _. split; [vm_compute; reflexivity|]. split; [vm_compute; reflexivity|]. by vm_compute. Qed.

Definition bufferOf (o : outcome Buffer) : Buffer := match o with Ok b => b | Panic => flush_example end.

Lemma bufferOf_Ok o b : o = Ok b -> b = bufferOf o.
Proof. by intros ->. Qed.

Lemma popReady_timely_witness :
  exists b b' b'', run (NewBuffer 50 []) younger_head = Ok b /\ popReady 1060 1060 b = Ok b' /\
    run b' (firings [(1100, 1100); (1101, 1101)]) = Ok b'' /\ queue b'' = [] /\
    (SequenceNumber ∘ header ∘ pkt <$> delivered b'') = [7; 10; 12].
Proof.
  exists (bufferOf (run (NewBuffer 50 []) younger_head)).
  destruct (popReady_timely 1060 1060 (bufferOf (run (NewBuffer 50 []) younger_head))) as (b' & Hp & _ & Hdrain).
  pose proof (bufferOf_Ok _ _ Hp) as ->.
  destruct (Hdrain [(1100, 1100); (1101, 1101)]) as (b'' & Hr & _); [vm_compute; reflexivity|].
  pose proof (bufferOf_Ok _ _ Hr) as ->.
  eexists _, _. split; [vm_compute; reflexivity|]. split; [exact Hp|]. split; [exact Hr|].
  split; vm_compute; reflexivity.
Defined.
