(* ===== verification/JitterOrder.v ===== *)
(** * JitterOrder: in-order delivery and exact loss of an audio stream

    With the depacketizer of [src/rtp/jitter.go] every packet is a sample.  For
    one stream whose packets arrive in any order within the range of the
    16-bit comparison, the packets handed to the handler are in sequence order
    and the loss counter is the number of sequence numbers skipped. *)

From stdpp Require Import base tactics numbers list relations sorting.
From S2P Require Import Prelude RtpTypes Seq16 Jitter JitterSpec.

#[local] Open Scope go_scope.
#[local] Existing Instance audioDepacketizer.

(** ** Streams *)

(** A packet of the stream [s] that can be compared with what the buffer holds
    and with the last packet that left it. *)
Definition comparable (s : Z) (pk : Packet) (b : Buffer) : bool :=
  let n := SequenceNumber (header pk) in
  negb (Padding (header pk)) && (SSRC (header pk) =? s) && (0 <=? n) && (n <? 65536) &&
  (negb (initialized b) || withinRange n (prevSN b)) &&
  forallb (fun p => withinRange n (sn p)) (queue b).

(** Every packet pushed by the calls is comparable when it arrives. *)
Fixpoint follows (s : Z) (b : Buffer) (ins : list input) : bool :=
  match ins with
  | [] => true
  | i :: ins =>
      match i with InPush pk _ _ _ => comparable s pk b | _ => true end &&
      match step b i with Ok b' => follows s b' ins | Panic => false end
  end.

(** The sequence numbers skipped between consecutive elements. *)
Fixpoint gaps (l : list Z) : Z :=
  match l with
  | a :: l' => match l' with b :: _ => missingBetween b a | [] => 0 end + gaps l'
  | [] => 0
  end.

Lemma gaps_snoc l a b : last l = Some a -> gaps (l ++ [b]) = gaps l + missingBetween b a.
Proof.
  induction l as [|x l IH]; [done|]. destruct l as [|y l].
  - intros [= ->]. simpl. lia.
  - intros Hl. change (last (y :: l) = Some a) in Hl.
    change (missingBetween y x + gaps ((y :: l) ++ [b]) =
            missingBetween y x + gaps (y :: l) + missingBetween b a).
    rewrite IH by done. lia.
Qed.

(** ** The invariant *)

Definition sound_node (p : packet) : Prop :=
  start p = true /\ end_ p = true /\ Padding (header (pkt (extPacket p))) = false /\
  0 <= sn p < 65536.

(** The stream is in order: before the first sample at most the first packet is
    held; afterwards the queue is sorted and ahead of the last packet, which is
    the last one delivered. *)
Definition in_sync (b : Buffer) : Prop :=
  if initialized b then
    last (emitted b) = Some (prevSN b) /\ 0 <= prevSN b < 65536 /\
    StronglySorted ahead (prevSN b :: (sn <$> queue b)) /\
    Forall (fun p => discont p = false) (queue b)
  else emitted b = [] /\ (length (queue b) <= 1)%nat.

Record inorder (s : Z) (b : Buffer) : Prop := {
  io_lines : detectRestarts b = false;
  io_ssrc : hasSSRC b = true -> ssrc b = s;
  io_nodes : Forall sound_node (queue b);
  io_sync : in_sync b;
  io_sorted : Sorted ahead (emitted b);
  io_lost : stats b PacketsLost = u64 (gaps (emitted b));
}.

(** The fields the invariant reads. *)
Definition same_view (b b' : Buffer) : Prop :=
  detectRestarts b' = detectRestarts b /\ hasSSRC b' = hasSSRC b /\ ssrc b' = ssrc b /\
  queue b' = queue b /\ initialized b' = initialized b /\ prevSN b' = prevSN b /\
  emitted b' = emitted b /\ stats b' PacketsLost = stats b PacketsLost.

Lemma same_view_inorder s b b' : same_view b b' -> inorder s b -> inorder s b'.
Proof.
  intros (H1 & H2 & H3 & H4 & H5 & H6 & H7 & H8) [I1 I2 I3 I4 I5 I6].
  split; unfold in_sync in *; rewrite ?H1, ?H2, ?H3, ?H4, ?H5, ?H6, ?H7, ?H8; done.
Qed.

Lemma emitted_emit e b : emitted (emit e b) = emitted b ++ emittedOf e.
Proof. unfold emitted. simpl. rewrite fmap_app, concat_app. simpl. by rewrite app_nil_r. Qed.

Lemma emit_report_view e b : is_report e -> same_view b (emit e b).
Proof.
  intros He. unfold same_view. rewrite emitted_emit. simpl.
  split_and!; try done. destruct e; [done|..]; by rewrite app_nil_r.
Qed.

(** ** Samples leave in order *)

Lemma sound_sample nodes : is_sample nodes -> Forall sound_node nodes -> exists p, nodes = [p].
Proof.
  destruct 1 as [p ? ?|p ns ? He ?]; [by exists p|].
  inversion_clear 1 as [|? ? (_ & He' & _) _]. congruence.
Qed.

(** The buffer after one packet has been delivered. *)
Lemma afterSample_one p rest b :
  queue b = p :: rest -> Padding (header (pkt (extPacket p))) = false ->
  let b' := afterSample [p] b in
  detectRestarts b' = detectRestarts b /\ hasSSRC b' = hasSSRC b /\ ssrc b' = ssrc b /\
  queue b' = rest /\ initialized b' = true /\ prevSN b' = sn p /\
  emitted b' = emitted b ++ [sn p] /\ stats b' PacketsLost = stats b PacketsLost.
Proof.
  intros Hq Hp. unfold afterSample. simpl.
  assert (Hv : visible [p] = [extPacket p]).
  { unfold visible. rewrite filter_cons_True by done. done. }
  rewrite Hv. unfold zlen. simpl. rewrite emitted_emit. simpl. rewrite Hq. done.
Qed.

Lemma sync_deliver p rest b :
  in_sync b -> queue b = p :: rest -> sound_node p ->
  in_sync (afterSample [p] b) /\
  (Sorted ahead (emitted b) -> Sorted ahead (emitted (afterSample [p] b))) /\
  gaps (emitted (afterSample [p] b)) =
    gaps (emitted b) + (if initialized b then lossAt p b else 0).
Proof.
  intros Hs Hq (_ & _ & Hp & Hn).
  destruct (afterSample_one p rest b Hq Hp) as (_ & _ & _ & Hq' & Hi' & Hv' & He' & _).
  unfold in_sync in *. rewrite Hq', Hi', Hv', He', last_snoc. rewrite Hq in Hs.
  destruct (initialized b).
  - destruct Hs as (Hl & Hr & Hss & Hd). simpl in Hss.
    inversion_clear Hss as [|? ? Hss' Ha]. inversion_clear Ha as [|? ? Ha' _].
    inversion_clear Hd. split_and!; try (done || lia); [|by apply gaps_snoc].
    intros. by eapply Sorted_snoc.
  - destruct Hs as [-> Hlen]. destruct rest as [|? ?]; [|simpl in Hlen; lia].
    split_and!; try (done || lia); repeat constructor.
Qed.

Lemma head_missing p rest b :
  in_sync b -> queue b = p :: rest -> headIsNext p b = true ->
  (if initialized b then lossAt p b else 0) = 0.
Proof.
  unfold in_sync, headIsNext. intros Hs Hq Hh. destruct (initialized b); [|done].
  destruct Hs as (_ & _ & _ & Hd). rewrite Hq in Hd. inversion_clear Hd as [|? ? Hd' _].
  rewrite Hd', !orb_false_r in Hh. apply Z.eqb_eq in Hh. unfold lossAt. rewrite Hh.
  apply missingBetween_next.
Qed.

Lemma late_initialized p b : headIsNext p b = false -> initialized b = true.
Proof. unfold headIsNext. destruct (initialized b); [done|]. by rewrite orb_true_r. Qed.

Lemma complete_sound p rest : sound_node p -> isComplete p rest = true.
Proof. intros (Hs & He & _). unfold isComplete. by rewrite Hs, He. Qed.

Lemma inorder_sample s b nodes rest :
  inorder s b -> queue b = nodes ++ rest -> is_sample nodes ->
  exists p, nodes = [p] /\ sound_node p /\ Forall sound_node rest.
Proof.
  intros I Hq Hs. pose proof (io_nodes _ _ I) as Hn. rewrite Hq in Hn.
  apply Forall_app in Hn as [Hn Hrest]. destruct (sound_sample _ Hs Hn) as [p ->].
  rewrite Forall_singleton in Hn. by exists p.
Qed.

(** What is delivered keeps the invariant, once its loss has been counted. *)
Lemma deliver_inorder s b p rest :
  detectRestarts b = false -> (hasSSRC b = true -> ssrc b = s) -> in_sync b ->
  Sorted ahead (emitted b) ->
  stats b PacketsLost = u64 (gaps (emitted b) + (if initialized b then lossAt p b else 0)) ->
  queue b = p :: rest -> sound_node p -> Forall sound_node rest ->
  inorder s (afterSample [p] b).
Proof.
  intros I1 I2 I4 I5 I6 Hq Hp Hrest. pose proof Hp as (_ & _ & Hpad & _).
  destruct (afterSample_one p rest b Hq Hpad) as (H1 & H2 & H3 & H4 & _ & _ & _ & H8).
  destruct (sync_deliver p rest b I4 Hq Hp) as (S1 & S2 & S3).
  split; rewrite ?H1, ?H2, ?H3, ?H4, ?H8, ?S3; auto.
Qed.

Lemma internal_inorder s b b' : internal b b' -> inorder s b -> inorder s b'.
Proof.
  destruct 1 as [b nodes rest Hq Hs (p & Hp & Hh)|b nodes rest p Hq Hs Hp Hh
    |b p rest Hq Hc _|b p rest Hq Hc _|b e He|b t|b l|b]; intros I.
  - destruct (inorder_sample _ _ _ _ I Hq Hs) as (p' & -> & Hn & Hrest). injection Hp as ->.
    destruct I as [I1 I2 _ I4 I5 I6]. apply (deliver_inorder s b p rest); auto.
    rewrite I6, (head_missing p rest), Z.add_0_r by done. done.
  - destruct (inorder_sample _ _ _ _ I Hq Hs) as (p' & -> & Hn & Hrest). injection Hp as ->.
    destruct I as [I1 I2 _ I4 I5 I6]. apply (deliver_inorder s _ p rest); auto.
    cbn [bump stats initialized]. rewrite (late_initialized p b) by done.
    unfold bumpStats. rewrite decide_True, I6 by done. unfold u64, lossAt, emitted. simpl. lia.
  - exfalso. pose proof (io_nodes _ _ I) as Hn. rewrite Hq in Hn.
    inversion_clear Hn. rewrite (complete_sound p rest) in Hc; done.
  - exfalso. pose proof (io_nodes _ _ I) as Hn. rewrite Hq in Hn.
    inversion_clear Hn. rewrite (complete_sound p rest) in Hc; done.
  - by eapply same_view_inorder, I; apply emit_report_view.
  - by eapply same_view_inorder, I.
  - by eapply same_view_inorder, I.
  - by eapply same_view_inorder, I.
Qed.

Lemma internals_inorder s b b' : rtc internal b b' -> inorder s b -> inorder s b'.
Proof. induction 1; [done|]. eauto using internal_inorder. Qed.
(** ** Packets enter in order *)

(** [p] goes between [l1] and [l2], in sequence order. *)
Definition in_place (p : packet) (l1 l2 : list packet) : Prop :=
  Forall (fun c => ahead (sn c) (sn p)) l1 /\ Forall (fun c => ahead (sn p) (sn c)) l2.

(** What a search may find in a sorted list. *)
Definition placed_sorted (p : packet) (l : list packet) (r : placement) : Prop :=
  match r with
  | Inserted q => exists l1 l2, l = l1 ++ l2 /\ q = l1 ++ set_discont false p :: l2 /\ in_place p l1 l2
  | _ => True
  end.

Lemma ahead_all_before p c l :
  ahead (sn p) (sn c) -> Forall (fun c' => ahead (sn c) (sn c')) l ->
  Forall (fun c' => withinRange (sn p) (sn c') = true) l ->
  Forall (fun c' => ahead (sn p) (sn c')) l.
Proof.
  intros Hc Hl Hw. rewrite !Forall_forall in *. intros x Hx. eapply ahead_trans; eauto.
Qed.

Lemma withinRange_comm a b : withinRange a b = withinRange b a.
Proof. unfold withinRange. apply orb_comm. Qed.

Lemma ahead_all_after p c l :
  ahead (sn c) (sn p) -> Forall (fun c' => ahead (sn c') (sn c)) l ->
  Forall (fun c' => withinRange (sn p) (sn c') = true) l ->
  Forall (fun c' => ahead (sn c') (sn p)) l.
Proof.
  intros Hc Hl Hw. rewrite !Forall_forall in *. intros x Hx.
  eapply ahead_trans; [by apply Hl|done|]. rewrite withinRange_comm. by apply Hw.
Qed.

Notation sorted l := (StronglySorted ahead (sn <$> l)).

Lemma sorted_app l1 l2 :
  sorted (l1 ++ l2) -> sorted l1 /\ sorted l2 /\
  Forall (fun c => Forall (fun c' => ahead (sn c) (sn c')) l2) l1.
Proof.
  induction l1 as [|c l1 IH]; simpl; [intros; split_and!; [constructor|done|constructor]|].
  inversion_clear 1 as [|? ? Hs Hf]. destruct (IH Hs) as (H1 & H2 & H3).
  change (list_fmap packet Z sn) with (fmap (M := list) sn) in *.
  rewrite fmap_app, Forall_app, !Forall_fmap in Hf. destruct Hf as [Hf1 Hf2].
  split_and!; [|done|].
  - constructor; [done|]. by rewrite Forall_fmap.
  - by constructor.
Qed.

Lemma sorted_insert p l1 l2 :
  sorted (l1 ++ l2) -> in_place p l1 l2 -> sorted (l1 ++ p :: l2).
Proof.
  intros Hs [Hb Ha]. induction l1 as [|c l1 IH]; simpl in *.
  - constructor; [done|]. by rewrite Forall_fmap.
  - inversion_clear Hs as [|? ? Hs' Hf]. inversion_clear Hb as [|? ? Hc Hb'].
    constructor; [by apply IH|].
    change (list_fmap packet Z sn) with (fmap (M := list) sn) in *.
    rewrite fmap_app, Forall_app, fmap_cons in *. destruct Hf. split; [done|by constructor].
Qed.

Lemma insertFromTail_sorted p upTo : forall after,
  0 <= sn p < 65536 -> Forall (fun c => 0 <= sn c < 65536) upTo ->
  Forall (fun c => withinRange (sn p) (sn c) = true) upTo ->
  sorted (rev upTo ++ after) ->
  Forall (fun c => ahead (sn p) (sn c)) after ->
  placed_sorted p (rev upTo ++ after) (insertFromTail p upTo after).
Proof.
  induction upTo as [|c upTo IH]; intros after Hp Hr Hw Hs Ha; [done|].
  inversion_clear Hr as [|? ? Hrc Hr']. inversion_clear Hw as [|? ? Hwc Hw'].
  simpl rev in *. rewrite <- app_assoc in *. cbn [insertFromTail].
  destruct (sn p =? sn c) eqn:E; [done|]. bool_cases. rewrite Hwc. simpl.
  destruct (before (sn p) (sn c)) eqn:Eb; simpl.
  - apply (IH (c :: after)); try done. constructor; [|done]. by apply behind_of.
  - pose proof (ahead_of _ _ Hp Hrc Hwc Eb) as Hc.
    exists (rev upTo ++ [c]), after. rewrite <- !app_assoc. split_and!; [done|done|split; [|done]].
    apply Forall_app. split; [|by constructor]. eapply ahead_all_after; [done| |by apply Forall_rev].
    apply sorted_app in Hs as (_ & _ & Hs). eapply Forall_impl; [exact Hs|].
    intros x Hx. by inversion_clear Hx.
Qed.
(** The effect of accepting a packet on what the invariant reads. *)
Definition accepted (pk : Packet) (receivedAt : time) (b b' : Buffer) : Prop :=
  (exists q, same_view (set_queue q b) b' /\
    (q = queue b \/ exists l1 l2 p, queue b = l1 ++ l2 /\ q = l1 ++ p :: l2 /\
       extPacket p = mkExt receivedAt pk /\ start p = true /\ end_ p = true /\
       (initialized b = true -> discont p = false) /\ in_place p l1 l2)).

Lemma accepted_refused pk receivedAt b b' :
  same_view b b' -> accepted pk receivedAt b b'.
Proof. intros Hv. exists (queue b). split; [by destruct b|by left]. Qed.

Lemma bump_view c n b : c <> PacketsLost -> same_view b (bump c n b).
Proof. intros Hc. unfold same_view. simpl. unfold bumpStats. rewrite decide_False by done. done. Qed.

#[export] Instance same_view_preorder : PreOrder same_view.
Proof.
  split; [done|]. intros x y z. unfold same_view. intros. destruct_and!. split_and!; congruence.
Qed.

Lemma notifyLoss_view b : same_view b (notifyLoss b).
Proof. unfold notifyLoss. destruct (hasLoss b); [by apply emit_report_view|done]. Qed.

Lemma notifyStats_view b : same_view b (notifyStats b).
Proof. unfold notifyStats. destruct (hasStats b); [by apply emit_report_view|done]. Qed.

Lemma duplicate_view pk b : same_view b (duplicate pk b).
Proof.
  unfold duplicate. destruct (Padding _); [done|].
  etrans; [by apply (bump_view PacketsDuplicate 1)|apply notifyStats_view].
Qed.

Lemma reordered_view q b : same_view (set_queue q b) (set_queue q (reordered (grown b))).
Proof.
  assert (Hv : same_view (grown b) (reordered (grown b))).
  { etrans; [by apply (bump_view PacketsReordered 1)|apply notifyStats_view]. }
  revert Hv. unfold same_view, emitted. simpl. tauto.
Qed.

Lemma ends_sorted b hd rest tl :
  queue b = hd :: rest -> last (queue b) = Some tl -> sorted (queue b) ->
  exists front, queue b = front ++ [tl] /\
    Forall (fun c => ahead (sn c) (sn tl)) front /\ Forall (fun c => ahead (sn hd) (sn c)) rest.
Proof.
  intros Hq Hl Hs. destruct (exists_last (l := queue b)) as (front & tl' & Hf); [by rewrite Hq|].
  rewrite Hf, last_snoc in Hl. injection Hl as ->. exists front. split_and!; [done| |].
  - rewrite Hf in Hs. apply sorted_app in Hs as (_ & _ & Hs). eapply Forall_impl; [exact Hs|].
    intros x Hx. by inversion_clear Hx.
  - rewrite Hq in Hs. simpl in Hs. inversion_clear Hs as [|? ? _ Hf'].
    by rewrite Forall_fmap in Hf'.
Qed.

Lemma pushInto_accepted pk receivedAt b p disc hd rest tl :
  extPacket p = mkExt receivedAt pk -> start p = true -> end_ p = true -> discont p = false ->
  (initialized b = true -> disc = false) ->
  0 <= sn p < 65536 -> Forall sound_node (queue b) -> sorted (queue b) ->
  Forall (fun c => withinRange (sn p) (sn c) = true) (queue b) ->
  queue b = hd :: rest -> last (queue b) = Some tl -> sn p <> sn hd -> sn p <> sn tl ->
  accepted pk receivedAt b (pushInto pk p disc hd tl (grown b)).
Proof.
  intros He Hst Hen Hdc Hdisc Hn Hsn Hs Hw Hq Hl Hnh Hnt.
  destruct (ends_sorted b hd rest tl Hq Hl Hs) as (front & Hf & Hfront & Hrest).
  assert (Hr : Forall (fun c => 0 <= sn c < 65536) (queue b)).
  { eapply Forall_impl; [exact Hsn|]. by intros ? (_ & _ & _ & ?). }
  assert (Hhd : hd ∈ queue b) by (rewrite Hq; set_solver).
  assert (Htl : tl ∈ queue b) by (rewrite Hf; set_solver).
  rewrite Forall_forall in Hr, Hw. unfold pushInto. cbn [grown set_size queue].
  rewrite (Hw hd Hhd), (Hw tl Htl), andb_true_r, andb_true_r.
  destruct (before (sn p) (sn hd)) eqn:Eh.
  { eexists. split; [apply reordered_view|]. right.
    exists [], (queue b), (set_discont (disc && start p) p). split_and!; try done.
    - intros Hi. simpl. by rewrite (Hdisc Hi).
    - split; [done|]. cbn. rewrite Hq. assert (Ha : ahead (sn p) (sn hd)) by (apply behind_of; auto).
      constructor; [done|]. eapply ahead_all_before; [done|done|].
      apply Forall_forall. intros. apply Hw. rewrite Hq. by constructor. }
  destruct (before (sn p) (sn tl)) eqn:Et; simpl.
  2: { exists (queue b ++ [p]). split; [done|]. right. exists (queue b), [], p.
    split_and!; try done; [by rewrite app_nil_r|]. split; [|done].
    assert (Ha : ahead (sn tl) (sn p)) by (apply ahead_of; auto).
    rewrite Hf. apply Forall_app. split; [|by constructor].
    eapply ahead_all_after; [done|done|]. apply Forall_forall. intros. apply Hw. rewrite Hf. set_solver. }
  rewrite Hf, rev_unit. cbn [tail].
  pose proof (insertFromTail_sorted p (rev front) [tl]) as Hins. rewrite rev_involutive in Hins.
  destruct (insertFromTail p (rev front) [tl]) as [q| |]; cbn [place].
  - destruct Hins as (l1 & l2 & H1 & H2 & H3).
    + done.
    + apply Forall_rev, Forall_forall. intros. apply Hr. rewrite Hf. set_solver.
    + apply Forall_rev, Forall_forall. intros. apply Hw. rewrite Hf. set_solver.
    + by rewrite Hf in Hs.
    + constructor; [|done]. by apply behind_of; auto.
    + eexists. split; [apply reordered_view|]. right. exists l1, l2, (set_discont false p).
      rewrite Hf. done.
  - apply accepted_refused. rewrite free_grown. apply duplicate_view.
  - apply accepted_refused. done.
Qed.
(** [comparable], as a proposition. *)
Lemma comparable_spec s pk b :
  comparable s pk b = true ->
  Padding (header pk) = false /\ SSRC (header pk) = s /\
  0 <= SequenceNumber (header pk) < 65536 /\
  (initialized b = true -> withinRange (SequenceNumber (header pk)) (prevSN b) = true) /\
  Forall (fun p => withinRange (SequenceNumber (header pk)) (sn p) = true) (queue b).
Proof.
  unfold comparable. rewrite !andb_true_iff, forallb_forall, negb_true_iff.
  intros (((((? & ?) & ?) & ?) & Hi) & Hq). bool_cases. split_and!; try done.
  - destruct (initialized b); [|done]. intros _. done.
  - apply Forall_forall. intros x Hx. apply Hq. by apply list_elem_of_In.
Qed.

(** Between calls nothing waits for the first sample. *)
Definition settled (b : Buffer) : Prop := initialized b = false -> queue b = [].

Lemma pushAccepted_accepted s pk receivedAt b :
  inorder s b -> settled b -> comparable s pk b = true ->
  accepted pk receivedAt b (pushAccepted pk receivedAt b) \/
  (initialized b = true /\ before (SequenceNumber (header pk)) (prevSN b) = true).
Proof.
  intros I Hset Hc. apply comparable_spec in Hc as (Hpad & _ & Hn & Hprev & Hw).
  unfold pushAccepted. destruct (initialized b && before _ _) eqn:Ee.
  { right. by apply andb_true_iff in Ee. }
  left. set (p := mkPkt (mkExt receivedAt pk) true true false).
  set (disc := negb (initialized b) || negb (withinRange (SequenceNumber (header pk)) (prevSN b))).
  assert (Hdisc : initialized b = true -> disc = false).
  { intros Hi. unfold disc. by rewrite Hi, Hprev. }
  destruct (queue b) as [|hd rest] eqn:Hq.
  - exists [set_discont (disc && true) p]. split; [done|]. right.
    exists [], [], (set_discont (disc && true) p). rewrite Hq. split_and!; try done.
    intros Hi. cbn. by rewrite (Hdisc Hi).
  - destruct (last (hd :: rest)) as [tl|] eqn:Hl.
    2: { by apply last_None in Hl. }
    destruct ((SequenceNumber (header pk) =? sn hd) || (SequenceNumber (header pk) =? sn tl)) eqn:Ed.
    { apply accepted_refused, duplicate_view. }
    bool_cases. pose proof (io_sync _ _ I) as Hs. unfold in_sync in Hs.
    assert (Hi : initialized b = true).
    { destruct (initialized b) eqn:Hi; [done|]. by rewrite Hset in Hq. }
    rewrite Hi in Hs. destruct Hs as (_ & _ & Hs & _). inversion_clear Hs as [|? ? Hs' _].
    apply (pushInto_accepted pk receivedAt b p disc hd rest tl); try done.
    + apply (io_nodes _ _ I).
    + by rewrite Hq.
    + by rewrite Hq.
Qed.

Lemma pushAccepted_expired pk receivedAt b :
  initialized b = true -> before (SequenceNumber (header pk)) (prevSN b) = true ->
  Padding (header pk) = false -> same_view b (pushAccepted pk receivedAt b).
Proof.
  intros Hi Hb Hp. unfold pushAccepted. rewrite Hi, Hb, Hp. simpl.
  etrans; [by apply (bump_view PacketsDropped 1)|apply notifyLoss_view].
Qed.

(** Accepting a packet keeps the stream in order. *)
Lemma accepted_inorder s pk receivedAt b b' :
  inorder s b -> settled b -> comparable s pk b = true ->
  (initialized b = true -> before (SequenceNumber (header pk)) (prevSN b) = false) ->
  accepted pk receivedAt b b' -> inorder s b'.
Proof.
  intros I Hset Hc Hexp (q & Hv & Hq).
  apply comparable_spec in Hc as (Hpad & _ & Hn & Hprev & Hw).
  apply (same_view_inorder _ _ _ Hv). destruct Hq as [->|(l1 & l2 & p & Hq & -> & He & Hs & Hen & Hd & Hp)].
  { by destruct b. }
  assert (Hsn : sn p = SequenceNumber (header pk)) by (unfold sn; by rewrite He).
  destruct I as [I1 I2 I3 I4 I5 I6]. split; try done.
  - simpl. rewrite Hq in I3. apply Forall_app in I3 as [? ?]. apply Forall_app. split; [done|].
    constructor; [|done]. unfold sound_node. rewrite He, Hsn. simpl. done.
  - unfold in_sync in *. change (emitted (set_queue (l1 ++ p :: l2) b)) with (emitted b).
    simpl. destruct (initialized b) eqn:Hi.
    + destruct I4 as (Hl & Hr & Hss & Hdis). split_and!; try (done || lia).
      * rewrite Hq in Hss. inversion_clear Hss as [|? ? Hss' Hf]. constructor.
        { by apply sorted_insert. }
        rewrite Forall_fmap in *. apply Forall_app in Hf as [? ?]. apply Forall_app. split; [done|].
        constructor; [|done]. cbn. rewrite Hsn. apply ahead_of; auto.
      * rewrite Hq in Hdis. apply Forall_app in Hdis as [? ?]. apply Forall_app. split; [done|].
        constructor; auto.
    + destruct I4 as [? _]. split; [done|]. rewrite (Hset Hi) in Hq.
      symmetry in Hq. apply app_nil in Hq as [-> ->]. simpl. lia.
Qed.

Lemma pushAccepted_inorder s pk receivedAt b :
  inorder s b -> settled b -> comparable s pk b = true ->
  inorder s (pushAccepted pk receivedAt b).
Proof.
  intros I Hset Hc. pose proof (comparable_spec _ _ _ Hc) as (Hpad & _).
  destruct (initialized b && before (SequenceNumber (header pk)) (prevSN b)) eqn:Ee.
  - apply andb_true_iff in Ee as [Hi Hb].
    by eapply same_view_inorder, I; apply pushAccepted_expired.
  - destruct (pushAccepted_accepted s pk receivedAt b I Hset Hc) as [Ha|[Hi Hb]].
    + eapply accepted_inorder; eauto. intros Hi. by rewrite Hi in Ee.
    + by rewrite Hi, Hb in Ee.
Qed.
(** ** Calls *)

Definition good (s : Z) (b : Buffer) : Prop := inorder s b /\ settled b.

Lemma popReady_good s now now' b :
  inorder s b -> exists b', popReady now now' b = Ok b' /\ good s b'.
Proof.
  intros I. destruct (popReady_spec now now' b) as (b' & Hp & Hi & Hn & _).
  exists b'. split; [done|]. pose proof (internals_inorder s _ _ Hi I) as I'. split; [done|].
  unfold settled. intros Hni. unfold not_ready in Hn. destruct (queue b') as [|p next] eqn:Hq; [done|].
  exfalso. pose proof (io_nodes _ _ I') as Hsn. rewrite Hq in Hsn. inversion_clear Hsn as [|? ? Hp' _].
  destruct Hn as [Hn|[Hn _]]; [rewrite complete_sound in Hn; done|].
  unfold headIsNext in Hn. by rewrite Hni, orb_true_r in Hn.
Qed.

Lemma Flush_good s b : inorder s b -> exists b', Flush b = Ok b' /\ good s b'.
Proof.
  intros I. destruct (flushLocked_spec b) as (b' & Hf & Hi & Hq).
  exists b'. split; [done|]. split; [by eapply internals_inorder|by intros _].
Qed.

Lemma bump_pushed_inorder s b : good s b -> good s (bump PacketsPushed 1 b).
Proof. intros [I Hs]. split; [|done]. eapply same_view_inorder, I. by apply bump_view. Qed.

Lemma set_ssrc_good s b : good s b -> good s (set_ssrc s true b).
Proof. intros [[I1 I2 I3 I4 I5 I6] Hs]. done. Qed.

Lemma comparable_pushed s pk b n : comparable s pk (bump PacketsPushed n b) = comparable s pk b.
Proof. done. Qed.

Lemma push_good s pk receivedAt b :
  good s b -> comparable s pk b = true ->
  exists b', push pk receivedAt b = Ok b' /\ inorder s b' /\
    (queue b' = [] -> settled b').
Proof.
  intros Hg Hc. apply bump_pushed_inorder in Hg. rewrite <- (comparable_pushed s pk b 1) in Hc.
  pose proof (comparable_spec _ _ _ Hc) as (Hpad & Hss & _).
  unfold push. rewrite Hpad. simpl. set (b0 := bump PacketsPushed 1 b) in *.
  change (hasSSRC b) with (hasSSRC b0). change (ssrc b) with (ssrc b0). clearbody b0.
  assert (Hfin : forall (refuse : Buffer -> Buffer) b1, good s b1 -> comparable s pk b1 = true ->
    exists b', obind (if detectRestarts b1 then acceptLine (SequenceNumber (header pk)) receivedAt b1
                      else Ok (true, b1))
                 (fun '(accepted, b) => if negb accepted then Ok (refuse b) else Ok (pushAccepted pk receivedAt b))
               = Ok b' /\ inorder s b' /\ (queue b' = [] -> settled b')).
  { intros refuse b1 [I1 Hs1] Hc1. rewrite (io_lines _ _ I1). simpl. eexists. split; [done|].
    split; [by apply pushAccepted_inorder|by intros Hq _]. }
  destruct (hasSSRC b0) eqn:Hh; simpl.
  - rewrite (io_ssrc _ _ (proj1 Hg) Hh), Hss, Z.eqb_refl. simpl.
    by apply (Hfin (fun b => notifyStats (notifyLoss (bump PacketsDropped 1 (bump PacketsStray 1 b))))).
  - rewrite Hss.
    apply (Hfin (fun b => notifyStats (notifyLoss (bump PacketsDropped 1 (bump PacketsStray 1 b)))) (set_ssrc s true b0));
      [by apply set_ssrc_good|done].
Qed.

Lemma step_good s i b :
  good s b -> match i with InPush pk _ _ _ => comparable s pk b | _ => true end = true ->
  exists b', step b i = Ok b' /\ good s b'.
Proof.
  intros Hg Hc. destruct i as [pk receivedAt now now'|now now'| |l now|]; cbn [step].
  - unfold PushAt. destruct (push_good s pk receivedAt b Hg Hc) as (b1 & -> & I1 & Hs1). simpl.
    destruct (queue b1) eqn:Hq; [|by apply popReady_good]. exists b1. split; [done|].
    split; [done|]. by apply Hs1.
  - unfold timerFired. destruct (closed b); [by exists b|]. by apply popReady_good, Hg.
  - by apply Flush_good, Hg.
  - eexists. split; [done|]. destruct Hg as [I Hs]. unfold UpdateLatency, resetTimer. simpl.
    split.
    + destruct (queue b); by eapply same_view_inorder, I.
    + revert Hs. unfold settled. destruct (queue b) eqn:Hq; simpl; rewrite ?Hq; done.
  - unfold Close. destruct (Flush_good s b (proj1 Hg)) as (b1 & -> & [I Hs]). simpl.
    eexists. split; [done|]. split; [by eapply same_view_inorder, I|done].
Qed.

Lemma follows_good s ins : forall b,
  good s b -> follows s b ins = true -> exists b', run b ins = Ok b' /\ good s b'.
Proof.
  induction ins as [|i ins IH]; intros b Hg Hf; simpl in *; [by exists b|].
  apply andb_true_iff in Hf as [Hc Hf]. destruct (step_good s i b Hg Hc) as (b1 & Hs & Hg1).
  rewrite Hs in *. simpl. by apply IH.
Qed.

Lemma NewBuffer_good s lat opts :
  Forall (fun o => o <> WithSequenceRestartDetection) opts -> good s (NewBuffer lat opts).
Proof.
  unfold NewBuffer. set (b0 := mkBuf _ _ _ _ _ _ _ _ _ _ _ _ _ _ _). intros Hopts.
  assert (Hg : good s b0).
  { split; [|done]. split; try done.
    split; [done|]. simpl. lia. }
  clearbody b0. revert b0 Hg. induction Hopts as [|o opts Ho _ IH]; intros b [I Hs]; [done|].
  apply IH. split; [|done]. eapply same_view_inorder, I. destruct o; done.
Qed.

(** ** Streams within one window

    Packets whose numbers all lie in one window of 3000 are comparable whatever
    their order. *)
Definition windowed (s base : Z) (pk : Packet) : bool :=
  let n := SequenceNumber (header pk) in
  negb (Padding (header pk)) && (SSRC (header pk) =? s) && (0 <=? n) && (n <? 65536) && (u16 (n - base) <? 3000).

Definition pushWindowed (s base : Z) (i : input) : bool :=
  match i with InPush pk _ _ _ => windowed s base pk | _ => true end.

Definition in_window (base : Z) (b : Buffer) : Prop :=
  Forall (fun p => u16 (sn p - base) < 3000) (queue b) /\ (initialized b = true -> u16 (prevSN b - base) < 3000).

Lemma window_comparable s base pk b : windowed s base pk = true -> in_window base b -> comparable s pk b = true.
Proof.
  unfold windowed, comparable. intros Hw [Hq Hi]. rewrite !andb_true_iff in *. destruct Hw as ((((? & ?) & ?) & ?) & Hn).
  assert (forall n, u16 (n - base) < 3000 -> withinRange (SequenceNumber (header pk)) n = true) as Hr.
  { intros n Hn'. apply withinRange_spec. bool_cases. word_lia. }
  split_and!; try done.
  - destruct (initialized b); [|done]. apply Hr. by apply Hi.
  - apply forallb_forall. intros p Hp. apply Hr. rewrite Forall_forall in Hq. by apply Hq, list_elem_of_In.
Qed.

Lemma internal_window base b b' : internal b b' -> in_window base b -> in_window base b'.
Proof.
  assert (forall nodes rest b0, queue b0 = nodes ++ rest -> is_sample nodes -> Forall (fun p => u16 (sn p - base) < 3000) (queue b0) ->
    in_window base (afterSample nodes b0)) as Hsample.
  { intros nodes rest b0 Hq Hs Hw. destruct (afterSample_spec nodes b0 rest Hq Hs) as (H1 & _ & _ & _ & _ & H6 & _).
    rewrite Hq in Hw. apply Forall_app in Hw as [Hn Hr]. split; [by rewrite H1|]. intros _. rewrite H6.
    destruct (last nodes) as [p|] eqn:Hl; [|apply last_None in Hl as ->; inversion Hs].
    apply last_Some_elem_of in Hl. rewrite Forall_forall in Hn. by apply Hn. }
  destruct 1 as [b nodes rest Hq Hs _|b nodes rest p Hq Hs _ _|b p rest Hq _ _|b p rest Hq _ _|b e _|?|?|?]; intros [Hw Hi].
  - by eapply Hsample.
  - by eapply Hsample.
  - rewrite Hq in Hw. inversion_clear Hw. split; [simpl; by rewrite Hq|done].
  - rewrite Hq in Hw. inversion_clear Hw. split; [simpl; by rewrite Hq|done].
  - done.
  - done.
  - done.
  - done.
Qed.

Lemma called_window s base b i b' :
  called b i b' -> pushWindowed s base i = true -> in_window base b -> in_window base b'.
Proof.
  assert (forall x y, rtc internal x y -> in_window base x -> in_window base y) as Hint.
  { intros x y. induction 1; [done|]. intros. eauto using internal_window. }
  assert (forall x y, rtc moves x y -> in_window base x -> in_window base y) as Hmoves.
  { intros x y. induction 1 as [|x y z [Hm|Hm] _ IH]; [done|..]; intros Hw; apply IH; [by eapply internal_window|].
    destruct Hm; by destruct Hw. }
  destruct 1 as [pk receivedAt now now' b1 b2 b' Hm Hd Hi|i b' _ Hi]; intros Hp Hw; [|by eapply Hint].
  eapply Hint; [exact Hi|]. apply Hmoves in Hm; [|unfold received; by destruct (Padding _)].
  simpl in Hp. unfold windowed in Hp. rewrite !andb_true_iff in Hp. destruct Hp as [_ Hn]. bool_cases.
  destruct Hd as [| | |_ _|p l1 l2 b0 Hq He [-> | ->]]; try done; destruct Hm as [Hw1 Hw2]; (split; [|done]); simpl.
  all: rewrite Hq in Hw1; apply Forall_app in Hw1 as [? ?]; apply Forall_app; split; [done|constructor; [|done]].
  all: unfold sn; by rewrite He.
Qed.

Lemma window_follows s base ins : forall b,
  in_window base b -> forallb (pushWindowed s base) ins = true -> follows s b ins = true.
Proof.
  induction ins as [|i ins IH]; intros b Hw Hi; cbn [follows forallb] in *; [done|].
  apply andb_true_iff in Hi as [Hi Hins]. apply andb_true_iff. split.
  - destruct i; try done. by eapply window_comparable.
  - destruct (step_called b i) as (b' & -> & Hc). apply IH; [|done]. by eapply called_window.
Qed.

Lemma NewBuffer_window base lat opts : in_window base (NewBuffer lat opts).
Proof.
  unfold NewBuffer. set (b0 := mkBuf _ _ _ _ _ _ _ _ _ _ _ _ _ _ _).
  assert (in_window base b0) as Hw by (split; [constructor|done]). clearbody b0. revert b0 Hw.
  induction opts as [|o opts IH]; intros b0 Hw; [done|]. apply IH. by destruct o, Hw.
Qed.


(** ** Witness *)

Definition audio_packet (n : Z) : Packet := mkPacket (mkHeader 2 false false 0 n 0 7) [1].

(** Packets around the wrap of the sequence number, out of order and with a
    duplicate, a loss that the timer gives up on, and a flush. *)
Definition audio_example : list input :=
  let push n t := InPush (audio_packet n) t t t in
  [push 65534 1000; push 0 1001; push 65535 1002; push 3 1003; push 2 1004; push 2 1005;
   InTimer 5000 5000; push 6 5001; InFlush; push 1 5002].

