(* ===== verification/JitterLines.v ===== *)
(** * JitterLines: which sequence line a packet belongs to

    Properties of [acceptLine] ([src/jitter/lines.go]), and two behaviours of
    the jitter buffer that differ from its comments. *)

From stdpp Require Import base tactics numbers list relations.
From S2P Require Import Prelude RtpTypes Seq16 Jitter JitterSpec.

#[local] Open Scope go_scope.

(** ** The decision *)

Section decision.
Context `{Depacketizer}.

(** The packet continues the playing line, or is the first packet. *)
Definition onPlaying (v : lineVote) (n : Z) : bool :=
  negb (ok (cur v)) || (fits (cur v) n && negb (continues (alt v) n (high (cur v)))).

(** The other line once it has the packet. *)
Definition challenger (v : lineVote) (n : Z) (t : time) : seqLine :=
  addLine (if fits (alt v) n then alt v else emptyLine) n t.

(** Both lines have been heard for [lineParallel]. *)
Definition overlapping (v : lineVote) (c : seqLine) : bool :=
  lineParallel <=? Sub (lastAt (cur v)) (first c).

(** The playing line has been silent for [lineQuiet]. *)
Definition silent (v : lineVote) (c : seqLine) (t : time) : bool :=
  negb (overlapping v c) && (lineQuiet <=? Sub t (lastAt (cur v))).

Definition arrivals (l : seqLine) (t : time) (window : duration) : Z := fst (count l t window).

(** The challenger has enough packets, and twice as many as the playing line. *)
Definition outnumbers (v : lineVote) (c : seqLine) (t : time) : bool :=
  let window := if overlapping v c then lineParallel else lineWindow in
  (lineMinPackets <=? arrivals c t window) &&
  (2 * arrivals (cur v) t window <=? arrivals c t window).

Lemma count_keeps l t w :
  ok (snd (count l t w)) = ok l /\ high (snd (count l t w)) = high l /\
  first (snd (count l t w)) = first l /\ lastAt (snd (count l t w)) = lastAt l.
Proof. done. Qed.

Lemma challenger_eq v n t :
  addLine (if negb (fits (alt v) n) then resetLine (alt v) else alt v) n t = challenger v n t.
Proof. unfold challenger. by destruct (fits (alt v) n). Qed.

(** The end of [acceptLine], once the other line takes over. *)
Lemma takeOver_spec n (c : seqLine) (v' : lineVote) (quiet : bool) (b : Buffer) :
  let isAhead := before (high (cur v')) n && withinRange n (high (cur v')) in
  exists b', obind (if negb isAhead then resetStream (set_lines v' b) else Ok (set_lines v' b))
      (fun b1 => Ok (true, set_lines (mkVote (alt v') (resetLine (cur v')))
         (if negb quiet || negb isAhead then notifyStats (bump SequenceRestarts 1 b1) else b1)))
    = Ok (true, b') /\
    lines b' = mkVote (alt v') emptyLine /\
    (isAhead = false -> queue b' = [] /\ initialized b' = false).
Proof.
  intros isAhead. clearbody isAhead. destruct isAhead; simpl.
  - eexists. by split.
  - destruct (resetStream_spec (set_lines v' b)) as (b1 & -> & _ & Hq). simpl.
    eexists. split; [done|]. split; [done|]. rewrite orb_true_r. simpl.
    unfold notifyStats. by destruct (hasStats _).
Qed.

(** Which line plays: [acceptLine] accepts a packet exactly when it
    continues the playing line, or the playing line is silent, or the other
    line outnumbers it; a refused packet changes nothing but the arrival
    records; and when the other line takes over, it becomes the playing line
    with this packet as its last, and unless it continues forward the buffer is
    flushed and waits for a new start. *)
Theorem acceptLine_decides (n : Z) (t : time) (b : Buffer) :
  exists r b', acceptLine n t b = Ok (r, b') /\
    let c := challenger (lines b) n t in
    r = onPlaying (lines b) n || silent (lines b) c t || outnumbers (lines b) c t /\
    (r = false -> b' = set_lines (lines b') b /\
       high (cur (lines b')) = high (cur (lines b)) /\ lastAt (cur (lines b')) = lastAt (cur (lines b))) /\
    (r = true -> onPlaying (lines b) n = false ->
       high (cur (lines b')) = high c /\ lastAt (cur (lines b')) = t /\ alt (lines b') = emptyLine /\
       (before (high (cur (lines b))) n && withinRange n (high (cur (lines b))) = false ->
          queue b' = [] /\ initialized b' = false)).
Proof.
  unfold acceptLine. fold (onPlaying (lines b) n). destruct (onPlaying (lines b) n) eqn:Ho.
  { by eexists _, _. }
  rewrite challenger_eq. set (v := lines b) in *. set (c := challenger v n t).
  fold (overlapping v c). fold (silent v c t). cbn [orb].
  destruct (silent v c t) eqn:Hs; cbn [negb orb].
  { destruct (takeOver_spec n c (mkVote (cur v) c) true b) as (b' & Ht & Hc & Hi).
    exists true, b'. split; [exact Ht|]. split; [done|]. split; [done|]. intros _ _.
    rewrite Hc. split_and!; try done. }
  unfold outnumbers. set (w := if overlapping v c then lineParallel else lineWindow).
  unfold arrivals. destruct (count c t w) as [na alt3] eqn:Ea.
  assert (Ha3 : high alt3 = high c /\ lastAt alt3 = t).
  { unfold count in Ea. injection Ea as _ <-. done. }
  cbn [fst]. rewrite Z.leb_antisym. destruct (na <? lineMinPackets) eqn:Emin; cbn [negb andb].
  { eexists false, _. by split. }
  destruct (count (cur v) t w) as [nc cur3] eqn:Ec.
  assert (Hc3 : high cur3 = high (cur v) /\ lastAt cur3 = lastAt (cur v)).
  { unfold count in Ec. injection Ec as _ <-. done. }
  cbn [fst]. rewrite Z.leb_antisym. destruct (na <? 2 * nc) eqn:Enc; cbn [negb].
  { eexists false, _. split; [done|]. split; [done|]. split; [|done]. intros _. done. }
  destruct (takeOver_spec n alt3 (mkVote cur3 alt3) false b) as (b' & Ht & Hc & Hi).
  exists true, b'. split; [exact Ht|]. split; [done|]. split; [done|]. intros _ _.
  rewrite Hc. cbn [cur alt] in *. destruct Ha3 as [-> ->]. destruct Hc3 as [Hc3 _]. split_and!; try done.
  by rewrite Hc3 in Hi.
Qed.

(** ** The arrival records of a clean stream *)

(** Consecutive packets from [n], arriving at the times [ts]. *)
Fixpoint acceptRun (n : Z) (ts : list time) (b : Buffer) : outcome Buffer :=
  match ts with
  | [] => Ok b
  | t :: ts => let! (_, b) := acceptLine n t b in acceptRun (u16 (n + 1)) ts b
  end.

Lemma accept_next n t b :
  0 <= n < 65536 -> ok (alt (lines b)) = false ->
  ok (cur (lines b)) = false \/ n = u16 (high (cur (lines b)) + 1) ->
  exists b', acceptLine n t b = Ok (true, b') /\
    lines b' = mkVote (addLine (cur (lines b)) n t) (alt (lines b)) /\
    high (cur (lines b')) = n.
Proof.
  intros Hn Ha Hc. unfold acceptLine.
  assert (Ho : negb (ok (cur (lines b))) ||
     (fits (cur (lines b)) n && negb (continues (alt (lines b)) n (high (cur (lines b))))) = true).
  { destruct (ok (cur (lines b))) eqn:Hok; [|done]. destruct Hc as [?|Hc]; [done|].
    unfold continues. rewrite Ha. simpl. rewrite andb_true_r. unfold fits. rewrite Hok. simpl.
    apply orb_true_iff. left. apply Z.leb_le. unfold lineAhead. rewrite Hc. word_lia. }
  rewrite Ho. eexists. split; [done|]. split; [done|]. simpl.
  destruct (ok (cur (lines b))) eqn:Hok; [|done]. destruct Hc as [?|Hc]; [done|].
  simpl. replace (before (high (cur (lines b))) n) with true; [done|].
  symmetry. rewrite before_spec. apply Z.ltb_lt. rewrite Hc. word_lia.
Qed.

Lemma acceptRun_at ts : forall n b,
  0 <= n < 65536 -> ok (alt (lines b)) = false ->
  ok (cur (lines b)) = false \/ n = u16 (high (cur (lines b)) + 1) ->
  exists b', acceptRun n ts b = Ok b' /\
    at_ (cur (lines b')) = at_ (cur (lines b)) ++ ts.
Proof.
  induction ts as [|t ts IH]; intros n b Hn Ha Hc; cbn [acceptRun].
  { exists b. by rewrite app_nil_r. }
  destruct (accept_next n t b Hn Ha Hc) as (b1 & -> & Hl & Hh). simpl.
  destruct (IH (u16 (n + 1)) b1) as (b2 & -> & Hat).
  - apply u16_range.
  - by rewrite Hl.
  - right. by rewrite Hh.
  - exists b2. split; [done|]. rewrite Hat, Hl. simpl. by rewrite <- app_assoc.
Qed.

(** On a clean stream the playing line keeps every arrival: however old
    they are, none of the arrival times of a run of consecutive packets is ever
    removed from it, although the field is described as the arrivals within
    [lineWindow]. *)
Theorem playing_line_keeps_arrivals (n : Z) (ts : list time) (lat : duration) :
  0 <= n < 65536 ->
  exists b', acceptRun n ts (NewBuffer lat [WithSequenceRestartDetection]) = Ok b' /\
    at_ (cur (lines b')) = ts.
Proof.
  intros Hn. destruct (acceptRun_at ts n (NewBuffer lat [WithSequenceRestartDetection]))
    as (b' & Hr & Hat); [done|done|by left|]. by exists b'.
Qed.

End decision.

(** ** A loss counted across an out-of-range jump *)

(** A depacketizer whose packets say themselves where a sample starts and ends:
    the first payload byte is 0 for a middle, 1 for a start, 2 for an end, 3
    for both. *)
Definition markedDepacketizer : Depacketizer := {|
  IsPartitionHead := fun p => match p with x :: _ => Z.odd x | [] => false end;
  IsPartitionTail := fun _ p => match p with x :: _ => 2 <=? x | [] => false end;
|}.

Definition jump_example : list input :=
  let push n x t := InPush (mkPacket (mkHeader 2 false false 0 n 0 7) [x]) t t t in
  [push 100 3 1000; push 20000 0 1001; push 32000 0 1002; push 120 0 1003; InTimer 5000 5000].

(** The loss counter can count a packet behind the last one as 65535 minus
    its distance missing: fragments far ahead of the stream move the last
    sequence number past a packet already in the queue, and four packets make
    more than 65535 lost ones. *)
Theorem loss_counted_backwards :
  exists b, @run markedDepacketizer (NewBuffer 100 []) jump_example = Ok b /\
    stats b PacketsPushed = 4 /\ stats b PacketsLost = 65553.
Proof. eexists. split; [vm_compute; reflexivity|]. split; vm_compute; reflexivity. Qed.

(** ** Witnesses *)

Lemma playing_line_keeps_arrivals_witness :
  exists b', acceptRun 65535 [0; 10 * Second; 20 * Second] (NewBuffer 0 [WithSequenceRestartDetection]) = Ok b' /\
    at_ (cur (lines b')) = [0; 10 * Second; 20 * Second].
Proof. apply (playing_line_keeps_arrivals 65535 [0; 10 * Second; 20 * Second] 0). lia. Defined.
