(* ===== verification/SeqWriter.v ===== *)
(** * SeqWriter: the RTP packet writer of [src/rtp/rtp.go]

    One [SeqWriter] owns the sequence numbers and timestamps of an SSRC; its
    streams write through it.  A wall clock reading is an argument [now] of the
    operation that reads the clock, the outcome of the underlying
    [Writer.WriteRTP] an argument [werr], and the result of [rand.Uint32] the
    argument [rnd] of [NewSeqWriter]. *)

From stdpp Require Import base tactics numbers strings list relations sorting.
From S2P Require Import Prelude RtpTypes.

#[local] Open Scope go_scope.

Definition rtpStreamTSResetFrames : Z := 10.
Definition rtpTimestampOffset : Z := 48000.

Record Event : Type := mkEvent {
  EvType : Z;
  EvTimestamp : Z;
  EvPayload : list Z;
  EvMarker : bool;
}.

Record SeqWriter : Type := mkSeqWriter {
  clockRate : Z;
  frameTS : Z;
  h : Header;
  auto : bool;
  anchorTime : time;
  anchorTS : Z;
  maxTS : Z;
}.

(** [type Stream struct], less its pointer to the [SeqWriter]. *)
Record Stream : Type := mkStream {
  typ : Z;
  manual : bool;
  ts : Z;
}.

Definition NewSeqWriter (rate rnd : Z) : SeqWriter :=
  mkSeqWriter rate (u32 (Z.quot rate DefFramesPerSec))
    (mkHeader 2 false false 0 0 0 rnd) false zeroTime 0 rtpTimestampOffset.

Definition GetMaxTS (s : SeqWriter) : Z := maxTS s.

Definition projectWallclockTS (s : SeqWriter) (now : time) : Z :=
  u32 (anchorTS s +
       u32 (u32 (Z.quot (Round (Sub now (anchorTime s)) DefFrameDur) DefFrameDur) * frameTS s)).

Definition ProjectWallclockTS (s : SeqWriter) (now : time) : Z :=
  if IsZero (anchorTime s) then maxTS s else projectWallclockTS s now.

Definition CurTS (s : SeqWriter) (ts : Z) (now : time) : Z :=
  let reset := i32 (u32 (rtpStreamTSResetFrames * frameTS s)) in
  let ts := if 0 <? i32 (maxTS s - ts) then maxTS s else ts in
  if IsZero (anchorTime s) then ts
  else
    let wall := projectWallclockTS s now in
    if reset <? i32 (wall - ts) then wall else ts.

(** The header sent with an event. *)
Definition eventHeader (s : SeqWriter) (ev : Event) : Header :=
  mkHeader (Version (h s)) (Padding (h s)) (EvMarker ev) (EvType ev)
    (SequenceNumber (h s)) (EvTimestamp ev) (SSRC (h s)).

Definition set_seq (x : Header) (n : Z) : Header :=
  mkHeader (Version x) (Padding x) (Marker x) (PayloadType x) n (Timestamp x) (SSRC x).

(** The packet given to the writer, the new state and the error. *)
Definition WriteEvent (ev : Event) (now : time) (werr : option error) (s : SeqWriter)
    : Packet * SeqWriter * option error :=
  let '(aTime, aTS) :=
    if IsZero (anchorTime s) then (now, EvTimestamp ev) else (anchorTime s, anchorTS s) in
  let hdr := eventHeader s ev in
  let pkt := mkPacket hdr (EvPayload ev) in
  match werr with
  | Some e => (pkt, mkSeqWriter (clockRate s) (frameTS s) hdr (auto s) aTime aTS (maxTS s), Some e)
  | None =>
      let max := if 0 <? i32 (EvTimestamp ev - maxTS s) then EvTimestamp ev else maxTS s in
      (pkt, mkSeqWriter (clockRate s) (frameTS s)
              (set_seq hdr (u16 (SequenceNumber hdr + 1))) (auto s) aTime aTS max, None)
  end.

Definition NewStream (t rate : Z) (s : SeqWriter) : outcome (Stream * SeqWriter) :=
  if negb (rate =? clockRate s) then Panic
  else if auto s then Panic
  else Ok (mkStream t false (maxTS s),
           mkSeqWriter (clockRate s) (frameTS s) (h s) true (anchorTime s) (anchorTS s) (maxTS s)).

Definition NewManualStream (t : Z) (s : SeqWriter) : Stream := mkStream t true (maxTS s).

(** [WritePayload] holds the stream's lock, but the [SeqWriter]'s lock is
    released between its two calls: the timestamp is chosen first. *)
Definition beginPayload (st : Stream) (now : time) (s : SeqWriter) : Z := CurTS s (ts st) now.

Definition finishPayload (st : Stream) (t : Z) (data : list Z) (marker : bool) (now : time)
    (werr : option error) (s : SeqWriter) : Packet * SeqWriter * Stream * option error :=
  let '(pkt, s, err) := WriteEvent (mkEvent (typ st) t data marker) now werr s in
  match err with
  | Some e => (pkt, s, st, Some e)
  | None => (pkt, s, mkStream (typ st) (manual st) (u32 (t + frameTS s)), None)
  end.

Definition WritePayload (st : Stream) (data : list Z) (marker : bool) (now now' : time)
    (werr : option error) (s : SeqWriter) : option Packet * SeqWriter * Stream * option error :=
  if manual st then (None, s, st, Some (Errorf "rtp: WritePayload on a manual stream"%string))
  else
    let t := beginPayload st now s in
    let '(pkt, s, st, err) := finishPayload st t data marker now' werr s in
    (Some pkt, s, st, err).

Definition WriteRaw (st : Stream) (data : list Z) (now now' : time) (werr : option error)
    (s : SeqWriter) : option Packet * SeqWriter * Stream * option error :=
  WritePayload st data false now now' werr s.

Definition WritePayloadAtCurrent (st : Stream) (data : list Z) (marker : bool) (now : time)
    (werr : option error) (s : SeqWriter) : option Packet * SeqWriter * option error :=
  if negb (manual st) then (None, s, Some (Errorf "rtp: WritePayloadAtCurrent on the automatic stream"%string))
  else
    let '(pkt, s, err) := WriteEvent (mkEvent (typ st) (ts st) data marker) now werr s in
    (Some pkt, s, err).

Definition SyncTimestamp (st : Stream) (now : time) (s : SeqWriter) : Stream * option error :=
  if negb (manual st) then (st, Some (Errorf "rtp: SyncTimestamp on the automatic stream"%string))
  else (mkStream (typ st) (manual st) (ProjectWallclockTS s now), None).

Definition GetCurrentTimestamp (st : Stream) : Z := ts st.

(** ** Interleaved use

    A [SeqWriter] with its streams.  [inflight] holds, for each stream, the
    timestamp chosen by a [WritePayload] that has not written its packet yet;
    [sent] the packets the writer accepted, each with the index of its
    stream. *)

Record world : Type := mkWorld {
  sw : SeqWriter;
  streams : list (Stream * option Z);
  sent : list (nat * Packet);
}.

(** The atomic steps: one per time the [SeqWriter]'s lock is taken. *)
Inductive op : Type :=
| OpNewStream (t rate : Z)
| OpNewManual (t : Z)
| OpBegin (i : nat) (now : time)
| OpFinish (i : nat) (data : list Z) (marker : bool) (now : time) (werr : option error)
| OpAtCurrent (i : nat) (data : list Z) (marker : bool) (now : time) (werr : option error)
| OpSync (i : nat) (now : time).

Definition sentBy (i : nat) (pkt : Packet) (err : option error) : list (nat * Packet) :=
  match err with None => [(i, pkt)] | Some _ => [] end.

(** A call on a stream that does not exist, or whose lock is held, does not
    run. *)
Definition exec (w : world) (o : op) : outcome world :=
  match o with
  | OpNewStream t rate =>
      let! (st, s) := NewStream t rate (sw w) in
      Ok (mkWorld s (streams w ++ [(st, None)]) (sent w))
  | OpNewManual t =>
      Ok (mkWorld (sw w) (streams w ++ [(NewManualStream t (sw w), None)]) (sent w))
  | OpBegin i now =>
      Ok (match streams w !! i with
          | Some (st, None) =>
              if manual st then w
              else mkWorld (sw w) (<[i := (st, Some (beginPayload st now (sw w)))]> (streams w)) (sent w)
          | _ => w
          end)
  | OpFinish i data marker now werr =>
      Ok (match streams w !! i with
          | Some (st, Some t) =>
              let '(pkt, s, st', err) := finishPayload st t data marker now werr (sw w) in
              mkWorld s (<[i := (st', None)]> (streams w)) (sent w ++ sentBy i pkt err)
          | _ => w
          end)
  | OpAtCurrent i data marker now werr =>
      Ok (match streams w !! i with
          | Some (st, None) =>
              match WritePayloadAtCurrent st data marker now werr (sw w) with
              | (Some pkt, s, err) => mkWorld s (streams w) (sent w ++ sentBy i pkt err)
              | (None, s, _) => mkWorld s (streams w) (sent w)
              end
          | _ => w
          end)
  | OpSync i now =>
      Ok (match streams w !! i with
          | Some (st, None) =>
              mkWorld (sw w) (<[i := (fst (SyncTimestamp st now (sw w)), None)]> (streams w)) (sent w)
          | _ => w
          end)
  end.

Fixpoint execAll (w : world) (os : list op) : outcome world :=
  match os with
  | [] => Ok w
  | o :: os => let! w := exec w o in execAll w os
  end.

Definition NewWorld (rate rnd : Z) : world := mkWorld (NewSeqWriter rate rnd) [] [].
