(* ===== verification/SeqProps.v ===== *)
(** * SeqProps: sequence numbers and timestamps of an RTP sender

    Properties of [SeqWriter] over any interleaving of its streams. *)

From stdpp Require Import base tactics numbers strings list relations sorting.
From S2P Require Import Prelude RtpTypes SeqWriter.

#[local] Open Scope go_scope.

(** ** Invariants of the steps *)

Lemma WriteEvent_spec ev now werr s :
  exists s', WriteEvent ev now werr s = (mkPacket (eventHeader s ev) (EvPayload ev), s', werr) /\
    frameTS s' = frameTS s /\ clockRate s' = clockRate s /\ auto s' = auto s /\
    SSRC (h s') = SSRC (h s) /\ Version (h s') = Version (h s) /\ Padding (h s') = Padding (h s) /\
    SequenceNumber (h s') =
      match werr with None => u16 (SequenceNumber (h s) + 1) | Some _ => SequenceNumber (h s) end.
Proof. unfold WriteEvent. destruct (IsZero _), werr; by eexists. Qed.

Lemma finishPayload_spec st t data marker now werr s :
  exists s', finishPayload st t data marker now werr s =
      (mkPacket (eventHeader s (mkEvent (typ st) t data marker)) data, s',
       match werr with None => mkStream (typ st) (manual st) (u32 (t + frameTS s)) | Some _ => st end,
       werr) /\
    frameTS s' = frameTS s /\ clockRate s' = clockRate s /\ auto s' = auto s /\
    SSRC (h s') = SSRC (h s) /\ Version (h s') = Version (h s) /\ Padding (h s') = Padding (h s) /\
    SequenceNumber (h s') =
      match werr with None => u16 (SequenceNumber (h s) + 1) | Some _ => SequenceNumber (h s) end.
Proof.
  unfold finishPayload.
  destruct (WriteEvent_spec (mkEvent (typ st) t data marker) now werr s) as (s' & -> & Hs').
  exists s'. split; [|done]. destruct werr; [done|]. by destruct Hs' as [-> _].
Qed.

(** The packets of a world are numbered from 0, on one SSRC. *)
Definition header_ok (ssrc n : Z) (x : Header) : Prop :=
  SequenceNumber x = u16 n /\ SSRC x = ssrc /\ Version x = 2 /\ Padding x = false.

Definition numbered (ssrc : Z) (w : world) : Prop :=
  header_ok ssrc (zlen (sent w)) (h (sw w)) /\
  forall k i p, sent w !! k = Some (i, p) -> header_ok ssrc (Z.of_nat k) (header p).

Lemma numbered_sent ssrc w s' i ev werr streams' :
  numbered ssrc w ->
  SSRC (h s') = SSRC (h (sw w)) -> Version (h s') = Version (h (sw w)) ->
  Padding (h s') = Padding (h (sw w)) ->
  SequenceNumber (h s') =
    match werr with None => u16 (SequenceNumber (h (sw w)) + 1) | Some _ => SequenceNumber (h (sw w)) end ->
  numbered ssrc (mkWorld s' streams'
    (sent w ++ sentBy i (mkPacket (eventHeader (sw w) ev) (EvPayload ev)) werr)).
Proof.
  intros [(H1 & H2 & H3 & H4) Hs] E1 E2 E3 E4. destruct werr; simpl.
  { rewrite app_nil_r. split; [|done]. simpl. unfold header_ok. split_and!; congruence. }
  split; simpl.
  - unfold header_ok. rewrite zlen_app. split_and!; try congruence.
    rewrite E4, H1. unfold zlen. simpl. word_lia.
  - intros k j p. rewrite lookup_app_Some. intros [Hk|[Hk Hp]]; [by eapply Hs|].
    apply list_lookup_singleton_Some in Hp as [Hz [= _ <-]]. unfold header_ok. simpl.
    split_and!; try done. rewrite H1. unfold zlen. f_equal. lia.
Qed.

Lemma exec_numbered ssrc w o w' : numbered ssrc w -> exec w o = Ok w' -> numbered ssrc w'.
Proof.
  intros Hn. destruct o as [t rate|t|i now|i data marker now werr|i data marker now werr|i now]; simpl.
  - unfold NewStream. case_if; [done|]. case_if; [done|]. intros [= <-]. done.
  - intros [= <-]. done.
  - intros [= <-]. destruct (streams w !! i) as [[st [t|]]|]; [done| |done].
    by destruct (manual st).
  - intros [= <-]. destruct (streams w !! i) as [[st [t|]]|]; [|done|done].
    destruct (finishPayload_spec st t data marker now werr (sw w))
      as (s' & -> & _ & _ & _ & E1 & E2 & E3 & E4).
    by apply (numbered_sent _ _ _ _ (mkEvent (typ st) t data marker)).
  - intros [= <-]. destruct (streams w !! i) as [[st [t|]]|]; [done| |done].
    unfold WritePayloadAtCurrent. destruct (manual st); simpl; [|done].
    destruct (WriteEvent_spec (mkEvent (typ st) (ts st) data marker) now werr (sw w))
      as (s' & -> & _ & _ & _ & E1 & E2 & E3 & E4).
    by apply (numbered_sent _ _ _ _ (mkEvent (typ st) (ts st) data marker)).
  - intros [= <-]. by destruct (streams w !! i) as [[st [t|]]|].
Qed.

Lemma execAll_invariant (I : world -> Prop) :
  (forall w o w', I w -> exec w o = Ok w' -> I w') ->
  forall os w w', I w -> execAll w os = Ok w' -> I w'.
Proof.
  intros Hstep. induction os as [|o os IH]; intros w w' Hw; simpl; [congruence|].
  destruct (exec w o) as [w1|] eqn:E; [|done]. simpl. apply IH. by eapply Hstep.
Qed.

(** C11: sequence numbers: over any interleaving of the automatic and manual
    streams of a [SeqWriter], the packets the writer accepts carry consecutive
    sequence numbers (modulo 2^16) from 0 and the same SSRC; a packet it refuses
    uses up no number. *)
Theorem sequence_numbers (rate rnd : Z) (os : list op) (w : world) :
  execAll (NewWorld rate rnd) os = Ok w ->
  forall k i p, sent w !! k = Some (i, p) ->
    SequenceNumber (header p) = u16 (Z.of_nat k) /\ SSRC (header p) = rnd /\
    Version (header p) = 2 /\ Padding (header p) = false.
Proof.
  intros Hr k i p Hk.
  assert (Hn : numbered rnd w) by (eapply (execAll_invariant _ (exec_numbered rnd)), Hr; done).
  by eapply (proj2 Hn).
Qed.

(** ** Timestamps of the automatic stream *)

(** [b] is later than [a] on the 32-bit clock. *)
Definition later (a b : Z) : Prop := 0 < i32 (b - a).

(** The clock distance between two timestamps is less than 2^30 ticks. *)
Definition near (a b : Z) : bool := (-1073741824 <? i32 (b - a)) && (i32 (b - a) <? 1073741824).

(** The timestamp [t] is not further than that from the latest packet and, once
    a packet has set the clock's anchor, from the clock. *)
Definition close_to (s : SeqWriter) (now : time) (t : Z) : bool :=
  near t (maxTS s) && (IsZero (anchorTime s) || near t (projectWallclockTS s now)).

Definition timely (w : world) (o : op) : bool :=
  match o with
  | OpBegin i now =>
      match streams w !! i with
      | Some (st, None) => close_to (sw w) now (ts st)
      | _ => true
      end
  | _ => true
  end.

Fixpoint timelyAll (w : world) (os : list op) : bool :=
  match os with
  | [] => true
  | o :: os => timely w o && match exec w o with Ok w' => timelyAll w' os | Panic => true end
  end.

(** Which streams are manual, and the timestamps sent by the others. *)
Definition kinds (w : world) : list bool := (fun x => manual (fst x)) <$> streams w.
Definition stamps (w : world) : list Z :=
  (fun x => Timestamp (header (snd x))) <$> filter (fun x => kinds w !! fst x = Some false) (sent w).

(** What [CurTS] returns: the stream's timestamp, or one later than it. *)
Lemma CurTS_cases s t now :
  let r := CurTS s t now in
  r = t \/ (r = maxTS s /\ later t r) \/
  (IsZero (anchorTime s) = false /\ r = projectWallclockTS s now /\
   exists t', (t' = t \/ (t' = maxTS s /\ later t t')) /\
     i32 (u32 (rtpStreamTSResetFrames * frameTS s)) < i32 (r - t')).
Proof.
  unfold CurTS, later. set (t' := if 0 <? i32 (maxTS s - t) then maxTS s else t).
  assert (t' = t \/ (t' = maxTS s /\ 0 < i32 (t' - t))) as Ht.
  { unfold t'. destruct (0 <? i32 (maxTS s - t)) eqn:E; bool_cases; [by right|by left]. }
  clearbody t'. destruct (IsZero (anchorTime s)); cbv zeta.
  - destruct Ht as [->|Ht]; [by left|by right; left].
  - case_if; [|destruct Ht as [->|Ht]; [by left|by right; left]]. right. right. split_and!; [done|done|]. by exists t'.
Qed.

Lemma CurTS_later s t now a :
  0 < frameTS s < 134217728 -> t = u32 (a + frameTS s) -> close_to s now t = true ->
  later a (CurTS s t now).
Proof.
  unfold close_to, near. intros Hf -> [Hm Hw]%andb_true_iff. bool_cases.
  pose proof (CurTS_cases s (u32 (a + frameTS s)) now) as Hc. cbv zeta in Hc.
  set (r := CurTS s _ now) in *. clearbody r. unfold later, rtpStreamTSResetFrames in *.
  destruct Hc as [->|[[-> Hr]|(Hz & -> & (t' & [->|[-> Ht]] & Hr))]]; [word_lia|word_lia|..].
  all: rewrite Hz in Hw; simpl in Hw; bool_cases; word_lia.
Qed.

(** The state of a stream agrees with the last timestamp sent. *)
Definition next_ok (frame : Z) (a : Z) (x : Stream * option Z) : Prop :=
  ts (fst x) = u32 (a + frame) /\ match snd x with None => True | Some r => later a r end.

Record timed (frame : Z) (w : world) : Prop := {
  t_frame : frameTS (sw w) = frame;
  t_none : auto (sw w) = false -> forall i, kinds w !! i <> Some false;
  t_one : forall i j, kinds w !! i = Some false -> kinds w !! j = Some false -> i = j;
  t_sent : Forall (fun x => (fst x < length (streams w))%nat) (sent w);
  t_sorted : Sorted later (stamps w);
  t_next : forall i x, streams w !! i = Some x -> manual (fst x) = false ->
    forall a, last (stamps w) = Some a -> next_ok frame a x;
}.

Lemma kinds_lookup w i x : streams w !! i = Some x -> kinds w !! i = Some (manual (fst x)).
Proof. unfold kinds. intros Hi. by rewrite list_lookup_fmap, Hi. Qed.

Lemma kinds_insert s w i x y se :
  streams w !! i = Some x -> manual (fst y) = manual (fst x) ->
  kinds (mkWorld s (<[i := y]> (streams w)) se) = kinds w.
Proof.
  intros Hi Hm. unfold kinds. simpl. rewrite list_fmap_insert, Hm. apply list_insert_id.
  by rewrite list_lookup_fmap, Hi.
Qed.

Lemma stamps_eq w w' : kinds w' = kinds w -> sent w' = sent w -> stamps w' = stamps w.
Proof. intros Hk Hs. unfold stamps. by rewrite Hk, Hs. Qed.

Lemma stamps_sent w w' i p err :
  kinds w' = kinds w -> sent w' = sent w ++ sentBy i p err ->
  stamps w' = stamps w ++
    match err with
    | None => if decide (kinds w !! i = Some false) then [Timestamp (header p)] else []
    | Some _ => []
    end.
Proof.
  intros Hk Hs. unfold stamps. rewrite Hk, Hs, filter_app, fmap_app. f_equal.
  destruct err; simpl; [done|]. rewrite filter_cons. simpl. by case_decide.
Qed.

(** A new stream does not change which packets are the automatic stream's. *)
Lemma stamps_new s w x :
  Forall (fun x => (fst x < length (streams w))%nat) (sent w) ->
  stamps (mkWorld s (streams w ++ [x]) (sent w)) = stamps w.
Proof.
  unfold stamps, kinds. simpl. rewrite fmap_app.
  induction 1 as [|[i p] l Hi _ IH]; [done|]. simpl in Hi. rewrite !filter_cons. simpl.
  rewrite lookup_app_l by (by rewrite length_fmap).
  case_decide; simpl; [f_equal|]; apply IH.
Qed.

Lemma stamps_none w : (forall i, kinds w !! i <> Some false) -> stamps w = [].
Proof.
  intros Hn. unfold stamps. induction (sent w) as [|x l IH]; [done|].
  rewrite filter_cons, decide_False by apply Hn. done.
Qed.

Lemma last_app_cases {A} (l1 l2 : list A) a :
  last (l1 ++ l2) = Some a -> (l2 = [] /\ last l1 = Some a) \/ last l2 = Some a.
Proof. rewrite last_app. destruct (last l2) eqn:E; [auto|]. apply last_None in E. auto. Qed.

(** A step of stream [i] that leaves the kinds of the streams alone. *)
Lemma timed_step frame w s i x y p err :
  timed frame w -> streams w !! i = Some x -> manual (fst y) = manual (fst x) ->
  frameTS s = frame -> auto s = auto (sw w) ->
  (manual (fst x) = false -> err = None -> forall a, last (stamps w) = Some a -> later a (Timestamp (header p))) ->
  (manual (fst x) = false -> err = None -> next_ok frame (Timestamp (header p)) y) ->
  (manual (fst x) = false -> forall a, err <> None -> last (stamps w) = Some a -> next_ok frame a y) ->
  timed frame (mkWorld s (<[i := y]> (streams w)) (sent w ++ sentBy i p err)).
Proof.
  intros [T1 T2 T3 T4 T5 T6] Hi Hm Hf Ha Hlater Hnext Hkeep.
  set (w' := mkWorld _ _ _).
  assert (Hk : kinds w' = kinds w) by (by eapply kinds_insert).
  assert (Hki : kinds w !! i = Some (manual (fst x))) by (by apply kinds_lookup).
  assert (Hst : stamps w' = stamps w ++
    match err with None => if manual (fst x) then [] else [Timestamp (header p)] | Some _ => [] end).
  { rewrite (stamps_sent w w' i p err Hk eq_refl). f_equal. destruct err; [done|].
    rewrite Hki. destruct (manual (fst x)); [by rewrite decide_False|by rewrite decide_True]. }
  split; rewrite ?Hk, ?Hst; simpl; try done.
  - by rewrite Ha.
  - rewrite length_insert. apply Forall_app. split; [done|]. destruct err; constructor; [|done].
    by eapply lookup_lt_Some.
  - destruct err, (manual (fst x)) eqn:Hx; rewrite ?app_nil_r; try done.
    destruct (last (stamps w)) as [a|] eqn:Hl.
    + apply Sorted_snoc with a; auto.
    + apply last_None in Hl. rewrite Hl. by repeat constructor.
  - intros j z Hj Hz a Hl.
    destruct (decide (i = j)) as [<-|Hne].
    + rewrite list_lookup_insert_eq in Hj by (by eapply lookup_lt_Some). injection Hj as <-.
      rewrite Hm in Hz. rewrite Hz in *. apply last_app_cases in Hl as [[He Hl]|Hl].
      * destruct err; [|done]. by apply Hkeep.
      * destruct err; [done|]. injection Hl as <-. by apply Hnext.
    + rewrite list_lookup_insert_ne in Hj by done.
      assert (Hx : manual (fst x) = true).
      { destruct (manual (fst x)) eqn:Hx; [done|]. exfalso. apply Hne, T3; [done|].
        by rewrite (kinds_lookup w j z Hj), Hz. }
      rewrite Hx in Hl. destruct err; rewrite app_nil_r in Hl; eauto.
Qed.

(** The same, for a step that sends nothing. *)
Lemma timed_quiet frame w i x y :
  timed frame w -> streams w !! i = Some x -> manual (fst y) = manual (fst x) ->
  (manual (fst x) = false -> forall a, last (stamps w) = Some a -> next_ok frame a y) ->
  timed frame (mkWorld (sw w) (<[i := y]> (streams w)) (sent w)).
Proof.
  intros T Hi Hm Hn.
  pose proof (timed_step frame w (sw w) i x y (mkPacket (h (sw w)) []) (Some EOF) T Hi Hm
                (t_frame _ _ T) eq_refl) as Ht.
  simpl in Ht. rewrite app_nil_r in Ht. apply Ht; try done. intros. by apply Hn.
Qed.

Lemma timed_new frame w x s' :
  timed frame w -> snd x = None -> frameTS s' = frame ->
  (manual (fst x) = false -> auto (sw w) = false) ->
  auto s' = auto (sw w) || negb (manual (fst x)) ->
  timed frame (mkWorld s' (streams w ++ [x]) (sent w)).
Proof.
  intros [T1 T2 T3 T4 T5 T6] Hx Hf Hm Ha. set (w' := mkWorld _ _ _).
  assert (Hst : stamps w' = stamps w) by (by apply stamps_new).
  assert (Hk : forall i, kinds w' !! i = Some false ->
    kinds w !! i = Some false \/ (i = length (streams w) /\ manual (fst x) = false)).
  { intros i. unfold w', kinds. simpl. rewrite fmap_app, lookup_app_Some, length_fmap.
    intros [?|[Hi Hl]]; [by left|]. apply list_lookup_singleton_Some in Hl as [? [= ?]].
    right. split; [lia|done]. }
  split; rewrite ?Hst; try done.
  - simpl. rewrite Ha. intros Hor i Hi. apply orb_false_iff in Hor as [Hau Hn].
    destruct (Hk i Hi) as [Hi'|[_ Hf']]; [by eapply T2|]. by rewrite Hf' in Hn.
  - intros i j Hi Hj. destruct (Hk i Hi) as [Hi'|[-> Hm1]], (Hk j Hj) as [Hj'|[-> Hm2]]; auto.
    + exfalso. eapply T2; eauto.
    + exfalso. eapply T2; eauto.
  - simpl. rewrite length_app. eapply Forall_impl; [exact T4|]. simpl. lia.
  - intros i y Hi Hy a Hl. simpl in Hi. apply lookup_app_Some in Hi as [Hi|[Hi Hl']]; [eauto|].
    apply list_lookup_singleton_Some in Hl' as [_ ->]. rewrite stamps_none in Hl; [done|].
    apply T2. by apply Hm.
Qed.

Lemma exec_timed frame w o w' :
  0 < frame < 134217728 -> timed frame w -> timely w o = true -> exec w o = Ok w' -> timed frame w'.
Proof.
  intros Hfr T Ht. pose proof (t_frame _ _ T) as Hf.
  destruct o as [t rate|t|i now|i data marker now werr|i data marker now werr|i now]; simpl.
  - unfold NewStream. case_if; [done|]. destruct (auto (sw w)) eqn:Hau; [done|]. intros [= <-].
    apply timed_new; try done. by rewrite orb_true_r.
  - intros [= <-]. apply timed_new; try done. simpl. by rewrite orb_false_r.
  - intros [= <-]. destruct (streams w !! i) as [[st [t|]]|] eqn:Hi; [done| |done].
    destruct (manual st) eqn:Hm; [done|]. eapply timed_quiet; [done|done|done|].
    intros _ a Ha. destruct (t_next _ _ T i _ Hi Hm a Ha) as [Hts _]. split; [done|].
    simpl in *. rewrite Hi in Ht. unfold beginPayload. rewrite <- Hf in *. by apply CurTS_later.
  - intros [= <-]. destruct (streams w !! i) as [[st [t|]]|] eqn:Hi; [|done|done].
    destruct (finishPayload_spec st t data marker now werr (sw w))
      as (s' & -> & Hf' & _ & Ha' & _).
    eapply (timed_step frame w s' i (st, Some t)); try done.
    + by destruct werr.
    + by rewrite Hf'.
    + intros Hm _ a Ha. by destruct (t_next _ _ T i _ Hi Hm a Ha) as [_ Hl].
    + intros Hm ->. split; [simpl; by rewrite Hf|done].
    + intros Hm a Hne Ha. destruct werr; [|done].
      destruct (t_next _ _ T i _ Hi Hm a Ha) as [Hts _]. by split.
  - intros [= <-]. destruct (streams w !! i) as [[st [t|]]|] eqn:Hi; [done| |done].
    unfold WritePayloadAtCurrent. destruct (manual st) eqn:Hm; simpl; [|by destruct w].
    destruct (WriteEvent_spec (mkEvent (typ st) (ts st) data marker) now werr (sw w))
      as (s' & -> & Hf' & _ & Ha' & _).
    rewrite <- (list_insert_id (streams w) i (st, None)) by done.
    eapply (timed_step frame w s' i (st, None)); try done.
    + by rewrite Hf'.
    + simpl. by rewrite Hm.
    + simpl. by rewrite Hm.
    + simpl. by rewrite Hm.
  - intros [= <-]. destruct (streams w !! i) as [[st [t|]]|] eqn:Hi; [done| |done].
    unfold SyncTimestamp. destruct (manual st) eqn:Hm; simpl.
    + eapply timed_quiet; try done. simpl. by rewrite Hm.
    + eapply timed_quiet; try done. intros _ a Ha. by apply (t_next _ _ T i _ Hi Hm a Ha).
Qed.

Lemma execAll_timed frame os : 0 < frame < 134217728 -> forall w w',
  timed frame w -> timelyAll w os = true -> execAll w os = Ok w' -> timed frame w'.
Proof.
  intros Hfr. induction os as [|o os IH]; intros w w' T Ht; simpl in *; [congruence|].
  apply andb_true_iff in Ht as [Ho Ht]. destruct (exec w o) as [w1|] eqn:E; [|done]. simpl.
  apply IH; [|done]. by eapply exec_timed.
Qed.

(** C12: the timestamps of the automatic stream strictly increase on the 32-bit
    clock, over any interleaving with the manual streams of the SSRC, any
    failure of the writer and any stall or jump of the wall clock, for clock
    rates from 50 to 6710886399 Hz (one tick to 2^27 per frame), as long as
    the stream, whenever it picks a timestamp, is within 2^30 ticks of the latest
    packet and, once the first packet has set the anchor, of the clock; there is at
    most one automatic stream. *)
Theorem automatic_timestamps (rate rnd : Z) (os : list op) (w : world) :
  50 <= rate < 6710886400 ->
  timelyAll (NewWorld rate rnd) os = true ->
  execAll (NewWorld rate rnd) os = Ok w ->
  Sorted later (stamps w) /\
  (forall i j, kinds w !! i = Some false -> kinds w !! j = Some false -> i = j).
Proof.
  intros Hr Ht He.
  assert (Hf : 0 < u32 (Z.quot rate DefFramesPerSec) < 134217728) by (unfold DefFramesPerSec; word_lia).
  assert (T : timed (u32 (Z.quot rate DefFramesPerSec)) w).
  { eapply (execAll_timed _ os Hf), He; [|done]. by split. }
  split; [apply (t_sorted _ _ T)|apply (t_one _ _ T)].
Qed.

(** ** The correction of a timestamp *)

(** [CurTS] computes, on 32-bit timestamps, what it says on unbounded
    ones: at least the latest timestamp written, and the wall clock's instead
    when that is more than ten frames ahead. *)
Theorem CurTS_unbounded (s : SeqWriter) (T M W : Z) (now : time) :
  0 <= frameTS s < 134217728 ->
  maxTS s = u32 M ->
  IsZero (anchorTime s) = false -> projectWallclockTS s now = u32 W ->
  Z.max T (Z.max M W) - Z.min T (Z.min M W) < 2147483648 ->
  CurTS s (u32 T) now =
    u32 (if Z.max T M + 10 * frameTS s <? W then W else Z.max T M).
Proof.
  intros Hf HM Ha HW Hb. unfold CurTS, rtpStreamTSResetFrames. rewrite HM, Ha, HW.
  assert (E1 : i32 (u32 M - u32 T) = M - T) by word_lia.
  rewrite E1. assert (E2 : (if 0 <? M - T then u32 M else u32 T) = u32 (Z.max T M)).
  { case_if; f_equal; lia. }
  rewrite E2. assert (E3 : i32 (u32 W - u32 (Z.max T M)) = W - Z.max T M) by word_lia.
  rewrite E3. assert (E4 : i32 (u32 (10 * frameTS s)) = 10 * frameTS s) by word_lia.
  rewrite E4. repeat case_if; done || lia.
Qed.

(** ** Witnesses *)

(** An automatic stream whose packet is written after one of a manual stream
    that started later, a refused packet, a stall of one second, a catch-up. *)
Definition seq_example : list op :=
  let t n := 1000 * Second + n * Millisecond in
  [OpNewStream 8 48000; OpNewManual 101;
   OpBegin 0 (t 0); OpFinish 0 [1] true (t 0) None;
   OpBegin 0 (t 20); OpSync 1 (t 1000); OpAtCurrent 1 [7] true (t 1000) None;
   OpFinish 0 [2] false (t 1001) None; OpBegin 0 (t 1020); OpFinish 0 [3] false (t 1020) (Some ErrClosedPipe);
   OpBegin 0 (t 1040); OpFinish 0 [4] false (t 1040) None].

Lemma seq_example_runs :
  exists w, execAll (NewWorld 48000 99) seq_example = Ok w /\ length (sent w) = 4%nat /\
    stamps w = [48000; 48960; 96000].
Proof. eexists. split; [vm_compute; reflexivity|]. split; vm_compute; reflexivity. Qed.

Lemma sequence_numbers_witness :
  exists w, execAll (NewWorld 48000 99) seq_example = Ok w /\
    forall k i p, sent w !! k = Some (i, p) ->
      SequenceNumber (header p) = u16 (Z.of_nat k) /\ SSRC (header p) = 99 /\
      Version (header p) = 2 /\ Padding (header p) = false.
Proof.
  destruct (execAll (NewWorld 48000 99) seq_example) as [w|] eqn:E; [|by vm_compute in E].
  exists w. split; [done|]. exact (sequence_numbers 48000 99 seq_example w E).
Defined.

(** The same calls in January 2025, counted from the zero time of Go. *)
Definition shifted (d : Z) (o : op) : op :=
  match o with
  | OpBegin i now => OpBegin i (now + d)
  | OpFinish i data marker now werr => OpFinish i data marker (now + d) werr
  | OpAtCurrent i data marker now werr => OpAtCurrent i data marker (now + d) werr
  | OpSync i now => OpSync i (now + d)
  | OpNewStream t rate => OpNewStream t rate
  | OpNewManual t => OpNewManual t
  end.

Definition example_at (rate : Z) : list op :=
  OpNewStream 8 rate :: tail (shifted (63871286400 * Second) <$> seq_example).

Lemma automatic_timestamps_witness :
  Forall (fun rate => exists w, execAll (NewWorld rate 99) (example_at rate) = Ok w /\
    length (stamps w) = 3%nat /\ Sorted later (stamps w)) [8000; 16000; 24000; 48000; 90000].
Proof.
  repeat constructor.
  all: match goal with |- exists w, execAll (NewWorld ?rate ?rnd) ?os = Ok w /\ _ =>
    destruct (execAll (NewWorld rate rnd) os) as [w|] eqn:E; [|by vm_compute in E];
    exists w; split; [reflexivity|]; split; [revert E; vm_compute; by intros [= <-]|];
    refine (proj1 (automatic_timestamps rate rnd os w _ _ E)); [lia|vm_compute; reflexivity] end.
Defined.

(** The timestamp wraps around: the clock is 20 frames ahead of the stream. *)
Definition wrapped_writer : SeqWriter :=
  mkSeqWriter 48000 960 (mkHeader 2 false false 0 5 0 99) true Second 4294960000 4294960000.

Lemma CurTS_unbounded_witness :
  CurTS wrapped_writer (u32 4294960960) (Second + 400 * Millisecond) = 11904.
Proof.
  rewrite (CurTS_unbounded wrapped_writer 4294960960 4294960000 4294979200 (Second + 400 * Millisecond));
    vm_compute; try reflexivity; split; discriminate || reflexivity.
Defined.
