(* ===== verification/Receive.v ===== *)
(** * Receive: the receiving loop, [src/rtp/jitter.go] and [src/rtp/rtp.go]

    [HandleLoop] reads packets and gives them to the handler of [HandleJitter],
    whose jitter buffer gives them in order to the handler behind it: a
    [MediaStreamIn] and the decoder it writes to, or any other.  The [k]-th
    [HandleRTP] of that handler returns [herr k].

    Two goroutines run: the loop, and the timer of the jitter buffer.  The loop
    is at one of the points of its code; a schedule says what moves next. *)

From stdpp Require Import base tactics numbers strings list.
From S2P Require Import Prelude RtpTypes Jitter SeqWriter.

#[local] Open Scope go_scope.
#[local] Existing Instance audioDepacketizer.

Definition jitterMaxLatency : duration := 60 * Millisecond.

Section receive.
Context (herr : nat -> option error).

(** [type jitterHandler struct]: [errCh] is what the channel [err] of capacity
    one holds, [handled] what [h.HandleRTP] has received, [hCloses] how often
    [h.Close] was called. *)
Record jitterHandler : Type := mkHandler {
  buf : Buffer;
  errCh : option error;
  handled : list Packet;
  hCloses : nat;
}.

Definition HandleJitter (opts : list option_) : jitterHandler :=
  mkHandler (NewBuffer jitterMaxLatency opts) None [] 0.

(** [handleRTP]: an error is kept when the channel is empty. *)
Definition handleRTP (p : Packet) (r : jitterHandler) : jitterHandler :=
  let r' := mkHandler (buf r) (errCh r) (handled r ++ [p]) (hCloses r) in
  match herr (length (handled r)) with
  | Some err =>
      match errCh r with
      | None => mkHandler (buf r') (Some err) (handled r') (hCloses r')
      | Some _ => r'
      end
  | None => r'
  end.

(** The callback of [HandleJitter]; the others are the options' own. *)
Definition onEvent (r : jitterHandler) (e : event) : jitterHandler :=
  match e with
  | OnPacket packets => fold_left (fun r p => handleRTP (pkt p) r) packets r
  | _ => r
  end.

(** A call of the buffer, with the callbacks it makes on its way; they do not
    touch the buffer. *)
Definition callBuffer (i : input) (r : jitterHandler) : outcome jitterHandler :=
  let! b := Jitter.step (buf r) i in
  Ok (fold_left onEvent (drop (length (events (buf r))) (events b))
        (mkHandler b (errCh r) (handled r) (hCloses r))).

(** The [select] at the end of [HandleRTP]. *)
Definition takeErr (r : jitterHandler) : jitterHandler * option error :=
  (mkHandler (buf r) None (handled r) (hCloses r), errCh r).

Definition closeHandler (r : jitterHandler) : jitterHandler :=
  mkHandler (buf r) (errCh r) (handled r) (S (hCloses r)).

(** [HandleLoop]: in [r.ReadRTP]; between the two halves of [HandleRTP]; in the
    deferred [Close], before [r.buf.Close] and before [r.h.Close]; done. *)
Inductive point : Type :=
| Reading
| Selecting
| Closing (err : error)
| ClosingHandler (err : error)
| Returned (err : error).

(** [reads] is what [r.ReadRTP] has returned so far. *)
Record loop : Type := mkLoop {
  handler : jitterHandler;
  at_ : point;
  reads : list (Packet + error);
}.

Definition HandleLoop (h : jitterHandler) : loop := mkLoop h Reading [].

(** A read returns; the timer fires; the loop goes on. *)
Inductive action : Type :=
| Arrive (r : Packet + error) (receivedAt now now' : time)
| Fire (now now' : time)
| Next.

(** An action that is not possible leaves the state alone. *)
Definition step (l : loop) (a : action) : outcome loop :=
  match a with
  | Fire now now' =>
      let! h := callBuffer (InTimer now now') (handler l) in Ok (mkLoop h (at_ l) (reads l))
  | Arrive r receivedAt now now' =>
      match at_ l with
      | Reading =>
          match r with
          | inr err => Ok (mkLoop (handler l) (Closing err) (reads l ++ [r]))
          | inl p =>
              let! h := callBuffer (InPush p receivedAt now now') (handler l) in
              Ok (mkLoop h Selecting (reads l ++ [r]))
          end
      | _ => Ok l
      end
  | Next =>
      match at_ l with
      | Selecting =>
          let '(h, err) := takeErr (handler l) in
          Ok (mkLoop h (match err with Some err => Closing err | None => Reading end) (reads l))
      | Closing err =>
          let! h := callBuffer InClose (handler l) in Ok (mkLoop h (ClosingHandler err) (reads l))
      | ClosingHandler err => Ok (mkLoop (closeHandler (handler l)) (Returned err) (reads l))
      | _ => Ok l
      end
  end.

Fixpoint run (l : loop) (acts : list action) : outcome loop :=
  match acts with
  | [] => Ok l
  | a :: acts => let! l := step l a in run l acts
  end.

(** [HandleRTP] of [MediaStreamIn]: the frame it writes. *)
Definition mediaStreamIn (hdr : Header) (payload : list Z) : list Z := payload.

(** The frames written when the handler is a [MediaStreamIn]. *)
Definition framesIn (r : jitterHandler) : list (list Z) :=
  (fun p => mediaStreamIn (header p) (Payload p)) <$> handled r.

End receive.

(** [WriteSample] of [MediaStreamOut] *)
Definition mediaStreamOut (st : Stream) (sample : list Z) (now now' : time) (werr : option error) (s : SeqWriter)
    : option Packet * SeqWriter * Stream * option error :=
  WritePayload st sample false now now' werr s.
