(* ===== verification/ReceiveProps.v ===== *)
(** * ReceiveProps: the receiving loop, and audio from end to end

    What the handler receives is what the jitter buffer delivers; the loop
    closes its handler once and returns the first error; and the audio of a
    [SeqWriter], whatever the order its packets arrive in, is received in the
    order it was sent. *)

From stdpp Require Import base tactics numbers strings list relations sorting.
From S2P Require Import Prelude RtpTypes Seq16 Jitter JitterSpec JitterProps JitterOrder SeqWriter SeqProps Receive.

#[local] Open Scope go_scope.
#[local] Existing Instance audioDepacketizer.

(** ** Events are only added *)

Definition extends (b b' : Buffer) : Prop := events b `prefix_of` events b'.

#[export] Instance extends_preorder : PreOrder extends.
Proof. split; unfold extends; [by intros ?|by intros ? ? ?; etrans]. Qed.

Section events.
Context `{Depacketizer}.

Lemma afterSample_extends nodes b rest : queue b = nodes ++ rest -> is_sample nodes -> extends b (afterSample nodes b).
Proof.
  intros Hq Hs. destruct (afterSample_spec nodes b rest Hq Hs) as (_ & _ & _ & _ & _ & _ & He).
  unfold extends. rewrite He. by apply prefix_app_r.
Qed.

Lemma internal_extends b b' : internal b b' -> extends b b'.
Proof.
  destruct 1 as [b nodes rest Hq Hs _|b nodes rest p Hq Hs _ _|b p rest Hq _ _|b p rest Hq _ _|b e He|?|?|?];
    try exact (reflexivity (events b)).
  - by eapply afterSample_extends.
  - by apply (afterSample_extends nodes (bump PacketsLost (lossAt p b) b) rest).
  - by apply prefix_app_r.
Qed.

Lemma moves_extends b b' : rtc moves b b' -> extends b b'.
Proof.
  induction 1 as [|x y z [Hi|Hr] _ IH]; [done|..]; (etrans; [|exact IH]);
    [by apply internal_extends|destruct Hr; exact (reflexivity (events b))].
Qed.

Lemma called_extends b i b' : called b i b' -> extends b b'.
Proof.
  destruct 1 as [pk receivedAt now now' b1 b2 b' Hm Hd Hi|i b' Hi Hm]; [|by apply moves_extends, internal_moves].
  destruct (received_books pk b) as (_ & _ & He & _). destruct (disposed_books _ _ _ _ Hd) as (_ & _ & He2 & _).
  apply moves_extends in Hm. apply internal_moves, moves_extends in Hi. unfold extends in *. by rewrite <- He, <- He2 in *; etrans.
Qed.

End events.

(** ** One call of the buffer *)

Section receive.
Context (herr : nat -> option error).
Implicit Types (r : jitterHandler) (l : loop) (b : Buffer).

(** The first error among the first [n] calls of the handler. *)
Fixpoint firstErr (n : nat) : option error :=
  match n with
  | O => None
  | S n => match firstErr n with Some e => Some e | None => herr n end
  end.

Lemma firstErr_mono n m e : (n <= m)%nat -> firstErr n = Some e -> firstErr m = Some e.
Proof. induction 1 as [|m _ IH]; [done|]. intros He. simpl. by rewrite IH. Qed.

Definition keepsFirst r : Prop := errCh r = firstErr (length (handled r)).

Lemma handleRTP_spec p r :
  buf (handleRTP herr p r) = buf r /\ handled (handleRTP herr p r) = handled r ++ [p] /\
  hCloses (handleRTP herr p r) = hCloses r /\ (keepsFirst r -> keepsFirst (handleRTP herr p r)).
Proof.
  unfold handleRTP, keepsFirst. destruct (herr (length (handled r))) eqn:Eh; [destruct (errCh r) eqn:Ee|];
    simpl; split_and!; try done; rewrite length_app, Nat.add_1_r; simpl; intros <-; rewrite ?Ee, ?Eh; try done.
  by destruct (errCh r).
Qed.

Lemma onEvents_spec es : forall r,
  let r' := fold_left (onEvent herr) es r in
  buf r' = buf r /\ handled r' = handled r ++ (pkt <$> concat (deliveredOf <$> es)) /\
  hCloses r' = hCloses r /\ (keepsFirst r -> keepsFirst r').
Proof.
  assert (Hps : forall ps r, let r' := fold_left (fun r p => handleRTP herr (pkt p) r) ps r in
    buf r' = buf r /\ handled r' = handled r ++ (pkt <$> ps) /\ hCloses r' = hCloses r /\ (keepsFirst r -> keepsFirst r')).
  { induction ps as [|p ps IH]; intros r; simpl; [by rewrite app_nil_r|].
    destruct (handleRTP_spec (pkt p) r) as (H1 & H2 & H3 & H4).
    destruct (IH (handleRTP herr (pkt p) r)) as (-> & -> & -> & H5). rewrite H1, H2, H3, <- app_assoc. split_and!; tauto. }
  induction es as [|e es IH]; intros r; simpl; [by rewrite app_nil_r|].
  destruct (IH (onEvent herr r e)) as (-> & -> & -> & H4). rewrite fmap_app. destruct e as [ps| |]; simpl; [|done..].
  destruct (Hps ps r) as (-> & -> & -> & H5). rewrite <- app_assoc. split_and!; tauto.
Qed.

Lemma callBuffer_spec i r b :
  Jitter.step (buf r) i = Ok b -> handled r = pkt <$> delivered (buf r) ->
  exists r', callBuffer herr i r = Ok r' /\ buf r' = b /\ handled r' = pkt <$> delivered b /\
    hCloses r' = hCloses r /\ (keepsFirst r -> keepsFirst r').
Proof.
  intros Hs Hh. unfold callBuffer. rewrite Hs. cbn [obind]. eexists. split; [done|].
  destruct (onEvents_spec (drop (length (events (buf r))) (events b))
    (mkHandler b (errCh r) (handled r) (hCloses r))) as (-> & -> & -> & Hk). split_and!; try done.
  destruct (step_called (buf r) i) as (b' & Hs' & Hc). rewrite Hs in Hs'. injection Hs' as <-.
  destruct (called_extends _ _ _ Hc) as [es He]. unfold delivered. rewrite He, drop_app_length, !fmap_app, concat_app, fmap_app.
  cbn [handled]. by rewrite Hh.
Qed.

(** A closed buffer ignores its timer. *)
Lemma callBuffer_closed now now' r : closed (buf r) = true -> callBuffer herr (InTimer now now') r = Ok r.
Proof.
  intros Hc. unfold callBuffer, Jitter.step, timerFired. rewrite Hc. cbn [obind]. rewrite drop_all. simpl. by destruct r.
Qed.

(** ** The loop *)

Definition packetsOf (rs : list (Packet + error)) : list Packet :=
  omap (fun rd : Packet + error => match rd with inl p => Some p | inr _ => None end) rs.

Definition jitterRun (opts : list option_) (b : Buffer) (rs : list (Packet + error)) : Prop :=
  exists ins, Jitter.run (NewBuffer jitterMaxLatency opts) ins = Ok b /\ pkt <$> pushes ins = packetsOf rs.

Definition pushedOf (i : input) : list (Packet + error) := inl ∘ pkt <$> pushedBy i.

Lemma jitterRun_step opts b rs i b' :
  jitterRun opts b rs -> Jitter.step b i = Ok b' -> jitterRun opts b' (rs ++ pushedOf i).
Proof.
  intros (ins & Hr & Hp) Hs. exists (ins ++ [i]). split.
  - clear Hp. revert Hr. generalize (NewBuffer jitterMaxLatency opts). induction ins as [|j ins IH]; intros b0; simpl.
    + intros [= ->]. by rewrite Hs.
    + destruct (Jitter.step b0 j); [apply IH|done].
  - unfold pushes, packetsOf in *. rewrite fmap_app, concat_app, fmap_app, Hp, omap_app. f_equal. simpl.
    rewrite app_nil_r. by destruct i.
Qed.

Lemma jitterRun_error opts b rs e : jitterRun opts b rs -> jitterRun opts b (rs ++ [inr e]).
Proof. intros (ins & Hr & Hp). exists ins. split; [done|]. unfold packetsOf. by rewrite omap_app, Hp, app_nil_r. Qed.

(** Why the loop ends. *)
Definition reason (l : loop) (e : error) : Prop :=
  last (reads l) = Some (inr e) \/ firstErr (length (handled (handler l))) = Some e.

Definition emptied (b : Buffer) : Prop := closed b = true /\ queue b = [].

Definition atPoint (l : loop) : Prop :=
  match at_ l with
  | Reading | Selecting => hCloses (handler l) = 0%nat /\ keepsFirst (handler l)
  | Closing e => hCloses (handler l) = 0%nat /\ reason l e
  | ClosingHandler e => hCloses (handler l) = 0%nat /\ reason l e /\ emptied (buf (handler l))
  | Returned e => hCloses (handler l) = 1%nat /\ reason l e /\ emptied (buf (handler l))
  end.

Definition LInv (opts : list option_) (l : loop) : Prop :=
  jitterRun opts (buf (handler l)) (reads l) /\
  handled (handler l) = pkt <$> delivered (buf (handler l)) /\ atPoint l.

Lemma start_LInv opts : LInv opts (HandleLoop (HandleJitter opts)).
Proof.
  destruct (NewBuffer_fresh jitterMaxLatency opts) as (_ & _ & _ & He & _). split; [by exists []|].
  split; [|done]. unfold delivered. simpl. by rewrite He.
Qed.

(** A call of the buffer by either goroutine. *)
Lemma call_LInv opts l i b :
  LInv opts l -> Jitter.step (buf (handler l)) i = Ok b ->
  exists h, callBuffer herr i (handler l) = Ok h /\ buf h = b /\ jitterRun opts b (reads l ++ pushedOf i) /\
    handled h = pkt <$> delivered b /\ hCloses h = hCloses (handler l) /\
    (keepsFirst (handler l) -> keepsFirst h) /\
    (length (handled (handler l)) <= length (handled h))%nat.
Proof.
  intros (Hj & Hh & _) Hs. destruct (callBuffer_spec i _ _ Hs Hh) as (h & Hc & Hb & Hd & Hn & Hk).
  exists h. split_and!; try done; [by eapply jitterRun_step|].
  rewrite Hd, Hh, !length_fmap. destruct (step_called (buf (handler l)) i) as (b' & Hs' & Hcl). rewrite Hs in Hs'.
  injection Hs' as <-. destruct (called_extends _ _ _ Hcl) as [es He]. unfold delivered.
  rewrite He, fmap_app, concat_app, length_app. lia.
Qed.

Lemma reason_mono (l l' : loop) e :
  reads l' = reads l -> (length (handled (handler l)) <= length (handled (handler l')))%nat -> reason l e -> reason l' e.
Proof. intros Hr Hl [H|H]; [left; congruence|right]. by eapply firstErr_mono. Qed.

Lemma Close_emptied b : exists b', Jitter.step b InClose = Ok b' /\ emptied b'.
Proof.
  cbn [Jitter.step]. unfold Jitter.Close, Flush. destruct (flushLocked_spec b) as (b1 & -> & _ & Hq). simpl.
  eexists. split; [done|]. by split.
Qed.

Lemma step_LInv opts l a : LInv opts l -> exists l', step herr l a = Ok l' /\ LInv opts l'.
Proof.
  intros Hl. pose proof Hl as (Hj & Hh & Ha). unfold atPoint in Ha. destruct a as [rd receivedAt now now'|now now'|]; cbn [step].
  - destruct (at_ l) eqn:E; try by exists l. destruct Ha as [Hn Hk]. destruct rd as [p|e].
    + destruct (step_called (buf (handler l)) (InPush p receivedAt now now')) as (b & Hs & _).
      destruct (call_LInv opts l _ b Hl Hs) as (h & -> & Hb & Hj' & Hd & Hn' & Hk' & _). cbn [obind].
      eexists. split; [done|]. unfold LInv, atPoint. simpl. rewrite Hb, Hn'. split_and!; tauto.
    + eexists. split; [done|]. unfold LInv, atPoint. simpl. split; [by apply jitterRun_error|]. split_and!; try done.
      left. cbn [reads]. by rewrite last_snoc.
  - destruct (step_called (buf (handler l)) (InTimer now now')) as (b & Hs & _).
    destruct (call_LInv opts l _ b Hl Hs) as (h & Hc & Hb & Hj' & Hd & Hn' & Hk' & Hle). rewrite app_nil_r in Hj'.
    destruct (decide (closed (buf (handler l)) = true)) as [Hcl|Hcl].
    { rewrite callBuffer_closed by done. cbn [obind]. exists l. by destruct l. }
    rewrite Hc. cbn [obind]. eexists. split; [done|]. unfold LInv, atPoint. simpl. rewrite Hb, Hn'.
    split; [done|]. split; [done|]. destruct (at_ l) eqn:E; [tauto..| | |];
      [|by destruct Ha as (_ & _ & [? _])..]. destruct Ha as [? ?]. split; [done|]. by eapply (reason_mono l).
  - destruct (at_ l) eqn:E; try (by exists l).
    + destruct Ha as [Hn Hk]. cbn [takeErr]. destruct (errCh (handler l)) as [e|] eqn:Ee;
        (eexists; split; [done|]); unfold LInv, atPoint; simpl; (split; [done|]); (split; [done|]); (split; [done|]).
      * right. simpl. by rewrite <- Hk.
      * unfold keepsFirst. simpl. by rewrite <- Hk.
    + destruct Ha as [Hn Hr]. destruct (Close_emptied (buf (handler l))) as (b & Hs & He).
      destruct (call_LInv opts l _ b Hl Hs) as (h & -> & Hb & Hj' & Hd & Hn' & _ & Hle). rewrite app_nil_r in Hj'. cbn [obind].
      eexists. split; [done|]. unfold LInv, atPoint. simpl. rewrite Hb, Hn'. split_and!; try done. by eapply (reason_mono l).
    + eexists. split; [done|]. unfold LInv, atPoint. simpl. destruct Ha as (Hn & Hr & He). rewrite Hn. split_and!; try done.
Qed.

Lemma run_LInv opts acts : forall l, LInv opts l -> exists l', run herr l acts = Ok l' /\ LInv opts l'.
Proof.
  induction acts as [|a acts IH]; intros l Hl; simpl; [by exists l|].
  destruct (step_LInv opts l a Hl) as (l1 & -> & Hl1). simpl. by apply IH.
Qed.

Lemma returned_final opts l e acts : LInv opts l -> at_ l = Returned e -> run herr l acts = Ok l.
Proof.
  intros (_ & _ & Ha) Hat. unfold atPoint in Ha. rewrite Hat in Ha. destruct Ha as (_ & _ & Hc & _).
  induction acts as [|a acts IH]; [done|]. simpl.
  assert (step herr l a = Ok l) as ->; [|exact IH].
  destruct a; cbn [step]; rewrite ?Hat; try done. rewrite callBuffer_closed, <- Hat by done. by destruct l.
Qed.

(** From a point of its [Close] the loop only has to go on. *)
Lemma closing_returns opts l e :
  LInv opts l -> at_ l = Closing e ->
  exists l', run herr l [Next; Next] = Ok l' /\ at_ l' = Returned e /\ LInv opts l' /\
    (length (handled (handler l)) <= length (handled (handler l')))%nat.
Proof.
  intros Hl Hat. destruct (Close_emptied (buf (handler l))) as (b & Hs & He).
  destruct (call_LInv opts l _ b Hl Hs) as (h & Hc & _ & _ & _ & _ & _ & Hle).
  destruct (run_LInv opts [Next; Next] l Hl) as (l' & Hr & Hl'). exists l'. split; [done|].
  revert Hr. cbn [run step obind at_ handler reads]. rewrite Hat, Hc. cbn [obind at_ handler reads]. by intros [= <-].
Qed.

(** One turn of the loop. *)
Lemma loop_turn opts l rd t now now' :
  LInv opts l -> at_ l = Reading ->
  exists l', run herr l [Arrive rd t now now'; Next; Next; Next] = Ok l' /\
    at_ l' = match rd, firstErr (length (handled (handler l'))) with
             | inr e, _ | inl _, Some e => Returned e
             | inl _, None => Reading
             end.
Proof.
  intros Hl Hat. destruct (step_LInv opts l (Arrive rd t now now') Hl) as (l1 & Hs1 & Hl1).
  cbn [run]. rewrite Hs1. cbn [obind]. cbn [step] in Hs1. rewrite Hat in Hs1. destruct rd as [p|e].
  - destruct (callBuffer herr _ _) as [h|]; [|done]. injection Hs1 as <-.
    pose proof Hl1 as (_ & _ & Ha). unfold atPoint in Ha. cbn [at_ handler] in Ha. destruct Ha as [_ Hk].
    unfold keepsFirst in Hk.
    destruct (step_LInv opts _ Next Hl1) as (l2 & Hs2 & Hl2). rewrite Hs2. cbn [obind].
    cbn [step at_ handler takeErr] in Hs2. destruct (errCh h) as [e|]; injection Hs2 as <-.
    + destruct (closing_returns opts _ e Hl2 eq_refl) as (l3 & Hr & Hat3 & _ & Hle). exists l3. split; [exact Hr|].
      by rewrite (firstErr_mono _ _ e Hle).
    + eexists. split; [done|]. cbn [at_ handler handled]. by rewrite <- Hk.
  - injection Hs1 as <-. destruct (closing_returns opts _ e Hl1 eq_refl) as (l3 & Hr & Hat3 & Hl3 & _). exists l3.
    split; [|done]. pose proof (returned_final opts l3 e [Next] Hl3 Hat3) as Hf. cbn [run] in Hr, Hf |- *.
    destruct (step herr _ Next) as [l2|]; [|done]. cbn [obind] in *. destruct (step herr l2 Next) as [l4|]; [|done].
    cbn [obind] in *. injection Hr as ->. done.
Qed.

(** C18: the receiving loop: whatever packets arrive and whenever the timer of
    the jitter buffer fires, nothing panics; the packets read are what the
    buffer was given, and what it delivered is what the handler received, in
    order; the handler is closed exactly once, when the loop returns, with an
    empty buffer, and nothing happens afterwards; the error returned is that of
    the reader or the first one of the handler, and a loop whose reader or
    handler has failed returns at the latest after its next packet. *)
Theorem handle_loop_forwards (opts : list option_) (acts : list action) :
  exists l, run herr (HandleLoop (HandleJitter opts)) acts = Ok l /\
    (exists ins, Jitter.run (NewBuffer jitterMaxLatency opts) ins = Ok (buf (handler l)) /\
       pkt <$> pushes ins = packetsOf (reads l)) /\
    handled (handler l) = pkt <$> delivered (buf (handler l)) /\
    match at_ l with
    | Returned e =>
        hCloses (handler l) = 1%nat /\ queue (buf (handler l)) = [] /\
        (last (reads l) = Some (inr e) \/ firstErr (length (handled (handler l))) = Some e) /\
        forall later, run herr l later = Ok l
    | Reading =>
        hCloses (handler l) = 0%nat /\
        forall rd t now now', exists l', run herr l [Arrive rd t now now'; Next; Next; Next] = Ok l' /\
          at_ l' = match rd, firstErr (length (handled (handler l'))) with
                   | inr e, _ | inl _, Some e => Returned e
                   | inl _, None => Reading
                   end
    | _ => hCloses (handler l) = 0%nat
    end.
Proof.
  destruct (run_LInv opts acts _ (start_LInv opts)) as (l & Hr & Hl). exists l. split; [done|].
  pose proof Hl as (Hj & Hh & Ha). split; [done|]. split; [done|]. unfold atPoint in Ha.
  destruct (at_ l) as [| |e|e|e] eqn:E; try by destruct Ha.
  - split; [by destruct Ha|]. intros. by eapply loop_turn.
  - destruct Ha as (Hn & Hre & _ & Hq). split_and!; try done. intros. by eapply returned_final.
Qed.

(** ** From end to end *)

(** Every packet read is [comparable] with what the buffer holds. *)
Fixpoint followsAll (s : Z) (l : loop) (acts : list action) : bool :=
  match acts with
  | [] => true
  | a :: acts =>
      match a, at_ l with Arrive (inl p) _ _ _, Reading => comparable s p (buf (handler l)) | _, _ => true end &&
      match step herr l a with Ok l' => followsAll s l' acts | Panic => false end
  end.

Lemma callBuffer_good s i r r' :
  good s (buf r) -> match i with InPush pk _ _ _ => comparable s pk (buf r) | _ => true end = true ->
  callBuffer herr i r = Ok r' -> good s (buf r').
Proof.
  intros Hg Hc. unfold callBuffer. destruct (step_good s i _ Hg Hc) as (b & -> & Hb). cbn [obind]. intros [= <-].
  by destruct (onEvents_spec (drop (length (events (buf r))) (events b))
    (mkHandler b (errCh r) (handled r) (hCloses r))) as (-> & _).
Qed.

Lemma run_followed s acts : forall l l',
  good s (buf (handler l)) -> followsAll s l acts = true -> run herr l acts = Ok l' -> good s (buf (handler l')).
Proof.
  induction acts as [|a acts IH]; intros l l' Hg Hf; cbn [run]; [by intros [= <-]|].
  cbn [followsAll] in Hf. apply andb_true_iff in Hf as [Hc Hf].
  destruct (step herr l a) as [l1|] eqn:Hs; [|done]. cbn [obind]. apply IH; [|done].
  assert (Hcall : forall i p rs, match i with InPush pk _ _ _ => comparable s pk (buf (handler l)) | _ => true end = true ->
    (let! h := callBuffer herr i (handler l) in Ok (mkLoop h p rs)) = Ok l1 -> good s (buf (handler l1))).
  { intros i p rs Hi. destruct (callBuffer herr i (handler l)) as [h|] eqn:Ec; [|done]. intros [= <-].
    by eapply callBuffer_good. }
  destruct a as [rd t now now'|now now'|]; cbn [step] in Hs; [|by eapply Hcall, Hs|]; destruct (at_ l);
    try (injection Hs as <-; exact Hg); [|by eapply Hcall, Hs].
  destruct rd; [by eapply Hcall, Hs|]. injection Hs as <-. exact Hg.
Qed.

(** Packets read from one window of 3000 numbers are comparable whatever their
    order. *)
Lemma callBuffer_window s base i r r' :
  in_window base (buf r) -> pushWindowed s base i = true -> callBuffer herr i r = Ok r' -> in_window base (buf r').
Proof.
  intros Hw Hi. unfold callBuffer. destruct (step_called (buf r) i) as (b & -> & Hc). cbn [obind]. intros [= <-].
  destruct (onEvents_spec (drop (length (events (buf r))) (events b))
    (mkHandler b (errCh r) (handled r) (hCloses r))) as (-> & _). by eapply called_window.
Qed.

Lemma step_window s base l a l' :
  step herr l a = Ok l' -> in_window base (buf (handler l)) ->
  match a, at_ l with Arrive (inl p) _ _ _, Reading => windowed s base p = true | _, _ => True end ->
  in_window base (buf (handler l')).
Proof.
  intros Hs Hw Ha.
  assert (Hcall : forall i p rs, pushWindowed s base i = true ->
    (let! h := callBuffer herr i (handler l) in Ok (mkLoop h p rs)) = Ok l' -> in_window base (buf (handler l'))).
  { intros i p rs Hi. destruct (callBuffer herr i (handler l)) as [h|] eqn:Ec; [|done]. intros [= <-].
    by eapply callBuffer_window. }
  destruct a as [rd t now now'|now now'|]; cbn [step] in Hs; [|by eapply Hcall, Hs|]; destruct (at_ l);
    try (injection Hs as <-; exact Hw); [|by eapply Hcall, Hs].
  destruct rd; [by eapply Hcall, Hs|]. injection Hs as <-. exact Hw.
Qed.

(** What has been read stays read. *)
Lemma step_reads l a l' : step herr l a = Ok l' ->
  exists rs, reads l' = reads l ++ rs /\
    match a, at_ l with Arrive r _ _ _, Reading => rs = [r] | _, _ => rs = [] end.
Proof.
  assert (forall i p rs, (let! h := callBuffer herr i (handler l) in Ok (mkLoop h p rs)) = Ok l' -> reads l' = rs) as Hc.
  { intros i p rs. destruct (callBuffer herr i (handler l)); [|done]. by intros [= <-]. }
  destruct a as [rd t now now'|now now'|]; cbn [step]; [| |]; destruct (at_ l); intros Hs;
    try (apply Hc in Hs); try destruct rd; try (apply Hc in Hs); try (injection Hs as <-); eexists; (split; [|done]);
    rewrite ?app_nil_r; done.
Qed.

Lemma run_reads acts : forall l l', run herr l acts = Ok l' -> reads l `prefix_of` reads l'.
Proof.
  induction acts as [|a acts IH]; intros l l'; cbn [run]; [by intros [= <-]|].
  destruct (step herr l a) as [l1|] eqn:Hs; [|done]. cbn [obind]. intros Hr.
  destruct (step_reads _ _ _ Hs) as (rs & Hrs & _). etrans; [|by apply IH]. rewrite Hrs. by apply prefix_app_r.
Qed.

Lemma window_followsAll s base acts : forall l l',
  run herr l acts = Ok l' -> in_window base (buf (handler l)) ->
  Forall (fun p => windowed s base p = true) (packetsOf (reads l')) -> followsAll s l acts = true.
Proof.
  induction acts as [|a acts IH]; intros l l' Hr Hw Hp; cbn [run followsAll] in *; [done|].
  destruct (step herr l a) as [l1|] eqn:Hs; [|done]. cbn [obind] in Hr.
  assert (match a, at_ l with Arrive (inl p) _ _ _, Reading => windowed s base p = true | _, _ => True end) as Ha.
  { destruct (step_reads _ _ _ Hs) as (rs & Hrs & Hl). apply run_reads in Hr as [rs' Hr].
    destruct a as [[p|e] t now now'| |], (at_ l); try done. subst rs. rewrite Hr, Hrs in Hp.
    rewrite Forall_forall in Hp. apply Hp. unfold packetsOf. rewrite !omap_app. set_solver. }
  apply andb_true_iff. split; [|eapply IH; [exact Hr|by eapply step_window|exact Hp]].
  destruct a as [[p|e] t now now'| |], (at_ l); try done. by eapply window_comparable.
Qed.

End receive.

Lemma emitted_delivered b : emitted b = (fun p => SequenceNumber (header p)) <$> (pkt <$> delivered b).
Proof.
  unfold emitted, delivered. induction (events b) as [|e es IH]; [done|]. rewrite !fmap_cons. cbn [concat].
  rewrite IH, !fmap_app. f_equal. destruct e; [|done..]. cbn [emittedOf deliveredOf]. by rewrite <- list_fmap_compose.
Qed.

(** Elements of a list that is numbered in order, in increasing order. *)
Lemma numbered_sublist {A} (f : A -> Z) (l2 : list A) : forall (l1 : list A) n,
  (forall k x, l2 !! k = Some x -> f x = n + Z.of_nat k) ->
  StronglySorted Z.lt (f <$> l1) -> (forall x, x ∈ l1 -> x ∈ l2) -> l1 `sublist_of` l2.
Proof.
  induction l2 as [|y l2 IH]; intros l1 n Hn Hs Hin.
  { destruct l1 as [|x l1]; [constructor|]. specialize (Hin x ltac:(left)). by apply not_elem_of_nil in Hin. }
  assert (Hy : f y = n) by (rewrite (Hn 0%nat y eq_refl); lia).
  assert (Hn' : forall k x, l2 !! k = Some x -> f x = n + 1 + Z.of_nat k).
  { intros k x Hk. rewrite (Hn (S k) x Hk). lia. }
  destruct l1 as [|x l1]; [apply sublist_nil_l|]. rewrite fmap_cons in Hs. inversion_clear Hs as [|? ? Hs' Hx].
  rewrite Forall_fmap, Forall_forall in Hx.
  assert (Htail : forall z, z ∈ l1 -> z ∈ l2).
  { intros z Hz. specialize (Hin z ltac:(by right)) as Hz2. apply elem_of_cons in Hz2 as [->|]; [|done].
    exfalso. specialize (Hx y Hz). simpl in Hx. specialize (Hin x ltac:(left)). apply elem_of_cons in Hin as [->|Hx2]; [lia|].
    apply list_elem_of_lookup in Hx2 as [k Hk]. apply Hn' in Hk. lia. }
  specialize (Hin x ltac:(left)) as Hx2. apply elem_of_cons in Hx2 as [->|Hx2].
  - apply sublist_skip. by eapply IH.
  - apply sublist_cons, (IH _ (n + 1)); [done|rewrite fmap_cons; constructor; [done|by rewrite Forall_fmap, Forall_forall]|].
    intros z [->|Hz]%elem_of_cons; [done|by apply Htail].
Qed.

(** Numbers that do not wrap around. *)
Definition unwrapped (n : Z) : Prop := 0 <= n < 62536.

Lemma ahead_lt a b : unwrapped a -> unwrapped b -> ahead a b -> a < b.
Proof. unfold unwrapped, ahead. word_lia. Qed.

Lemma gaps_nonneg ns : 0 <= gaps ns.
Proof.
  induction ns as [|a ns IH]; simpl; [done|]. destruct ns as [|b ns]; [done|].
  pose proof (Z.mod_pos_bound (u16 (b - a - 1)) 18446744073709551616 eq_refl). unfold missingBetween, u64. lia.
Qed.

Lemma unwrapped_sorted (ns : list Z) :
  Sorted ahead ns -> Forall unwrapped ns ->
  StronglySorted Z.lt ns /\
  forall a ns', ns = a :: ns' -> u64 (gaps ns) + zlen ns = default a (last ns) - a + 1.
Proof.
  intros Hs Hu. split.
  - apply Sorted_StronglySorted; [intros ? ? ?; lia|]. induction Hs as [|a ns Hs IH Hhd]; [constructor|].
    inversion_clear Hu as [|? ? Ha Hu']. constructor; [by apply IH|]. destruct Hhd as [|b ns Hab]; constructor.
    inversion_clear Hu'. by apply ahead_lt.
  - intros a ns' ->. pose proof (gaps_nonneg (a :: ns')) as Hpos.
    assert (Hgap : gaps (a :: ns') + zlen (a :: ns') = default a (last (a :: ns')) - a + 1).
    { clear Hpos. revert a Hs Hu. induction ns' as [|b ns IH]; intros a Hs Hu; [unfold zlen; simpl; lia|].
      inversion_clear Hs as [|? ? Hs' Hhd]. inversion_clear Hhd as [|? ? Hab].
      inversion_clear Hu as [|? ? Ha Hu']. inversion Hu' as [|? ? Hb _]; subst. specialize (IH b Hs' Hu').
      change (gaps (a :: b :: ns)) with (missingBetween b a + gaps (b :: ns)).
      change (last (a :: b :: ns)) with (last (b :: ns)). rewrite missingBetween_ahead by done.
      destruct (last (b :: ns)) as [z|] eqn:El; [|by apply last_None in El]. cbn [default] in *.
      pose proof (ahead_lt a b Ha Hb Hab). unfold unwrapped, zlen in *. cbn [length] in *. unfold ahead in Hab. word_lia. }
    rewrite <- Hgap. f_equal. apply Z.mod_small. split; [done|].
    assert (Hlast : unwrapped (default a (last (a :: ns')))).
    { destruct (last (a :: ns')) as [z|] eqn:El; [|by apply last_None in El].
      rewrite Forall_forall in Hu. apply Hu. by apply last_Some_elem_of. }
    inversion_clear Hu as [|? ? Ha _]. pose proof (zlen_nonneg (a :: ns')). unfold unwrapped in *. lia.
Qed.

Lemma sublist_map {A B} (f : A -> B) (l1 l2 : list A) : l1 `sublist_of` l2 -> f <$> l1 `sublist_of` f <$> l2.
Proof. induction 1; [done|by apply sublist_skip|by apply sublist_cons]. Qed.

(** The handler receives packets that were read. *)
Lemma handled_read herr opts l p : LInv herr opts l -> p ∈ handled (handler l) -> p ∈ packetsOf (reads l).
Proof.
  intros ((ins & Hj & <-) & -> & _) Hp. destruct (run_books _ _ _ Hj) as (_ & _ & _ & Hheld).
  destruct (NewBuffer_fresh jitterMaxLatency opts) as (Hq & _ & _ & He & _).
  assert (Hd : delivered (buf (handler l)) ⊆+ pushes ins).
  { etrans; [by apply submseteq_inserts_r|]. etrans; [exact Hheld|]. unfold held, delivered. by rewrite Hq, He, app_nil_r. }
  by eapply elem_of_submseteq, fmap_submseteq, Hd.
Qed.

(** What an ordered buffer has delivered, when the numbers do not wrap around. *)
Lemma inorder_counts s b :
  inorder s b -> Forall (fun p => unwrapped (SequenceNumber (header p))) (pkt <$> delivered b) ->
  StronglySorted Z.lt ((fun p => SequenceNumber (header p)) <$> (pkt <$> delivered b)) /\
  match pkt <$> delivered b with
  | [] => True
  | first :: _ =>
      stats b PacketsLost + zlen (pkt <$> delivered b) =
        SequenceNumber (header (default first (last (pkt <$> delivered b)))) - SequenceNumber (header first) + 1
  end.
Proof.
  intros I Hu. pose proof (io_sorted _ _ I) as Hs. rewrite (io_lost _ _ I).
  rewrite emitted_delivered in *. set (ps := pkt <$> delivered b) in *. clearbody ps.
  destruct (unwrapped_sorted _ Hs) as [Hlt Hgap]; [by rewrite Forall_fmap|]. split; [done|].
  destruct ps as [|p ps]; [done|]. specialize (Hgap _ _ eq_refl). rewrite fmap_last in Hgap.
  unfold zlen in *. rewrite length_fmap in Hgap. rewrite Hgap. by destruct (last (p :: ps)).
Qed.

(** A frame written to a [MediaStreamOut] is a packet of its [SeqWriter]. *)
Lemma mediaStreamOut_sends st sample now now' werr (w : world) i :
  streams w !! i = Some (st, None) -> manual st = false ->
  execAll w [OpBegin i now; OpFinish i sample false now' werr] =
    Ok (match mediaStreamOut st sample now now' werr (sw w) with
        | (Some p, s, st', err) => mkWorld s (<[i := (st', None)]> (streams w)) (sent w ++ sentBy i p err)
        | (None, _, _, _) => w
        end).
Proof.
  intros Hi Hm. cbn [execAll exec obind]. rewrite Hi, Hm. cbn [obind streams sw sent].
  rewrite list_lookup_insert_eq by (by eapply lookup_lt_Some). unfold mediaStreamOut, WritePayload. rewrite Hm.
  destruct (finishPayload _ _ _ _ _ _ _) as [[[p s] st'] err]. by rewrite list_insert_insert_eq.
Qed.

(** C1: audio from end to end, for a [SeqWriter] that sent at most 62536 packets
    (no number comes twice), whatever streams share it, and a jitter buffer
    without restart detection: its packets, read in any order, repeated or not at
    all, with the timer firing at any time, reach the handler behind the jitter
    buffer in the order they were sent, each at most once, and so do their
    frames; and between the first and the last packet that reached it every
    packet sent has reached it too or is counted as lost.  That is so if at most
    3000 packets were sent, or if every packet arrives less than 3000 numbers
    from the last one that left the buffer and from each that it holds: the
    range in which the buffer compares numbers. *)
Theorem audio_end_to_end (herr : nat -> option error) (rate rnd : Z) (os : list op) (w : world)
    (opts : list option_) (acts : list action) (l : loop)
    (Hw : execAll (NewWorld rate rnd) os = Ok w) (Hn : zlen (sent w) <= 62536)
    (Ho : Forall (fun o => o <> WithSequenceRestartDetection) opts)
    (Hr : run herr (HandleLoop (HandleJitter opts)) acts = Ok l)
    (Hf : zlen (sent w) <= 3000 \/ followsAll herr rnd (HandleLoop (HandleJitter opts)) acts = true)
    (Hread : Forall (fun p => p ∈ (snd <$> sent w)) (packetsOf (reads l))) :
  handled (handler l) `sublist_of` (snd <$> sent w) /\
  framesIn (handler l) `sublist_of` ((fun x => Payload (snd x)) <$> sent w) /\
  match handled (handler l) with
  | [] => True
  | first :: _ =>
      stats (buf (handler l)) PacketsLost + zlen (handled (handler l)) =
        SequenceNumber (header (default first (last (handled (handler l))))) - SequenceNumber (header first) + 1
  end.
Proof.
  assert (Hnum : numbered rnd w) by (eapply (execAll_invariant _ (exec_numbered rnd)), Hw; done).
  assert (Hsn : forall k p, (snd <$> sent w) !! k = Some p ->
    SequenceNumber (header p) = 0 + Z.of_nat k /\ unwrapped (SequenceNumber (header p))).
  { intros k p Hk. apply list_lookup_fmap_Some in Hk as ([i q] & -> & Hk). destruct (proj2 Hnum _ _ _ Hk) as (Hs & _).
    apply lookup_lt_Some in Hk. simpl. rewrite Hs. unfold unwrapped, zlen in *. word_lia. }
  assert (Hf' : followsAll herr rnd (HandleLoop (HandleJitter opts)) acts = true).
  { destruct Hf as [Hfew|Hf]; [|done]. eapply (window_followsAll herr rnd 0); [exact Hr|apply NewBuffer_window|].
    eapply Forall_impl; [exact Hread|]. intros p Hp. simpl in Hp. apply list_elem_of_lookup in Hp as [k Hk].
    destruct (Hsn k p Hk) as [Hs _]. apply list_lookup_fmap_Some in Hk as ([i q] & -> & Hk).
    destruct (proj2 Hnum _ _ _ Hk) as (_ & Hss & _ & Hpad). apply lookup_lt_Some in Hk. simpl in *.
    unfold windowed. rewrite Hs, Hss, Hpad, Z.eqb_refl. simpl. unfold zlen in Hfew. rewrite !andb_true_iff.
    split_and!; [apply Z.leb_le|apply Z.ltb_lt|apply Z.ltb_lt]; unfold u16; lia. }
  destruct (run_LInv herr opts acts _ (start_LInv herr opts)) as (l' & Hr' & Hl). rewrite Hr in Hr'. injection Hr' as <-.
  pose proof (run_followed herr rnd acts (HandleLoop (HandleJitter opts)) l
    (NewBuffer_good rnd jitterMaxLatency opts Ho) Hf' Hr) as [Hio _].
  assert (Hin : forall p, p ∈ handled (handler l) -> p ∈ (snd <$> sent w)).
  { intros p Hp. rewrite Forall_forall in Hread. by eapply Hread, handled_read. }
  destruct Hl as (_ & Hh & _). destruct (inorder_counts _ _ Hio) as [Hlt Hcount]; rewrite <- Hh in *.
  { apply Forall_forall. intros p Hp. apply Hin, list_elem_of_lookup in Hp as [k Hk]. by eapply Hsn. }
  assert (Hsub : handled (handler l) `sublist_of` (snd <$> sent w)).
  { eapply (numbered_sublist (fun p => SequenceNumber (header p)) _ _ 0); [|exact Hlt|exact Hin]. intros k p Hk. by apply Hsn. }
  split; [done|]. split; [|done]. apply (sublist_map Payload) in Hsub. by rewrite <- list_fmap_compose in Hsub.
Qed.

(** ** Witness *)

(** The packets of the sender's example; the second is late and counted as
    lost, the third is repeated. *)
Definition sentExample : list Packet :=
  match execAll (NewWorld 48000 99) seq_example with Ok w => snd <$> sent w | Panic => [] end.

Definition receiveExample : list action :=
  let t n := 2000 * Second + n * Millisecond in
  let read k n := match sentExample !! k with Some p => [Arrive (inl p) (t n) (t n) (t n); Next] | None => [] end in
  read 0%nat 0 ++ read 2%nat 10 ++ read 2%nat 11 ++ [Fire (t 100) (t 100)] ++ read 1%nat 110 ++ read 3%nat 120 ++
  [Arrive (inr EOF) 0 0 0; Next; Next].

Lemma audio_end_to_end_witness :
  exists w l, execAll (NewWorld 48000 99) seq_example = Ok w /\
    run (fun _ => None) (HandleLoop (HandleJitter [])) receiveExample = Ok l /\
    at_ l = Returned EOF /\ framesIn (handler l) = [[1]; [2]; [4]] /\
    framesIn (handler l) `sublist_of` ((fun x => Payload (snd x)) <$> sent w) /\
    stats (buf (handler l)) PacketsLost = 1.
Proof.
  destruct (execAll (NewWorld 48000 99) seq_example) as [w|] eqn:Ew; [|by vm_compute in Ew].
  destruct (run (fun _ => None) (HandleLoop (HandleJitter [])) receiveExample) as [l|] eqn:El; [|by vm_compute in El].
  exists w, l. split; [done|]. split; [done|].
  destruct (audio_end_to_end (fun _ => None) 48000 99 seq_example w [] receiveExample l Ew) as (_ & Hf & _);
    [|done|exact El|right; vm_compute; reflexivity| |].
  - revert Ew. vm_compute. by intros [= <-].
  - revert Ew El. vm_compute. intros [= <-] [= <-]. repeat constructor.
  - split_and!; [| |exact Hf|]; revert El; vm_compute; by intros [= <-].
Defined.
