(* ===== verification/Mixer.v ===== *)
(** * Mixer: the audio mixer of [src/mixer/mixer.go]

    The inputs are proved against the queue interface [Fifo], of which the ring
    buffer is the instance.  [*Input] pointers are indices into [store], the
    list of all inputs created so far; [inputs] is the mixer's own list of
    them.  The frames given to [out.WriteSample] are recorded in [written].
    When an output channel is used, [outchan] is its capacity and contents, and
    [held] the frame of a [mixOnce] that is blocked on it.  Nil receivers, which
    the exported methods ignore, are not represented. *)

From stdpp Require Import base tactics numbers strings list.
From S2P Require Import Prelude Fifo.

#[local] Open Scope go_scope.

(** ** Data *)

(** The fields of [Stats]; [Tracks] is an int64, the others uint64. *)
Inductive stat : Type :=
| Tracks | TracksTotal | Restarts | TimingResets
| Mixes | TimedMixes | JumpMixes | ZeroMixes | NegativeMixes
| InputSamples | InputFrames | InputSamplesDropped | InputFramesDropped
| MixedSamples | MixedFrames | OutputSamples | OutputFrames
| WriteErrors | BlockedMixes.

#[export] Instance stat_eq_dec : EqDecision stat.
Proof. solve_decision. Defined.

Definition Stats : Type := stat -> Z.
Definition noStats : Stats := fun _ => 0.

(** [stats.c.Add(n)] *)
Definition addStat (c : stat) (n : Z) (s : Stats) : Stats :=
  fun c' => if decide (c = c')
            then (if decide (c = Tracks) then i64 (s c + n) else u64 (s c + n)) else s c'.

Definition DefaultInputBufferFrames : Z := 5.
Definition DefaultInputBufferMin : Z := DefaultInputBufferFrames / 2 + 1.

(** The channel of the options, before [NewMixer] starts its reader. *)
Inductive MixerOption : Type :=
| WithOutputChannelSize (size : Z)
| WithInputBufferFrames (frames : Z)
| WithStats (s : Stats).

Definition WithOutputChannel : MixerOption := WithOutputChannelSize 1.

Section mixer.
Context {Q : Type} `{Fifo Z Q}.

Record Input : Type := mkInput {
  buf : Q;
  buffering : bool;
}.

Record Mixer : Type := mkMixer {
  sampleRate : Z;
  outchan : option (Z * list (list Z));
  inputs : list nat;
  tickerDur : duration;
  mixBuf : list Z;      (* int32 *)
  mixTmp : list Z;      (* int16, the whole backing array *)
  lastMixEndTs : time;
  stopped : bool;
  inputBufferFrames : Z;
  inputBufferMin : Z;
  stats : Stats;
  store : list Input;
  held : option (list Z);
  written : list (list Z);
}.

(** Field updates. *)
Definition set_inputs (x : list nat) (st : list Input) (m : Mixer) : Mixer :=
  mkMixer (sampleRate m) (outchan m) x (tickerDur m) (mixBuf m) (mixTmp m) (lastMixEndTs m)
    (stopped m) (inputBufferFrames m) (inputBufferMin m) (stats m) st (held m) (written m).
Definition set_buffers (x y : list Z) (m : Mixer) : Mixer :=
  mkMixer (sampleRate m) (outchan m) (inputs m) (tickerDur m) x y (lastMixEndTs m)
    (stopped m) (inputBufferFrames m) (inputBufferMin m) (stats m) (store m) (held m) (written m).
Definition set_lastMixEndTs (x : time) (m : Mixer) : Mixer :=
  mkMixer (sampleRate m) (outchan m) (inputs m) (tickerDur m) (mixBuf m) (mixTmp m) x
    (stopped m) (inputBufferFrames m) (inputBufferMin m) (stats m) (store m) (held m) (written m).
Definition set_stopped (m : Mixer) : Mixer :=
  mkMixer (sampleRate m) (outchan m) (inputs m) (tickerDur m) (mixBuf m) (mixTmp m) (lastMixEndTs m)
    true (inputBufferFrames m) (inputBufferMin m) (stats m) (store m) (held m) (written m).
Definition set_stats (x : Stats) (m : Mixer) : Mixer :=
  mkMixer (sampleRate m) (outchan m) (inputs m) (tickerDur m) (mixBuf m) (mixTmp m) (lastMixEndTs m)
    (stopped m) (inputBufferFrames m) (inputBufferMin m) x (store m) (held m) (written m).
Definition set_output (c : option (Z * list (list Z))) (hd : option (list Z)) (w : list (list Z))
    (m : Mixer) : Mixer :=
  mkMixer (sampleRate m) c (inputs m) (tickerDur m) (mixBuf m) (mixTmp m) (lastMixEndTs m)
    (stopped m) (inputBufferFrames m) (inputBufferMin m) (stats m) (store m) hd w.

Definition add (c : stat) (n : Z) (m : Mixer) : Mixer := set_stats (addStat c n (stats m)) m.

(** ** Construction *)

Definition applyOption (m : Mixer) (o : MixerOption) : Mixer :=
  match o with
  | WithOutputChannelSize size =>
      set_output (Some (if size <=? 0 then 1 else size, [])) (held m) (written m) m
  | WithInputBufferFrames frames =>
      let frames := if frames <=? 0 then DefaultInputBufferFrames else frames in
      mkMixer (sampleRate m) (outchan m) (inputs m) (tickerDur m) (mixBuf m) (mixTmp m)
        (lastMixEndTs m) (stopped m) frames (Z.quot frames 2 + 1) (stats m) (store m) (held m) (written m)
  | WithStats s => set_stats s m
  end.

Definition newMixer (rate mixSize : Z) (dur : duration) (options : list MixerOption) : outcome Mixer :=
  if mixSize <? 0 then Panic
  else
    let zeros := replicate (Z.to_nat mixSize) 0 in
    Ok (fold_left applyOption options
          (mkMixer rate None [] dur zeros zeros zeroTime false
             DefaultInputBufferFrames DefaultInputBufferMin noStats [] None [])).

Definition onlyMono : error := Errorf "only mono mixing is supported"%string.

(** [NewMixer]; the ticker of a duration that is not positive panics. *)
Definition NewMixer (rate : Z) (bufferDur : duration) (channels : Z) (options : list MixerOption)
    : outcome (Mixer + error) :=
  if negb (channels =? 1) then Ok (inr onlyMono)
  else
    let mixSize := Z.quot (i64 (rate * bufferDur)) Second in
    let! m := newMixer rate mixSize bufferDur options in
    if bufferDur <=? 0 then Panic else Ok (inl m).

(** ** Inputs *)

(** [NewInput]; [None] once the mixer is stopped. *)
Definition NewInput (m : Mixer) : outcome (option nat * Mixer) :=
  if stopped m then Ok (None, m)
  else
    let m := add TracksTotal 1 (add Tracks 1 m) in
    let! q := fifo_new (zlen (mixBuf m) * inputBufferFrames m) in
    let id := length (store m) in
    Ok (Some id, set_inputs (inputs m ++ [id]) (store m ++ [mkInput q true]) m).

(** [slices.Delete(inputs, i, i+1)] at the first index of [id]. *)
Fixpoint deleteFirst (id : nat) (l : list nat) : list nat :=
  match l with
  | [] => []
  | x :: l => if (x =? id)%nat then l else x :: deleteFirst id l
  end.

Definition RemoveInput (id : nat) (m : Mixer) : Mixer :=
  if existsb (Nat.eqb id) (inputs m)
  then add Tracks (-1) (set_inputs (deleteFirst id (inputs m)) (store m) m)
  else m.

(** [Input.Close] *)
Definition Close (id : nat) (m : Mixer) : Mixer := RemoveInput id m.

(** [Input.WriteSample] *)
Definition WriteSample (id : nat) (sample : list Z) (m : Mixer) : outcome (Mixer * option error) :=
  match store m !! id with
  | None => Panic
  | Some i =>
      let m := add InputSamples (zlen sample) (add InputFrames 1 m) in
      let discarded := fifo_Len (buf i) + zlen sample - fifo_Size (buf i) in
      let m := if 0 <? discarded
               then add InputSamplesDropped discarded (add InputFramesDropped 1 m) else m in
      let! (q, _, err) := fifo_Write (buf i) sample in
      Ok (set_inputs (inputs m) (<[id := mkInput q (buffering i)]> (store m)) m, err)
  end.

(** [Input.readSample]: the input, the new contents of [out], the count, and
    whether the input starved. *)
Definition readSample (bufMin : Z) (out : list Z) (i : Input)
    : outcome (Input * list Z * Z * bool) :=
  if buffering i && (fifo_Len (buf i) <? bufMin) then Ok (i, out, 0, false)
  else
    let! (q, out, n, _) := fifo_Read (buf i) out in
    Ok (mkInput q (n =? 0), out, n, n =? 0).

(** ** Mixing *)

(** [for j, v := range mixTmp { mixBuf[j] += int32(v) }] *)
Fixpoint accumulate (acc tmp : list Z) : list Z :=
  match acc, tmp with
  | a :: acc, v :: tmp => i32 (a + i32 v) :: accumulate acc tmp
  | _, _ => acc
  end.

(** One iteration of the loop of [mixInputs]. *)
Definition mixInput (bufMin : Z) (id : nat) (m : Mixer) : outcome Mixer :=
  match store m !! id with
  | None => Panic
  | Some i =>
      let! tmp := go_slice (mixTmp m) 0 (zlen (mixBuf m)) in
      let! (i, tmp, n, starved) := readSample bufMin tmp i in
      let m := set_inputs (inputs m) (<[id := i]> (store m)) m in
      let m := set_buffers (mixBuf m) tmp m in
      let m := if starved then add Restarts 1 m else m in
      if n =? 0 then Ok m
      else
        let m := add MixedSamples (u64 n) (add MixedFrames 1 m) in
        let! part := go_slice tmp 0 n in
        Ok (set_buffers (accumulate (mixBuf m) part) tmp m)
  end.

Fixpoint mixEach (bufMin : Z) (ids : list nat) (m : Mixer) : outcome Mixer :=
  match ids with
  | [] => Ok m
  | id :: ids => let! m := mixInput bufMin id m in mixEach bufMin ids m
  end.

Definition mixInputs (m : Mixer) : outcome Mixer :=
  mixEach (inputBufferMin m * zlen (mixBuf m)) (inputs m) m.

Definition reset (m : Mixer) : Mixer :=
  set_buffers (replicate (length (mixBuf m)) 0) (mixTmp m) m.

Definition clamp (v : Z) : Z :=
  let v := if 32767 <? v then 32767 else v in
  let v := if v <? -32767 then -32767 else v in
  i16 v.

(** The end of [mixOnce]: a write, a send, or a send that blocks.  [werr] is
    whether [out.WriteSample] fails. *)
Definition deliver (out : list Z) (werr : bool) (m : Mixer) : Mixer :=
  match outchan m with
  | None =>
      let m := set_output None (held m) (written m ++ [out]) m in
      if werr then add WriteErrors 1 m else m
  | Some (cap, pending) =>
      if zlen pending <? cap then set_output (Some (cap, pending ++ [out])) (held m) (written m) m
      else set_output (outchan m) (Some out) (written m) (add BlockedMixes 1 m)
  end.

Definition mixOnce (werr : bool) (m : Mixer) : outcome Mixer :=
  let! m := mixInputs (reset (add Mixes 1 m)) in
  let out := clamp <$> mixBuf m in
  Ok (deliver out werr (add OutputSamples (zlen out) (add OutputFrames 1 m))).

(** [if n > m.inputBufferFrames { ... }] *)
Definition capMixes (now : time) (n : Z) (m : Mixer) : Z * Mixer :=
  if inputBufferFrames m <? n
  then (inputBufferFrames m, set_lastMixEndTs now (add TimingResets (u64 (inputBufferFrames m)) m))
  else (n, m).

(** [mixUpdate] up to its loop: the number of mixes to run. *)
Definition mixCount (now : time) (m : Mixer) : outcome (Z * Mixer) :=
  if IsZero (lastMixEndTs m) then
    Ok (capMixes now 1 (set_lastMixEndTs now (add TimedMixes 1 m)))
  else
    let dt := Sub now (lastMixEndTs m) in
    if dt <? 0 then Ok (0, add NegativeMixes 1 m)
    else
      let dt := i64 (dt + Z.quot (tickerDur m) 4) in
      let! n := go_quot dt (tickerDur m) in
      let m := set_lastMixEndTs (Add (lastMixEndTs m) (i64 (n * tickerDur m))) m in
      Ok (capMixes now n
            (if n =? 0 then add ZeroMixes 1 m
             else if n =? 1 then add TimedMixes 1 m else add JumpMixes (u64 n) m)).

Fixpoint mixTimes (n : nat) (werrs : list bool) (m : Mixer) : outcome Mixer :=
  match n with
  | O => Ok m
  | S n => let! m := mixOnce (default false (head werrs)) m in mixTimes n (tail werrs) m
  end.

(** [mixUpdate], when nothing else runs in between and the output does not
    block; [werrs] are the outcomes of its writes. *)
Definition mixUpdate (now : time) (werrs : list bool) (m : Mixer) : outcome Mixer :=
  let! (n, m) := mixCount now m in
  mixTimes (Z.to_nat n) werrs m.

(** One iteration of the loop of [writer]; the frame it takes makes room for a
    blocked one. *)
Definition writeNext (werr : bool) (m : Mixer) : Mixer :=
  match outchan m with
  | Some (cap, frame :: pending) =>
      let pending := match held m with Some f => pending ++ [f] | None => pending end in
      let m := set_output (Some (cap, pending)) None (written m ++ [frame]) m in
      if werr then add WriteErrors 1 m else m
  | _ => m
  end.

Definition Stop (m : Mixer) : Mixer := set_stopped m.

(** ** The steps of a running mixer

    [todo] is the number of mixes left in the [mixUpdate] that the ticker
    goroutine is in. *)

Record running : Type := mkRunning { mixer : Mixer; todo : nat }.

Inductive action : Type :=
| Tick (now : time)
| Mix (werr : bool)
| Drain (werr : bool)
| CallNewInput
| CallRemoveInput (id : nat)
| CallWriteSample (id : nat) (sample : list Z)
| CallStop.

(** A call needs an input that exists.  A goroutine that cannot run leaves the state alone: the ticker goroutine
    runs [mixUpdate] to its end and waits while a frame is held.  After [Stop] a
    goroutine may still take actions, until its [select] picks the other case. *)
Definition step (r : running) (a : action) : outcome running :=
  let m := mixer r in
  match a with
  | Tick now =>
      match todo r, held m with
      | O, None =>
          let! (n, m) := mixCount now m in Ok (mkRunning m (Z.to_nat n))
      | _, _ => Ok r
      end
  | Mix werr =>
      match todo r, held m with
      | S n, None => let! m := mixOnce werr m in Ok (mkRunning m n)
      | _, _ => Ok r
      end
  | Drain werr => Ok (mkRunning (writeNext werr m) (todo r))
  | CallNewInput => let! (_, m) := NewInput m in Ok (mkRunning m (todo r))
  | CallRemoveInput id => Ok (mkRunning (RemoveInput id m) (todo r))
  | CallWriteSample id sample =>
      if (id <? length (store m))%nat then
        let! (m, _) := WriteSample id sample m in Ok (mkRunning m (todo r))
      else Ok r
  | CallStop => Ok (mkRunning (Stop m) (todo r))
  end.

Fixpoint runAll (r : running) (acts : list action) : outcome running :=
  match acts with
  | [] => Ok r
  | a :: acts => let! r := step r a in runAll r acts
  end.

End mixer.
