(* ===== verification/MixerProps.v ===== *)
(** * MixerProps: what the mixer plays

    Everything is proved against the queue interface [Fifo]. *)

From stdpp Require Import base tactics sets numbers strings list.
From S2P Require Import Prelude Fifo Ring RingRefine Mixer.

#[local] Open Scope go_scope.

Definition is_int16 (v : Z) : Prop := -32768 <= v <= 32767.

Section props.
Context {Q : Type} `{Fifo Z Q}.

(** ** Well-formed mixers *)

Definition queued (i : Input (Q := Q)) : list Z := fifo_contents (buf i).

Definition input_wf (sz : Z) (i : Input (Q := Q)) : Prop :=
  fifo_wf (buf i) /\ fifo_Size (buf i) = sz /\ Forall is_int16 (queued i).

Record mixer_wf (m : Mixer (Q := Q)) : Prop := {
  wf_store : Forall (input_wf (zlen (mixBuf m) * inputBufferFrames m)) (store m);
  wf_inputs : Forall (fun id => (id < length (store m))%nat) (inputs m);
  wf_nodup : NoDup (inputs m);
  wf_tmp : length (mixTmp m) = length (mixBuf m);
  wf_frames : 0 < inputBufferFrames m;
  wf_ticker : 0 < tickerDur m;
}.

(** ** What one mix takes from an input *)

(** The samples an input gives to one mix of [size] samples. *)
Definition takes (bufMin : Z) (size : nat) (i : Input (Q := Q)) : list Z :=
  if buffering i && (zlen (queued i) <? bufMin) then [] else take size (queued i).

(** The input after that: it buffers again once it gave nothing. *)
Definition took (bufMin : Z) (size : nat) (i i' : Input (Q := Q)) : Prop :=
  fifo_wf (buf i') /\ fifo_Size (buf i') = fifo_Size (buf i) /\
  queued i' = drop (length (takes bufMin size i)) (queued i) /\
  buffering i' = (zlen (takes bufMin size i) =? 0).

Lemma zlen_take (n : nat) (l : list Z) : zlen (take n l) = Z.of_nat (Nat.min n (length l)).
Proof. unfold zlen. by rewrite length_take. Qed.

Lemma readSample_spec bufMin out i sz :
  input_wf sz i ->
  exists i' out' starved,
    readSample bufMin out i = Ok (i', out', zlen (takes bufMin (length out) i), starved) /\
    took bufMin (length out) i i' /\ length out' = length out /\
    take (length (takes bufMin (length out) i)) out' = takes bufMin (length out) i.
Proof.
  intros (Hwf & Hsz & _). unfold readSample. rewrite fifo_Len_spec by done.
  fold (queued i). unfold took, takes.
  destruct (buffering i && (zlen (queued i) <? bufMin)) eqn:Eb.
  { exists i, out, false. apply andb_true_iff in Eb as [-> _]. done. }
  destruct (fifo_Read_spec (buf i) out Hwf) as (q & err & -> & _ & Hwf' & Hs' & Hc'). simpl.
  fold (queued i) in *. set (n := Nat.min (length out) (length (queued i))) in *.
  assert (Hn : zlen (take (length out) (queued i)) = Z.of_nat n) by apply zlen_take.
  assert (Ht : take n (queued i) = take (length out) (queued i)).
  { unfold n. destruct (decide (length out <= length (queued i))%nat).
    - by rewrite Nat.min_l.
    - rewrite !take_ge by lia. done. }
  assert (Hl : length (take (length out) (queued i)) = n) by (rewrite length_take; lia).
  rewrite <- Hn, Ht. eexists _, _, _. split; [done|]. rewrite Hl.
  assert (Hq : forall bb, queued (mkInput q bb) = drop n (queued i)) by done.
  rewrite Hq. split_and!; try done.
  - rewrite length_app, Hl, length_drop. unfold n. lia.
  - rewrite <- Hl at 1. apply take_app_length.
Qed.

(** ** Statistics *)

Lemma addStat_ne c c' n s : c <> c' -> addStat c n s c' = s c'.
Proof. intros. unfold addStat. by rewrite decide_False. Qed.

Lemma addStat_eq c n s : c <> Tracks -> addStat c n s c = u64 (s c + n).
Proof. intros. unfold addStat. by rewrite decide_True, decide_False. Qed.

Ltac stat_simpl := repeat first [rewrite addStat_ne by done | rewrite addStat_eq by done].

Definition only_changes (cs : list stat) (s s' : Stats) : Prop :=
  forall c, c ∉ cs -> s' c = s c.

(** ** One mix *)

Lemma mixInput_spec bufMin id i m :
  mixer_wf m -> store m !! id = Some i ->
  exists i' tmp' st',
    mixInput bufMin id m =
      Ok (set_stats st' (set_buffers (accumulate (mixBuf m) (takes bufMin (length (mixBuf m)) i)) tmp'
            (set_inputs (inputs m) (<[id := i']> (store m)) m))) /\
    took bufMin (length (mixBuf m)) i i' /\ length tmp' = length (mixTmp m) /\
    only_changes [Restarts; MixedFrames; MixedSamples] (stats m) st' /\
    u64 (st' MixedSamples) = u64 (stats m MixedSamples + zlen (takes bufMin (length (mixBuf m)) i)).
Proof.
  intros Hwf Hid. unfold mixInput. rewrite Hid.
  assert (Hsl : go_slice (mixTmp m) 0 (zlen (mixBuf m)) = Ok (mixTmp m)).
  { rewrite go_slice_Ok by (unfold zlen; rewrite ?(wf_tmp m Hwf); lia). simpl.
    rewrite drop_0, take_ge; [done|]. unfold zlen. rewrite (wf_tmp m Hwf). lia. }
  rewrite Hsl. simpl. pose proof (Forall_lookup_1 _ _ _ _ (wf_store m Hwf) Hid) as Hi.
  destruct (readSample_spec bufMin (mixTmp m) i _ Hi) as (i' & tmp' & starved & -> & Ht & Hl & Htk).
  rewrite (wf_tmp m Hwf) in *. simpl. set (t := takes bufMin (length (mixBuf m)) i) in *.
  exists i', tmp'. destruct (zlen t =? 0) eqn:En; bool_cases.
  - rewrite (zlen_0 t En). assert (Ha : forall l, accumulate l [] = l) by (by intros []).
    rewrite Ha. destruct starved.
    + exists (addStat Restarts 1 (stats m)). split_and!; try done; [|].
      * intros c Hc. apply addStat_ne. set_solver.
      * rewrite addStat_ne by done. f_equal. unfold zlen. simpl. lia.
    + exists (stats m). split_and!; try done. f_equal. unfold zlen. simpl. lia.
  - assert (Hp : go_slice tmp' 0 (zlen t) = Ok t).
    { rewrite go_slice_Ok.
      - simpl. rewrite drop_0, Z.sub_0_r. unfold zlen. rewrite Nat2Z.id. by rewrite Htk.
      - pose proof (zlen_nonneg t). lia.
      - unfold zlen. rewrite Hl. unfold t, takes. destruct (_ && _); simpl; [lia|].
        rewrite length_take. lia. }
    set (m1 := if starved then _ else _).
    assert (Hm1 : exists st1, m1 = set_stats st1 (set_buffers (mixBuf m) tmp'
        (set_inputs (inputs m) (<[id:=i']> (store m)) m)) /\
        only_changes [Restarts] (stats m) st1).
    { unfold m1. destruct starved; eexists; split; try done. intros c Hc. apply addStat_ne. set_solver. }
    destruct Hm1 as (st1 & -> & Hst1). simpl. rewrite Hp. simpl. eexists. split; [done|].
    split_and!; try done.
    + intros c Hc. simpl. rewrite !addStat_ne by set_solver. apply Hst1. set_solver.
    + simpl. rewrite addStat_eq, addStat_ne by done. rewrite (Hst1 MixedSamples) by set_solver.
      word_lia.
Qed.

(** What a mix takes from the input [id] of a mixer. *)
Definition part (bufMin : Z) (m : Mixer (Q := Q)) (id : nat) : list Z :=
  match store m !! id with
  | Some i => takes bufMin (length (mixBuf m)) i
  | None => []
  end.

(** The store after inputs [ids] have been mixed. *)
Definition taken (bufMin : Z) (size : nat) (ids : list nat) (st st' : list (Input (Q := Q))) : Prop :=
  length st' = length st /\
  forall id i, st !! id = Some i -> exists i', st' !! id = Some i' /\
    if decide (id ∈ ids) then took bufMin size i i' else i' = i.

Lemma took_wf sz bufMin size i i' : input_wf sz i -> took bufMin size i i' -> input_wf sz i'.
Proof.
  intros (_ & H2 & H3) (T1 & T2 & T3 & _). unfold input_wf. rewrite T3.
  split_and!; [done|congruence|]. by apply Forall_drop.
Qed.

Lemma taken_wf sz bufMin size ids st st' :
  Forall (input_wf sz) st -> taken bufMin size ids st st' -> Forall (input_wf sz) st'.
Proof.
  intros Hst [Hl Ht]. apply Forall_lookup_2. intros id i' Hi'.
  destruct (lookup_lt_is_Some_2 st id) as [i Hi].
  { rewrite <- Hl. by eapply lookup_lt_Some. }
  destruct (Ht id i Hi) as (i'' & Hi'' & Hd). simplify_eq.
  pose proof (Forall_lookup_1 _ _ _ _ Hst Hi). case_decide; [by eapply took_wf|by subst].
Qed.

Lemma taken_cons bufMin size id ids st i i' st' :
  id ∉ ids -> st !! id = Some i -> took bufMin size i i' ->
  taken bufMin size ids (<[id:=i']> st) st' -> taken bufMin size (id :: ids) st st'.
Proof.
  intros Hni Hi Ht [Hl Hrest]. rewrite length_insert in Hl. split; [done|].
  intros j k Hj. destruct (decide (j = id)) as [->|Hne].
  - destruct (Hrest id i') as (i'' & Hi'' & Hd).
    { apply list_lookup_insert_eq. by eapply lookup_lt_Some. }
    rewrite decide_False in Hd by done. subst i''. exists i'. simplify_eq. split; [done|].
    rewrite decide_True by constructor. done.
  - destruct (Hrest j k) as (k' & Hk' & Hd); [by rewrite list_lookup_insert_ne|].
    exists k'. split; [done|]. case_decide; case_decide; set_solver.
Qed.

Lemma accumulate_length acc tmp : length (accumulate acc tmp) = length acc.
Proof. revert tmp. induction acc as [|a acc IH]; intros [|v tmp]; simpl; congruence. Qed.

Lemma foldl_accumulate_length parts acc : length (foldl accumulate acc parts) = length acc.
Proof. revert acc. induction parts; intros; simpl; [done|]. rewrite IHparts. apply accumulate_length. Qed.

Lemma mixer_wf_after m st' tmp' acc' store' :
  mixer_wf m -> length acc' = length (mixBuf m) -> length tmp' = length (mixTmp m) ->
  length store' = length (store m) ->
  Forall (input_wf (zlen (mixBuf m) * inputBufferFrames m)) store' ->
  mixer_wf (set_stats st' (set_buffers acc' tmp' (set_inputs (inputs m) store' m))).
Proof.
  intros [W1 W2 W3 W4 W5 W6] Ha Ht Hl Hst. split; simpl; try done.
  - unfold zlen in *. by rewrite Ha.
  - by rewrite Hl.
  - congruence.
Qed.

Lemma mixEach_spec bufMin ids : forall m,
  mixer_wf m -> NoDup ids -> Forall (fun id => (id < length (store m))%nat) ids ->
  exists store' tmp' st',
    mixEach bufMin ids m =
      Ok (set_stats st' (set_buffers (foldl accumulate (mixBuf m) (part bufMin m <$> ids)) tmp'
            (set_inputs (inputs m) store' m))) /\
    taken bufMin (length (mixBuf m)) ids (store m) store' /\ length tmp' = length (mixTmp m) /\
    only_changes [Restarts; MixedFrames; MixedSamples] (stats m) st' /\
    u64 (st' MixedSamples) =
      u64 (stats m MixedSamples + zsum ((fun id => zlen (part bufMin m id)) <$> ids)).
Proof.
  induction ids as [|id ids IH]; intros m Hwf Hnd Hids; cbn [mixEach].
  { exists (store m), (mixTmp m), (stats m). split; [by destruct m|]. split_and!; try done.
    - split; [done|]. intros id i Hi. exists i. split; [done|]. by rewrite decide_False by set_solver.
    - by rewrite Z.add_0_r. }
  inversion_clear Hnd as [|? ? Hni Hnd']. inversion_clear Hids as [|? ? Hid Hids'].
  destruct (lookup_lt_is_Some_2 _ _ Hid) as [i Hi].
  destruct (mixInput_spec bufMin id i m Hwf Hi) as (i' & tmp1 & st1 & -> & Ht & Hl1 & Ho1 & Hs1).
  cbn [obind]. set (acc1 := accumulate _ _). set (m1 := set_stats _ _).
  assert (Hacc : length acc1 = length (mixBuf m)) by apply accumulate_length.
  assert (Hwf1 : mixer_wf m1).
  { apply mixer_wf_after; try done; [by rewrite length_insert|].
    apply Forall_insert; [apply (wf_store m Hwf)|]. eapply took_wf; [|done].
    by eapply Forall_lookup_1; [apply (wf_store m Hwf)|]. }
  destruct (IH m1 Hwf1 Hnd') as (store' & tmp' & st' & -> & Htk & Hl' & Ho' & Hs').
  { simpl. by rewrite length_insert. }
  assert (Hpart : forall j, j ∈ ids -> part bufMin m1 j = part bufMin m j).
  { intros j Hj. unfold part, m1. simpl. rewrite Hacc, list_lookup_insert_ne by set_solver. done. }
  assert (Hp0 : part bufMin m id = takes bufMin (length (mixBuf m)) i) by (unfold part; by rewrite Hi).
  exists store', tmp', st'. split_and!.
  - rewrite fmap_cons, Hp0. cbn [foldl].
    rewrite (list_fmap_ext (part bufMin m) (part bufMin m1) ids); [done|].
    intros k j Hj. symmetry. apply Hpart. by eapply list_elem_of_lookup_2.
  - simpl in Htk. rewrite Hacc in Htk. by eapply taken_cons.
  - simpl in *. congruence.
  - intros c Hc. rewrite Ho' by done. by apply Ho1.
  - rewrite Hs', fmap_cons, Hp0. cbn [zsum foldr].
    rewrite (list_fmap_ext (fun id => zlen (part bufMin m1 id)) (fun id => zlen (part bufMin m id)) ids).
    2: { intros k j Hj. rewrite Hpart; [done|]. by eapply list_elem_of_lookup_2. }
    cbn [m1 set_stats stats]. unfold zsum in *. word_lia.
Qed.

(** ** The frame of a mix *)

Definition clamped (v : Z) : Z := Z.max (-32767) (Z.min 32767 v).

Lemma clamp_spec v : clamp v = clamped v.
Proof.
  unfold clamp, clamped.
  assert (Hc : (if (if 32767 <? v then 32767 else v) <? -32767 then -32767
                else if 32767 <? v then 32767 else v) = Z.max (-32767) (Z.min 32767 v)).
  { destruct (32767 <? v) eqn:E1; bool_cases; case_if; lia. }
  cbv zeta. rewrite Hc. apply i16_id. lia.
Qed.

(** A sample of a part that may be shorter than the frame. *)
Definition sample_at (j : nat) (l : list Z) : Z := default 0 (l !! j).

Lemma sample_at_int16 j l : Forall is_int16 l -> is_int16 (sample_at j l).
Proof.
  intros Hl. unfold sample_at. destruct (l !! j) as [v|] eqn:E; simpl.
  - by eapply Forall_lookup_1.
  - unfold is_int16. lia.
Qed.

Lemma accumulate_lookup acc : forall tmp j a,
  acc !! j = Some a -> Forall is_int16 tmp ->
  -2147483648 <= a <= 2147483647 -> -2147483648 <= a + sample_at j tmp <= 2147483647 ->
  accumulate acc tmp !! j = Some (a + sample_at j tmp).
Proof.
  unfold sample_at. induction acc as [|b acc IH]; intros tmp j a Ha Ht Hr Hs; [done|].
  destruct tmp as [|v tmp].
  { rewrite lookup_nil in *. simpl in *. by rewrite Z.add_0_r. }
  inversion_clear Ht as [|? ? Hv Ht']. destruct j as [|j]; simpl in *.
  - injection Ha as ->. unfold is_int16 in Hv. rewrite (i32_id v), i32_id by lia. done.
  - by apply IH.
Qed.

Lemma foldl_accumulate_lookup parts : forall acc j a,
  acc !! j = Some a -> Forall (Forall is_int16) parts ->
  Z.abs a + 32768 * zlen parts <= 2147483647 ->
  foldl accumulate acc parts !! j = Some (a + zsum (sample_at j <$> parts)).
Proof.
  induction parts as [|p parts IH]; intros acc j a Ha Hp Hb.
  { simpl. by rewrite Z.add_0_r. }
  inversion_clear Hp as [|? ? Hp1 Hp2]. pose proof (sample_at_int16 j p Hp1) as Hs.
  unfold is_int16 in Hs. assert (Hz : zlen (p :: parts) = 1 + zlen parts) by (unfold zlen; simpl; lia).
  pose proof (zlen_nonneg parts).
  cbn [foldl]. rewrite (IH _ j (a + sample_at j p)); [| |done|lia].
  { rewrite fmap_cons. cbn [zsum foldr]. by rewrite Z.add_assoc. }
  apply accumulate_lookup; [done|done|lia|lia].
Qed.

(** What the mixer should play: the sum of the inputs, clamped. *)
Definition mix_frame (m : Mixer (Q := Q)) : list Z :=
  let bufMin := inputBufferMin m * zlen (mixBuf m) in
  (fun j => clamped (zsum ((fun id => sample_at j (part bufMin m id)) <$> inputs m)))
    <$> seq 0 (length (mixBuf m)).

Lemma part_int16 bufMin m id : mixer_wf m -> Forall is_int16 (part bufMin m id).
Proof.
  intros Hwf. unfold part. destruct (store m !! id) as [i|] eqn:Hi; [|constructor].
  destruct (Forall_lookup_1 _ _ _ _ (wf_store m Hwf) Hi) as (_ & _ & Hq).
  unfold takes. destruct (_ && _); [constructor|by apply Forall_take].
Qed.

Lemma mixed_frame bufMin m :
  mixer_wf m -> zlen (inputs m) <= 65535 ->
  clamp <$> foldl accumulate (replicate (length (mixBuf m)) 0) (part bufMin m <$> inputs m) =
  (fun j => clamped (zsum ((fun id => sample_at j (part bufMin m id)) <$> inputs m)))
    <$> seq 0 (length (mixBuf m)).
Proof.
  intros Hwf Hn. apply list_eq. intros j. rewrite !list_lookup_fmap.
  destruct (decide (j < length (mixBuf m))%nat) as [Hj|Hj].
  - rewrite lookup_seq_lt by done. simpl.
    rewrite (foldl_accumulate_lookup _ _ j 0).
    + simpl. rewrite clamp_spec. by rewrite <- list_fmap_compose.
    + by apply lookup_replicate_2.
    + apply Forall_fmap, Forall_true. intros id. by apply part_int16.
    + unfold zlen. rewrite length_fmap. unfold zlen in Hn. lia.
  - rewrite lookup_seq_ge by lia. rewrite lookup_ge_None_2; [done|].
    rewrite foldl_accumulate_length, length_replicate. lia.
Qed.

(** ** Output *)

(** All the frames mixed so far, in order: written, in the channel, or held. *)
Definition delivered (m : Mixer (Q := Q)) : list (list Z) :=
  written m ++ match outchan m with Some (_, pending) => pending | None => [] end
            ++ match held m with Some f => [f] | None => [] end.

(** The fields that the output steps leave alone. *)
Definition same_inputs (m m' : Mixer (Q := Q)) : Prop :=
  inputs m' = inputs m /\ store m' = store m /\ mixBuf m' = mixBuf m /\ mixTmp m' = mixTmp m /\
  inputBufferFrames m' = inputBufferFrames m /\ tickerDur m' = tickerDur m /\
  inputBufferMin m' = inputBufferMin m.

Lemma deliver_spec out werr m :
  held m = None ->
  delivered (deliver out werr m) = delivered m ++ [out] /\ same_inputs m (deliver out werr m) /\
  only_changes [WriteErrors; BlockedMixes] (stats m) (stats (deliver out werr m)).
Proof.
  intros Hh. unfold deliver, delivered. destruct (outchan m) as [[cap pending]|] eqn:Ho.
  - destruct (zlen pending <? cap); simpl; rewrite ?Ho, ?Hh; simpl; rewrite ?app_nil_r, <- ?app_assoc;
      split_and!; try done. intros c Hc. apply addStat_ne. set_solver.
  - rewrite Hh. destruct werr; simpl; rewrite ?Hh, ?app_nil_r; split_and!; try done.
    intros c Hc. apply addStat_ne. set_solver.
Qed.

Lemma deliver_held out werr (m : Mixer (Q := Q)) :
  outchan (deliver out werr m) = None -> held (deliver out werr m) = held m.
Proof.
  unfold deliver. destruct (outchan m) as [[cap p]|] eqn:E; [|by destruct werr].
  by destruct (zlen p <? cap).
Qed.

Lemma same_inputs_wf m m' : same_inputs m m' -> mixer_wf m -> mixer_wf m'.
Proof.
  intros (E1 & E2 & E3 & E4 & E5 & E6 & _) [W1 W2 W3 W4 W5 W6].
  split; rewrite ?E1, ?E2, ?E3, ?E4, ?E5, ?E6; done.
Qed.

(** [mixOnce] in terms of the inputs, the frame and the counters. *)
Lemma mixOnce_spec werr m :
  mixer_wf m -> held m = None ->
  let bufMin := inputBufferMin m * zlen (mixBuf m) in
  exists m', mixOnce werr m = Ok m' /\ mixer_wf m' /\ inputs m' = inputs m /\
    taken bufMin (length (mixBuf m)) (inputs m) (store m) (store m') /\
    delivered m' = delivered m ++
      [clamp <$> foldl accumulate (replicate (length (mixBuf m)) 0) (part bufMin m <$> inputs m)] /\
    only_changes [Restarts; MixedFrames; MixedSamples; Mixes; OutputFrames; OutputSamples;
                  WriteErrors; BlockedMixes] (stats m) (stats m') /\
    u64 (stats m' MixedSamples) =
      u64 (stats m MixedSamples + zsum ((fun id => zlen (part bufMin m id)) <$> inputs m)) /\
    stats m' Mixes = u64 (stats m Mixes + 1) /\ stats m' OutputFrames = u64 (stats m OutputFrames + 1) /\
    (outchan m' = None -> held m' = None).
Proof.
  intros Hwf Hh bufMin. unfold mixOnce, mixInputs. set (m1 := reset (add Mixes 1 m)).
  assert (Hlen : length (mixBuf m1) = length (mixBuf m)) by apply length_replicate.
  assert (Hz : zlen (mixBuf m1) = zlen (mixBuf m)) by (unfold zlen; by rewrite Hlen).
  assert (Hwf1 : mixer_wf m1).
  { destruct Hwf as [W1 W2 W3 W4 W5 W6]. split; rewrite ?Hz, ?Hlen; done. }
  assert (Hpart : forall id, part bufMin m1 id = part bufMin m id) by (intros; unfold part; by rewrite Hlen).
  replace (inputBufferMin m1 * zlen (mixBuf m1)) with bufMin by (unfold bufMin; by rewrite Hz).
  destruct (mixEach_spec bufMin (inputs m1) m1 Hwf1 (wf_nodup _ Hwf) (wf_inputs _ Hwf))
    as (store' & tmp' & st' & -> & Htk & Hl & Ho & Hs).
  cbn [obind]. set (m2 := set_stats _ _). set (out := clamp <$> mixBuf m2).
  assert (Hwf2 : mixer_wf m2).
  { apply mixer_wf_after; try done; [apply foldl_accumulate_length|apply Htk|].
    eapply taken_wf; [apply (wf_store _ Hwf1)|exact Htk]. }
  destruct (deliver_spec out werr (add OutputSamples (zlen out) (add OutputFrames 1 m2)) Hh)
    as (Hd & Hsi & Hos).
  assert (Hst : forall c, c ∉ [WriteErrors; BlockedMixes; OutputSamples; OutputFrames] ->
    stats (deliver out werr (add OutputSamples (zlen out) (add OutputFrames 1 m2))) c = st' c).
  { intros c Hc. rewrite Hos by set_solver. simpl. rewrite !addStat_ne by set_solver. done. }
  eexists. split; [done|]. split_and!.
  - eapply same_inputs_wf; [exact Hsi|]. by destruct Hwf2.
  - by rewrite (proj1 Hsi).
  - rewrite (proj1 (proj2 Hsi)). by rewrite Hlen in Htk.
  - rewrite Hd. change (delivered (add _ _ _)) with (delivered m). f_equal. f_equal.
    unfold out, m2. simpl. f_equal. f_equal. by apply list_fmap_ext.
  - intros c Hc. rewrite Hst by set_solver. rewrite Ho by set_solver. apply addStat_ne. set_solver.
  - rewrite Hst, Hs by set_solver. simpl. rewrite addStat_ne by done. f_equal. f_equal. f_equal.
    apply list_fmap_ext. intros. by rewrite Hpart.
  - rewrite Hst, Ho by set_solver. by apply addStat_eq.
  - rewrite Hos by set_solver. simpl. rewrite addStat_ne, addStat_eq by done.
    rewrite Ho by set_solver. simpl. by rewrite addStat_ne.
  - intros Hn. rewrite deliver_held by done. exact Hh.
Qed.

(** C7: what is played: one mix appends one frame to the output, and each of
    its samples is the sum of the samples that the inputs give, clamped to
    +-32767; with at most 65535 inputs the sum never overflows the 32-bit
    accumulator.  An input that is buffering gives nothing until it has
    [inputBufferMin] frames, and an input that has too few samples is padded
    with silence. *)
Theorem mix_is_clamped_sum (werr : bool) (m : Mixer (Q := Q)) :
  mixer_wf m -> held m = None -> zlen (inputs m) <= 65535 ->
  exists m', mixOnce werr m = Ok m' /\ mixer_wf m' /\
    delivered m' = delivered m ++ [mix_frame m] /\
    taken (inputBufferMin m * zlen (mixBuf m)) (length (mixBuf m)) (inputs m) (store m) (store m').
Proof.
  intros Hwf Hh Hn. destruct (mixOnce_spec werr m Hwf Hh) as (m' & Hm & Hwf' & _ & Ht & Hd & _).
  exists m'. split_and!; try done; try apply Hwf'. rewrite Hd. unfold mix_frame.
  by rewrite mixed_frame.
Qed.

(** ** Conservation of samples and frames *)

(** The samples waiting in all inputs. *)
Definition waiting (st : list (Input (Q := Q))) : Z := zsum ((fun i => zlen (queued i)) <$> st).

Lemma waiting_insert st id i i' :
  st !! id = Some i -> waiting (<[id := i']> st) = waiting st - zlen (queued i) + zlen (queued i').
Proof.
  intros Hi. unfold waiting. rewrite list_fmap_insert.
  rewrite (zsum_insert _ id (zlen (queued i))); [done|]. by rewrite list_lookup_fmap, Hi.
Qed.

Lemma takes_length bufMin size i : (length (takes bufMin size i) <= length (queued i))%nat.
Proof. unfold takes. destruct (_ && _); simpl; [lia|]. rewrite length_take. lia. Qed.

Definition takenFrom (bufMin : Z) (size : nat) (st : list (Input (Q := Q))) (id : nat) : Z :=
  match st !! id with Some i => zlen (takes bufMin size i) | None => 0 end.

Lemma taken_waiting bufMin size ids : forall st st',
  NoDup ids -> Forall (fun id => (id < length st)%nat) ids ->
  taken bufMin size ids st st' ->
  waiting st' = waiting st - zsum (takenFrom bufMin size st <$> ids).
Proof.
  induction ids as [|id ids IH]; intros st st' Hnd Hids [Hl Ht].
  { replace st' with st; [simpl; lia|]. apply list_eq. intros j. destruct (st !! j) as [i|] eqn:Hj.
    - destruct (Ht j i Hj) as (i' & -> & Hd). rewrite decide_False in Hd by set_solver. by subst.
    - symmetry. apply lookup_ge_None. rewrite Hl. by apply lookup_ge_None. }
  inversion_clear Hnd as [|? ? Hni Hnd']. inversion_clear Hids as [|? ? Hid Hids'].
  destruct (lookup_lt_is_Some_2 _ _ Hid) as [i Hi].
  destruct (Ht id i Hi) as (i' & Hi' & Hd). rewrite decide_True in Hd by constructor.
  rewrite (IH (<[id:=i']> st) st'); [|done|by rewrite length_insert|].
  - rewrite (waiting_insert st id i i' Hi), fmap_cons.
    unfold takenFrom at 2. rewrite Hi. destruct Hd as (_ & _ & Hq & _).
    pose proof (takes_length bufMin size i) as Hle.
    rewrite Hq, zlen_drop by done.
    rewrite (list_fmap_ext (takenFrom bufMin size (<[id:=i']> st)) (takenFrom bufMin size st) ids).
    2: { intros k j Hj. unfold takenFrom. rewrite list_lookup_insert_ne; [done|].
         intros ->. apply Hni. by eapply list_elem_of_lookup_2. }
    cbn [zsum foldr]. unfold zsum, zlen. lia.
  - split; [by rewrite length_insert|]. intros j k Hj. destruct (decide (j = id)) as [->|Hne].
    + rewrite list_lookup_insert_eq in Hj by done. injection Hj as <-. exists i'.
      split; [done|]. by rewrite decide_False.
    + rewrite list_lookup_insert_ne in Hj by done. destruct (Ht j k Hj) as (k' & Hk' & Hdk).
      exists k'. split; [done|]. case_decide; case_decide; set_solver.
Qed.

(** The books of a mixer: every sample ever written to an input has been mixed,
    dropped or is still waiting; every frame mixed is in the output; and the
    gauge of tracks counts the inputs. *)
Record booked (m : Mixer (Q := Q)) : Prop := {
  bk_samples : u64 (stats m InputSamples) =
    u64 (stats m MixedSamples + stats m InputSamplesDropped + waiting (store m));
  bk_frames : stats m OutputFrames = u64 (zlen (delivered m));
  bk_mixes : stats m Mixes = u64 (zlen (delivered m));
  bk_tracks : stats m Tracks = i64 (zlen (inputs m));
  bk_held : outchan m = None -> held m = None;
}.

Lemma mixOnce_booked werr m m' :
  mixer_wf m -> held m = None -> booked m -> mixOnce werr m = Ok m' -> booked m'.
Proof.
  intros Hwf Hh [B1 B2 B3 B4 B5] Hm.
  destruct (mixOnce_spec werr m Hwf Hh) as (m'' & Hm'' & _ & Hin & Htk & Hd & Ho & Hs & Hx & Hf & Hn).
  rewrite Hm in Hm''. injection Hm'' as <-. split.
  - pose proof (taken_waiting _ _ _ _ _ (wf_nodup _ Hwf) (wf_inputs _ Hwf) Htk) as Hw.
    rewrite (Ho InputSamples), (Ho InputSamplesDropped), Hw by set_solver.
    rewrite (list_fmap_ext _ (fun id => zlen (part (inputBufferMin m * zlen (mixBuf m)) m id)) (inputs m)).
    { rewrite B1. unfold zsum in *. word_lia. }
    intros k j Hj. unfold takenFrom, part. by destruct (store m !! j).
  - rewrite Hf, B2, Hd, zlen_app. unfold zlen. simpl. word_lia.
  - rewrite Hx, B3, Hd, zlen_app. unfold zlen. simpl. word_lia.
  - rewrite (Ho Tracks) by set_solver. by rewrite Hin.
  - done.
Qed.

(** ** The other steps *)

Definition good (m : Mixer (Q := Q)) : Prop := mixer_wf m /\ booked m.

(** A step that only touches timing and its counters. *)
Lemma timing_good m m' :
  same_inputs m m' -> outchan m' = outchan m -> held m' = held m -> written m' = written m ->
  (forall c, c ∈ [InputSamples; MixedSamples; InputSamplesDropped; OutputFrames; Mixes; Tracks] ->
     stats m' c = stats m c) ->
  good m -> good m'.
Proof.
  intros Hs Ho Hh Hw Hc [Hwf [B1 B2 B3 B4 B5]]. split; [by eapply same_inputs_wf|].
  destruct Hs as (E1 & E2 & _).
  split; unfold delivered in *; rewrite ?E1, ?E2, ?Ho, ?Hh, ?Hw, ?Hc by set_solver; done.
Qed.

Lemma add_other_good c n m :
  c ∉ [InputSamples; MixedSamples; InputSamplesDropped; OutputFrames; Mixes; Tracks] ->
  good m -> good (add c n m).
Proof.
  intros Hc. apply timing_good; try done. intros c' Hc'. apply addStat_ne. set_solver.
Qed.

Lemma set_lastMixEndTs_good t m : good m -> good (set_lastMixEndTs t m).
Proof. by apply timing_good. Qed.

Lemma capMixes_spec now n m :
  good m -> good (snd (capMixes now n m)) /\ fst (capMixes now n m) <= inputBufferFrames m /\
  held (snd (capMixes now n m)) = held m /\ inputs (snd (capMixes now n m)) = inputs m.
Proof.
  intros Hg. unfold capMixes. destruct (inputBufferFrames m <? n) eqn:E; bool_cases; [|done].
  split; [|split; [simpl; lia|done]].
  apply set_lastMixEndTs_good, add_other_good; [set_solver|done].
Qed.

Lemma mixCount_spec now m :
  good m -> exists n m', mixCount now m = Ok (n, m') /\ good m' /\
    n <= inputBufferFrames m /\ held m' = held m /\ inputs m' = inputs m.
Proof.
  intros Hg. pose proof (wf_frames _ (proj1 Hg)) as Hfr. pose proof (wf_ticker _ (proj1 Hg)) as Ht.
  assert (Hcap : forall n m1, good m1 -> inputBufferFrames m1 = inputBufferFrames m ->
    held m1 = held m -> inputs m1 = inputs m ->
    exists n' m', capMixes now n m1 = (n', m') /\ good m' /\ n' <= inputBufferFrames m /\
      held m' = held m /\ inputs m' = inputs m).
  { intros n m1 Hg1 Hf Hh Hi. destruct (capMixes_spec now n m1 Hg1) as (? & ? & ? & ?).
    destruct (capMixes now n m1) as [n' m']. simpl in *. exists n', m'. split; [done|].
    split; [done|]. split; [lia|]. split; congruence. }
  unfold mixCount. destruct (IsZero (lastMixEndTs m)).
  - destruct (Hcap 1 (set_lastMixEndTs now (add TimedMixes 1 m))) as (n' & m' & -> & ?);
      [|done|done|done|by exists n', m'].
    apply set_lastMixEndTs_good, add_other_good; [set_solver|done].
  - destruct (Sub now (lastMixEndTs m) <? 0) eqn:Ed; bool_cases.
    { eexists _, _. split; [reflexivity|]. split; [|split; [lia|done]].
      apply add_other_good; [set_solver|done]. }
    unfold go_quot. destruct (tickerDur m =? 0) eqn:E0; bool_cases; [lia|]. cbn [obind].
    set (dt := i64 _). set (m1 := set_lastMixEndTs _ m).
    assert (Hg1 : good m1) by (by apply set_lastMixEndTs_good).
    destruct (Hcap (Z.quot dt (tickerDur m))
      (if Z.quot dt (tickerDur m) =? 0 then add ZeroMixes 1 m1
       else if Z.quot dt (tickerDur m) =? 1 then add TimedMixes 1 m1
       else add JumpMixes (u64 (Z.quot dt (tickerDur m))) m1)) as (n' & m' & -> & ?);
      [|by repeat case_if|by repeat case_if|by repeat case_if|by exists n', m'].
    repeat case_if; (apply add_other_good; [set_solver|done]).
Qed.

Lemma NewInput_good m : good m -> exists r m', NewInput m = Ok (r, m') /\ good m' /\ held m' = held m.
Proof.
  intros Hg. unfold NewInput. destruct (stopped m); [by exists None, m|].
  pose proof Hg as [[W1 W2 W3 W4 W5 W6] [B1 B2 B3 B4 B5]].
  cbn [mixBuf add set_stats inputBufferFrames].
  destruct (fifo_new_spec (zlen (mixBuf m) * inputBufferFrames m)) as (q & -> & Hwf & Hc & Hsz).
  { pose proof (zlen_nonneg (mixBuf m)). nia. }
  simpl. eexists _, _. split; [done|]. split; [|done]. split.
  - split; simpl; try done.
    + apply Forall_app. split; [done|]. apply Forall_singleton. unfold input_wf, queued. simpl.
      rewrite Hc. split_and!; [done|done|constructor].
    + rewrite length_app. apply Forall_app. split; [|constructor; simpl; [lia|constructor]].
      eapply Forall_impl; [exact W2|]. simpl. lia.
    + apply NoDup_app. split_and!; [done| |by apply NoDup_singleton].
      intros x Hx Hy. apply list_elem_of_singleton in Hy. subst.
      rewrite Forall_forall in W2. specialize (W2 _ Hx). lia.
  - split; simpl; rewrite ?addStat_ne by done; try done.
    + rewrite B1. unfold waiting. rewrite fmap_app, zsum_app. simpl. unfold queued at 3. simpl.
      rewrite Hc. f_equal. unfold zlen. simpl. lia.
    + rewrite zlen_app. unfold addStat. rewrite !decide_True by done. rewrite B4.
      unfold zlen. simpl. word_lia.
Qed.

Lemma deleteFirst_spec id l :
  id ∈ l -> zlen (deleteFirst id l) = zlen l - 1 /\ (forall x, x ∈ deleteFirst id l -> x ∈ l) /\
  (NoDup l -> NoDup (deleteFirst id l)).
Proof.
  induction l as [|y l IH]; intros Hin; [by apply elem_of_nil in Hin|]. simpl.
  destruct (y =? id)%nat eqn:E.
  - split_and!; [unfold zlen; simpl; lia|set_solver|by inversion 1].
  - apply Nat.eqb_neq in E. assert (Hin' : id ∈ l) by set_solver.
    destruct (IH Hin') as (Hl & Hs & Hn). split_and!.
    + unfold zlen in *. simpl length. lia.
    + set_solver.
    + inversion_clear 1 as [|? ? Hy Hnd]. constructor; [|auto]. intros Hy'. by apply Hy, Hs.
Qed.

Lemma RemoveInput_good id m : good m -> good (RemoveInput id m).
Proof.
  intros Hg. unfold RemoveInput. destruct (existsb (Nat.eqb id) (inputs m)) eqn:E; [|done].
  assert (Hin : id ∈ inputs m).
  { apply existsb_exists in E as (x & Hx & Hxid). apply Nat.eqb_eq in Hxid. subst.
    by apply list_elem_of_In. }
  destruct (deleteFirst_spec id (inputs m) Hin) as (Hl & Hs & Hn).
  destruct Hg as [[W1 W2 W3 W4 W5 W6] [B1 B2 B3 B4 B5]]. split; split; simpl; try done.
  - apply Forall_forall. rewrite Forall_forall in W2. intros. by apply W2, Hs.
  - by apply Hn.
  - unfold addStat. rewrite !decide_True by done. rewrite B4, Hl. word_lia.
Qed.

Lemma zlen_lastn (n : nat) (l : list Z) : zlen (lastn n l) = Z.min (Z.of_nat n) (zlen l).
Proof. unfold zlen. rewrite length_lastn. lia. Qed.

(** [WriteSample] keeps the newest samples that fit. *)
Lemma WriteSample_spec id i sample m :
  mixer_wf m -> store m !! id = Some i ->
  exists q st', WriteSample id sample m =
      Ok (set_stats st' (set_inputs (inputs m) (<[id := mkInput q (buffering i)]> (store m)) m), None) /\
    fifo_wf q /\ fifo_Size q = fifo_Size (buf i) /\
    fifo_contents q = lastn (Z.to_nat (fifo_Size (buf i))) (queued i ++ sample) /\
    only_changes [InputSamples; InputFrames; InputSamplesDropped; InputFramesDropped] (stats m) st' /\
    st' InputSamples = u64 (stats m InputSamples + zlen sample) /\
    u64 (st' InputSamplesDropped) =
      u64 (stats m InputSamplesDropped +
           Z.max 0 (zlen (queued i) + zlen sample - fifo_Size (buf i))).
Proof.
  intros Hwf Hid. unfold WriteSample. rewrite Hid.
  destruct (Forall_lookup_1 _ _ _ _ (wf_store m Hwf) Hid) as (Hq & Hsz & _).
  rewrite fifo_Len_spec by done. fold (queued i).
  destruct (fifo_Write_spec (buf i) sample Hq) as (q & -> & Hq' & Hs' & Hc').
  set (m1 := add InputSamples _ _). exists q.
  destruct (0 <? zlen (queued i) + zlen sample - fifo_Size (buf i)) eqn:Ed; bool_cases; simpl.
  - eexists. split; [reflexivity|]. split_and!; try done.
    + intros c Hc. simpl. rewrite !addStat_ne by set_solver. done.
    + simpl. stat_simpl. word_lia.
  - eexists. split; [reflexivity|]. split_and!; try done.
    + intros c Hc. simpl. rewrite !addStat_ne by set_solver. done.
    + simpl. stat_simpl. f_equal. lia.
Qed.

Lemma WriteSample_good id i sample m :
  good m -> store m !! id = Some i -> Forall is_int16 sample ->
  exists m', WriteSample id sample m = Ok (m', None) /\ good m' /\ held m' = held m.
Proof.
  intros [Hwf [B1 B2 B3 B4 B5]] Hid Hsm.
  destruct (WriteSample_spec id i sample m Hwf Hid)
    as (q & st' & -> & Hq & Hsz & Hc & Ho & Hin & Hdr).
  pose proof (Forall_lookup_1 _ _ _ _ (wf_store m Hwf) Hid) as (Hqi & Hszi & Hi16).
  eexists. split; [done|]. split; [|done]. split.
  - apply (mixer_wf_after m st' (mixTmp m) (mixBuf m) (<[id:=mkInput q (buffering i)]> (store m)));
      [done|done|done|apply length_insert|].
    apply Forall_insert; [apply (wf_store m Hwf)|]. unfold input_wf, queued. simpl.
    rewrite Hc, Hsz. split_and!; [done|done|]. apply Forall_drop, Forall_app. by split.
  - split; simpl; rewrite ?(Ho OutputFrames), ?(Ho Mixes), ?(Ho Tracks) by set_solver; try done.
    rewrite (Ho MixedSamples) by set_solver.
    rewrite (waiting_insert _ _ i) by done.
    replace (zlen (queued (mkInput q (buffering i))))
      with (Z.min (fifo_Size (buf i)) (zlen (queued i) + zlen sample)).
    + rewrite Hin. revert B1 Hdr. pose proof (zlen_nonneg (queued i)). word_lia.
    + unfold queued at 2. simpl. rewrite Hc, zlen_lastn, zlen_app.
      pose proof (fifo_bounded (buf i) Hqi). unfold queued in *.
      pose proof (zlen_nonneg (fifo_contents (buf i))). lia.
Qed.

(** The output goroutine keeps the order of the frames. *)
Lemma writeNext_delivered werr m : delivered (writeNext werr m) = delivered m.
Proof.
  unfold writeNext. destruct (outchan m) as [[cap [|f p]]|] eqn:Ho; try done.
  unfold delivered. destruct werr; simpl; rewrite Ho; destruct (held m); by rewrite <- ?app_assoc, ?app_nil_r.
Qed.

Lemma writeNext_good werr m : good m -> good (writeNext werr m).
Proof.
  intros Hg. pose proof (writeNext_delivered false m) as Hd. unfold writeNext in *.
  destruct (outchan m) as [[cap [|f p]]|] eqn:Ho; try done. set (m1 := set_output _ _ _ _) in *.
  assert (Hg1 : good m1).
  { destruct Hg as [[W1 W2 W3 W4 W5 W6] [B1 B2 B3 B4 B5]]. split; split; try done.
    - by rewrite Hd.
    - by rewrite Hd. }
  destruct werr; [|done]. apply add_other_good; [set_solver|done].
Qed.

(** Audio samples are 16-bit. *)
Definition action_ok (a : action) : Prop :=
  match a with CallWriteSample _ sample => Forall is_int16 sample | _ => True end.

Lemma mixer_step_good r a : good (mixer r) -> action_ok a -> exists r', step r a = Ok r' /\ good (mixer r').
Proof.
  intros Hg Ha. destruct r as [m n]. simpl in Hg.
  destruct a as [now|werr|werr| |id|id sample|]; simpl.
  - destruct n, (held m); try (eexists; split; [done|]; done).
    destruct (mixCount_spec now m Hg) as (n & m' & -> & Hg' & _). simpl.
    eexists. split; [done|]. done.
  - destruct n as [|n]; [eexists; split; [done|]; done|]. destruct (held m) eqn:Hh; [eexists; split; [done|]; done|].
    destruct (mixOnce_spec werr m (proj1 Hg) Hh) as (m' & Hm & Hwf' & _). rewrite Hm. simpl.
    eexists. split; [done|]. split; [done|]. exact (mixOnce_booked werr m m' (proj1 Hg) Hh (proj2 Hg) Hm).
  - eexists. split; [done|]. by apply writeNext_good.
  - destruct (NewInput_good m Hg) as (x & m' & -> & Hg' & _). simpl.
    eexists. split; [done|]. done.
  - eexists. split; [done|]. by apply RemoveInput_good.
  - destruct (id <? length (store m))%nat eqn:E; [|eexists; split; [done|]; done].
    apply Nat.ltb_lt in E. destruct (lookup_lt_is_Some_2 _ _ E) as [i Hi].
    destruct (WriteSample_good id i sample m Hg Hi Ha) as (m' & -> & Hg' & _). simpl.
    eexists. split; [done|]. done.
  - eexists. split; [done|]. by apply (timing_good m).
Qed.

Lemma runAll_good acts : forall r,
  good (mixer r) -> Forall action_ok acts -> exists r', runAll r acts = Ok r' /\ good (mixer r').
Proof.
  induction acts as [|a acts IH]; intros r Hg Ha; simpl; [by eexists|].
  inversion_clear Ha. destruct (mixer_step_good r a) as (r1 & -> & Hg1); [done|done|]. simpl. by apply IH.
Qed.

Definition fresh_option (o : MixerOption) : Prop :=
  match o with WithStats s => forall c, s c = 0 | _ => True end.

(** A mixer that has not run yet. *)
Record blank (m : Mixer (Q := Q)) : Prop := {
  bl_stats : forall c, stats m c = 0;
  bl_inputs : inputs m = [];
  bl_store : store m = [];
  bl_written : written m = [];
  bl_held : held m = None;
  bl_outchan : forall c p, outchan m = Some (c, p) -> p = [];
  bl_tmp : length (mixTmp m) = length (mixBuf m);
  bl_frames : 0 < inputBufferFrames m;
}.

Lemma blank_delivered m : blank m -> delivered m = [].
Proof.
  intros [_ _ _ L4 L5 L6 _ _]. unfold delivered. rewrite L4, L5. destruct (outchan m) as [[c p]|] eqn:E; [|done].
  by rewrite (L6 _ _ eq_refl).
Qed.

Lemma blank_good m : blank m -> 0 < tickerDur m -> good m.
Proof.
  intros Hb Ht. pose proof (blank_delivered m Hb) as Hd. destruct Hb as [L1 L2 L3 L4 L5 L6 L7 L8].
  split; split; rewrite ?L1, ?L2, ?L3, ?Hd; try done; constructor.
Qed.

Lemma applyOption_blank m o : blank m -> fresh_option o -> blank (applyOption m o).
Proof.
  intros [L1 L2 L3 L4 L5 L6 L7 L8] Ho. destruct o as [sz|fr|st]; split; simpl; try done.
  - by intros c p [= _ <-].
  - case_if; [done|lia].
Qed.

Lemma newMixer_blank rate size dur opts :
  0 <= size -> Forall fresh_option opts ->
  exists m, newMixer rate size dur opts = Ok m /\ blank m /\ tickerDur m = dur.
Proof.
  intros Hs Ho. unfold newMixer. case_if; [lia|]. set (m0 := mkMixer _ _ _ _ _ _ _ _ _ _ _ _ _ _).
  assert (Hb : blank m0 /\ tickerDur m0 = dur) by (split; [split|]; done).
  clearbody m0. eexists. split; [done|]. revert m0 Hb.
  induction Ho as [|o opts Hf _ IH]; intros m0 [Hb Ht]; [done|]. simpl. apply IH.
  split; [by apply applyOption_blank|]. by destruct o.
Qed.

(** ** What a run writes and mixes

    The logs of a run: the samples written to its inputs, and the states in
    which its mixes began. *)
Fixpoint writesOf (r : running (Q := Q)) (acts : list action) : list (nat * list Z) :=
  match acts with
  | [] => []
  | a :: acts =>
      match a with
      | CallWriteSample id sample => if (id <? length (store (mixer r)))%nat then [(id, sample)] else []
      | _ => []
      end ++ match step r a with Ok r => writesOf r acts | Panic => [] end
  end.

Fixpoint mixesOf (r : running (Q := Q)) (acts : list action) : list (Mixer (Q := Q)) :=
  match acts with
  | [] => []
  | a :: acts =>
      match a, todo r, held (mixer r) with Mix _, S _, None => [mixer r] | _, _, _ => [] end ++
      match step r a with Ok r => mixesOf r acts | Panic => [] end
  end.

(** The samples written to the input [id]. *)
Definition wrote (id : nat) (ws : list (nat * list Z)) : list Z := concat (snd <$> filter (fun w => w.1 = id) ws).

(** The samples that a mix takes from the input [id], and from all inputs. *)
Definition gives (id : nat) (m : Mixer (Q := Q)) : list Z :=
  if decide (id ∈ inputs m) then part (inputBufferMin m * zlen (mixBuf m)) m id else [].
Definition given (m : Mixer (Q := Q)) : Z := zsum ((fun id => zlen (gives id m)) <$> inputs m).

(** The samples that wait in the input [id], if it exists. *)
Definition waitingIn (id : nat) (m : Mixer (Q := Q)) : list Z :=
  match store m !! id with Some i => queued i | None => [] end.

(** A step from [m] to [m'], with the writes [ws] and the mixes [ms]: the frames
    of the mixes go to the end of the output, and every input gives samples that
    waited in it or are written to it, in order. *)
Record logged (m m' : Mixer (Q := Q)) (ws : list (nat * list Z)) (ms : list (Mixer (Q := Q))) : Prop := {
  lg_frames : delivered m' = delivered m ++ (mix_frame <$> ms);
  lg_inputs id : concat (gives id <$> ms) ++ waitingIn id m' `sublist_of` waitingIn id m ++ wrote id ws;
  lg_written : u64 (stats m' InputSamples) = u64 (stats m InputSamples + zsum ((fun w => zlen w.2) <$> ws));
  lg_mixed : u64 (stats m' MixedSamples) = u64 (stats m MixedSamples + zsum (given <$> ms));
}.

Lemma logged_trans m m1 m2 ws ws' ms ms' :
  logged m m1 ws ms -> logged m1 m2 ws' ms' -> logged m m2 (ws ++ ws') (ms ++ ms').
Proof.
  intros [F1 I1 W1 M1] [F2 I2 W2 M2]. split.
  - by rewrite F2, F1, fmap_app, app_assoc.
  - intros id. unfold wrote. rewrite filter_app, !fmap_app, !concat_app, <- app_assoc, (app_assoc (waitingIn id m)).
    etrans; [apply sublist_app; [done|apply I2]|]. rewrite app_assoc. apply sublist_app; [apply I1|done].
  - rewrite fmap_app, zsum_app. revert W1 W2. word_lia.
  - rewrite fmap_app, zsum_app. revert M1 M2. word_lia.
Qed.

(** A step that neither writes nor mixes. *)
Lemma logged_quiet m m' :
  delivered m' = delivered m -> (forall id, waitingIn id m' = waitingIn id m) ->
  stats m' InputSamples = stats m InputSamples -> stats m' MixedSamples = stats m MixedSamples -> logged m m' [] [].
Proof.
  intros Hd Hw Hi Hm. split; simpl; rewrite ?app_nil_r, ?Z.add_0_r, ?Hd, ?Hi, ?Hm; try done.
  intros id. by rewrite app_nil_r, Hw.
Qed.

Lemma takes_drop bufMin size i : takes bufMin size i ++ drop (length (takes bufMin size i)) (queued i) = queued i.
Proof.
  unfold takes. destruct (_ && _); [done|]. rewrite length_take.
  destruct (decide (size <= length (queued i))%nat).
  - rewrite Nat.min_l by done. apply take_drop.
  - rewrite Nat.min_r, drop_ge, app_nil_r by lia. apply take_ge. lia.
Qed.

Lemma gives_part id m : id ∈ inputs m -> gives id m = part (inputBufferMin m * zlen (mixBuf m)) m id.
Proof. intros Hid. unfold gives. by rewrite decide_True. Qed.

Lemma mixOnce_logged werr m m' :
  mixer_wf m -> held m = None -> zlen (inputs m) <= 65535 -> mixOnce werr m = Ok m' -> logged m m' [] [m].
Proof.
  intros Hwf Hh Hn Hm. destruct (mixOnce_spec werr m Hwf Hh) as (m'' & Hm'' & _ & _ & [Hlen Htk] & Hd & Ho & Hs & _).
  rewrite Hm in Hm''. injection Hm'' as <-. split; simpl.
  - by rewrite Hd, mixed_frame.
  - intros id. rewrite !app_nil_r. unfold waitingIn, gives, part.
    destruct (store m !! id) as [i|] eqn:Hi.
    + destruct (Htk id i Hi) as (i' & -> & Hi'). case_decide; [|by subst].
      destruct Hi' as (_ & _ & -> & _). by rewrite takes_drop.
    + apply lookup_ge_None in Hi. rewrite <- Hlen in Hi. apply lookup_ge_None in Hi as ->. by case_decide.
  - by rewrite (Ho InputSamples), Z.add_0_r by set_solver.
  - rewrite Hs, Z.add_0_r. unfold given. do 3 f_equal. apply list_fmap_ext. intros k id Hk.
    rewrite gives_part; [done|by eapply list_elem_of_lookup_2].
Qed.

(** Timing and its counters. *)
Definition same_log (m m' : Mixer (Q := Q)) : Prop :=
  delivered m' = delivered m /\ store m' = store m /\
  stats m' InputSamples = stats m InputSamples /\ stats m' MixedSamples = stats m MixedSamples.

Lemma same_log_logged m m' : same_log m m' -> logged m m' [] [].
Proof. intros (? & Hs & ? & ?). apply logged_quiet; try done. intros id. unfold waitingIn. by rewrite Hs. Qed.

Lemma same_log_timed c n t m :
  c ∉ [InputSamples; MixedSamples] -> same_log m (add c n m) /\ same_log m (set_lastMixEndTs t m).
Proof. intros Hc. split; [|done]. split_and!; try done; simpl; rewrite addStat_ne by set_solver; done. Qed.

Lemma same_log_trans m1 m2 m3 : same_log m1 m2 -> same_log m2 m3 -> same_log m1 m3.
Proof. unfold same_log. intros. destruct_and!. split_and!; congruence. Qed.

Lemma capMixes_same_log now n m m1 : same_log m1 m -> same_log m1 (capMixes now n m).2.
Proof.
  unfold capMixes. intros Hm. case_if; [|done]. simpl. eapply same_log_trans; [exact Hm|].
  eapply (same_log_trans _ (add TimingResets (u64 (inputBufferFrames m)) m)); apply (same_log_timed TimingResets); set_solver.
Qed.

Lemma mixCount_logged now m n m' : mixCount now m = Ok (n, m') -> logged m m' [] [].
Proof.
  intros Hm. apply same_log_logged. revert Hm. unfold mixCount, go_quot.
  destruct (IsZero _); [|destruct (_ <? 0); [intros [= _ <-]; apply (same_log_timed NegativeMixes 1 now); set_solver|
    destruct (tickerDur m =? 0); [done|cbn [obind]]]].
  all: intros [= Hc%(f_equal snd)]; simpl in Hc; rewrite <- Hc.
  all: apply capMixes_same_log; repeat case_if; split_and!; try done; simpl; stat_simpl; done.
Qed.

Lemma WriteSample_logged id i sample m m' e :
  mixer_wf m -> store m !! id = Some i -> WriteSample id sample m = Ok (m', e) -> logged m m' [(id, sample)] [].
Proof.
  intros Hwf Hid Hm. destruct (WriteSample_spec id i sample m Hwf Hid) as (q & st' & Hm' & _ & _ & Hc & Ho & Hin & _).
  rewrite Hm in Hm'. injection Hm' as -> _. split; simpl; rewrite ?app_nil_r, ?Z.add_0_r; try done.
  - intros j. unfold waitingIn, wrote. simpl. rewrite filter_cons. simpl. case_decide as Hj.
    + subst. rewrite list_lookup_insert_eq, Hid by (by eapply lookup_lt_Some). simpl. rewrite app_nil_r.
      unfold queued at 1. simpl. rewrite Hc. unfold lastn. apply sublist_drop.
    + rewrite list_lookup_insert_ne, app_nil_r by done. done.
  - rewrite Hin. word_lia.
  - by rewrite (Ho MixedSamples) by set_solver.
Qed.

Lemma NewInput_logged m x m' : mixer_wf m -> NewInput m = Ok (x, m') -> logged m m' [] [].
Proof.
  intros [_ _ _ _ Hf _]. unfold NewInput. destruct (stopped m); [intros [= _ <-]; by apply logged_quiet|].
  cbn [mixBuf add set_stats inputBufferFrames].
  destruct (fifo_new_spec (zlen (mixBuf m) * inputBufferFrames m)) as (q & -> & _ & Hc & _).
  { pose proof (zlen_nonneg (mixBuf m)). nia. }
  intros [= _ <-]. apply logged_quiet; simpl; stat_simpl; try done.
  intros id. unfold waitingIn. simpl. destruct (decide (id < length (store m))%nat) as [Hid|Hid].
  - by rewrite lookup_app_l.
  - rewrite (lookup_ge_None_2 (store m)) by lia. rewrite lookup_app_r by lia.
    destruct (id - length (store m))%nat as [|k]; simpl; [exact Hc|done].
Qed.

Lemma step_logged r a r' :
  good (mixer r) -> Forall (fun m => zlen (inputs m) <= 65535) (mixesOf r [a]) -> step r a = Ok r' ->
  logged (mixer r) (mixer r') (writesOf r [a]) (mixesOf r [a]).
Proof.
  intros Hg Hn Hr. cbn [writesOf mixesOf] in *. rewrite Hr, !app_nil_r in *.
  destruct r as [m n], a as [now|werr|werr| |id|id sample|]; simpl in *.
  - destruct n, (held m); try (injection Hr as <-; by apply logged_quiet).
    destruct (mixCount now m) as [[k m']|] eqn:Hm; [|done]. injection Hr as <-. by eapply mixCount_logged.
  - destruct n as [|n]; [injection Hr as <-; by apply logged_quiet|].
    destruct (held m) eqn:Hh; [injection Hr as <-; by apply logged_quiet|].
    destruct (mixOnce werr m) as [m'|] eqn:Hm; [|done]. injection Hr as <-. rewrite Forall_singleton in Hn.
    by eapply mixOnce_logged; [apply Hg|..].
  - injection Hr as <-. simpl. apply logged_quiet; [apply writeNext_delivered|..].
    all: unfold writeNext; destruct (outchan m) as [[cap [|f p]]|]; try done; destruct werr; simpl; stat_simpl; done.
  - destruct (NewInput m) as [[x m']|] eqn:Hm; [|done]. injection Hr as <-. eapply NewInput_logged; [apply Hg|done].
  - injection Hr as <-. simpl. unfold RemoveInput. destruct (existsb _ _); by apply logged_quiet.
  - destruct (id <? length (store m))%nat eqn:E.
    + apply Nat.ltb_lt in E. destruct (lookup_lt_is_Some_2 _ _ E) as [i Hi].
      destruct (WriteSample id sample m) as [[m' e]|] eqn:Hm; [|done]. injection Hr as <-.
      by eapply WriteSample_logged; [apply Hg|..].
    + injection Hr as <-. by apply logged_quiet.
  - injection Hr as <-. by apply logged_quiet.
Qed.

Lemma runAll_logged acts : forall r r',
  good (mixer r) -> Forall action_ok acts -> Forall (fun m => zlen (inputs m) <= 65535) (mixesOf r acts) ->
  runAll r acts = Ok r' -> logged (mixer r) (mixer r') (writesOf r acts) (mixesOf r acts).
Proof.
  induction acts as [|a acts IH]; intros r r' Hg Ha Hn Hr; simpl in Hr.
  { injection Hr as <-. by apply logged_quiet. }
  inversion_clear Ha as [|? ? Ha1 Ha2]. destruct (mixer_step_good r a Hg Ha1) as (r1 & Hr1 & Hg1).
  pose proof (step_logged r a r1 Hg) as Hs. cbn [writesOf mixesOf] in *. rewrite Hr1, !app_nil_r in *. cbn [obind] in Hr.
  apply Forall_app in Hn as [Hn1 Hn2]. eapply logged_trans; [by apply Hs|by apply IH].
Qed.

(** C8: nothing is lost unnoticed and nothing is out of order: over any
    interleaving of the mixer's ticks and mixes, the output goroutine, and the
    callers that add inputs, remove them and write 16-bit samples, no step
    panics; the counters of frames and the gauge of tracks are the frames that
    are in the output and the inputs there are.  And as long as no mix has more
    than 65535 inputs, the frames written, those in the output channel and the
    one held for it are, in this order, the frames of all mixes, each the clamped
    sum of its inputs; what the mixes took from an input, followed by what waits
    in it, are samples that were written to it, each at most once and in order;
    and the counter of dropped samples is the number of all others (modulo
    2^64). *)
Theorem mixer_conserves (rate size : Z) (dur : duration) (opts : list MixerOption) (acts : list action) :
  0 <= size -> 0 < dur -> Forall fresh_option opts -> Forall action_ok acts ->
  exists m0 r, newMixer (Q := Q) rate size dur opts = Ok m0 /\ runAll (mkRunning m0 0) acts = Ok r /\
    let m := mixer r in
    let ws := writesOf (mkRunning m0 0) acts in
    let ms := mixesOf (mkRunning m0 0) acts in
    u64 (stats m InputSamples) = u64 (stats m MixedSamples + stats m InputSamplesDropped + waiting (store m)) /\
    stats m OutputFrames = u64 (zlen (delivered m)) /\ stats m Mixes = u64 (zlen (delivered m)) /\
    stats m Tracks = i64 (zlen (inputs m)) /\
    (Forall (fun m => zlen (inputs m) <= 65535) ms ->
       delivered m = mix_frame <$> ms /\
       (forall id, concat (gives id <$> ms) ++ waitingIn id m `sublist_of` wrote id ws) /\
       u64 (stats m InputSamplesDropped) =
         u64 (zsum ((fun w => zlen w.2) <$> ws) - zsum (given <$> ms) - waiting (store m))).
Proof.
  intros Hs Hd Ho Ha. destruct (newMixer_blank rate size dur opts Hs Ho) as (m0 & Hm & Hb & Ht).
  assert (good m0) as Hg by (apply blank_good; [done|lia]).
  destruct (runAll_good acts (mkRunning m0 0) Hg Ha) as (r & Hr & _ & [B1 B2 B3 B4 _]).
  exists m0, r. do 6 (split; [done|]). intros Hn.
  destruct (runAll_logged acts (mkRunning m0 0) r Hg Ha Hn Hr) as [F I W M]. cbn [mixer] in *.
  pose proof (blank_delivered m0 Hb) as Hd0. destruct Hb as [L1 L2 L3 _ _ _ _ _]. rewrite L1, Z.add_0_l in *. split_and!.
  - by rewrite F, Hd0.
  - intros id. specialize (I id). unfold waitingIn at 2 in I. by rewrite L3 in I.
  - revert B1 W M. clear. word_lia.
Qed.

(** ** Timing *)

(** One late or early tick: with the mixer last accounted for at
    [lastMixEndTs], a tick asks for at most [inputBufferFrames] mixes; unless it
    hits that bound, the new [lastMixEndTs] is exactly that many periods later
    and less than a period (less the fuzz of a quarter period) away from now. *)
Theorem tick_accounts (now : time) (m : Mixer (Q := Q)) :
  0 < tickerDur m < 4611686018427387904 -> 0 < inputBufferFrames m ->
  IsZero (lastMixEndTs m) = false -> Z.abs (now - lastMixEndTs m) < 4611686018427387904 ->
  exists n m', mixCount now m = Ok (n, m') /\ 0 <= n <= inputBufferFrames m /\
    (lastMixEndTs m' = lastMixEndTs m + n * tickerDur m /\
     (lastMixEndTs m <= now ->
        - (tickerDur m / 4) <= now - lastMixEndTs m' < tickerDur m - tickerDur m / 4)
     \/ n = inputBufferFrames m /\ lastMixEndTs m' = now).
Proof.
  intros Ht Hf Hz Hn. unfold mixCount. rewrite Hz.
  assert (Hsub : Sub now (lastMixEndTs m) = now - lastMixEndTs m) by (unfold Sub, minDuration, maxDuration; lia).
  rewrite Hsub. destruct (now - lastMixEndTs m <? 0) eqn:Ed; bool_cases.
  { eexists _, _. split; [done|]. split; [lia|]. left. split; [simpl; lia|]. lia. }
  rewrite (Z.quot_div_nonneg _ 4) by lia.
  assert (Hi : i64 (now - lastMixEndTs m + tickerDur m / 4) = now - lastMixEndTs m + tickerDur m / 4).
  { unfold i64. lia. }
  rewrite Hi. unfold go_quot. destruct (tickerDur m =? 0) eqn:E0; bool_cases; [lia|]. cbn [obind].
  rewrite Z.quot_div_nonneg by lia. set (n := (now - _ + _) / _).
  assert (Hn0 : 0 <= n) by (apply Z.div_pos; lia).
  assert (Hnd : n * tickerDur m <= now - lastMixEndTs m + tickerDur m / 4 < n * tickerDur m + tickerDur m).
  { pose proof (Z.div_mod (now - lastMixEndTs m + tickerDur m / 4) (tickerDur m) E0).
    pose proof (Z.mod_pos_bound (now - lastMixEndTs m + tickerDur m / 4) (tickerDur m) ltac:(lia)).
    fold n in H1. lia. }
  assert (Hi2 : i64 (n * tickerDur m) = n * tickerDur m) by (unfold i64; lia).
  rewrite Hi2. unfold Add. clearbody n. unfold capMixes.
  assert (Hgen : forall m1 : Mixer (Q := Q), lastMixEndTs m1 = lastMixEndTs m + n * tickerDur m ->
     inputBufferFrames m1 = inputBufferFrames m ->
     exists n' m', (if inputBufferFrames m1 <? n
        then (inputBufferFrames m1, set_lastMixEndTs now (add TimingResets (u64 (inputBufferFrames m1)) m1))
        else (n, m1)) = (n', m') /\ 0 <= n' <= inputBufferFrames m /\
       (lastMixEndTs m' = lastMixEndTs m + n' * tickerDur m /\
         (lastMixEndTs m <= now ->
           - (tickerDur m / 4) <= now - lastMixEndTs m' < tickerDur m - tickerDur m / 4)
        \/ n' = inputBufferFrames m /\ lastMixEndTs m' = now)).
  { intros m1 Hl Hb. destruct (inputBufferFrames m1 <? n) eqn:Ec; bool_cases.
    - eexists _, _. split; [done|]. split; [lia|]. right. by split.
    - eexists _, _. split; [done|]. split; [lia|]. left. split; [done|]. intros _. rewrite Hl. lia. }
  set (m1 := if n =? 0 then _ else _).
  destruct (Hgen m1) as (n' & m' & -> & ?); [|by unfold m1; repeat case_if|by exists n', m'].
  unfold m1. by repeat case_if.
Qed.

End props.

(** ** Witnesses: mixers on the ring buffer *)

#[local] Instance samples_ops : FifoOps Z (Ring.Buffer Z) := ring_ops 0.
#[local] Instance samples_fifo : Fifo Z (Ring.Buffer Z) := ring_fifo 0.

(** Two inputs of which the second is loud, a channel of one frame that blocks
    the second mix, an input written too fast, and a removed input. *)
Definition mixer_example : list action :=
  [CallNewInput; CallNewInput;
   CallWriteSample 0 [100; 200; 300; 400; 500; 600]; CallWriteSample 1 [32767; -32768; 5; 6; 7; 8];
   Tick (10 * Second); Mix false; Tick (10 * Second + 40 * Millisecond); Mix false; Mix false;
   Drain false; Mix false; Drain true; CallRemoveInput 1;
   CallWriteSample 0 (replicate 12 9); CallStop; Drain false].

Definition mixer_options : list MixerOption := [WithOutputChannelSize 1; WithInputBufferFrames 4].

Lemma mixer_example_result :
  (let! m0 := newMixer (Q := Ring.Buffer Z) 100 2 (20 * Millisecond) mixer_options in
   let! r := runAll (mkRunning m0 0) mixer_example in
   Ok (written (mixer r), stats (mixer r) InputSamplesDropped))
  = Ok ([[32767; -32568]; [305; 406]; [507; 608]], 4).
Proof. vm_compute. reflexivity. Qed.

Lemma mixer_conserves_witness :
  exists m0 r, newMixer (Q := Ring.Buffer Z) 100 2 (20 * Millisecond) mixer_options = Ok m0 /\
    runAll (mkRunning m0 0) mixer_example = Ok r /\
    written (mixer r) = [[32767; -32568]; [305; 406]; [507; 608]] /\
    stats (mixer r) InputSamplesDropped = 4 /\
    delivered (mixer r) = mix_frame <$> mixesOf (mkRunning m0 0) mixer_example /\
    wrote 0 (writesOf (mkRunning m0 0) mixer_example) = [100; 200; 300; 400; 500; 600] ++ replicate 12 9.
Proof.
  destruct (mixer_conserves (Q := Ring.Buffer Z) 100 2 (20 * Millisecond) mixer_options mixer_example)
    as (m0 & r & Hm & Hr & _ & _ & _ & _ & Hf).
  - lia.
  - unfold Millisecond. lia.
  - by repeat constructor.
  - repeat first [apply Forall_cons; split|apply Forall_nil; exact I]; try exact I;
      unfold action_ok, is_int16; repeat constructor; try lia.
  - exists m0, r. split; [exact Hm|]. split; [exact Hr|].
    pose proof mixer_example_result as Hx. rewrite Hm in Hx. cbn [obind] in Hx.
    rewrite Hr in Hx. cbn [obind] in Hx. injection Hx as Hw Hs.
    split; [exact Hw|]. split; [exact Hs|].
    assert (newMixer (Q := Ring.Buffer Z) 100 2 (20 * Millisecond) mixer_options = Ok m0) as Hm' by exact Hm.
    vm_compute in Hm'. injection Hm' as <-.
    split; [apply Hf, (bool_decide_unpack _); vm_compute; exact I|vm_compute; reflexivity].
Defined.

(** Two inputs that have played before; one has a single sample left. *)
Definition loud_mixer : Mixer (Q := Ring.Buffer Z) :=
  mkMixer 100 None [0%nat; 1%nat] (20 * Millisecond) [0; 0] [0; 0] Second false 1 1 noStats
    [mkInput (Ring.mkBuffer [30000; 5] 0 0 true) false; mkInput (Ring.mkBuffer [20000; 0] 1 0 false) false]
    None [].

Lemma loud_mixer_wf : mixer_wf loud_mixer.
Proof.
  split; simpl; try done; try (repeat constructor; set_solver).
  repeat constructor; simpl; unfold Ring.wf, zlen, is_int16; simpl; lia.
Qed.

Lemma mix_is_clamped_sum_witness :
  exists m', mixOnce false loud_mixer = Ok m' /\ delivered m' = [[32767; 5]].
Proof.
  destruct (mix_is_clamped_sum false loud_mixer loud_mixer_wf eq_refl) as (m' & Hm & _ & Hd & _).
  - vm_compute. discriminate.
  - exists m'. split; [exact Hm|]. rewrite Hd. vm_compute. reflexivity.
Defined.

Lemma tick_accounts_witness :
  exists n m', mixCount (Second + 44 * Millisecond) loud_mixer = Ok (n, m') /\ 0 <= n <= 1.
Proof.
  destruct (tick_accounts (Second + 44 * Millisecond) loud_mixer) as (n & m' & Hm & Hn & _);
    [vm_compute; split; reflexivity|reflexivity|reflexivity|vm_compute; reflexivity|].
  exists n, m'. split; [exact Hm|exact Hn].
Defined.
