(* ===== verification/Dtmf.v ===== *)
(** * Dtmf: telephone events and tones of [src/dtmf/dtmf.go]

    Bytes are integers from 0 to 255; a digit string is a list of them.  The
    samples of [tones.Generate] are those of [Generate], and are not repeated here:
    an audio frame is recorded as silence or as the arguments of the generator
    at the time the frame is written. *)

From stdpp Require Import base tactics numbers strings list.
From S2P Require Import Prelude RtpTypes SeqWriter.

#[local] Open Scope go_scope.

(** ** Codes, digits and frequencies *)

Definition eventVolume : Z := 10.
Definition eventDur : duration := 250 * Millisecond.
Definition delayDur : duration := Second / 2.

Definition codeStar : Z := 10.
Definition codeHash : Z := 11.
Definition codeA : Z := 12.
Definition codeB : Z := 13.
Definition codeC : Z := 14.
Definition codeD : Z := 15.

Definition dtmfLow1 : Z := 697.
Definition dtmfLow2 : Z := 770.
Definition dtmfLow3 : Z := 852.
Definition dtmfLow4 : Z := 941.
Definition dtmfHigh1 : Z := 1209.
Definition dtmfHigh2 : Z := 1336.
Definition dtmfHigh3 : Z := 1477.
Definition dtmfHigh4 : Z := 1633.

(** In the order of the codes. *)
Definition eventFreq : list (list Z) :=
  [[dtmfLow4; dtmfHigh2];
   [dtmfLow1; dtmfHigh1]; [dtmfLow1; dtmfHigh2]; [dtmfLow1; dtmfHigh3];
   [dtmfLow2; dtmfHigh1]; [dtmfLow2; dtmfHigh2]; [dtmfLow2; dtmfHigh3];
   [dtmfLow3; dtmfHigh1]; [dtmfLow3; dtmfHigh2]; [dtmfLow3; dtmfHigh3];
   [dtmfLow4; dtmfHigh1]; [dtmfLow4; dtmfHigh3];
   [dtmfLow1; dtmfHigh4]; [dtmfLow2; dtmfHigh4]; [dtmfLow3; dtmfHigh4]; [dtmfLow4; dtmfHigh4]].

(** '0' to '9', '*', '#', 'a' to 'd' *)
Definition eventToChar : list Z :=
  [48; 49; 50; 51; 52; 53; 54; 55; 56; 57; 42; 35; 97; 98; 99; 100].

(** [charToEvent[c]], with the map's zero value and whether the key exists. *)
Definition charToEvent (c : Z) : Z * bool :=
  if (48 <=? c) && (c <=? 57) then (c - 48, true)
  else if c =? 42 then (codeStar, true)
  else if c =? 35 then (codeHash, true)
  else if c =? 97 then (codeA, true)
  else if c =? 98 then (codeB, true)
  else if c =? 99 then (codeC, true)
  else if c =? 100 then (codeD, true)
  else (0, false).

Definition Tone (digit : Z) : outcome (Z * list Z) :=
  let '(code, ok) := charToEvent digit in
  if negb ok || (zlen eventFreq <? code) then Ok (0, [])
  else let! f := go_index eventFreq code in Ok (code, f).

Definition CodeToChar (code : Z) : outcome Z :=
  if code <? zlen eventToChar then go_index eventToChar code else Ok 0.

(** ** Encoding *)

Record Event : Type := mkEvent {
  Code : Z;
  Digit : Z;
  Volume : Z;
  Dur : Z;
  End : bool;
}.

(** [binary.BigEndian.Uint16] and [PutUint16] *)
Definition Uint16 (hi lo : Z) : Z := Z.lor lo (Z.shiftl hi 8).
Definition PutUint16 (v : Z) : Z * Z := (u8 (Z.shiftr v 8), u8 v).

Definition Decode (data : list Z) : outcome (Event + error) :=
  match data with
  | ev :: b1 :: b2 :: b3 :: _ =>
      let! digit := (if ev <? zlen eventToChar then go_index eventToChar ev else Ok 0) in
      Ok (inl (mkEvent ev digit (Z.land b1 63) (Uint16 b2 b3) (negb (Z.shiftr b1 7 =? 0))))
  | _ => Ok (inr ErrUnexpectedEOF)
  end.

Definition DecodeRTP (h : Header) (payload : list Z) : outcome (option Event) :=
  if negb (Marker h) then Ok None
  else
    let! r := Decode payload in
    Ok (match r with inl ev => Some ev | inr _ => None end).

Definition DecodeRTPWithEnd (h : Header) (payload : list Z) : outcome (option Event) :=
  let! r := Decode payload in
  Ok (match r with
      | inl ev => if negb (End ev) && negb (Marker h) then None else Some ev
      | inr _ => None
      end).

(** The new contents of [out], and the count or the error. *)
Definition Encode (out : list Z) (ev : Event) : list Z * (Z + error) :=
  match out with
  | _ :: _ :: _ :: _ :: rest =>
      let code := if negb (Digit ev =? 0) then fst (charToEvent (Digit ev)) else Code ev in
      let b1 := Z.land (Volume ev) 63 in
      let b1 := if End ev then Z.lor b1 (Z.shiftl 1 7) else b1 in
      let '(hi, lo) := PutUint16 (Dur ev) in
      (code :: b1 :: hi :: lo :: rest, inl 4)
  | _ => (out, inr ErrShortBuffer)
  end.

(** ** Writing digits *)

(** Rounds up to a multiple of [step]. *)
Definition roundTo (dt step : duration) : duration := Z.quot (dt + step - 1) step * step.

Definition step : duration := DefFrameDur.

(** A frame given to the audio writer. *)
Inductive audioFrame : Type :=
| Silence
| Generated (ts : duration) (freq : list Z).

(** The variables of [Write], with what it has written; [events] is the stream
    and its [SeqWriter], if any. *)
Record writing : Type := mkWriting {
  digits : list Z;
  wts : duration;
  code : Z;
  freq : list Z;
  nextDelay : duration;
  totalDur : duration;
  remaining : duration;
  events : option (SeqWriter * Stream);
  audioOut : list audioFrame;
  sentEvents : list Packet;
}.

(** What the environment does during one iteration: whether the context is
    done, the outcome of the audio write, the clock, and the outcomes of up to
    three packet writes. *)
Record tickEnv : Type := mkTick {
  cancelled : option error;
  audioErr : option error;
  clock : time;
  packetErr : option error * option error * option error;
}.

Definition setDelay (dt : duration) (w : writing) : writing :=
  let dt := roundTo dt step in
  mkWriting (digits w) (wts w) 255 [] 0 dt dt (events w) (audioOut w) (sentEvents w).

(** The choice of what to play; [None] when [Write] returns. *)
Definition pick (w : writing) : outcome (option writing) :=
  if remaining w <=? 0 then
    if negb (nextDelay w =? 0) then Ok (Some (setDelay (nextDelay w) w))
    else
      match digits w with
      | [] => Ok None
      | b :: ds =>
          let w := mkWriting ds (wts w) (code w) (freq w) (nextDelay w) (totalDur w) (remaining w)
                     (events w) (audioOut w) (sentEvents w) in
          if b =? 119 then Ok (Some (setDelay delayDur w))
          else
            let! (c, f) := Tone b in
            let r := roundTo eventDur step in
            Ok (Some (mkWriting ds (wts w) c f eventDur r r (events w) (audioOut w) (sentEvents w)))
      end
  else Ok (Some w).

(** The audio frame of an iteration. *)
Definition playAudio (hasAudio : bool) (e : tickEnv) (w : writing) : writing * option error :=
  if negb hasAudio then (w, None)
  else
    let frame := if zlen (freq w) =? 0 then Silence else Generated (wts w) (freq w) in
    (mkWriting (digits w) (wts w) (code w) (freq w) (nextDelay w) (totalDur w) (remaining w)
       (events w) (audioOut w ++ [frame]) (sentEvents w), audioErr e).

Definition set_events (s : SeqWriter) (st : Stream) (sent : list Packet) (w : writing) : writing :=
  mkWriting (digits w) (wts w) (code w) (freq w) (nextDelay w) (totalDur w) (remaining w)
    (Some (s, st)) (audioOut w) (sentEvents w ++ sent).

(** One [events.WritePayloadAtCurrent]. *)
Definition sendAtCurrent (payload : list Z) (first : bool) (now : time) (werr : option error)
    (w : writing) : writing * option error :=
  match events w with
  | None => (w, None)
  | Some (s, st) =>
      let '(pkt, s, err) := WritePayloadAtCurrent st payload first now werr s in
      (set_events s st (match pkt, err with Some p, None => [p] | _, _ => [] end) w, err)
  end.

(** The telephone events of an iteration. *)
Definition playEvents (eventsRate : Z) (e : tickEnv) (w : writing) : outcome (writing * option error) :=
  match events w with
  | None => Ok (w, None)
  | Some (s, st) =>
      if zlen (freq w) =? 0 then Ok (w, None)
      else
        let dur := step + totalDur w - remaining w in
        let first := totalDur w =? remaining w in
        let end_ := remaining w - step <=? 0 in
        let! unit := go_quot Second eventsRate in
        let! d := go_quot dur unit in
        match Encode [0; 0; 0; 0] (mkEvent (code w) 0 eventVolume (u16 d) end_) with
        | (_, inr err) => Ok (w, Some err)
        | (buf, inl n) =>
            let! payload := go_slice buf 0 n in
            let st' := if first then fst (SyncTimestamp st (clock e) s) else st in
            let w := set_events s st' [] w in
            let '(err1, err2, err3) := packetErr e in
            let '(w, err) := sendAtCurrent payload first (clock e) err1 w in
            match err with
            | Some err => Ok (w, Some err)
            | None =>
                if negb end_ then Ok (w, None)
                else
                  let '(w, err) := sendAtCurrent payload first (clock e) err2 w in
                  match err with
                  | Some err => Ok (w, Some err)
                  | None => Ok (sendAtCurrent payload first (clock e) err3 w)
                  end
            end
        end
  end.

Definition advance (w : writing) : writing :=
  mkWriting (digits w) (wts w + step) (code w) (freq w) (nextDelay w) (totalDur w)
    (remaining w - step) (events w) (audioOut w) (sentEvents w).

(** One iteration: the state and, when [Write] returns, its result. *)
Definition iterate (hasAudio : bool) (eventsRate : Z) (e : tickEnv) (w : writing)
    : outcome (writing * option (option error)) :=
  match cancelled e with
  | Some err => Ok (w, Some (Some err))
  | None =>
      let! next := pick w in
      match next with
      | None => Ok (w, Some None)
      | Some w =>
          let '(w, err) := playAudio hasAudio e w in
          match err with
          | Some err => Ok (w, Some (Some err))
          | None =>
              let! (w, err) := playEvents eventsRate e w in
              match err with
              | Some err => Ok (w, Some (Some err))
              | None => Ok (advance w, None)
              end
          end
      end
  end.

Fixpoint iterateAll (hasAudio : bool) (eventsRate : Z) (es : list tickEnv) (w : writing)
    : outcome (writing * option (option error)) :=
  match es with
  | [] => Ok (w, None)
  | e :: es =>
      let! (w, r) := iterate hasAudio eventsRate e w in
      match r with
      | Some r => Ok (w, Some r)
      | None => iterateAll hasAudio eventsRate es w
      end
  end.

(** [Write], for the given iterations; its result is [None] while it runs. *)
Definition Write (hasAudio : bool) (evs : option (SeqWriter * Stream)) (eventsRate : Z)
    (ds : list Z) (es : list tickEnv) : outcome (writing * option (option error)) :=
  iterateAll hasAudio eventsRate es (mkWriting ds 0 255 [] 0 0 0 evs [] []).
