(* ===== verification/DtmfProps.v ===== *)
(** * DtmfProps: round trip of telephone events, and what [Write] sends

    [Write] is refined by a schedule: the list of 20 ms slots that a digit
    string asks for. *)

From stdpp Require Import base tactics sets numbers strings list.
From S2P Require Import Prelude RtpTypes SeqWriter SeqProps Dtmf.

#[local] Open Scope go_scope.

(** ** Codes *)

(** A character with a code is the one the code stands for. *)
Lemma charToEvent_char b c ok :
  charToEvent b = (c, ok) ->
  (ok = true /\ 0 <= c < 16 /\ eventToChar !! Z.to_nat c = Some b) \/ (ok = false /\ c = 0).
Proof.
  unfold charToEvent, codeStar, codeHash, codeA, codeB, codeC, codeD.
  destruct ((48 <=? b) && (b <=? 57)) eqn:E1.
  { apply andb_true_iff in E1 as [? ?]. bool_cases. intros [= <- <-]. left.
    split; [done|]. split; [lia|].
    assert (Hx : b = 48 \/ b = 49 \/ b = 50 \/ b = 51 \/ b = 52 \/ b = 53 \/ b = 54 \/ b = 55 \/
      b = 56 \/ b = 57) by lia.
    repeat destruct Hx as [->|Hx]; try done. by subst. }
  clear E1. repeat case_if; intros [= <- <-]; try (left; subst; split; [done|]; split; [lia|done]).
  by right.
Qed.

Lemma Tone_cases b :
  (exists c f, 0 <= c < 16 /\ eventToChar !! Z.to_nat c = Some b /\
     eventFreq !! Z.to_nat c = Some f /\ Tone b = Ok (c, f)) \/
  Tone b = Ok (0, []).
Proof.
  unfold Tone. destruct (charToEvent b) as [c ok] eqn:E.
  destruct (charToEvent_char b c ok E) as [(-> & Hc & Hb)|[-> ->]]; [left|by right].
  destruct (lookup_lt_is_Some_2 eventFreq (Z.to_nat c)) as [f Hf]; [simpl; lia|].
  exists c, f. split_and!; try (done || lia). simpl.
  replace (zlen eventFreq) with 16 by done. destruct (16 <? c) eqn:E2; bool_cases; [lia|].
  rewrite (go_index_Ok eventFreq c f) by (done || lia). done.
Qed.

Lemma eventFreq_pairs : Forall (fun f => exists lo hi, f = [lo; hi] /\ lo < 1000 < hi) eventFreq.
Proof. repeat constructor; eexists _, _; (split; [reflexivity|]); split; reflexivity. Qed.

Lemma eventFreq_NoDup : NoDup eventFreq.
Proof. by apply (bool_decide_unpack _); vm_compute. Qed.

(** The keypad: every character with a tone gets a code that [CodeToChar]
    maps back to it, and a low and a high frequency that no other character
    has; no other character has a tone, and neither table is indexed out of
    range, whatever the byte. *)
Theorem keypad (b : Z) :
  (exists c lo hi, Tone b = Ok (c, [lo; hi]) /\ CodeToChar c = Ok b /\ lo < 1000 < hi /\
     forall b' c', Tone b' = Ok (c', [lo; hi]) -> b' = b) \/
  Tone b = Ok (0, []).
Proof.
  destruct (Tone_cases b) as [(c & f & Hc & Hb & Hf & ->)| ->]; [left|by right].
  destruct (Forall_lookup_1 _ _ _ _ eventFreq_pairs Hf) as (lo & hi & -> & Hlh).
  exists c, lo, hi. split_and!; try (done || lia).
  - unfold CodeToChar. replace (zlen eventToChar) with 16 by done. case_if; [|lia].
    apply go_index_Ok; [lia|done].
  - intros b' c' Ht. destruct (Tone_cases b') as [(c2 & f2 & Hc2 & Hb2 & Hf2 & Ht2)|Ht2];
      rewrite Ht2 in Ht; [|done]. injection Ht as <- ->.
    assert (Z.to_nat c2 = Z.to_nat c) as Heq by (by eapply NoDup_lookup; [apply eventFreq_NoDup|..]).
    rewrite Heq, Hb in Hb2. by injection Hb2.
Qed.

(** ** Round trip *)

Lemma byte_lor lo hi : 0 <= lo < 256 -> Z.lor lo (Z.shiftl hi 8) = hi * 256 + lo.
Proof.
  intros Hlo. assert (Hl : Z.land lo (Z.shiftl hi 8) = 0).
  { apply Z.bits_inj'. intros n Hn. rewrite Z.land_spec, Z.bits_0.
    destruct (decide (n < 8)).
    - rewrite Z.shiftl_spec_low by lia. apply andb_false_r.
    - replace lo with (lo mod 2 ^ 8) by (apply Z.mod_small; lia).
      rewrite Z.mod_pow2_bits_high by lia. done. }
  rewrite <- Z.lxor_lor by done. rewrite <- Z.add_nocarry_lxor by done.
  rewrite Z.shiftl_mul_pow2 by lia. lia.
Qed.

Lemma Uint16_PutUint16 v : 0 <= v < 65536 -> Uint16 (fst (PutUint16 v)) (snd (PutUint16 v)) = v.
Proof.
  intros Hv. unfold Uint16, PutUint16. simpl. rewrite byte_lor by apply u8_range.
  rewrite Z.shiftr_div_pow2 by lia. change (2 ^ 8) with 256. word_lia.
Qed.

(** The second byte: six bits of volume and the end bit. *)
Lemma volume_byte v (e : bool) :
  let b := if e then Z.lor (Z.land v 63) (Z.shiftl 1 7) else Z.land v 63 in
  Z.land b 63 = v mod 64 /\ negb (Z.shiftr b 7 =? 0) = e.
Proof.
  cbv zeta. assert (Hv : Z.land v 63 = v mod 64) by (change 63 with (Z.ones 6); by rewrite Z.land_ones by lia).
  rewrite Hv. pose proof (Z.mod_pos_bound v 64 eq_refl) as Hb. set (x := v mod 64) in *. clearbody x.
  assert (Hx : x mod 64 = x) by (apply Z.mod_small; lia).
  assert (H63 : forall z, Z.land z 63 = z mod 64).
  { intros. change 63 with (Z.ones 6). by rewrite Z.land_ones by lia. }
  destruct e; rewrite H63, Z.shiftr_div_pow2 by lia; change (2 ^ 7) with 128.
  - assert (Hl : Z.lor x (Z.shiftl 1 7) = 128 + x).
    { change (Z.shiftl 1 7) with 128.
      assert (Hl0 : Z.land x 128 = 0).
      { apply Z.bits_inj'. intros n Hn. rewrite Z.land_spec, Z.bits_0. change 128 with (2 ^ 7).
        rewrite Z.pow2_bits_eqb by lia. destruct (7 =? n) eqn:E; bool_cases; [|apply andb_false_r].
        subst n. replace x with (x mod 2 ^ 6) by (apply Z.mod_small; lia).
        by rewrite Z.mod_pow2_bits_high by lia. }
      rewrite <- Z.lxor_lor, <- Z.add_nocarry_lxor by done. lia. }
    rewrite Hl. split; [lia|]. apply negb_true_iff, Z.eqb_neq. lia.
  - split; [done|]. apply negb_false_iff, Z.eqb_eq. lia.
Qed.

(** The event that [Decode] reads back. *)
Definition normalized (ev : Event) : Event :=
  let c := if Digit ev =? 0 then Code ev else fst (charToEvent (Digit ev)) in
  mkEvent c (if c <? 16 then default 0 (eventToChar !! Z.to_nat c) else 0)
    (Volume ev mod 64) (Dur ev) (End ev).

(** round trip: [Encode] fills the first four bytes of any buffer that has
    them and leaves the others alone, and [Decode] of the result gives back the
    code, duration, end bit and six bits of volume, with the digit of the code;
    shorter buffers are refused by both. *)
Theorem event_roundtrip (out : list Z) (ev : Event) :
  0 <= Code ev < 256 -> 0 <= Dur ev < 65536 ->
  (4 <= zlen out -> exists out', Encode out ev = (out', inl 4) /\
     zlen out' = zlen out /\ drop 4 out' = drop 4 out /\ Decode out' = Ok (inl (normalized ev))) /\
  (zlen out < 4 -> Encode out ev = (out, inr ErrShortBuffer) /\ Decode out = Ok (inr ErrUnexpectedEOF)).
Proof.
  intros Hcode Hd. split.
  - intros Hl. destruct out as [|o0 [|o1 [|o2 [|o3 rest]]]];
      try (exfalso; unfold zlen in Hl; simpl in Hl; lia).
    unfold Encode. destruct (PutUint16 (Dur ev)) as [hi lo] eqn:Ep.
    eexists. split; [reflexivity|]. split; [done|]. split; [done|]. unfold Decode, normalized.
    destruct (volume_byte (Volume ev) (End ev)) as [Hv He].
    set (c := if negb (Digit ev =? 0) then _ else _).
    replace (if Digit ev =? 0 then Code ev else fst (charToEvent (Digit ev))) with c
      by (unfold c; by destruct (Digit ev =? 0)).
    assert (Hc : 0 <= c).
    { unfold c. destruct (negb (Digit ev =? 0)); [|lia].
      destruct (charToEvent (Digit ev)) as [x ok] eqn:E. simpl.
      destruct (charToEvent_char _ _ _ E) as [(_ & ? & _)|[_ ->]]; lia. }
    rewrite Hv, He. pose proof (Uint16_PutUint16 (Dur ev) Hd) as Hu. rewrite Ep in Hu. simpl in Hu.
    rewrite Hu. replace (zlen eventToChar) with 16 by done.
    destruct (c <? 16) eqn:E16; bool_cases; [|done].
    destruct (lookup_lt_is_Some_2 eventToChar (Z.to_nat c)) as [x Hx]; [simpl; lia|].
    rewrite (go_index_Ok _ _ x) by done. by rewrite Hx.
  - intros Hl. destruct out as [|o0 [|o1 [|o2 [|o3 rest]]]]; try done.
    exfalso. unfold zlen in Hl. simpl in Hl. lia.
Qed.

(** ** The schedule of a digit string *)

(** One 20 ms slot: silence, or the [k]-th of [n] frames of a tone. *)
Inductive slot : Type :=
| Quiet
| Sound (c : Z) (f : list Z) (k n : nat).

(** The last [n] of [m] slots of a tone or delay. *)
Fixpoint slots (c : Z) (f : list Z) (n m : nat) : list slot :=
  match n with
  | O => []
  | S n => (if zlen f =? 0 then Quiet else Sound c f (m - n) m) :: slots c f n m
  end.

(** 'w' is half a second of silence; any other character is 260 ms of its tone
    (silence if it has none) and as much silence. *)
Definition slotsOf (b : Z) : list slot :=
  if b =? 119 then slots 255 [] 25 25
  else
    match Tone b with
    | Ok (c, f) => slots c f 13 13 ++ slots 255 [] 13 13
    | Panic => []
    end.

Definition schedule (ds : list Z) : list slot := concat (slotsOf <$> ds).

(** What a slot puts in the audio stream when it starts at [t]. *)
Definition slotAudio (t : duration) (s : slot) : audioFrame :=
  match s with Quiet => Silence | Sound _ f _ _ => Generated t f end.

(** The payloads and marker bits a slot puts in the event stream: one packet
    with the duration so far, three at the end of the tone. *)
Definition slotPackets (rate : Z) (s : slot) : list (list Z * bool) :=
  match s with
  | Quiet => []
  | Sound c _ k n =>
      let d := u16 (Z.of_nat k * step / (Second / rate)) in
      let payload := fst (Encode [0; 0; 0; 0] (mkEvent c 0 eventVolume d (k =? n)%nat)) in
      replicate (if (k =? n)%nat then 3 else 1) (payload, (k =? 1)%nat)
  end.

(** The slots a [Write] in progress still has to play. *)
Definition upcoming (w : writing) (s : list slot) : Prop :=
  exists n m, (n <= m)%nat /\ remaining w = Z.of_nat n * step /\ totalDur w = Z.of_nat m * step /\
    (nextDelay w = 0 \/ nextDelay w = eventDur) /\
    s = slots (code w) (freq w) n m ++ (if nextDelay w =? 0 then [] else slots 255 [] 13 13)
        ++ schedule (digits w).

(** The same, when a frame is about to be played. *)
Definition playing (w : writing) (s : list slot) : Prop :=
  exists n m, (n < m)%nat /\ remaining w = Z.of_nat (S n) * step /\ totalDur w = Z.of_nat m * step /\
    (nextDelay w = 0 \/ nextDelay w = eventDur) /\
    s = (if zlen (freq w) =? 0 then Quiet else Sound (code w) (freq w) (m - n) m)
        :: slots (code w) (freq w) n m ++ (if nextDelay w =? 0 then [] else slots 255 [] 13 13)
        ++ schedule (digits w).

Definition same_output (w w' : writing) : Prop :=
  wts w' = wts w /\ events w' = events w /\ audioOut w' = audioOut w /\ sentEvents w' = sentEvents w.

Lemma roundTo_event : roundTo eventDur step = 13 * step.
Proof. reflexivity. Qed.

Lemma roundTo_delay : roundTo delayDur step = 25 * step.
Proof. reflexivity. Qed.

Lemma pick_spec w s :
  upcoming w s ->
  match s with
  | [] => pick w = Ok None
  | _ => exists w', pick w = Ok (Some w') /\ playing w' s /\ same_output w w'
  end.
Proof.
  intros (n & m & Hnm & Hr & Ht & Hnd & ->). unfold pick. rewrite Hr.
  destruct n as [|n].
  2: { replace (Z.of_nat (S n) * step <=? 0) with false
         by (symmetry; apply Z.leb_gt; unfold step, DefFrameDur, Millisecond; lia).
       simpl. exists w. split; [done|]. split; [|done]. exists n, m. split_and!; (done || lia). }
  change (Z.of_nat 0 * step <=? 0) with true. cbn [slots app].
  destruct Hnd as [Hnd|Hnd]; rewrite Hnd.
  2: { simpl. eexists. split; [done|]. split; [|done]. exists 12%nat, 13%nat.
       split_and!; first [done|lia|by left]. }
  change (negb (0 =? 0)) with false. change (0 =? 0) with true. cbn [app].
  destruct (digits w) as [|b ds] eqn:Hd; [done|].
  change (schedule (b :: ds)) with (slotsOf b ++ schedule ds). unfold slotsOf.
  destruct (b =? 119).
  { eexists. split; [done|]. split; [|done]. exists 24%nat, 25%nat.
    split_and!; first [done|lia|by left]. }
  assert (exists c f, Tone b = Ok (c, f)) as (c & f & ->).
  { destruct (Tone_cases b) as [(c & f & _ & _ & _ & ->)| ->]; by eexists _, _. }
  cbn [obind]. rewrite <- app_assoc. cbn [slots app].
  eexists. split; [done|]. split; [|done]. exists 12%nat, 13%nat.
  split_and!; first [done|lia|by right].
Qed.

(** ** One iteration plays one slot *)

(** Nothing goes wrong. *)
Definition smooth (e : tickEnv) : Prop :=
  cancelled e = None /\ audioErr e = None /\ packetErr e = (None, None, None).

(** The event stream is a manual one, at a rate that divides the second. *)
Definition can_send (rate : Z) (w : writing) : Prop :=
  match events w with
  | None => True
  | Some (_, st) => manual st = true /\ 0 < rate <= 1000000000
  end.

Definition payloadView (p : Packet) : list Z * bool := (Payload p, Marker (header p)).

Definition sending (w : writing) : bool := match events w with Some _ => true | None => false end.

Lemma sendAtCurrent_spec payload first now w s st :
  events w = Some (s, st) -> manual st = true ->
  exists s' p, sendAtCurrent payload first now None w = (set_events s' st [p] w, None) /\
    payloadView p = (payload, first) /\ Timestamp (header p) = ts st.
Proof.
  intros He Hm. unfold sendAtCurrent, WritePayloadAtCurrent. rewrite He, Hm. simpl.
  destruct (WriteEvent_spec (SeqWriter.mkEvent (typ st) (ts st) payload first) now None s)
    as (s' & -> & _).
  eexists s', _. split; [reflexivity|]. done.
Qed.

Lemma Encode_payload c d (e : bool) :
  exists payload, Encode [0; 0; 0; 0] (mkEvent c 0 eventVolume d e) = (payload, inl 4) /\
    go_slice payload 0 4 = Ok payload.
Proof. eexists. split; reflexivity. Qed.

(** The packets of one frame of a tone. *)
Lemma playEvents_sound rate e w k m :
  smooth e -> can_send rate w -> sending w = true -> zlen (freq w) <> 0 ->
  (1 <= k <= m)%nat -> totalDur w = Z.of_nat m * step ->
  remaining w = Z.of_nat (S (m - k)) * step ->
  exists s st ps, playEvents rate e w = Ok (set_events s st ps w, None) /\ manual st = true /\
    payloadView <$> ps = slotPackets rate (Sound (code w) (freq w) k m).
Proof.
  intros (_ & _ & Hpe) Hcs Hse Hf Hk Ht Hr. unfold playEvents, can_send, sending in *.
  destruct (events w) as [[s st]|] eqn:He; [|done]. destruct Hcs as [Hm Hrate].
  destruct (zlen (freq w) =? 0) eqn:Ef; bool_cases; [done|]. rewrite Hpe, Ht, Hr.
  assert (Hdur : step + Z.of_nat m * step - Z.of_nat (S (m - k)) * step = Z.of_nat k * step) by (unfold step, DefFrameDur, Millisecond; lia).
  assert (Hfirst : (Z.of_nat m * step =? Z.of_nat (S (m - k)) * step) = (k =? 1)%nat).
  { unfold step, DefFrameDur, Millisecond. destruct (k =? 1)%nat eqn:E.
    - apply Nat.eqb_eq in E. apply Z.eqb_eq. lia.
    - apply Nat.eqb_neq in E. apply Z.eqb_neq. lia. }
  assert (Hend : (Z.of_nat (S (m - k)) * step - step <=? 0) = (k =? m)%nat).
  { unfold step, DefFrameDur, Millisecond. destruct (k =? m)%nat eqn:E.
    - apply Nat.eqb_eq in E. apply Z.leb_le. lia.
    - apply Nat.eqb_neq in E. apply Z.leb_gt. lia. }
  rewrite Hdur, Hfirst, Hend. unfold go_quot at 1.
  destruct (rate =? 0) eqn:E0; bool_cases; [lia|]. cbn [obind].
  rewrite Z.quot_div_nonneg by (unfold Second; lia).
  assert (Hu : 0 < Second / rate) by (apply Z.div_str_pos; unfold Second; lia).
  unfold go_quot. destruct (Second / rate =? 0) eqn:E1; bool_cases; [lia|]. cbn [obind].
  rewrite Z.quot_div_nonneg by (unfold step, DefFrameDur, Millisecond; lia).
  unfold slotPackets. set (d := u16 _).
  destruct (Encode_payload (code w) d (k =? m)%nat) as (payload & -> & Hsl).
  rewrite Hsl. cbn [obind fst]. set (st' := if (k =? 1)%nat then _ else _).
  assert (Hm' : manual st' = true).
  { unfold st', SyncTimestamp. rewrite Hm. by destruct (k =? 1)%nat. }
  destruct (sendAtCurrent_spec payload (k =? 1)%nat (clock e) (set_events s st' [] w) s st' eq_refl Hm')
    as (s1 & p1 & -> & Hp1 & _).
  destruct (k =? m)%nat; cbn [negb].
  - destruct (sendAtCurrent_spec payload (k =? 1)%nat (clock e)
      (set_events s1 st' [p1] (set_events s st' [] w)) s1 st' eq_refl Hm') as (s2 & p2 & -> & Hp2 & _).
    destruct (sendAtCurrent_spec payload (k =? 1)%nat (clock e)
      (set_events s2 st' [p2] (set_events s1 st' [p1] (set_events s st' [] w))) s2 st' eq_refl Hm')
      as (s3 & p3 & -> & Hp3 & _).
    exists s3, st', [p1; p2; p3]. split; [|split; [done|]].
    + unfold set_events. simpl. by rewrite app_nil_r, <- !app_assoc.
    + simpl. by rewrite Hp1, Hp2, Hp3.
  - exists s1, st', [p1]. split; [|split; [done|]].
    + unfold set_events. simpl. by rewrite app_nil_r.
    + simpl. by rewrite Hp1.
Qed.

(** The writing with other outputs. *)
Definition withOutput (w : writing) ev audio se : writing :=
  mkWriting (digits w) (wts w) (code w) (freq w) (nextDelay w) (totalDur w) (remaining w) ev audio se.

(** In every slot the event stream gets the packets of the slot. *)
Lemma playEvents_slot rate e w n m x :
  smooth e -> can_send rate w -> (n < m)%nat -> remaining w = Z.of_nat (S n) * step -> totalDur w = Z.of_nat m * step ->
  x = (if zlen (freq w) =? 0 then Quiet else Sound (code w) (freq w) (m - n) m) ->
  exists ev se, playEvents rate e w = Ok (withOutput w ev (audioOut w) se, None) /\
    can_send rate (withOutput w ev (audioOut w) se) /\ sending (withOutput w ev (audioOut w) se) = sending w /\
    payloadView <$> se = (payloadView <$> sentEvents w) ++ (if sending w then slotPackets rate x else []).
Proof.
  intros Hsm Hcs Hnm Hr Ht ->.
  destruct (sending w && negb (zlen (freq w) =? 0)) eqn:Hplay.
  - apply andb_true_iff in Hplay as [Hse Hf]. apply negb_true_iff in Hf. rewrite Hse, Hf.
    destruct (playEvents_sound rate e w (m - n) m Hsm Hcs Hse) as (s' & st & ps & -> & Hm & Hps); [by apply Z.eqb_neq|lia|done| |].
    { rewrite Hr. do 2 f_equal. lia. }
    exists (Some (s', st)), (sentEvents w ++ ps). split; [done|]. rewrite fmap_app, Hps. split_and!; try done.
    unfold can_send, sending in *. simpl. destruct (events w) as [[? ?]|]; [|done]. by destruct Hcs.
  - exists (events w), (sentEvents w). destruct w as [ds t c f nd td r ev au se]. split_and!; try done.
    + unfold playEvents, sending in *. cbn in *. destruct ev as [[s st]|]; [|done]. by destruct (zlen f =? 0).
    + unfold sending in *. cbn in *. destruct ev as [[s st]|]; [|by rewrite app_nil_r].
      destruct (zlen f =? 0); [by rewrite app_nil_r|done].
Qed.

Lemma iterate_slot hasAudio rate e w x s :
  smooth e -> can_send rate w -> upcoming w (x :: s) ->
  exists w', iterate hasAudio rate e w = Ok (w', None) /\ upcoming w' s /\ can_send rate w' /\
    sending w' = sending w /\ wts w' = wts w + step /\
    audioOut w' = audioOut w ++ (if hasAudio then [slotAudio (wts w) x] else []) /\
    payloadView <$> sentEvents w' =
      (payloadView <$> sentEvents w) ++ (if sending w then slotPackets rate x else []).
Proof.
  intros Hsm Hcs Hup. pose proof Hsm as (Hc & Ha & _).
  destruct (pick_spec w _ Hup) as (w1 & Hp & (n & m & Hnm & Hr & Ht & Hnd & Hs) & (O1 & O2 & O3 & O4)).
  injection Hs as Hx Hs. unfold iterate. rewrite Hc, Hp. cbn [obind].
  assert (Hpa : playAudio hasAudio e w1 =
      (withOutput w1 (events w1) (audioOut w1 ++ (if hasAudio then [slotAudio (wts w) x] else [])) (sentEvents w1), None)).
  { unfold playAudio. destruct hasAudio; simpl; [|rewrite app_nil_r; by destruct w1].
    rewrite Ha, <- O1, Hx. by destruct (zlen (freq w1) =? 0). }
  rewrite Hpa. set (w2 := withOutput _ _ _ _).
  assert (Hcs2 : can_send rate w2) by (unfold can_send in *; simpl; by rewrite O2).
  assert (Hse2 : sending w2 = sending w) by (unfold sending; simpl; by rewrite O2).
  destruct (playEvents_slot rate e w2 n m x Hsm Hcs2 Hnm Hr Ht Hx) as (ev & se & -> & Hcs3 & Hse & Hpay). cbn [obind].
  eexists. split; [reflexivity|]. split.
  { exists n, m. simpl. split_and!; first [done|lia]. }
  rewrite Hse2 in *. split_and!; try done; simpl.
  - by rewrite O1.
  - by rewrite O3.
  - simpl in Hpay. by rewrite Hpay, O4.
Qed.

(** ** The whole string *)

(** The audio of a schedule from the time [t]. *)
Fixpoint scheduleAudio (t : duration) (ss : list slot) : list audioFrame :=
  match ss with
  | [] => []
  | s :: ss => slotAudio t s :: scheduleAudio (t + step) ss
  end.

Lemma iterateAll_schedule hasAudio rate ss : forall es w,
  Forall smooth es -> can_send rate w -> upcoming w ss -> length es = S (length ss) ->
  exists w', iterateAll hasAudio rate es w = Ok (w', Some None) /\
    audioOut w' = audioOut w ++ (if hasAudio then scheduleAudio (wts w) ss else []) /\
    payloadView <$> sentEvents w' =
      (payloadView <$> sentEvents w) ++
      (if sending w then concat (slotPackets rate <$> ss) else []).
Proof.
  induction ss as [|x ss IH]; intros es w Hes Hcs Hup Hl.
  - destruct es as [|e [|? ?]]; try done. inversion_clear Hes as [|? ? Hsm _].
    destruct Hsm as (Hc & _). cbn [iterateAll]. unfold iterate.
    rewrite Hc, (pick_spec w [] Hup). simpl. exists w. split; [done|].
    split; [by destruct hasAudio; rewrite app_nil_r|by destruct (sending w); rewrite app_nil_r].
  - destruct es as [|e es]; [done|]. inversion_clear Hes as [|? ? Hsm Hes']. cbn [iterateAll].
    destruct (iterate_slot hasAudio rate e w x ss Hsm Hcs Hup)
      as (w1 & -> & Hup1 & Hcs1 & Hse1 & Ht1 & Ha1 & Hp1).
    cbn [obind]. destruct (IH es w1 Hes' Hcs1 Hup1) as (w' & -> & Ha' & Hp'); [by injection Hl|].
    exists w'. split; [done|]. rewrite Ha', Hp', Ha1, Hp1, Ht1, Hse1, <- !app_assoc.
    split; f_equal; [by destruct hasAudio|by destruct (sending w)].
Qed.

Lemma length_slots c f n m : length (slots c f n m) = n.
Proof. induction n; simpl; congruence. Qed.

(** The number of slots of a string: 25 per 'w', 26 per other character. *)
Definition slotCount (b : Z) : nat := if b =? 119 then 25 else 26.

Lemma length_schedule ds :
  length (schedule ds) = sum_list (slotCount <$> ds).
Proof.
  induction ds as [|b ds IH]; [done|].
  change (schedule (b :: ds)) with (slotsOf b ++ schedule ds). rewrite length_app, IH. simpl. f_equal.
  unfold slotsOf, slotCount. destruct (b =? 119); [done|].
  destruct (Tone_cases b) as [(c & f & _ & _ & _ & ->)| ->]; by rewrite length_app, !length_slots.
Qed.

(** C29: what [Write] sends: if nothing fails, [Write] returns without an error
    after one tick per slot of the schedule (26 per digit, 25 per 'w') and one
    more, never panics, and has written exactly the schedule: the audio frames of
    the tones and silences in order, and for each digit 13 packets whose
    durations grow by a frame, the first marked, and the last with the end bit
    and sent three times. *)
Theorem Write_schedule (hasAudio : bool) (evs : option (SeqWriter * Stream)) (rate : Z)
    (ds : list Z) (es : list tickEnv) :
  match evs with Some (_, st) => manual st = true /\ 0 < rate <= 1000000000 | None => True end ->
  Forall smooth es ->
  length es = S (sum_list (slotCount <$> ds)) ->
  exists w, Write hasAudio evs rate ds es = Ok (w, Some None) /\
    audioOut w = (if hasAudio then scheduleAudio 0 (schedule ds) else []) /\
    payloadView <$> sentEvents w =
      (match evs with Some _ => concat (slotPackets rate <$> schedule ds) | None => [] end).
Proof.
  intros Hev Hes Hl. rewrite <- length_schedule in Hl. unfold Write.
  destruct (iterateAll_schedule hasAudio rate (schedule ds) es (mkWriting ds 0 255 [] 0 0 0 evs [] []))
    as (w & Hw & Ha & Hp); [done|done| |done|].
  - exists 0%nat, 0%nat. split_and!; first [done|lia|by left].
  - exists w. split; [done|]. split; [done|]. rewrite Hp. by destruct evs as [[? ?]|].
Qed.

(** ** Timestamps of a digit *)

(** The packets sent by one iteration carry its stream's timestamp; a packet
    without the marker bit has the timestamp of the one before. *)
Definition stamped (l : list Packet) : Prop :=
  forall k p q, l !! k = Some p -> l !! S k = Some q -> Marker (header q) = false ->
    Timestamp (header q) = Timestamp (header p).

Definition stampedBy (w : writing) : Prop :=
  stamped (sentEvents w) /\
  match events w with
  | Some (_, st) => manual st = true /\ forall p, last (sentEvents w) = Some p -> Timestamp (header p) = ts st
  | None => sentEvents w = []
  end.

Lemma stamped_snoc l p :
  stamped l -> (Marker (header p) = false -> forall q, last l = Some q -> Timestamp (header p) = Timestamp (header q)) ->
  stamped (l ++ [p]).
Proof.
  intros Hl Hp k x y Hx Hy Hm. apply lookup_app_Some in Hy as [Hy|[Hk Hy]].
  - apply (Hl k x y); try done. apply lookup_app_Some in Hx as [?|[Hk _]]; [done|].
    apply lookup_lt_Some in Hy. lia.
  - apply list_lookup_singleton_Some in Hy as [Hk0 ->]. apply Hp; [done|].
    rewrite last_lookup. replace (pred (length l)) with k by lia.
    rewrite lookup_app_l in Hx by lia. done.
Qed.

(** Ready to send a packet: with the marker bit, any timestamp will do. *)
Definition ready (first : bool) (w : writing) : Prop :=
  stampedBy w \/
  (first = true /\ stamped (sentEvents w) /\ exists s st, events w = Some (s, st) /\ manual st = true).

Lemma ready_stamped first w : ready first w -> stamped (sentEvents w).
Proof. by intros [[? _]|(_ & ? & _)]. Qed.

(** One more packet at the stream's timestamp. *)
Lemma sendAtCurrent_stamped payload first now werr w :
  ready first w ->
  let '(w', err) := sendAtCurrent payload first now werr w in
  stamped (sentEvents w') /\ (err = None -> stampedBy w').
Proof.
  intros Hw. unfold sendAtCurrent, WritePayloadAtCurrent.
  destruct (events w) as [[s st]|] eqn:He.
  2: { destruct Hw as [Hw|(_ & _ & s & st & ? & _)]; [|congruence]. split; [apply Hw|done]. }
  assert (Hm : manual st = true).
  { destruct Hw as [[_ Hw]|(_ & _ & s' & st' & E & ?)]; [|congruence].
    rewrite He in Hw. apply Hw. }
  rewrite Hm. simpl.
  destruct (WriteEvent_spec (SeqWriter.mkEvent (typ st) (ts st) payload first) now werr s)
    as (s' & -> & _).
  destruct werr as [err|]; simpl.
  { rewrite app_nil_r. split; [by eapply ready_stamped|done]. }
  assert (Hst : stamped (sentEvents w ++ [mkPacket (eventHeader s
      (SeqWriter.mkEvent (typ st) (ts st) payload first)) payload])).
  { apply stamped_snoc; [by eapply ready_stamped|]. simpl. intros ->.
    destruct Hw as [[_ Hw]|(? & _)]; [|done]. rewrite He in Hw. intros q Hq. symmetry. by apply Hw. }
  split; [done|]. intros _. split; [done|]. simpl. split; [done|]. intros p. rewrite last_snoc.
  by intros [= <-].
Qed.

Lemma stampedBy_ready first w : stampedBy w -> ready first w.
Proof. by left. Qed.

Lemma playEvents_stamped rate e w w' r :
  stampedBy w -> playEvents rate e w = Ok (w', r) ->
  stamped (sentEvents w') /\ (r = None -> stampedBy w').
Proof.
  intros Hw. unfold playEvents. destruct (events w) as [[s st]|] eqn:He.
  2: { intros [= <- <-]. split; [apply Hw|done]. }
  destruct (zlen (freq w) =? 0); [intros [= <- <-]; split; [apply Hw|done]|].
  destruct (go_quot Second rate) as [unit|]; [|done]. cbn [obind].
  destruct (go_quot _ unit) as [d|]; [|done]. cbn [obind].
  set (first := _ =? _). set (end_ := _ <=? 0).
  destruct (Encode_payload (code w) (u16 d) end_) as (payload & -> & ->). cbn [obind].
  set (w0 := set_events _ _ [] w).
  assert (H0 : ready first w0).
  { destruct Hw as [Hs Hm]. rewrite He in Hm. destruct Hm as [Hm Hl]. unfold w0, ready, stampedBy. simpl.
    rewrite app_nil_r. destruct first.
    - right. split; [done|]. split; [done|]. eexists _, _. split; [done|].
      unfold SyncTimestamp. by rewrite Hm.
    - left. done. }
  destruct (packetErr e) as [[e1 e2] e3].
  pose proof (sendAtCurrent_stamped payload first (clock e) e1 w0 H0) as H1.
  destruct (sendAtCurrent payload first (clock e) e1 w0) as [w1 r1]. destruct H1 as [H1 H1'].
  destruct r1 as [err|]; [intros [= <- <-]; by split|]. specialize (H1' eq_refl).
  destruct (negb end_); [intros [= <- <-]; by split|].
  pose proof (sendAtCurrent_stamped payload first (clock e) e2 w1 (stampedBy_ready _ _ H1')) as H2.
  destruct (sendAtCurrent payload first (clock e) e2 w1) as [w2 r2]. destruct H2 as [H2 H2'].
  destruct r2 as [err|]; [intros [= <- <-]; by split|]. specialize (H2' eq_refl).
  pose proof (sendAtCurrent_stamped payload first (clock e) e3 w2 (stampedBy_ready _ _ H2')) as H3.
  destruct (sendAtCurrent payload first (clock e) e3 w2) as [w3 r3]. by intros [= <- <-].
Qed.

Lemma pick_keeps w w' : pick w = Ok (Some w') -> events w' = events w /\ sentEvents w' = sentEvents w.
Proof.
  unfold pick. destruct (remaining w <=? 0); [|by intros [= <-]].
  destruct (negb (nextDelay w =? 0)); [by intros [= <-]|].
  destruct (digits w) as [|b ds]; [done|]. destruct (b =? 119); [by intros [= <-]|].
  destruct (Tone b) as [[c f]|]; [|done]. by intros [= <-].
Qed.

Lemma iterate_stamped hasAudio rate e w w' r :
  stampedBy w -> iterate hasAudio rate e w = Ok (w', r) ->
  stamped (sentEvents w') /\ (r = None -> stampedBy w').
Proof.
  intros Hw. unfold iterate. destruct (cancelled e) as [err|]; [intros [= <- <-]; split; [apply Hw|done]|].
  destruct (pick w) as [[w1|]|] eqn:Hp; [|intros [= <- <-]; split; [apply Hw|done]|done].
  cbn [obind]. destruct (pick_keeps w w1 Hp) as [He Hs].
  destruct (playAudio hasAudio e w1) as [w2 ra] eqn:Ha.
  assert (H2 : stampedBy w2).
  { unfold playAudio in Ha. destruct (negb hasAudio); injection Ha as <- _;
      unfold stampedBy in *; simpl; by rewrite He, Hs. }
  destruct ra as [err|]; [intros [= <- <-]; split; [apply H2|done]|].
  destruct (playEvents rate e w2) as [[w3 re]|] eqn:Hpe; [|done]. cbn [obind].
  destruct (playEvents_stamped rate e w2 w3 re H2 Hpe) as [H3 H3'].
  destruct re as [err|]; intros [= <- <-]; [by split|]. split; [done|]. intros _. by apply H3'.
Qed.

(** One timestamp per digit: whatever fails or is cancelled, every packet that
    [Write] sends without the marker bit has the timestamp of the packet before
    it. *)
Theorem Write_one_timestamp (hasAudio : bool) (s : SeqWriter) (st : Stream) (rate : Z)
    (ds : list Z) (es : list tickEnv) (w : writing) (r : option (option error)) :
  manual st = true ->
  Write hasAudio (Some (s, st)) rate ds es = Ok (w, r) ->
  forall k p q, sentEvents w !! k = Some p -> sentEvents w !! S k = Some q ->
    Marker (header q) = false -> Timestamp (header q) = Timestamp (header p).
Proof.
  intros Hm. unfold Write. set (w0 := mkWriting _ _ _ _ _ _ _ _ _ _).
  assert (H0 : stampedBy w0) by (unfold w0, stampedBy; simpl; done).
  clearbody w0. revert w0 H0. induction es as [|e es IH]; intros w0 H0; cbn [iterateAll].
  - intros [= <- <-]. apply H0.
  - destruct (iterate hasAudio rate e w0) as [[w1 r1]|] eqn:Hi; [|done]. cbn [obind].
    destruct (iterate_stamped hasAudio rate e w0 w1 r1 H0 Hi) as [H1 H1'].
    destruct r1; [intros [= <- <-]; exact H1|]. by apply IH, H1'.
Qed.

(** ** Witnesses *)

Definition dtmf_env (n : Z) : tickEnv := mkTick None None (Second + n * step) (None, None, None).

Definition dtmf_writer : SeqWriter := NewSeqWriter 48000 99.

Lemma event_roundtrip_witness :
  exists out', Encode [9; 9; 9; 9; 9] (mkEvent 0 35 10 4160 true) = (out', inl 4) /\
    Decode out' = Ok (inl (mkEvent 11 35 10 4160 true)).
Proof.
  destruct (event_roundtrip [9; 9; 9; 9; 9] (mkEvent 0 35 10 4160 true)) as [H _]; simpl; [lia|lia|].
  destruct H as (out' & He & _ & _ & Hd); [unfold zlen; simpl; lia|].
  exists out'. split; [exact He|]. rewrite Hd. reflexivity.
Defined.

(** '1', 'w', 'x', with audio and events at 8000 Hz. *)
Lemma Write_schedule_witness :
  exists w, Write true (Some (dtmf_writer, mkStream 101 true 48000)) 8000 [49; 119; 120]
      (dtmf_env <$> seqZ 0 78) = Ok (w, Some None) /\
    length (audioOut w) = 77%nat /\ length (sentEvents w) = 15%nat /\
    last (payloadView <$> sentEvents w) = Some ([1; 138; 8; 32], false).
Proof.
  destruct (Write_schedule true (Some (dtmf_writer, mkStream 101 true 48000)) 8000 [49; 119; 120]
    (dtmf_env <$> seqZ 0 78)) as (w & Hw & Ha & Hp).
  - split; [reflexivity|lia].
  - apply Forall_fmap, Forall_true. intros n. done.
  - reflexivity.
  - exists w. split; [exact Hw|]. rewrite Ha, Hp. split; [reflexivity|].
    split; [|vm_compute; reflexivity].
    rewrite <- (length_fmap payloadView), Hp. vm_compute. reflexivity.
Defined.

Lemma Write_one_timestamp_witness :
  exists w r, Write false (Some (dtmf_writer, mkStream 101 true 48000)) 8000 [49]
      (dtmf_env <$> seqZ 0 20) = Ok (w, r) /\
    forall k p q, sentEvents w !! k = Some p -> sentEvents w !! S k = Some q ->
      Marker (header q) = false -> Timestamp (header q) = Timestamp (header p).
Proof.
  destruct (Write false (Some (dtmf_writer, mkStream 101 true 48000)) 8000 [49] (dtmf_env <$> seqZ 0 20))
    as [[w r]|] eqn:E; [|by vm_compute in E].
  exists w, r. split; [done|].
  exact (Write_one_timestamp false dtmf_writer (mkStream 101 true 48000) 8000 [49]
           (dtmf_env <$> seqZ 0 20) w r eq_refl E).
Defined.
