(* ===== verification/G711.v ===== *)
(** * G711: mu-law and A-law companding, [src/g711/g711.go]

    The four tables are built by the loops of the code, over arrays
    represented as finite maps from the index; an entry that was never written
    is zero. *)

From stdpp Require Import base tactics numbers list gmap.
From S2P Require Import Prelude.

#[local] Open Scope go_scope.

Definition signBit : Z := 128.
Definition quantMask : Z := 15.
Definition segShift : Z := 4.
Definition segMask : Z := 112.
Definition bias : Z := 132.

Definition alaw2linear (v : Z) : Z :=
  let v := Z.lxor v 85 in
  let t := Z.land v quantMask in
  let seg := Z.shiftr (Z.land v segMask) segShift in
  let t := if negb (seg =? 0) then Z.shiftl (t + t + 1 + 32) (seg + 2) else Z.shiftl (t + t + 1) 3 in
  if negb (Z.land v signBit =? 0) then t else - t.

Definition ulaw2linear (v : Z) : Z :=
  let v := Z.lxor v 255 in
  let t := Z.shiftl (Z.land v quantMask) 3 + bias in
  let t := Z.shiftl t (Z.shiftr (Z.land v segMask) segShift) in
  if negb (Z.land v signBit =? 0) then bias - t else t - bias.

(** ** Arrays *)

Record array : Type := mkArray { asize : Z; cells : gmap Z Z }.

Definition newArray (n : Z) : array := mkArray n ∅.

Definition aset (a : array) (i v : Z) : outcome array :=
  if (i <? 0) || (asize a <=? i) then Panic else Ok (mkArray (asize a) (<[i := v]> (cells a))).

Definition aget (a : array) (i : Z) : outcome Z :=
  if (i <? 0) || (asize a <=? i) then Panic else Ok (default 0 (cells a !! i)).

(** [for i := lo; i < lo + n; i++ { body }] *)
Fixpoint forFrom (n : nat) (lo : Z) (body : Z -> array -> outcome array) (a : array) : outcome array :=
  match n with
  | O => Ok a
  | S n => let! a := body lo a in forFrom n (lo + 1) body a
  end.

(** ** The tables *)

Definition buildLinTable (table : array) (log2lin : Z -> Z) : outcome array :=
  forFrom (Z.to_nat (asize table)) 0 (fun i t => aset t i (i16 (log2lin (u8 i)))) table.

(** [table[8192-j] = byte(i ^ (mask ^ 0x80)); table[8192+j] = byte(i ^ mask)] *)
Definition setPair (i mask j : Z) (t : array) : outcome array :=
  let! t := aset t (8192 - j) (u8 (Z.lxor i (Z.lxor mask 128))) in
  aset t (8192 + j) (u8 (Z.lxor i mask)).

(** The loop over [i], with [j] carried from one iteration to the next. *)
Fixpoint lawLoop (n : nat) (i j : Z) (log2lin : Z -> Z) (mask : Z) (t : array) : outcome (Z * array) :=
  match n with
  | O => Ok (j, t)
  | S n =>
      let v1 := log2lin (u8 (Z.lxor i mask)) in
      let v2 := log2lin (u8 (Z.lxor (i + 1) mask)) in
      let v := Z.shiftr (v1 + v2 + 4) 3 in
      let! t := forFrom (Z.to_nat (v - j)) j (fun j t => setPair i mask j t) t in
      lawLoop n (i + 1) (Z.max j v) log2lin mask t
  end.

Definition buildLawTable (table : array) (log2lin : Z -> Z) (mask : Z) : outcome array :=
  let! t := aset table 8192 (u8 mask) in
  let! (j, t) := lawLoop 127 0 1 log2lin mask t in
  let! t := forFrom (Z.to_nat (8192 - j)) j (fun j t => setPair 127 mask j t) t in
  let! x := aget t 1 in
  aset t 0 x.

(** The package's [init]; a table that could not be built would be empty. *)
Definition built (r : outcome array) : array :=
  match r with Ok t => t | Panic => newArray 0 end.

Definition ulaw2lin : array := built (buildLinTable (newArray 256) ulaw2linear).
Definition alaw2lin : array := built (buildLinTable (newArray 256) alaw2linear).
Definition lin2ulaw : array := built (buildLawTable (newArray 16384) ulaw2linear 255).
Definition lin2alaw : array := built (buildLawTable (newArray 16384) alaw2linear 213).

(** ** Coding *)

(** [out[i] = f(buf[i])] for all of [buf]; [out] must be as long. *)
Fixpoint mapInto (f : Z -> outcome Z) (out buf : list Z) : outcome (list Z) :=
  match buf, out with
  | [], _ => Ok out
  | _ :: _, [] => Panic
  | v :: buf, _ :: out =>
      let! x := f v in
      let! out := mapInto f out buf in
      Ok (x :: out)
  end.

Definition encodeWith (table : array) (v : Z) : outcome Z := aget table (Z.shiftr (v + 32768) 2).

Definition EncodeALawTo (out buf : list Z) : outcome (list Z) := mapInto (encodeWith lin2alaw) out buf.
Definition DecodeALawTo (out buf : list Z) : outcome (list Z) := mapInto (aget alaw2lin) out buf.
Definition EncodeULawTo (out buf : list Z) : outcome (list Z) := mapInto (encodeWith lin2ulaw) out buf.
Definition DecodeULawTo (out buf : list Z) : outcome (list Z) := mapInto (aget ulaw2lin) out buf.

(** ** Frames ([alaw.go], [ulaw.go]) *)

(** The two laws, and their methods, which differ only in the tables. *)
Inductive law : Type := ALaw | ULaw.

Definition EncodeTo (l : law) : list Z -> list Z -> outcome (list Z) :=
  match l with ALaw => EncodeALawTo | ULaw => EncodeULawTo end.
Definition DecodeTo (l : law) : list Z -> list Z -> outcome (list Z) :=
  match l with ALaw => DecodeALawTo | ULaw => DecodeULawTo end.

(** [ALawSample.Decode], [ULawSample.Decode] *)
Definition Decode (l : law) (s : list Z) : outcome (list Z) :=
  DecodeTo l (replicate (length s) 0) s.

(** [ALawSample.Encode], [ULawSample.Encode] *)
Definition Encode (l : law) (data : list Z) : outcome (list Z) :=
  EncodeTo l (replicate (length data) 0) data.

(** [CopyTo]: the new contents of [dst], and the count or the error. *)
Definition CopyTo (s dst : list Z) : list Z * (Z + error) :=
  if zlen dst <? zlen s then (dst, inr ErrShortBuffer)
  else let '(dst, n) := go_copy dst s in (dst, inl n).

(** [buf] of a decoder or encoder, resized for a frame of [n] values: a slice
    of the old buffer, or a new one. *)
Definition resize (n : nat) (buf : list Z) (cap_ : Z) : list Z * Z :=
  if cap_ <=? Z.of_nat n then (replicate n 0, Z.of_nat n)
  else (take n (buf ++ replicate n 0), cap_).

(** [ALawDecoder.WriteSample], [ULawDecoder.WriteSample]: the frame given to the
    PCM writer, which is the decoder's own buffer, and its capacity. *)
Definition writeDecoded (l : law) (buf : list Z) (cap_ : Z) (frame : list Z) : outcome (list Z * Z) :=
  let '(buf, cap_) := resize (length frame) buf cap_ in
  let! buf := DecodeTo l buf frame in
  Ok (buf, cap_).

(** [ALawEncoder.WriteSample], [ULawEncoder.WriteSample] *)
Definition writeEncoded (l : law) (buf : list Z) (cap_ : Z) (frame : list Z) : outcome (list Z * Z) :=
  let '(buf, cap_) := resize (length frame) buf cap_ in
  let! buf := EncodeTo l buf frame in
  Ok (buf, cap_).
