(* ===== verification/G711Props.v ===== *)
(** * G711Props: the companding tables are right

    The loops that build the encoding tables are characterised by the
    thresholds between adjacent codes; the properties of the two laws then are
    statements about 128 segments, checked by computation. *)

From stdpp Require Import base tactics numbers list gmap.
From S2P Require Import Prelude G711.

#[local] Open Scope go_scope.

(** ** Checks by computation *)

Lemma forallb_seqZ (p : Z -> bool) n :
  forallb p (seqZ 0 n) = true -> forall s, 0 <= s < n -> p s = true.
Proof.
  rewrite forallb_forall. intros Hp s Hs. apply Hp, list_elem_of_In, elem_of_seqZ. lia.
Qed.

(** ** Arrays *)

Definition val (a : array) (i : Z) : Z := default 0 (cells a !! i).

Lemma aset_Ok a i v : 0 <= i < asize a -> aset a i v = Ok (mkArray (asize a) (<[i := v]> (cells a))).
Proof.
  intros Hi. unfold aset. destruct (i <? 0) eqn:E1, (asize a <=? i) eqn:E2; simpl; bool_cases; done || lia.
Qed.

Lemma aget_Ok a i : 0 <= i < asize a -> aget a i = Ok (val a i).
Proof.
  intros Hi. unfold aget. destruct (i <? 0) eqn:E1, (asize a <=? i) eqn:E2; simpl; bool_cases; done || lia.
Qed.

Lemma val_set n m i v j : val (mkArray n (<[i := v]> m)) j = if decide (i = j) then v else val (mkArray n m) j.
Proof.
  unfold val. simpl. case_decide as E; [subst; by rewrite lookup_insert_eq|by rewrite lookup_insert_ne].
Qed.

(** The decoding tables hold the decoding functions. *)
Lemma linLoop_spec f n : forall lo a,
  0 <= lo -> lo + Z.of_nat n <= asize a ->
  exists a', forFrom n lo (fun i t => aset t i (i16 (f (u8 i)))) a = Ok a' /\ asize a' = asize a /\
    forall i, val a' i = if decide (lo <= i < lo + Z.of_nat n) then i16 (f (u8 i)) else val a i.
Proof.
  induction n as [|n IH]; intros lo a Hlo Hn; cbn [forFrom].
  - exists a. split; [done|]. split; [done|]. intros i. rewrite decide_False by lia. done.
  - rewrite aset_Ok by lia. cbn [obind].
    destruct (IH (lo + 1) (mkArray (asize a) (<[lo := i16 (f (u8 lo))]> (cells a)))) as (a' & -> & Hs & Hv);
      [lia|simpl; lia|].
    exists a'. split; [done|]. split; [done|]. intros i. rewrite Hv, val_set.
    destruct a as [sz m]. simpl. repeat case_decide; subst; done || lia.
Qed.

Lemma buildLinTable_spec f v :
  0 <= v < 256 -> aget (built (buildLinTable (newArray 256) f)) v = Ok (i16 (f v)).
Proof.
  intros Hv. unfold buildLinTable.
  destruct (linLoop_spec f (Z.to_nat 256) 0 (newArray 256)) as (a & Ha & Hs & Hval); [lia|simpl; lia|].
  change (asize (newArray 256)) with 256. rewrite Ha. simpl. rewrite aget_Ok by (rewrite Hs; simpl; lia).
  rewrite Hval, decide_True by lia. f_equal. f_equal. f_equal. word_lia.
Qed.

(** ** The encoding tables *)

Section law.
Variable f : Z -> Z.
Variable mask : Z.

(** The first 14-bit magnitude that is nearer to code [i + 1] than to [i]. *)
Definition thr (i : Z) : Z :=
  Z.shiftr (f (u8 (Z.lxor i mask)) + f (u8 (Z.lxor (i + 1) mask)) + 4) 3.

(** The first of the codes [i] to [i + n] for a magnitude [j]. *)
Fixpoint segFrom (n : nat) (i j : Z) : Z :=
  match n with
  | O => i
  | S n => if j <? thr i then i else segFrom n (i + 1) j
  end.

Definition seg (j : Z) : Z := segFrom 127 0 j.

Definition up (i : Z) : Z := u8 (Z.lxor i mask).
Definition down (i : Z) : Z := u8 (Z.lxor i (Z.lxor mask 128)).

Lemma setPair_spec i j t :
  asize t = 16384 -> 0 < j < 8192 ->
  exists t', setPair i mask j t = Ok t' /\ asize t' = 16384 /\
    forall k, val t' k = if decide (k = 8192 + j) then up i
                         else if decide (k = 8192 - j) then down i else val t k.
Proof.
  intros Hs Hj. unfold setPair. rewrite aset_Ok by lia. cbn [obind]. rewrite aset_Ok by (simpl; lia).
  eexists. split; [reflexivity|]. split; [done|]. intros k. simpl. rewrite !val_set.
  destruct t as [sz m]. unfold up, down. repeat case_decide; subst; done || lia.
Qed.

(** The inner loop fills a range of magnitudes with one code. *)
Lemma fill_spec i n : forall lo t,
  asize t = 16384 -> 0 < lo -> lo + Z.of_nat n <= 8192 ->
  exists t', forFrom n lo (fun j t => setPair i mask j t) t = Ok t' /\ asize t' = 16384 /\
    forall k, val t' k = if decide (lo <= k - 8192 < lo + Z.of_nat n) then up i
                         else if decide (lo <= 8192 - k < lo + Z.of_nat n) then down i else val t k.
Proof.
  induction n as [|n IH]; intros lo t Hs Hlo Hn; cbn [forFrom].
  - exists t. split; [done|]. split; [done|]. intros k. rewrite !decide_False by lia. done.
  - destruct (setPair_spec i lo t Hs) as (t1 & -> & Hs1 & Hv1); [lia|]. cbn [obind].
    destruct (IH (lo + 1) t1 Hs1) as (t' & -> & Hs' & Hv'); [lia|lia|].
    exists t'. split; [done|]. split; [done|]. intros k. rewrite Hv', Hv1.
    repeat case_decide; done || lia.
Qed.

(** The loop over the codes, from code [i] and magnitude [j0]. *)
Lemma lawLoop_spec n : forall i j0 t,
  asize t = 16384 -> 0 < j0 <= 8192 -> (forall k, i <= k < i + Z.of_nat n -> thr k <= 8192) ->
  exists j1 t', lawLoop n i j0 f mask t = Ok (j1, t') /\ asize t' = 16384 /\ j0 <= j1 <= 8192 /\
    (forall j, j1 <= j -> segFrom n i j = i + Z.of_nat n) /\
    forall k, val t' k =
      if decide (j0 <= k - 8192 < j1) then up (segFrom n i (k - 8192))
      else if decide (j0 <= 8192 - k < j1) then down (segFrom n i (8192 - k)) else val t k.
Proof.
  induction n as [|n IH]; intros i j0 t Hs Hj Hthr; cbn [lawLoop].
  - exists j0, t. split; [done|]. split; [done|]. split; [lia|]. split; [simpl; lia|].
    intros k. rewrite !decide_False by lia. done.
  - fold (thr i). assert (Hi : thr i <= 8192) by (apply Hthr; lia).
    destruct (fill_spec i (Z.to_nat (thr i - j0)) j0 t Hs) as (t1 & -> & Hs1 & Hv1); [lia|lia|].
    cbn [obind].
    destruct (IH (i + 1) (Z.max j0 (thr i)) t1 Hs1) as (j1 & t' & -> & Hs' & Hj1 & Hseg & Hv').
    + lia.
    + intros k Hk. apply Hthr. lia.
    + exists j1, t'. split; [done|]. split; [done|]. split; [lia|]. split.
      * intros j Hjj. cbn [segFrom]. case_if; [lia|]. rewrite Hseg by done. lia.
      * intros k. rewrite Hv', Hv1. cbn [segFrom].
        destruct (decide (j0 <= k - 8192 < j1)) as [D1|D1]; [|destruct (decide (j0 <= 8192 - k < j1)) as [D2|D2]].
        -- destruct (k - 8192 <? thr i) eqn:E; bool_cases; repeat first [rewrite decide_True by lia|rewrite decide_False by lia]; done.
        -- destruct (8192 - k <? thr i) eqn:E; bool_cases; repeat first [rewrite decide_True by lia|rewrite decide_False by lia]; done.
        -- repeat (rewrite decide_False by lia). done.
Qed.

(** The code of the quarter [q] of a sample. *)
Definition codeOf (q : Z) : Z :=
  if q =? 0 then u8 mask
  else if 0 <? q then up (seg q)
  else down (seg (Z.min (- q) 8191)).

Hypothesis thr_small : forall k, 0 <= k < 127 -> thr k <= 8192.

Lemma buildLawTable_spec x :
  -32768 <= x <= 32767 ->
  encodeWith (built (buildLawTable (newArray 16384) f mask)) x = Ok (codeOf (x / 4)).
Proof.
  intros Hx. unfold buildLawTable. rewrite aset_Ok by (simpl; lia). cbn [obind].
  set (t0 := mkArray _ _).
  destruct (lawLoop_spec 127 0 1 t0) as (j1 & t1 & -> & Hs1 & Hj1 & Hseg & Hv1); [done|lia|done|].
  cbn [obind].
  destruct (fill_spec 127 (Z.to_nat (8192 - j1)) j1 t1 Hs1) as (t2 & -> & Hs2 & Hv2); [lia|lia|].
  cbn [obind]. rewrite aget_Ok by lia. cbn [obind]. rewrite aset_Ok by lia. cbn [built].
  assert (Hv : forall q, -8191 <= q <= 8191 -> val t2 (8192 + q) = codeOf q).
  { intros q Hq. rewrite Hv2. unfold codeOf.
    destruct (q =? 0) eqn:E0; bool_cases.
    { subst. rewrite !decide_False, Hv1, !decide_False by lia. unfold t0. by rewrite val_set, decide_True. }
    fold (seg (8192 + q - 8192)) in *.
    destruct (0 <? q) eqn:Eq; bool_cases.
    - replace (8192 + q - 8192) with q by lia. destruct (decide (j1 <= q < j1 + Z.of_nat (Z.to_nat (8192 - j1)))).
      + unfold seg. rewrite Hseg by lia. done.
      + rewrite decide_False, Hv1 by lia. replace (8192 + q - 8192) with q by lia.
        rewrite decide_True by lia. done.
    - replace (8192 - (8192 + q)) with (- q) by lia. rewrite Z.min_l by lia.
      rewrite decide_False by lia. destruct (decide (j1 <= - q < j1 + Z.of_nat (Z.to_nat (8192 - j1)))).
      + unfold seg. rewrite Hseg by lia. done.
      + rewrite Hv1. replace (8192 - (8192 + q)) with (- q) by lia.
        rewrite decide_False, decide_True by lia. done. }
  unfold encodeWith. rewrite Z.shiftr_div_pow2 by lia. change (2 ^ 2) with 4.
  replace ((x + 32768) / 4) with (8192 + x / 4) by lia.
  rewrite aget_Ok by (simpl; rewrite Hs2; lia). f_equal. rewrite val_set. destruct t2 as [sz m]. simpl in *.
  case_decide as E.
  - replace (x / 4) with (-8192) by lia. change 1 with (8192 + -8191). rewrite Hv by lia. done.
  - apply Hv. lia.
Qed.

(** ** Segments *)

Lemma segFrom_spec n : forall i j,
  i <= segFrom n i j <= i + Z.of_nat n /\
  (forall k, i <= k < segFrom n i j -> thr k <= j) /\
  (segFrom n i j < i + Z.of_nat n -> j < thr (segFrom n i j)).
Proof.
  induction n as [|n IH]; intros i j; cbn [segFrom]; [split; [lia|]; split; lia|].
  destruct (j <? thr i) eqn:E; bool_cases.
  - split; [lia|]. split; [lia|done].
  - destruct (IH (i + 1) j) as (H1 & H2 & H3). split; [lia|]. split; [|intros; apply H3; lia].
    intros k Hk. destruct (decide (k = i)) as [->|]; [done|]. apply H2. lia.
Qed.

Lemma seg_spec j :
  0 <= seg j <= 127 /\ (forall k, 0 <= k < seg j -> thr k <= j) /\ (seg j < 127 -> j < thr (seg j)).
Proof. apply (segFrom_spec 127 0 j). Qed.

Lemma seg_mono j j' : j <= j' -> seg j <= seg j'.
Proof.
  intros Hj. destruct (seg_spec j) as (H1 & H2 & _). destruct (seg_spec j') as (H1' & _ & H3').
  destruct (Z.le_gt_cases (seg j) (seg j')) as [?|Hlt]; [done|].
  specialize (H2 (seg j') ltac:(lia)). specialize (H3' ltac:(lia)). lia.
Qed.

End law.

(** ** What the segments must satisfy *)

Section quality.
Variable f : Z -> Z.
Variable mask : Z.
Notation thr := (thr f mask).
Notation seg := (seg f mask).
Notation codeOf := (codeOf f mask).

(** The decoded magnitudes of code [i], and the samples that get it. *)
Definition positive (i : Z) : Z := i16 (f (up mask i)).
Definition negative (i : Z) : Z := i16 (f (down mask i)).
Definition lowest (s : Z) : Z := if s =? 0 then 0 else 4 * thr (s - 1).
Definition highest (s : Z) : Z := if s =? 127 then 32767 else 4 * thr s - 1.

(** Decoding [y] for a sample [x]: the error is at most a 32nd and [c]. *)
Definition near (c x y : Z) : bool := 32 * Z.abs (x - y) <=? Z.abs x + 32 * c.

Definition segment_ok (c s : Z) : bool :=
  (0 <=? positive s) && (negative s <=? 0) &&
  near c (lowest s) (positive s) && near c (highest s) (positive s) &&
  near c (Z.min 0 (- (lowest s - 3))) (negative s) && near c (- (highest s + 1)) (negative s).

Definition step_ok (s : Z) : bool :=
  (0 <? thr s) && (thr s <=? 8191) &&
  (positive s <=? positive (s + 1)) && (negative (s + 1) <=? negative s).

Definition law_ok (c : Z) : bool :=
  forallb (segment_ok c) (seqZ 0 128) && forallb step_ok (seqZ 0 127).

Variable c : Z.
Hypothesis Hc : law_ok c = true.

Lemma segment_fact s : 0 <= s <= 127 -> segment_ok c s = true.
Proof. intros Hs. apply andb_true_iff in Hc as [H _]. apply (forallb_seqZ _ 128 H). lia. Qed.

Lemma step_fact s : 0 <= s < 127 -> step_ok s = true.
Proof. intros Hs. apply andb_true_iff in Hc as [_ H]. apply (forallb_seqZ _ 127 H). lia. Qed.

Lemma thr_bounds s : 0 <= s < 127 -> 0 < thr s <= 8191.
Proof.
  intros Hs. pose proof (step_fact s Hs) as H. unfold step_ok in H.
  rewrite !andb_true_iff in H. destruct H as [[[H1 H2] _] _]. bool_cases. lia.
Qed.

Lemma thr_small_ok k : 0 <= k < 127 -> thr k <= 8192.
Proof. intros Hk. pose proof (thr_bounds k Hk). lia. Qed.

Lemma positive_mono s s' : 0 <= s <= s' -> s' <= 127 -> positive s <= positive s'.
Proof.
  intros Hs Hs'. replace s' with (s + Z.of_nat (Z.to_nat (s' - s))) in * by lia.
  induction (Z.to_nat (s' - s)) as [|n IH]; [by rewrite Z.add_0_r|].
  pose proof (step_fact (s + Z.of_nat n) ltac:(lia)) as H. unfold step_ok in H.
  rewrite !andb_true_iff in H. destruct H as [[_ H] _]. bool_cases.
  replace (s + Z.of_nat (S n)) with (s + Z.of_nat n + 1) by lia. specialize (IH ltac:(lia) ltac:(lia)). lia.
Qed.

Lemma negative_mono s s' : 0 <= s <= s' -> s' <= 127 -> negative s' <= negative s.
Proof.
  intros Hs Hs'. replace s' with (s + Z.of_nat (Z.to_nat (s' - s))) in * by lia.
  induction (Z.to_nat (s' - s)) as [|n IH]; [by rewrite Z.add_0_r|].
  pose proof (step_fact (s + Z.of_nat n) ltac:(lia)) as H. unfold step_ok in H.
  rewrite !andb_true_iff in H. destruct H as [[_ _] H]. bool_cases.
  replace (s + Z.of_nat (S n)) with (s + Z.of_nat n + 1) by lia. specialize (IH ltac:(lia) ltac:(lia)). lia.
Qed.

(** The decoded value of a sample, and where it comes from. *)
Definition decoded (x : Z) : Z := i16 (f (codeOf (x / 4))).

Lemma decoded_cases x :
  -32768 <= x <= 32767 ->
  (exists s, 0 <= s <= 127 /\ 0 <= x /\ s = seg (x / 4) /\ decoded x = positive s /\
     lowest s <= x <= highest s) \/
  (exists s, 0 <= s <= 127 /\ x < 0 /\ s = seg (Z.min (- (x / 4)) 8191) /\ decoded x = negative s /\
     - (highest s + 1) <= x <= Z.min 0 (- (lowest s - 3))).
Proof.
  intros Hx. unfold decoded, G711Props.codeOf.
  destruct (Z.le_gt_cases 0 x) as [Hp|Hn].
  - left. destruct (seg_spec f mask (x / 4)) as (S1 & S2 & S3).
    exists (seg (x / 4)). split; [done|]. split; [done|]. split; [done|]. split.
    + unfold positive. destruct (x / 4 =? 0) eqn:E0; bool_cases.
      * rewrite E0. assert (Hs0 : seg 0 = 0).
        { unfold G711Props.seg. cbn [segFrom]. pose proof (thr_bounds 0 ltac:(lia)).
          case_if; [done|lia]. }
        rewrite Hs0. done.
      * case_if; [done|lia].
    + unfold lowest, highest. split.
      * case_if; [lia|]. pose proof (S2 (seg (x / 4) - 1) ltac:(lia)). lia.
      * case_if; [lia|]. pose proof (S3 ltac:(lia)). lia.
  - right. set (q := Z.min (- (x / 4)) 8191).
    destruct (seg_spec f mask q) as (S1 & S2 & S3).
    exists (seg q). split; [done|]. split; [done|]. split; [done|]. split.
    + repeat case_if; try lia. done.
    + unfold lowest, highest. split.
      * case_if; [lia|]. pose proof (S3 ltac:(lia)). pose proof (thr_bounds (seg q) ltac:(lia)). lia.
      * case_if; [lia|]. pose proof (S2 (seg q - 1) ltac:(lia)). lia.
Qed.

Lemma near_between x lo hi y :
  0 <= lo <= x -> x <= hi -> near c lo y = true -> near c hi y = true -> near c x y = true.
Proof. unfold near. intros. bool_cases. apply Z.leb_le. lia. Qed.

Lemma near_between_neg x lo hi y :
  lo <= x -> x <= hi <= 0 -> near c lo y = true -> near c hi y = true -> near c x y = true.
Proof. unfold near. intros. bool_cases. apply Z.leb_le. lia. Qed.

Lemma lowest_nonneg s : 0 <= s <= 127 -> 0 <= lowest s.
Proof. intros Hs. unfold lowest. case_if; [lia|]. pose proof (thr_bounds (s - 1) ltac:(lia)). lia. Qed.

Lemma decoded_near x : -32768 <= x <= 32767 -> 32 * Z.abs (x - decoded x) <= Z.abs x + 32 * c.
Proof.
  intros Hx. apply Z.leb_le. change (near c x (decoded x) = true).
  destruct (decoded_cases x Hx) as [(s & Hs & Hp & _ & -> & Hlo & Hhi)|(s & Hs & Hn & _ & -> & Hlo & Hhi)];
    pose proof (segment_fact s Hs) as H; unfold segment_ok in H; rewrite !andb_true_iff in H;
    destruct H as (((((_ & _) & H1) & H2) & H3) & H4).
  - eapply near_between; [|exact Hhi|exact H1|exact H2]. pose proof (lowest_nonneg s Hs). lia.
  - eapply near_between_neg; [exact Hlo| |exact H4|exact H3]. lia.
Qed.

Lemma decoded_mono x x' :
  -32768 <= x <= x' -> x' <= 32767 -> decoded x <= decoded x'.
Proof.
  intros Hx Hx'.
  destruct (decoded_cases x ltac:(lia)) as [(s & Hs & Hp & E & -> & _)|(s & Hs & Hn & E & -> & _)];
  destruct (decoded_cases x' ltac:(lia)) as [(s' & Hs' & Hp' & E' & -> & _)|(s' & Hs' & Hn' & E' & -> & _)];
    try lia.
  - apply positive_mono; [|lia]. subst. split; [lia|]. apply seg_mono. lia.
  - pose proof (segment_fact s Hs) as H. pose proof (segment_fact s' Hs') as H'.
    unfold segment_ok in *. rewrite !andb_true_iff in *.
    destruct H as (((((_ & H) & _) & _) & _) & _). destruct H' as (((((H' & _) & _) & _) & _) & _).
    bool_cases. lia.
  - apply negative_mono; [|lia]. subst. split; [lia|]. apply seg_mono. lia.
Qed.

End quality.

(** ** The two laws *)

Definition linear (l : law) : Z -> Z := match l with ALaw => alaw2linear | ULaw => ulaw2linear end.
Definition maskOf (l : law) : Z := match l with ALaw => 213 | ULaw => 255 end.

(** The largest error on a silent signal. *)
Definition floorOf (l : law) : Z := match l with ALaw => 11 | ULaw => 7 end.

Lemma laws_ok l : law_ok (linear l) (maskOf l) (floorOf l) = true.
Proof. destruct l; vm_compute; reflexivity. Qed.

(** Each byte decodes to a sample that is encoded to a byte with the same
    sample; for A-law it is the same byte. *)
Lemma codes_ok :
  forallb (fun v => (codeOf alaw2linear 213 (i16 (alaw2linear v) / 4) =? v) &&
     (i16 (ulaw2linear (codeOf ulaw2linear 255 (i16 (ulaw2linear v) / 4))) =? i16 (ulaw2linear v)))
    (seqZ 0 256) = true.
Proof. vm_compute. reflexivity. Qed.

Definition encoded (l : law) (x : Z) : Z := codeOf (linear l) (maskOf l) (x / 4).
Definition decode (l : law) (v : Z) : Z := i16 (linear l v).

Lemma encoded_byte l x : 0 <= encoded l x < 256.
Proof. unfold encoded, codeOf, up, down. repeat case_if; apply u8_range. Qed.

Lemma encode_table l x :
  -32768 <= x <= 32767 ->
  encodeWith (match l with ALaw => lin2alaw | ULaw => lin2ulaw end) x = Ok (encoded l x).
Proof.
  intros Hx. pose proof (thr_small_ok _ _ _ (laws_ok l)) as Ht.
  pose proof (buildLawTable_spec (linear l) (maskOf l) Ht x Hx) as H. by destruct l.
Qed.

Lemma decode_table l v :
  0 <= v < 256 -> aget (match l with ALaw => alaw2lin | ULaw => ulaw2lin end) v = Ok (decode l v).
Proof. intros Hv. pose proof (buildLinTable_spec (linear l) v Hv). by destruct l. Qed.

Lemma decode_encoded l v : 0 <= v < 256 -> decode l (encoded l (decode l v)) = decode l v.
Proof.
  intros Hv. pose proof (forallb_seqZ _ 256 codes_ok v Hv) as H.
  apply andb_true_iff in H as [Ha Hu]. apply Z.eqb_eq in Ha, Hu.
  destruct l; unfold encoded, decode; simpl; [by rewrite Ha|exact Hu].
Qed.

Lemma mapInto_Ok (g : Z -> outcome Z) (h : Z -> Z) buf : forall out,
  Forall (fun v => g v = Ok (h v)) buf -> length out = length buf ->
  mapInto g out buf = Ok (h <$> buf).
Proof.
  induction buf as [|v buf IH]; intros [|o out] Hb Hl; try done. inversion_clear Hb as [|? ? Hv Hb'].
  simpl. rewrite Hv. simpl. rewrite IH by (done || by injection Hl). done.
Qed.

Definition is_byte (v : Z) : Prop := 0 <= v < 256.
Definition is_sample (x : Z) : Prop := -32768 <= x <= 32767.

Lemma EncodeTo_spec l out data :
  Forall is_sample data -> length out = length data -> EncodeTo l out data = Ok (encoded l <$> data).
Proof.
  intros Hd Hl. pose proof (mapInto_Ok (encodeWith (match l with ALaw => lin2alaw | ULaw => lin2ulaw end))
    (encoded l) data out) as H.
  rewrite <- H; [by destruct l| |done].
  eapply Forall_impl; [exact Hd|]. intros x Hx. by apply encode_table.
Qed.

Lemma DecodeTo_spec l out s :
  Forall is_byte s -> length out = length s -> DecodeTo l out s = Ok (decode l <$> s).
Proof.
  intros Hs Hl. pose proof (mapInto_Ok (aget (match l with ALaw => alaw2lin | ULaw => ulaw2lin end))
    (decode l) s out) as H.
  rewrite <- H; [by destruct l| |done].
  eapply Forall_impl; [exact Hs|]. intros v Hv. by apply decode_table.
Qed.

Lemma Encode_spec l data : Forall is_sample data -> Encode l data = Ok (encoded l <$> data).
Proof. intros. apply EncodeTo_spec; [done|by rewrite length_replicate]. Qed.

Lemma Decode_spec l s : Forall is_byte s -> Decode l s = Ok (decode l <$> s).
Proof. intros. apply DecodeTo_spec; [done|by rewrite length_replicate]. Qed.

Lemma encoded_bytes l data : Forall is_byte (encoded l <$> data).
Proof. apply Forall_fmap, Forall_true. intros x. apply encoded_byte. Qed.

(** C30: quality of the companding: encoding a frame of 16-bit samples and
    decoding the bytes never indexes a table out of range, keeps the length, and
    changes each sample by at most a 32nd of its magnitude plus 7 (mu-law) or 11
    (A-law). *)
Theorem companding_error (l : law) (data : list Z) :
  Forall is_sample data ->
  exists s data', Encode l data = Ok s /\ Forall is_byte s /\ Decode l s = Ok data' /\
    Forall2 (fun x y => 32 * Z.abs (x - y) <= Z.abs x + 32 * floorOf l) data data'.
Proof.
  intros Hd. exists (encoded l <$> data), (decode l <$> (encoded l <$> data)).
  split; [by apply Encode_spec|]. split; [apply encoded_bytes|].
  split; [apply Decode_spec, encoded_bytes|].
  induction Hd as [|x data Hx Hd IH]; constructor; [|exact IH].
  exact (decoded_near _ _ _ (laws_ok l) x Hx).
Qed.

(** The encoding keeps the order of the samples: a louder sample never
    decodes to a quieter one. *)
Theorem companding_monotone (l : law) (x x' : Z) :
  is_sample x -> is_sample x' -> x <= x' ->
  exists b b' y y', Encode l [x] = Ok [b] /\ Encode l [x'] = Ok [b'] /\
    Decode l [b] = Ok [y] /\ Decode l [b'] = Ok [y'] /\ y <= y'.
Proof.
  intros Hx Hx' Hle. exists (encoded l x), (encoded l x'), (decode l (encoded l x)), (decode l (encoded l x')).
  rewrite !Encode_spec, !Decode_spec by (apply Forall_singleton; done || apply encoded_byte).
  split_and!; try done. unfold is_sample in *.
  apply (decoded_mono _ _ _ (laws_ok l)); lia.
Qed.

(** Transcoding is stable: decoding a frame of bytes and encoding it again
    gives a frame that decodes to the same samples, and for A-law the same
    bytes. *)
Theorem companding_roundtrip (l : law) (s : list Z) :
  Forall is_byte s ->
  exists data s', Decode l s = Ok data /\ Encode l data = Ok s' /\ Decode l s' = Ok data /\
    (l = ALaw -> s' = s).
Proof.
  intros Hs. exists (decode l <$> s), (encoded l <$> (decode l <$> s)).
  assert (Hd : Forall is_sample (decode l <$> s)).
  { apply Forall_fmap, Forall_true. intros v. unfold is_sample, decode. simpl. apply i16_range. }
  rewrite Encode_spec, Decode_spec by done. rewrite Decode_spec by apply encoded_bytes.
  split_and!; try done.
  - f_equal. rewrite <- !list_fmap_compose. apply list_fmap_ext. intros k v Hk.
    apply decode_encoded. by apply (Forall_lookup_1 _ _ _ _ Hs Hk).
  - intros ->. rewrite <- list_fmap_compose. rewrite <- (list_fmap_id s) at 2. apply list_fmap_ext.
    intros k v Hk. pose proof (forallb_seqZ _ 256 codes_ok v (Forall_lookup_1 _ _ _ _ Hs Hk)) as H.
    apply andb_true_iff in H as [Ha _]. by apply Z.eqb_eq in Ha.
Qed.

(** The encoder and decoder writers give the next writer the encoded or
    decoded frame whatever their buffer held, one value per input value, and
    never write outside the buffer. *)
Theorem companding_writers (l : law) (buf : list Z) (cap_ : Z) (frame : list Z) :
  (Forall is_sample frame -> exists b c, writeEncoded l buf cap_ frame = Ok (b, c) /\
     Encode l frame = Ok b /\ zlen b <= c) /\
  (Forall is_byte frame -> exists b c, writeDecoded l buf cap_ frame = Ok (b, c) /\
     Decode l frame = Ok b /\ zlen b <= c).
Proof.
  assert (Hr : forall b c, resize (length frame) buf cap_ = (b, c) ->
    length b = length frame /\ zlen frame <= c).
  { intros b c. unfold resize. destruct (cap_ <=? Z.of_nat (length frame)) eqn:E; bool_cases;
      intros [= <- <-].
    - by rewrite length_replicate.
    - rewrite length_take, length_app, length_replicate. unfold zlen. lia. }
  unfold writeEncoded, writeDecoded. destruct (resize (length frame) buf cap_) as [b c] eqn:E.
  destruct (Hr b c eq_refl) as [Hl Hc]. split; intros Hf.
  - rewrite EncodeTo_spec, Encode_spec by done. simpl. eexists _, _. split_and!; try done.
    unfold zlen. by rewrite length_fmap.
  - rewrite DecodeTo_spec, Decode_spec by done. simpl. eexists _, _. split_and!; try done.
    unfold zlen. by rewrite length_fmap.
Qed.

(** ** Witnesses *)

Lemma samples_example : Forall is_sample [0; -1; 1000; -32768; 32767].
Proof. repeat constructor; unfold is_sample; lia. Qed.

Lemma companding_error_witness :
  exists s data', Encode ULaw [0; -1; 1000; -32768; 32767] = Ok s /\ Forall is_byte s /\ Decode ULaw s = Ok data'.
Proof.
  destruct (companding_error ULaw [0; -1; 1000; -32768; 32767] samples_example) as (s & d & H1 & H2 & H3 & _).
  exists s, d. split; [exact H1|]. split; [exact H2|exact H3].
Defined.

Lemma companding_monotone_witness :
  exists b b' y y', Encode ALaw [-5] = Ok [b] /\ Encode ALaw [1200] = Ok [b'] /\
    Decode ALaw [b] = Ok [y] /\ Decode ALaw [b'] = Ok [y'] /\ y <= y'.
Proof. apply (companding_monotone ALaw (-5) 1200); unfold is_sample; lia. Defined.

Lemma companding_roundtrip_witness :
  exists data s', Decode ALaw [0; 85; 213; 255] = Ok data /\ Encode ALaw data = Ok s' /\
    s' = [0; 85; 213; 255].
Proof.
  destruct (companding_roundtrip ALaw [0; 85; 213; 255]) as (d & s' & H1 & H2 & _ & H4).
  - repeat constructor; unfold is_byte; lia.
  - exists d, s'. split; [exact H1|]. split; [exact H2|]. by apply H4.
Defined.

Lemma companding_writers_witness :
  exists b c, writeEncoded ULaw [9; 9; 9] 3 [1000; -1000] = Ok (b, c) /\ zlen b <= c.
Proof.
  destruct (proj1 (companding_writers ULaw [9; 9; 9] 3 [1000; -1000])) as (b & c & H1 & _ & H3).
  - repeat constructor; unfold is_sample; lia.
  - exists b, c. split; [exact H1|exact H3].
Defined.
