(* ===== verification/Media.v ===== *)
(** * Media: the frame writers of the root package

    [src/buffers.go], [src/gain.go], [src/media.go], [src/pcm.go] and
    [src/bytes.go].  The writer below a component is represented by what it
    received and by the outcomes of its calls, which are arguments.  A frame
    that the code passes on as a part of its own buffer is recorded with the
    contents it has at that moment. *)

From Stdlib Require Import SpecFloat.
From stdpp Require Import base tactics numbers strings list.
From S2P Require Import Prelude GoFloat.

#[local] Open Scope go_scope.

(** The outcome of the next call of the writer below, and the later ones. *)
Definition nextErr (errs : list (option error)) : option error := default None (head errs).

(** ** [FullFrames] ([buffers.go]) *)

Section full_frames.
Context {S : Type}.

(** [type fullFrameBuffer struct]; [passed] are the frames given to [w]. *)
Record fullFrameBuffer : Type := mkFFB {
  dropTail : bool;
  frameSize : Z;
  buf : list S;
  passed : list (list S);
}.

(** [FullFrames]; [dropOnClose] is the option [DropTailOnClose]. *)
Definition FullFrames (size : Z) (dropOnClose : bool) : outcome fullFrameBuffer :=
  if size <=? 0 then Panic else Ok (mkFFB dropOnClose size [] []).

(** The loop of [flush], over what is left of the buffer. *)
Fixpoint flushFrames (fuel : nat) (size : Z) (it : list S) (out : list (list S))
    (errs : list (option error)) : outcome (list S * list (list S) * list (option error) * option error) :=
  match fuel with
  | O => Ok (it, out, errs, None)
  | Datatypes.S fuel =>
      let! n := go_quot (zlen it) size in
      if n <=? 0 then Ok (it, out, errs, None)
      else
        let! frame := go_slice it 0 size in
        let! it := go_slice it (zlen frame) (zlen it) in
        match nextErr errs with
        | Some err => Ok (it, out ++ [frame], tail errs, Some err)
        | None => flushFrames fuel size it (out ++ [frame]) (tail errs)
        end
  end.

(** [flush]; what the deferred function leaves in the buffer is [it]. *)
Definition flush (force : bool) (errs : list (option error)) (b : fullFrameBuffer)
    : outcome (fullFrameBuffer * option error) :=
  let! (it, out, errs, err) := flushFrames (length (buf b)) (frameSize b) (buf b) (passed b) errs in
  match err with
  | Some err => Ok (mkFFB (dropTail b) (frameSize b) it out, Some err)
  | None =>
      if force && (0 <? zlen it) then
        match nextErr errs with
        | Some err => Ok (mkFFB (dropTail b) (frameSize b) it (out ++ [it]), Some err)
        | None => Ok (mkFFB (dropTail b) (frameSize b) [] (out ++ [it]), None)
        end
      else Ok (mkFFB (dropTail b) (frameSize b) it out, None)
  end.

Definition ffWriteSample (sample : list S) (errs : list (option error)) (b : fullFrameBuffer)
    : outcome (fullFrameBuffer * option error) :=
  flush false errs (mkFFB (dropTail b) (frameSize b) (buf b ++ sample) (passed b)).

(** [Close]: the error of the flush and that of closing the writer below. *)
Definition ffClose (errs : list (option error)) (closeErr : option error) (b : fullFrameBuffer)
    : outcome (fullFrameBuffer * (option error * option error)) :=
  let! (b, err) := flush (negb (dropTail b)) errs b in
  Ok (b, (err, closeErr)).

(** A sequence of writes, each with the outcomes of the calls it makes. *)
Fixpoint ffWriteAll (ws : list (list S * list (option error))) (b : fullFrameBuffer)
    : outcome (fullFrameBuffer * list (option error)) :=
  match ws with
  | [] => Ok (b, [])
  | (sample, errs) :: ws =>
      let! (b, err) := ffWriteSample sample errs b in
      let! (b, res) := ffWriteAll ws b in
      Ok (b, err :: res)
  end.

End full_frames.
Arguments fullFrameBuffer : clear implicits.

(** ** [PCM16GainWriter] ([gain.go]) *)

Definition gainFractionBits : Z := 16.
Definition unityGain : Z := Z.shiftl 1 gainFractionBits.

(** [SetGain]: the new gain or the error. *)
Definition SetGain `{Conversions} (v : float) : Z + error :=
  if SFltb v (S754_zero false) || isNaN v then inr (Errorf "invalid gain %v: must be >= 0 and not NaN")
  else inl (toUint32 (fmul32 v (ofInt32 unityGain))).

(** One sample of the loop of [WriteSample]. *)
Definition scale (gainFP v : Z) : Z :=
  let s := Z.shiftr (i64 (v * gainFP)) gainFractionBits in
  i16 (if 32767 <? s then 32767 else if s <? -32768 then -32768 else s).

(** The frame that [WriteSample] passes on at the gain [gainFP]. *)
Definition gainWriteSample (gainFP : Z) (sample : list Z) : list Z :=
  if gainFP =? unityGain then sample
  else if gainFP =? 0 then replicate (length sample) 0
  else scale gainFP <$> sample.

(** ** [WriteCloserSwitch] and [SwitchWriter] ([media.go]) *)

(** A writer that can be attached: an identity and its sample rate. *)
Record writer : Type := mkWriter { wid : nat; wrate : Z }.

(** [sampleRate] (an int32), [w] and, for a [SwitchWriter], [disabled];
    [forwarded] are the frames passed on, with the writer that got them. *)
Record switch : Type := mkSwitch {
  swRate : Z;
  swWriter : option writer;
  disabled : bool;
  forwarded : list (nat * list Z);
}.

Definition NewSwitchWriter (rate : Z) : outcome switch :=
  if rate =? 0 then Panic
  else Ok (mkSwitch (i32 (if rate <? 0 then -1 else rate)) None false []).

Definition NewWriteCloserSwitch (rate : Z) : switch :=
  mkSwitch (if 0 <? rate then i32 rate else 0) None false [].

Definition switchSampleRate (s : switch) : Z := if 0 <? swRate s then swRate s else -1.

(** [WriteCloserSwitch.Swap]: the state, also after a panic, and the old
    writer. *)
Definition switchSwap (w : option writer) (s : switch) : switch * outcome (option writer) :=
  match w with
  | Some x =>
      let newRate := i32 (wrate x) in
      let oldRate := swRate s in
      if (0 <? oldRate) && negb (oldRate =? newRate)
      then (mkSwitch newRate (swWriter s) (disabled s) (forwarded s), Panic)
      else (mkSwitch newRate (Some x) (disabled s) (forwarded s), Ok (swWriter s))
  | None => (mkSwitch (swRate s) None (disabled s) (forwarded s), Ok (swWriter s))
  end.

(** [WriteCloserSwitch.WriteSample]; [werr] is the writer's outcome. *)
Definition switchWriteSample (sample : list Z) (werr : option error) (s : switch)
    : switch * option error :=
  match swWriter s with
  | None => (s, None)
  | Some w => (mkSwitch (swRate s) (swWriter s) (disabled s) (forwarded s ++ [(wid w, sample)]), werr)
  end.

(** [WriteCloserSwitch.Close]; [cerr] is the writer's outcome. *)
Definition switchClose (cerr : option error) (s : switch) : option error :=
  match swWriter s with None => None | Some _ => cerr end.

(** [WriteCloserSwitch.Get], [SwitchWriter.Get] *)
Definition switchGet (s : switch) : option writer := swWriter s.
Definition Get (s : switch) : option writer := switchGet s.

Definition Enable (s : switch) : switch := mkSwitch (swRate s) (swWriter s) false (forwarded s).
Definition Disable (s : switch) : switch := mkSwitch (swRate s) (swWriter s) true (forwarded s).

(** [SwitchWriter.SampleRate] *)
Definition SampleRate (s : switch) : outcome Z :=
  let rate := switchSampleRate s in
  if rate =? 0 then Panic else if rate <? 0 then Panic else Ok rate.

Definition SetSampleRate (rate : Z) (s : switch) : outcome switch :=
  if rate <=? 0 then Panic
  else if negb (swRate s =? -1) then Panic
  else Ok (mkSwitch (i32 rate) (swWriter s) (disabled s) (forwarded s)).

(** [SwitchWriter.Swap]; [resample w r] is the writer that [ResampleWriter]
    puts in front of [w]. *)
Definition Swap (resample : writer -> Z -> writer) (w : option writer) (s : switch)
    : switch * outcome (option writer) :=
  match w with
  | None => switchSwap None s
  | Some x =>
      match SampleRate s with
      | Panic => (s, Panic)
      | Ok rate => switchSwap (Some (if negb (rate =? wrate x) then resample x rate else x)) s
      end
  end.

(** [SwitchWriter.WriteSample] *)
Definition WriteSample (sample : list Z) (werr : option error) (s : switch) : switch * option error :=
  if disabled s then (s, None) else switchWriteSample sample werr s.

(** ** [MultiWriter] ([media.go]) *)

(** The writers' outcomes in order; every one of them is called, and the last
    error wins. *)
Fixpoint multiLast (errs : list (option error)) (last : option error) : option error :=
  match errs with
  | [] => last
  | err :: errs => multiLast errs (match err with Some e => Some e | None => last end)
  end.

Definition multiWriteSample (errs : list (option error)) : option error := multiLast errs None.
Definition multiClose (errs : list (option error)) : option error := multiLast errs None.

(** ** [PCM16Sample] ([pcm.go]) and [byteEncoder] ([bytes.go]) *)

Definition Size (s : list Z) : Z := zlen s * 2.

(** [binary.LittleEndian.PutUint16(_, uint16(v))] *)
Definition putLE (v : Z) : list Z := [u8 (u16 v); u8 (Z.shiftr (u16 v) 8)].

(** [CopyTo]: the new contents of [dst], and the count or the error. *)
Definition CopyTo (s dst : list Z) : list Z * (Z + error) :=
  if zlen dst <? zlen s * 2 then (dst, inr ErrShortBuffer)
  else (concat (putLE <$> s) ++ drop (length s * 2) dst, inl (zlen s * 2)).

(** [byteEncoder.WriteSample] for PCM frames: the buffer and its capacity, and
    the bytes given to [WriteRaw] or the error. *)
Definition encodeBytes (buf : list Z) (cap_ : Z) (sample : list Z)
    : outcome (list Z * Z * (list Z + error)) :=
  let sz := Size sample in
  let '(b, c) := if cap_ <? sz then (replicate (Z.to_nat sz) 0, sz)
                 else (take (Z.to_nat sz) (buf ++ replicate (Z.to_nat sz) 0), cap_) in
  match CopyTo sample b with
  | (b, inr err) => Ok (b, c, inr err)
  | (b, inl n) => let! raw := go_slice b 0 n in Ok (b, c, inl raw)
  end.

(** ** [PlayAudio] ([pcm.go]) *)

(** Each tick comes with whether the context is done and the writer's outcome;
    [f] is [frames[0]] and [frames] the rest.  The result is the frames given to
    the writer and, once it returns, the error. *)
Fixpoint playLoop {T : Type} (ticks : list (option error * option error)) (f : T) (frames written : list T)
    : list T * option (option error) :=
  match ticks with
  | [] => (written, None)
  | (cancelled, werr) :: ticks =>
      match cancelled with
      | Some err => (written, Some (Some err))
      | None =>
          match werr with
          | Some err => (written ++ [f], Some (Some err))
          | None =>
              match frames with
              | [] => (written ++ [f], Some None)
              | f' :: frames => playLoop ticks f' frames (written ++ [f])
              end
          end
      end
  end.

Definition PlayAudio {T : Type} (frames : list T) (ticks : list (option error * option error))
    : list T * option (option error) :=
  match frames with
  | [] => ([], Some None)
  | f :: frames => playLoop ticks f frames []
  end.

(** ** The calls of a [SwitchWriter], in the order they take effect *)

Inductive switchCall : Type :=
| CSwap (w : option writer)
| CWrite (sample : list Z) (werr : option error)
| CEnable
| CDisable
| CSetSampleRate (rate : Z).

(** The state after a call, also when it panicked, and the writer that [Swap]
    returned. *)
Definition switchCallStep (resample : writer -> Z -> writer) (c : switchCall) (s : switch)
    : switch * option writer :=
  match c with
  | CSwap w => let '(s, old) := Swap resample w s in (s, match old with Ok old => old | Panic => None end)
  | CWrite sample werr => (fst (WriteSample sample werr s), None)
  | CEnable => (Enable s, None)
  | CDisable => (Disable s, None)
  | CSetSampleRate rate => (match SetSampleRate rate s with Ok s => s | Panic => s end, None)
  end.

Fixpoint switchRun (resample : writer -> Z -> writer) (cs : list switchCall) (s : switch)
    : switch * list writer :=
  match cs with
  | [] => (s, [])
  | c :: cs =>
      let '(s, old) := switchCallStep resample c s in
      let '(s, olds) := switchRun resample cs s in
      (s, option_list old ++ olds)
  end.
