(* ===== verification/MediaProps.v ===== *)
(** * MediaProps: what the frame writers promise

    Rechunking by [FullFrames], the gain of [PCM16GainWriter], the sample rate
    of a [SwitchWriter], and the byte encoding of PCM frames. *)

From Stdlib Require Import SpecFloat.
From stdpp Require Import base tactics numbers strings list.
From S2P Require Import Prelude GoFloat Media.

#[local] Open Scope go_scope.

(** ** [FullFrames] *)

Section full_frames.
Context {S : Type}.
Implicit Types (b : fullFrameBuffer S) (l : list S).

Definition quiet (errs : list (option error)) : Prop := Forall (fun e => e = None) errs.

Lemma nextErr_quiet errs : quiet errs -> nextErr errs = None.
Proof. destruct errs; [done|]. by intros [-> _]%Forall_cons. Qed.

Lemma tail_quiet errs : quiet errs -> quiet (tail errs).
Proof. destruct errs; [done|]. by intros [_ ?]%Forall_cons. Qed.

Definition full (size : Z) (frames : list (list S)) : Prop := Forall (fun f => zlen f = size) frames.

(** The loop of [flush] cuts whole frames off the front until the writer
    fails. *)
Lemma flushFrames_spec fuel size l out errs :
  0 < size -> (length l <= fuel)%nat ->
  exists it cut errs' err,
    flushFrames fuel size l out errs = Ok (it, out ++ cut, errs', err) /\
    l = concat cut ++ it /\ full size cut /\
    (err = None -> zlen it < size) /\
    (quiet errs -> err = None /\ quiet errs').
Proof.
  intros Hs. revert l out errs. induction fuel as [|fuel IH]; intros l out errs Hf; simpl.
  - destruct l; simpl in Hf; [|lia]. exists [], [], errs, None. rewrite app_nil_r. unfold zlen, full. simpl.
    split_and!; try done; lia.
  - unfold go_quot. case_if; [lia|]. simpl. case_if.
    + exists l, [], errs, None. rewrite app_nil_r. unfold full. split_and!; try done. intros _.
      pose proof (zlen_nonneg l). assert (Hz : zlen l ÷ size = 0) by (pose proof (Z.quot_pos (zlen l) size); lia).
      apply Z.quot_small_iff in Hz; lia.
    + assert (Hl : size <= zlen l).
      { destruct (Z.le_gt_cases size (zlen l)); [done|]. pose proof (zlen_nonneg l).
        rewrite Z.quot_small in Heqb0 by lia. lia. }
      rewrite go_slice_Ok by lia. simpl. rewrite Z.sub_0_r, drop_0.
      assert (Hlen : zlen (take (Z.to_nat size) l) = size).
      { unfold zlen in *. rewrite length_take. lia. }
      rewrite Hlen, go_slice_Ok by lia. simpl.
      rewrite (take_ge (drop _ _)) by (rewrite length_drop; unfold zlen in *; lia).
      destruct (nextErr errs) as [e|] eqn:He.
      * exists (drop (Z.to_nat size) l), [take (Z.to_nat size) l], (tail errs), (Some e). simpl.
        rewrite app_nil_r, take_drop. split_and!; try done.
        -- by repeat constructor.
        -- intros Hq. by rewrite nextErr_quiet in He.
      * destruct (IH (drop (Z.to_nat size) l) (out ++ [take (Z.to_nat size) l]) (tail errs))
          as (it & cut & errs' & err & -> & Hd & Hc & Hi & Hq).
        { rewrite length_drop. unfold zlen in *. lia. }
        exists it, (take (Z.to_nat size) l :: cut), errs', err.
        rewrite <- app_assoc. simpl. rewrite <- app_assoc, <- Hd, take_drop.
        split_and!; try done.
        -- by constructor.
        -- intros. by apply Hq, tail_quiet.
Qed.

Lemma ffWriteSample_spec b l errs :
  0 < frameSize b ->
  exists it cut err,
    ffWriteSample l errs b = Ok (mkFFB (dropTail b) (frameSize b) it (passed b ++ cut), err) /\
    buf b ++ l = concat cut ++ it /\ full (frameSize b) cut /\
    (err = None -> zlen it < frameSize b) /\ (quiet errs -> err = None).
Proof.
  intros Hs. unfold ffWriteSample, flush. simpl.
  destruct (flushFrames_spec (length (buf b ++ l)) (frameSize b) (buf b ++ l) (passed b) errs Hs ltac:(lia))
    as (it & cut & errs' & err & -> & Hd & Hc & Hi & Hq).
  exists it, cut, err. simpl. destruct err; simpl; split_and!; try done; naive_solver.
Qed.

Lemma ffWriteAll_spec ws b :
  0 < frameSize b ->
  exists it cut res,
    ffWriteAll ws b = Ok (mkFFB (dropTail b) (frameSize b) it (passed b ++ cut), res) /\
    buf b ++ concat (ws.*1) = concat cut ++ it /\ full (frameSize b) cut /\
    (last res = Some None -> zlen it < frameSize b) /\
    (Forall quiet (ws.*2) -> Forall (fun e => e = None) res) /\
    length res = length ws /\ (ws = [] -> it = buf b).
Proof.
  revert b. induction ws as [|[l errs] ws IH]; intros b Hs.
  - exists (buf b), [], []. simpl. rewrite !app_nil_r. unfold full. destruct b; simpl in *. by split_and!.
  - simpl. destruct (ffWriteSample_spec b l errs Hs) as (it & cut & err & -> & Hd & Hc & Hi & Hq). simpl.
    destruct (IH (mkFFB (dropTail b) (frameSize b) it (passed b ++ cut)) Hs)
      as (it' & cut' & res & -> & Hd' & Hc' & Hi' & Hq' & Hlen & Hnil). simpl in *.
    exists it', (cut ++ cut'), (err :: res). rewrite concat_app, (app_assoc (buf b)), Hd, <- !app_assoc, <- Hd'.
    split_and!; try done.
    + by apply Forall_app.
    + destruct res as [|r res]; [|done]. destruct ws; [|done]. rewrite (Hnil eq_refl).
      intros [= ->]. auto.
    + intros [Hq1 Hq2]%Forall_cons. constructor; auto.
    + simpl. lia.
Qed.

End full_frames.

(** C31: [FullFrames] rechunks: whatever the writer below answers, the samples
    it got and those still buffered are the samples written, in order, none
    lost and none repeated, and it got frames of exactly [frameSize]; after a
    write without error less than a frame is buffered (what a failing writer
    left behind has been passed on).  Closing passes the tail on once, unless
    [DropTailOnClose] was given. *)
Theorem full_frames_rechunk {S : Type} (size : Z) (d : bool) (ws : list (list S * list (option error)))
    (Hsize : 0 < size) :
  exists b0 b res,
    FullFrames size d = Ok b0 /\ ffWriteAll ws b0 = Ok (b, res) /\
    concat (passed b) ++ buf b = concat (ws.*1) /\ full size (passed b) /\
    (last res = Some None -> zlen (buf b) < size) /\
    (Forall quiet (ws.*2) -> Forall (fun e => e = None) res /\
       forall errs closeErr, quiet errs ->
       exists b', ffClose errs closeErr b = Ok (b', (None, closeErr)) /\
         passed b' = passed b ++ (if d || (zlen (buf b) =? 0) then [] else [buf b])).
Proof.
  unfold FullFrames. case_if; [lia|]. eexists.
  destruct (ffWriteAll_spec ws (mkFFB d size [] []) Hsize)
    as (it & cut & res & Heq & Hd & Hc & Hi & Hq & Hlen & Hnil). simpl in *.
  exists (mkFFB d size it cut), res. simpl. split_and!; try done.
  intros Hall. split; [auto|]. intros errs closeErr Herrs.
  assert (Hit : zlen it < size).
  { destruct (last res) as [r|] eqn:Hl.
    - apply Hi. apply last_Some in Hl as [l ->].
      destruct (proj1 (Forall_app _ _ _) (Hq Hall)) as [_ [Hr _]%Forall_cons]. by f_equal.
    - apply last_None in Hl. subst. destruct ws; [|done]. rewrite (Hnil eq_refl). done. }
  unfold ffClose, flush. simpl.
  destruct (flushFrames_spec (length it) size it cut errs Hsize (le_n _))
    as (it' & cut' & errs' & err & -> & Hd' & Hc' & _ & Hq').
  destruct (Hq' Herrs) as [-> Herrs']. simpl.
  assert (cut' = []) as ->.
  { destruct cut' as [|f cut']; [done|]. apply Forall_cons in Hc' as [Hf _]. subst it.
    simpl in Hit. rewrite !zlen_app in Hit. pose proof (zlen_nonneg (concat cut')). pose proof (zlen_nonneg it'). lia. }
  simpl in Hd'. subst it'. rewrite app_nil_r.
  destruct d; simpl; [eexists; split; [done|]; by rewrite app_nil_r|].
  pose proof (zlen_nonneg it).
  destruct (0 <? zlen it) eqn:E, (zlen it =? 0) eqn:E2; bool_cases; try lia; simpl.
  - rewrite nextErr_quiet by done. by eexists.
  - eexists. split; [done|]. by rewrite app_nil_r.
Qed.

Lemma full_frames_rechunk_witness :
  exists b0 b res,
    FullFrames 2 false = Ok b0 /\
    ffWriteAll [([1; 2; 3; 4; 5], [None; Some EOF]); ([6; 7], [])] b0 = Ok (b, res) /\
    passed b = [[1; 2]; [3; 4]; [5; 6]] /\ buf b = [7] /\ res = [Some EOF; None] /\
    full 2 (passed b).
Proof.
  destruct (full_frames_rechunk 2 false [([1; 2; 3; 4; 5], [None; Some EOF]); ([6; 7], [])] ltac:(lia))
    as (b0 & b & res & H0 & Hw & _ & Hf & _). exists b0, b, res.
  injection H0 as <-. simpl in Hw. injection Hw as <- <-. by split_and!.
Defined.

(** ** [PCM16GainWriter] *)

(** For every 16-bit sample and every 32-bit fixed-point gain, the frame
    passed on has each sample times the gain over 65536, rounded down and
    clamped to 16 bits: the shortcuts for unity and zero gain agree with the
    general loop, the product does not overflow, and the order of samples is
    kept. *)
Theorem gain_scales (g : Z) (sample : list Z)
    (Hg : 0 <= g < 4294967296) (Hs : Forall (fun v => -32768 <= v <= 32767) sample) :
  gainWriteSample g sample =
    (fun v => Z.max (-32768) (Z.min 32767 (v * g / 65536))) <$> sample.
Proof.
  assert (Hscale : forall v, -32768 <= v <= 32767 ->
    scale g v = Z.max (-32768) (Z.min 32767 (v * g / 65536))).
  { intros v Hv. unfold scale, gainFractionBits.
    assert (Hvg : -140737488355328 <= v * g <= 140737488355328) by nia.
    assert (i64 (v * g) = v * g) as -> by word_lia.
    rewrite Z.shiftr_div_pow2 by lia. change (2 ^ 16) with 65536.
    set (x := v * g / 65536). clearbody x. repeat case_if; rewrite i16_id; lia. }
  unfold gainWriteSample, unityGain, gainFractionBits. change (Z.shiftl 1 16) with 65536. repeat case_if; subst.
  - symmetry. rewrite <- (list_fmap_id sample) at 2. apply Forall_fmap_ext.
    eapply Forall_impl; [done|]. intros v Hv. simpl in *. rewrite Z.div_mul by lia. lia.
  - clear. induction sample; simpl; [done|]. f_equal; [|done]. rewrite Z.mul_0_r. done.
  - apply Forall_fmap_ext. eapply Forall_impl; [done|]. auto.
Qed.

Lemma gain_scales_witness :
  gainWriteSample 98304 [1000; -1001; 30000; -30000] = [1500; -1502; 32767; -32768].
Proof. rewrite gain_scales; [reflexivity|lia|]. repeat constructor; done. Defined.

(** [SetGain] refuses the negative numbers and NaN. *)
Lemma SetGain_refuses `{Conversions} (v : float) :
  (exists err, SetGain v = inr err) <-> isNaN v = true \/ SFltb v (S754_zero false) = true.
Proof. unfold SetGain. destruct (SFltb _ _), (isNaN v); simpl; naive_solver. Qed.

(** A float32 that is not negative is stored as a whole number of 65536ths,
    rounded down, with no error from the multiplication, as long as the gain
    is less than 65536.  From there on, and for infinity, the conversion to a
    uint32 is left to the implementation of the language. *)
Theorem SetGain_stores `{Conversions} (m : positive) (e : Z) (Hv : valid_binary 24 128 (S754_finite false m e) = true) :
  let g := scaled (Z.pos m) (e + 16) in
  SetGain (S754_finite false m e) =
    inl (if g <=? 4294967295 then g else beyond 0 4294967295 (fmul32 (S754_finite false m e) (ofInt32 unityGain))).
Proof.
  cbn zeta. unfold SetGain. cbn [SFltb SFcompare isNaN orb]. f_equal.
  change (ofInt32 unityGain) with (S754_finite false 8388608 (-7)). set (r := fmul32 _ _).
  assert (fexp 24 128 (Zdigits2 (Z.pos m) + e) = e /\ e <= 104) as [Hc He].
  { apply andb_prop in Hv as [H1 H2]. apply Z.eqb_eq in H1. apply Z.leb_le in H2. by split. }
  unfold fexp, emin in Hc. set (d := Zdigits2 (Z.pos m)) in *.
  set (K := Z.max 0 (fexp 24 128 (Zdigits2 (Z.pos m * 2 ^ 23) + (e + -7)) - (e + -7))).
  assert (Zdigits2 (Z.pos m * 2 ^ 23) = d + 23) as Hd.
  { unfold d. rewrite !Zdigits2_log2 by lia. rewrite Z.log2_mul_pow2 by lia. lia. }
  assert (0 <= K <= 23 /\ (e <= 88 -> K <= 104 - (e + -7))) as [HK HK'] by (unfold K; rewrite Hd; unfold fexp, emin; lia).
  assert (r = if e + -7 + K <=? 104 then S754_finite false (Z.to_pos (Z.pos m * 2 ^ (23 - K))) (e + -7 + K) else S754_infinity false) as Hr.
  { unfold r, fmul32. cbn [SFmul xorb]. rewrite Pos2Z.inj_mul. change (Z.pos 8388608) with (2 ^ 23).
    apply round_exact with (q := Z.pos m * 2 ^ (23 - K)); [| |rewrite <- Z.mul_assoc, <- Z.pow_add_r by lia; do 2 f_equal; lia|done]; [|lia].
    apply Z.mul_pos_pos; [done|apply Z.pow_pos_nonneg; lia]. }
  assert (0 <= scaled (Z.pos m) (e + 16)) by by apply scaled_nonneg.
  unfold toUint32, convert. clearbody r. destruct (Z.leb_spec (e + -7 + K) 104) as [Hle|Hgt]; rewrite Hr; cbn [truncated].
  - rewrite Z2Pos.id by (apply Z.mul_pos_pos; [done|apply Z.pow_pos_nonneg; lia]).
    replace (e + -7 + K) with (e + 16 - (23 - K)) by lia. rewrite scaled_shift by lia.
    destruct (Z.leb_spec 0 (scaled (Z.pos m) (e + 16))); [|lia]. done.
  - destruct (Z.leb_spec (scaled (Z.pos m) (e + 16)) 4294967295) as [Hs|]; [|done]. exfalso.
    unfold scaled in Hs. destruct (Z.leb_spec 0 (e + 16)); [|lia].
    pose proof (Z.pow_le_mono_r 2 100 (e + 16)). nia.
Qed.

(** C37: A gain set as a float32 of less than 65536 scales the frames exactly: it is
    stored as the whole number of 65536ths below it, with no rounding on the
    way, and every 16-bit sample that is then written is multiplied by the stored
    gain, rounded down and clamped, whatever shortcut is taken. *)
Theorem gain_as_set `{Conversions} (m : positive) (e : Z) (sample : list Z)
    (Hv : valid_binary 24 128 (S754_finite false m e) = true) (Hfit : scaled (Z.pos m) (e + 16) < 2 ^ 32)
    (Hs : Forall (fun v => -32768 <= v <= 32767) sample) :
  exists g, SetGain (S754_finite false m e) = inl g /\ g = scaled (Z.pos m) (e + 16) /\
    gainWriteSample g sample = (fun v => Z.max (-32768) (Z.min 32767 (v * g / 65536))) <$> sample.
Proof.
  pose proof (SetGain_stores m e Hv) as Hg. cbn zeta in Hg. destruct (Z.leb_spec (scaled (Z.pos m) (e + 16)) 4294967295); [|lia].
  eexists. split; [done|]. split; [done|]. apply gain_scales; [|done]. pose proof (scaled_nonneg (Z.pos m) (e + 16)). lia.
Qed.

(** A gain of one and a half. *)
Lemma gain_as_set_witness :
  exists g, @SetGain lowest (S754_finite false 12582912 (-23)) = inl g /\
    gainWriteSample g [1000; -1001; 30000; -30000] = [1500; -1502; 32767; -32768].
Proof.
  destruct (@gain_as_set lowest 12582912 (-23) [1000; -1001; 30000; -30000]) as (g & Hset & -> & Hw).
  - reflexivity.
  - reflexivity.
  - repeat constructor; done.
  - eexists. split; [exact Hset|]. etrans; [exact Hw|reflexivity].
Defined.

(** Half, one and a half and almost 65536, the smallest float, and two gains
    that are accepted and fit nothing. *)
Lemma SetGain_examples `{Conversions} :
  SetGain (S754_finite false 8388608 (-24)) = inl 32768 /\ SetGain (S754_finite false 12582912 (-23)) = inl 98304 /\
  SetGain (S754_finite false 16777215 (-8)) = inl 4294967040 /\ SetGain (S754_finite false 1 (-149)) = inl 0 /\
  SetGain (S754_finite false 8388608 (-7)) = inl (beyond 0 4294967295 (S754_finite false 8388608 9)) /\
  SetGain (S754_infinity false) = inl (beyond 0 4294967295 (S754_infinity false)) /\ SetGain (S754_zero true) = inl 0.
Proof. split_and!; reflexivity. Qed.

(** ** [SwitchWriter] *)

Section switch.
Context (resample : writer -> Z -> writer).
Hypothesis resample_rate : forall w r, wrate (resample w r) = r.
Implicit Types s : switch.

(** Rates are positive [int32]s. *)
Definition validRate (r : Z) : Prop := 0 < r <= 2147483647.
Definition validCall (c : switchCall) : Prop :=
  match c with
  | CSwap (Some w) => validRate (wrate w)
  | CSetSampleRate r => r <= 2147483647
  | _ => True
  end.

Definition switchInv s : Prop :=
  (swRate s = -1 /\ swWriter s = None) \/
  (validRate (swRate s) /\ forall w, swWriter s = Some w -> wrate w = swRate s).

(** What a call does: the rate, once positive, stays; the writer that was
    attached is returned or still attached; only the attached writer gets
    frames. *)
Definition switchRel s s' (old : option writer) : Prop :=
  (0 < swRate s -> swRate s' = swRate s) /\
  (exists fr, forwarded s' = forwarded s ++ fr /\
     forall i f, (i, f) ∈ fr -> disabled s = false /\ exists w, swWriter s = Some w /\ wid w = i) /\
  (forall w, swWriter s = Some w -> old = Some w \/ swWriter s' = Some w) /\
  (forall w, old = Some w -> swWriter s = Some w).

Lemma rel_same s s' :
  swRate s' = swRate s -> swWriter s' = swWriter s -> forwarded s' = forwarded s ->
  switchRel s s' None.
Proof.
  intros Hr Hw Hf. split_and!; try done; [|naive_solver congruence].
  exists []. rewrite app_nil_r. split; [done|]. intros ? ? []%not_elem_of_nil.
Qed.

Lemma inv_same s s' :
  swRate s' = swRate s -> swWriter s' = swWriter s -> switchInv s -> switchInv s'.
Proof. unfold switchInv. intros -> ->. done. Qed.

Lemma swap_inv w s s' old :
  switchInv s -> Swap resample w s = (s', old) ->
  switchInv s' /\ switchRel s s' (match old with Ok old => old | Panic => None end).
Proof.
  intros HI. destruct w as [w|]; simpl.
  - unfold SampleRate, switchSampleRate. destruct HI as [[Hr Hn]|[Hr Hw]].
    + rewrite Hr. simpl. intros [= <- <-]. split; [by left|]. by apply rel_same.
    + destruct (0 <? swRate s) eqn:E; bool_cases; [|unfold validRate in *; lia].
      destruct (swRate s =? 0) eqn:E1; bool_cases; [lia|].
      destruct (swRate s <? 0) eqn:E2; bool_cases; [lia|].
      set (x := if negb (swRate s =? wrate w) then resample w (swRate s) else w).
      assert (Hx : wrate x = swRate s) by (subst x; case_if; [by rewrite resample_rate|done]).
      rewrite Hx, i32_id by (unfold validRate in *; lia). rewrite Z.eqb_refl. simpl. intros [= <- <-].
      split; [right; simpl; split; [done|congruence]|].
      split_and!; simpl; try done; [|auto].
      exists []. rewrite app_nil_r. split; [done|]. intros ? ? []%not_elem_of_nil.
  - intros [= <- <-]. split.
    + destruct HI as [[Hr _]|[Hr _]]; [left|right]; by split.
    + split_and!; simpl; try done; [|auto].
      exists []. rewrite app_nil_r. split; [done|]. intros ? ? []%not_elem_of_nil.
Qed.

Lemma call_inv c s s' old :
  switchInv s -> validCall c -> switchCallStep resample c s = (s', old) ->
  switchInv s' /\ switchRel s s' old.
Proof.
  intros HI Hc. destruct c as [w|f werr| | |r]; simpl.
  - destruct (Swap resample w s) as [s1 o] eqn:E. intros [= <- <-]. by eapply swap_inv.
  - unfold WriteSample, switchWriteSample. destruct (disabled s) eqn:Ed; simpl.
    { intros [= <- <-]. split; [done|]. by apply rel_same. }
    destruct (swWriter s) as [w|] eqn:Ew; simpl; intros [= <- <-].
    + split; [by eapply inv_same; [..|exact HI]|]. split_and!; simpl; try done; [|rewrite <- Ew; auto].
      eexists. split; [done|]. intros i f' [= -> ->]%list_elem_of_singleton. split; [done|]. by exists w.
    + split; [done|]. by apply rel_same.
  - intros [= <- <-]. split; [by eapply inv_same; [..|exact HI]|]. by apply rel_same.
  - intros [= <- <-]. split; [by eapply inv_same; [..|exact HI]|]. by apply rel_same.
  - unfold SetSampleRate. case_if; [intros [= <- <-]; split; [done|]; by apply rel_same|].
    destruct (swRate s =? -1) eqn:E; simpl; bool_cases; intros [= <- <-]; [|split; [done|]; by apply rel_same].
    assert (Hn : swWriter s = None) by (destruct HI as [[_ ?]|[Hr _]]; [done|unfold validRate in *; lia]).
    rewrite i32_id by (simpl in Hc; lia). split.
    + right. simpl. rewrite Hn. split; [unfold validRate; simpl in Hc; lia|done].
    + split_and!; simpl; try done; [lia| |auto].
      exists []. rewrite app_nil_r. split; [done|]. intros ? ? []%not_elem_of_nil.
Qed.

Lemma run_inv cs s s' olds :
  switchInv s -> Forall validCall cs -> switchRun resample cs s = (s', olds) ->
  switchInv s' /\ (0 < swRate s -> swRate s' = swRate s).
Proof.
  revert s olds. induction cs as [|c cs IH]; intros s olds HI Hcs; simpl.
  - by intros [= <- <-].
  - apply Forall_cons in Hcs as [Hc Hcs].
    destruct (switchCallStep resample c s) as [s1 old] eqn:E1.
    destruct (switchRun resample cs s1) as [s2 olds'] eqn:E2. intros [= <- <-].
    destruct (call_inv c s s1 old HI Hc E1) as [HI1 (Hr1 & _)].
    destruct (IH s1 olds' HI1 Hcs E2) as [HI2 Hr2]. split; [done|]. intros Hr.
    rewrite Hr2; rewrite Hr1; done.
Qed.

(** A [SwitchWriter], through any calls, refused ones included: no writer
    is attached while the rate is unset, an attached writer always has the
    switch's rate, a rate that was set never changes; and whatever the history,
    the next call passes frames to the attached writer only and only while
    enabled, and keeps the attached writer or returns it. *)
Theorem switch_keeps_rate (rate : Z) (cs1 cs2 : list switchCall) (c : switchCall)
    (Hrate : rate <> 0 /\ rate <= 2147483647)
    (Hcs1 : Forall validCall cs1) (Hcs2 : Forall validCall cs2) (Hc : validCall c) :
  exists s0, NewSwitchWriter rate = Ok s0 /\
  forall s1 olds1 s2 olds2 s3 old,
    switchRun resample cs1 s0 = (s1, olds1) -> switchRun resample cs2 s1 = (s2, olds2) ->
    switchCallStep resample c s2 = (s3, old) ->
    switchInv s3 /\ (0 < swRate s1 -> swRate s3 = swRate s1) /\ switchRel s2 s3 old.
Proof.
  unfold NewSwitchWriter. case_if; [lia|]. eexists. split; [done|].
  intros s1 olds1 s2 olds2 s3 old H1 H2 H3.
  apply run_inv in H1 as [HI1 _]; [| |done].
  - apply run_inv in H2 as [HI2 Hr2]; [|done|done].
    destruct (call_inv c s2 s3 old HI2 Hc H3) as [HI3 HR]. split_and!; try done.
    intros Hr. destruct HR as [Hr3 _]. rewrite Hr3; rewrite Hr2; done.
  - unfold switchInv, validRate. simpl. case_if; [by left|].
    rewrite i32_id by lia. right. split; [lia|done].
Qed.

End switch.

Lemma switch_keeps_rate_witness :
  let resample w r := mkWriter (wid w + 100) r in
  exists s0 s1 s2 s3,
    NewSwitchWriter (-1) = Ok s0 /\
    switchRun resample [CSwap (Some (mkWriter 1 48000)); CSetSampleRate 8000;
      CSwap (Some (mkWriter 1 48000))] s0 = (s1, []) /\
    switchRun resample [CWrite [5] None; CDisable; CWrite [6] None; CEnable] s1 = (s2, []) /\
    switchCallStep resample (CSwap (Some (mkWriter 2 8000))) s2 = (s3, Some (mkWriter 101 8000)) /\
    switchInv s3 /\ switchRel s2 s3 (Some (mkWriter 101 8000)) /\ forwarded s3 = [(101%nat, [5])].
Proof.
  intros resample.
  destruct (switch_keeps_rate resample (fun _ _ => eq_refl) (-1)
    [CSwap (Some (mkWriter 1 48000)); CSetSampleRate 8000; CSwap (Some (mkWriter 1 48000))]
    [CWrite [5] None; CDisable; CWrite [6] None; CEnable] (CSwap (Some (mkWriter 2 8000))))
    as (s0 & H0 & H).
  - lia.
  - repeat constructor; simpl; unfold validRate; simpl; lia.
  - repeat constructor.
  - simpl. unfold validRate. simpl. lia.
  - injection H0 as <-. destruct (H _ _ _ _ _ _ eq_refl eq_refl eq_refl) as (HI & _ & HR).
    eexists _, _, _, _. split_and!; try reflexivity; [exact HI|exact HR].
Defined.

(** The plain [WriteCloserSwitch] records the rate of a writer before it
    refuses it: after the panic is recovered the switch still has its old
    writer but reports the refused one's rate, and from then on refuses writers
    of its own rate. *)
Theorem swap_panic_changes_rate :
  exists s s' w w',
    switchSwap (Some w) (NewWriteCloserSwitch 48000) = (s, Ok None) /\
    switchSwap (Some w') s = (s', Panic) /\
    swWriter s' = Some w /\ wrate w = 48000 /\ switchSampleRate s' = 8000 /\
    snd (switchSwap (Some w) s') = Panic.
Proof.
  eexists _, _, (mkWriter 1 48000), (mkWriter 2 8000). split; [reflexivity|]. split; [reflexivity|].
  by split_and!.
Qed.

(** ** Byte encoding of PCM frames *)

(** What a little-endian reader of 16-bit samples makes of the bytes. *)
Fixpoint getLE (bytes : list Z) : list Z :=
  match bytes with
  | lo :: hi :: bytes => i16 (lo + 256 * hi) :: getLE bytes
  | _ => []
  end.

Definition int16s (s : list Z) : Prop := Forall (fun v => -32768 <= v <= 32767) s.
Definition bytes (s : list Z) : Prop := Forall (fun v => 0 <= v < 256) s.

Lemma putLE_spec s :
  int16s s -> getLE (concat (putLE <$> s)) = s /\ bytes (concat (putLE <$> s)) /\
  length (concat (putLE <$> s)) = (length s * 2)%nat.
Proof.
  induction 1 as [|v s Hv _ (IH1 & IH2 & IH3)]; [by split_and!; [|constructor|]|].
  change (concat (putLE <$> v :: s)) with (u8 (u16 v) :: u8 (Z.shiftr (u16 v) 8) :: concat (putLE <$> s)).
  cbn [getLE length]. rewrite IH1, Z.shiftr_div_pow2 by lia. change (2 ^ 8) with 256. split_and!.
  - f_equal. rewrite Z.mul_comm. word_lia.
  - repeat constructor; try apply u8_range. exact IH2.
  - rewrite IH3. lia.
Qed.

(** A PCM frame survives its byte encoding: [CopyTo] refuses exactly the
    destinations shorter than [Size] and leaves them alone, otherwise writes
    [Size] bytes that decode to the frame and nothing beyond; and the
    [byteEncoder], whatever its buffer held, gives [WriteRaw] exactly those
    bytes, as one call. *)
Theorem pcm_bytes_roundtrip (s dst buf : list Z) (cap_ : Z)
    (Hs : int16s s) (Hcap : zlen buf <= cap_) :
  exists raw buf' cap',
    getLE raw = s /\ bytes raw /\ zlen raw = Size s /\
    CopyTo s dst = (if zlen dst <? Size s then (dst, inr ErrShortBuffer)
                    else (raw ++ drop (length raw) dst, inl (Size s))) /\
    encodeBytes buf cap_ s = Ok (buf', cap', inl raw) /\ zlen buf' <= cap'.
Proof.
  destruct (putLE_spec s Hs) as (Hg & Hb & Hl). unfold Size.
  set (raw := concat (putLE <$> s)) in *.
  assert (Henc : forall b (c : Z), length b = length raw ->
    match CopyTo s b with
    | (b, inr err) => Ok (b, c, inr err)
    | (b, inl n) => let! raw := go_slice b 0 n in Ok (b, c, inl raw)
    end = Ok (A := list Z * Z * (list Z + error)) (raw, c, inl raw)).
  { intros b c Hlen. unfold CopyTo. assert (zlen b = zlen s * 2) as -> by (unfold zlen; lia).
    rewrite Z.ltb_irrefl. fold raw. rewrite drop_ge by lia. rewrite app_nil_r.
    rewrite go_slice_Ok by (unfold zlen; lia). simpl. rewrite drop_0, take_ge by (unfold zlen; lia). done. }
  exists raw. unfold encodeBytes, Size. destruct (cap_ <? zlen s * 2) eqn:E; bool_cases.
  - exists raw, (zlen s * 2). split_and!; try (done || (unfold zlen; lia)).
    + unfold CopyTo. fold raw. rewrite Hl. done.
    + apply Henc. rewrite length_replicate. unfold zlen. lia.
  - exists raw, cap_. split_and!; try (done || (unfold zlen in *; lia)).
    + unfold CopyTo. fold raw. rewrite Hl. done.
    + apply Henc. rewrite length_take, length_app, length_replicate. unfold zlen. lia.
Qed.

Lemma pcm_bytes_roundtrip_witness :
  exists raw buf' cap',
    getLE raw = [1; -2; 256] /\ zlen raw = 6 /\
    encodeBytes [9; 9; 9; 9; 9; 9; 9] 8 [1; -2; 256] = Ok (buf', cap', inl raw) /\
    raw = [1; 0; 254; 255; 0; 1].
Proof.
  destruct (pcm_bytes_roundtrip [1; -2; 256] [] [9; 9; 9; 9; 9; 9; 9] 8) as
    (raw & buf' & cap' & Hg & _ & Hz & _ & He & _).
  - repeat constructor; done.
  - done.
  - exists raw, buf', cap'. split_and!; try done. vm_compute in He. congruence.
Defined.

(** ** [PlayAudio] *)

(** The frames written are the first ones, and when [PlayAudio] returns without
    error they are all of them; one quiet tick per frame is enough. *)
Lemma PlayAudio_prefix {T : Type} (frames : list T) ticks written r :
  PlayAudio frames ticks = (written, r) ->
  written `prefix_of` frames /\ (r = Some None -> written = frames) /\
  (Forall (fun t => t = (None, None)) ticks -> (length frames <= length ticks)%nat -> r = Some None).
Proof.
  assert (Hl : forall ticks f rest out, playLoop ticks f rest out = (written, r) ->
    written `prefix_of` out ++ f :: rest /\ (r = Some None -> written = out ++ f :: rest) /\
    (Forall (fun t => t = (None, None)) ticks -> (S (length rest) <= length ticks)%nat -> r = Some None)).
  { clear. induction ticks as [|[c e] ticks IH]; intros f rest out; simpl.
    - intros [= <- <-]. split_and!; [by apply prefix_app_r|done|lia].
    - destruct c as [c|]; [|destruct e as [e|]; [|destruct rest as [|f' rest]]]; intros H.
      1-3: injection H as <- <-.
      + split_and!; [by apply prefix_app_r|done|]. by intros [[=] _]%Forall_cons.
      + split_and!; [by exists rest; rewrite <- app_assoc|done|]. by intros [[=] _]%Forall_cons.
      + done.
      + destruct (IH f' rest (out ++ [f]) H) as (H1 & H2 & H3). rewrite <- app_assoc in H1, H2.
        split_and!; [done|done|]. intros [_ Hq]%Forall_cons Hlen. apply H3; [done|simpl in *; lia]. }
  destruct frames as [|f rest]; simpl; [by intros [= <- <-]|]. intros H. by apply Hl in H.
Qed.
