(* ===== verification/GoStr.v ===== *)
(** * GoStr: the string functions of Go's standard library that [src/] calls

    A Go string is the list of its bytes.  [ToLower], [TrimSpace] and the
    comparison are those of ASCII text: codec names, numbers and SDP attributes;
    bytes above 127 are left as they are.  The errors of the parsers carry only
    text and are represented by [None]. *)

From Stdlib Require Import Ascii.
From stdpp Require Import base tactics numbers strings list.
From S2P Require Import Prelude.

#[local] Open Scope go_scope.

Notation str := (list ascii).

Definition lit (s : string) : str := String.list_ascii_of_string s.

Definition byteOf (c : ascii) : Z := Z.of_N (N_of_ascii c).
Definition chr (z : Z) : ascii := ascii_of_N (Z.to_N z).

Definition slash : ascii := "/".
Definition space : ascii := " ".

(** [strings.IndexByte]; [None] for -1 *)
Fixpoint IndexByte (s : str) (c : ascii) : option nat :=
  match s with
  | [] => None
  | x :: s => if decide (x = c) then Some 0%nat else S <$> IndexByte s c
  end.

(** [strings.SplitN(s, sep, n)] for a separator of one byte and [n > 0]. *)
Fixpoint splitN (n : nat) (sep : ascii) (s : str) : list str :=
  match n with
  | O => []
  | S O => [s]
  | S n' =>
      match s with
      | [] => [[]]
      | c :: s =>
          if decide (c = sep) then [] :: splitN n' sep s
          else match splitN n sep s with
               | p :: ps => (c :: p) :: ps
               | [] => [[c]]
               end
      end
  end.

(** [strings.Split] *)
Definition split (sep : ascii) (s : str) : list str := splitN (S (S (length s))) sep s.

(** [strings.HasPrefix] with what follows the prefix, [strings.CutPrefix] *)
Fixpoint CutPrefix (s p : str) : option str :=
  match p, s with
  | [], _ => Some s
  | x :: p, y :: s => if decide (x = y) then CutPrefix s p else None
  | _ :: _, [] => None
  end.

Definition isSpace (c : ascii) : bool :=
  let b := byteOf c in (b =? 32) || ((9 <=? b) && (b <=? 13)).

Fixpoint trimLeft (s : str) : str :=
  match s with
  | c :: t => if isSpace c then trimLeft t else s
  | [] => []
  end.

(** [strings.TrimSpace] *)
Definition TrimSpace (s : str) : str := reverse (trimLeft (reverse (trimLeft s))).

(** [strings.ContainsAny] *)
Definition ContainsAny (s chars : str) : bool := existsb (fun c => bool_decide (c ∈ chars)) s.

Definition lowerByte (c : ascii) : ascii :=
  let b := byteOf c in if (65 <=? b) && (b <=? 90) then chr (b + 32) else c.

(** [strings.ToLower] *)
Definition ToLower (s : str) : str := map lowerByte s.

(** [strings.Join] *)
Fixpoint Join (ps : list str) (sep : str) : str :=
  match ps with
  | [] => []
  | [p] => p
  | p :: ps => p ++ sep ++ Join ps sep
  end.

(** [strings.Compare]: negative, zero or positive *)
Fixpoint Compare (a b : str) : Z :=
  match a, b with
  | [], [] => 0
  | [], _ :: _ => -1
  | _ :: _, [] => 1
  | x :: a, y :: b => if byteOf x <? byteOf y then -1 else if byteOf y <? byteOf x then 1 else Compare a b
  end.

(** ** Numbers *)

Definition digit (c : ascii) : option Z :=
  let b := byteOf c in if (48 <=? b) && (b <=? 57) then Some (b - 48) else None.

Fixpoint digits (acc : Z) (s : str) : option Z :=
  match s with
  | [] => Some acc
  | c :: s => match digit c with Some d => digits (10 * acc + d) s | None => None end
  end.

Definition decimal (s : str) : option Z := match s with [] => None | _ => digits 0 s end.

(** [strconv.ParseUint(s, 10, bits)] *)
Definition ParseUint (s : str) (bits : Z) : option Z :=
  match decimal s with
  | Some v => if v <? 2 ^ bits then Some v else None
  | None => None
  end.

(** [strconv.Atoi] *)
Definition Atoi (s : str) : option Z :=
  let '(neg, s) := match s with
                   | c :: t => if decide (c = "-"%char) then (true, t)
                               else if decide (c = "+"%char) then (false, t) else (false, s)
                   | [] => (false, s)
                   end in
  match decimal s with
  | Some v => if neg then (if v <=? 9223372036854775808 then Some (- v) else None)
              else (if v <=? 9223372036854775807 then Some v else None)
  | None => None
  end.

Fixpoint itoa (fuel : nat) (z : Z) (acc : str) : str :=
  match fuel with
  | O => acc
  | S fuel =>
      let acc := chr (48 + z mod 10) :: acc in
      if z / 10 =? 0 then acc else itoa fuel (z / 10) acc
  end.

(** [strconv.Itoa], [%d] *)
Definition Itoa (z : Z) : str :=
  if z <? 0 then "-"%char :: itoa (S (Z.to_nat (Z.log2 (- z)))) (- z) []
  else itoa (S (Z.to_nat (Z.log2 z))) z [].

(** ** Lemmas *)

Definition isDigit (c : ascii) : Prop := exists d, digit c = Some d.

Lemma digit_chr d : 0 <= d <= 9 -> digit (chr (48 + d)) = Some d.
Proof.
  intros Hd. assert (Hx : d = 0 \/ d = 1 \/ d = 2 \/ d = 3 \/ d = 4 \/ d = 5 \/ d = 6 \/ d = 7 \/
    d = 8 \/ d = 9) by lia.
  repeat match type of Hx with _ \/ _ => destruct Hx as [->|Hx]; [reflexivity|] end. subst. reflexivity.
Qed.

Lemma itoa_spec fuel z acc :
  0 <= z < 2 ^ Z.of_nat fuel ->
  exists p, itoa fuel z acc = p ++ acc /\ Forall isDigit p /\ (fuel <> 0%nat -> p <> []) /\
    forall a t, digits a (p ++ t) = digits (a * 10 ^ zlen p + z) t.
Proof.
  revert z acc. induction fuel as [|fuel IH]; intros z acc Hz.
  - exists []. assert (z = 0) as -> by (change (2 ^ Z.of_nat 0) with 1 in Hz; lia).
    split_and!; try done. intros a t. change (10 ^ zlen []) with 1. simpl. f_equal. lia.
  - assert (Hd : digit (chr (48 + z mod 10)) = Some (z mod 10)) by (apply digit_chr; lia).
    cbn [itoa]. destruct (z / 10 =? 0) eqn:E; bool_cases.
    + exists [chr (48 + z mod 10)]. split_and!; try done; [by repeat econstructor|].
      intros a t. cbn [app digits]. rewrite Hd. f_equal. unfold zlen. simpl. lia.
    + assert (Hq : 0 <= z / 10 < 2 ^ Z.of_nat fuel).
      { rewrite Nat2Z.inj_succ, Z.pow_succ_r in Hz by lia. lia. }
      destruct (IH (z / 10) (chr (48 + z mod 10) :: acc) Hq) as (p & -> & Hp & _ & Hv).
      exists (p ++ [chr (48 + z mod 10)]). rewrite <- app_assoc. split_and!; [done| |by destruct p|].
      * apply Forall_app. split; [done|]. by repeat econstructor.
      * intros a t. rewrite <- app_assoc. rewrite Hv. cbn [app digits]. rewrite Hd. f_equal.
        rewrite zlen_app. change (zlen [chr (48 + z mod 10)]) with 1.
        rewrite Z.pow_add_r by (try apply zlen_nonneg; lia). lia.
Qed.

Lemma itoa_log z :
  0 <= z -> exists p, itoa (S (Z.to_nat (Z.log2 z))) z [] = p /\ Forall isDigit p /\ p <> [] /\ decimal p = Some z.
Proof.
  intros Hz. destruct (itoa_spec (S (Z.to_nat (Z.log2 z))) z []) as (p & -> & Hp & Hn & Hv).
  - rewrite Nat2Z.inj_succ, Z2Nat.id by apply Z.log2_nonneg. split; [done|].
    destruct (Z.eq_dec z 0) as [->|]; [done|]. apply Z.log2_spec. lia.
  - exists p. rewrite app_nil_r. split_and!; try done; [by apply Hn|].
    specialize (Hv 0 []). rewrite app_nil_r in Hv. unfold decimal. destruct p; [by destruct (Hn ltac:(done))|].
    rewrite Hv. simpl. f_equal; lia.
Qed.

(** [Atoi] inverts [Itoa] on the 64-bit integers. *)
Lemma Atoi_Itoa z : -9223372036854775808 <= z <= 9223372036854775807 -> Atoi (Itoa z) = Some z.
Proof.
  intros Hz. unfold Itoa. destruct (z <? 0) eqn:E; bool_cases.
  - destruct (itoa_log (- z) ltac:(lia)) as (p & -> & _ & _ & Hv). unfold Atoi. rewrite decide_True by done.
    rewrite Hv. case_if; [f_equal; lia|lia].
  - destruct (itoa_log z ltac:(lia)) as (p & -> & Hp & Hn & Hv). unfold Atoi.
    destruct p as [|c p]; [done|]. apply Forall_cons in Hp as [[d Hc] _].
    rewrite decide_False by (intros ->; discriminate Hc). rewrite decide_False by (intros ->; discriminate Hc).
    rewrite Hv. case_if; [done|lia].
Qed.

Lemma ParseUint_Itoa z bits : 0 <= z -> ParseUint (Itoa z) bits = if z <? 2 ^ bits then Some z else None.
Proof.
  intros Hz. unfold Itoa. destruct (z <? 0) eqn:E; bool_cases; [lia|].
  destruct (itoa_log z Hz) as (p & -> & _ & _ & Hv). unfold ParseUint. by rewrite Hv.
Qed.

(** The characters of a number. *)
Definition numeral (c : ascii) : Prop := isDigit c \/ c = "-"%char.

Lemma Itoa_numeral z : Forall numeral (Itoa z).
Proof.
  assert (Hd : forall y, 0 <= y -> Forall numeral (itoa (S (Z.to_nat (Z.log2 y))) y [])).
  { intros y Hy. destruct (itoa_log y Hy) as (p & -> & Hp & _). eapply Forall_impl; [done|]. by left. }
  unfold Itoa. case_if; [constructor; [by right|]|]; apply Hd; lia.
Qed.

Lemma Itoa_not_nil z : Itoa z <> [].
Proof.
  unfold Itoa. case_if; [done|]. by destruct (itoa_log z ltac:(lia)) as (p & -> & _ & ? & _).
Qed.

(** Splitting at the first separator. *)
Lemma splitN_1 sep s : splitN 1 sep s = [s].
Proof. by destruct s. Qed.

Lemma splitN_none n sep s : sep ∉ s -> splitN (S n) sep s = [s].
Proof.
  revert n. induction s as [|c s IH]; intros n Hs; [by destruct n|].
  apply not_elem_of_cons in Hs as [Hc Hs]. destruct n as [|n]; [done|].
  cbn [splitN]. rewrite decide_False by done. change (match splitN (S (S n)) sep s with p :: ps => (c :: p) :: ps | [] => [[c]] end = [c :: s]).
  by rewrite IH.
Qed.

Lemma splitN_app n sep p s :
  sep ∉ p -> splitN (S (S n)) sep (p ++ sep :: s) = p :: splitN (S n) sep s.
Proof.
  induction p as [|c p IH]; intros Hp.
  - cbn [app splitN]. by rewrite decide_True.
  - apply not_elem_of_cons in Hp as [Hc Hp]. cbn [app]. cbn [splitN]. rewrite decide_False by done.
    change (match splitN (S (S n)) sep (p ++ sep :: s) with q :: ps => (c :: q) :: ps | [] => [[c]] end
      = (c :: p) :: splitN (S n) sep s).
    by rewrite IH.
Qed.

Lemma IndexByte_notin s c : c ∉ s -> IndexByte s c = None.
Proof.
  induction s as [|x s IH]; [done|]. intros [Hc Hs]%not_elem_of_cons. simpl.
  rewrite decide_False by done. by rewrite IH.
Qed.

(** ** Trimming *)

Lemma trimLeft_id s : (forall c, head s = Some c -> isSpace c = false) -> trimLeft s = s.
Proof. destruct s as [|c s]; [done|]. intros Hc. simpl. by rewrite (Hc c). Qed.

(** A string that starts and ends with other characters is left alone. *)
Lemma TrimSpace_id s :
  (forall c, head s = Some c -> isSpace c = false) ->
  (forall c, last s = Some c -> isSpace c = false) -> TrimSpace s = s.
Proof.
  intros Hh Ht. unfold TrimSpace. rewrite (trimLeft_id s) by done. rewrite trimLeft_id; [apply reverse_involutive|].
  by rewrite head_reverse.
Qed.

Lemma TrimSpace_plain s : Forall (fun c => isSpace c = false) s -> TrimSpace s = s.
Proof.
  intros Hs. apply TrimSpace_id; intros c Hc.
  - destruct s; [done|]. apply Forall_cons in Hs as [? _]. by injection Hc as ->.
  - apply last_Some in Hc as [l ->]. apply Forall_app in Hs as [_ [? _]%Forall_cons]. done.
Qed.

Lemma numeral_plain c : numeral c -> isSpace c = false /\ c <> " "%char /\ c <> ":"%char /\ c <> "/"%char.
Proof.
  unfold numeral, isDigit, digit, isSpace. intros Hc.
  assert (Hb : 48 <= byteOf c <= 57 \/ byteOf c = 45).
  { destruct Hc as [[d Hd]| ->]; [|by right]. destruct ((48 <=? byteOf c) && (byteOf c <=? 57)) eqn:E; bool_cases; [lia|done]. }
  split_and!; try lia.
  - intros ->. change (byteOf " ") with 32 in Hb. lia.
  - intros ->. change (byteOf ":") with 58 in Hb. lia.
  - intros ->. change (byteOf "/") with 47 in Hb. lia.
Qed.

Lemma Itoa_notin z c : (forall d, numeral d -> d <> c) -> c ∉ Itoa z.
Proof. intros Hc Hin. apply (proj1 (Forall_forall _ _) (Itoa_numeral z)) in Hin. by apply Hc in Hin. Qed.
