(* ===== verification/Codecs.v ===== *)
(** * Codecs: codec types, codec sets and the registry of [src/codecs.go]

    The codec sets are objects that refer to their parents, so they live in a
    store and are named by their index; set 0 is [globalSet].  A codec is
    represented by its information, its kind of offer and its [SupportsFunc];
    the constructors that [SupportsFunc] returns are not. *)

From Stdlib Require Import Ascii.
From stdpp Require Import base tactics numbers strings list gmap sorting.
From S2P Require Import Prelude GoStr.

#[local] Open Scope go_scope.

(** ** Parameters *)

Record CodecParam : Type := mkParam { Key : str; Val : str }.
Notation CodecParams := (list CodecParam).

#[export] Instance CodecParam_eq_dec : EqDecision CodecParam.
Proof. solve_decision. Defined.

Definition paramString (p : CodecParam) : str :=
  if decide (Val p = []) then Key p else Key p ++ lit "=" ++ Val p.

Definition paramsString (ps : CodecParams) : str := Join (map paramString ps) (lit ";").

Fixpoint Get (ps : CodecParams) (key : str) : option str :=
  match ps with
  | [] => None
  | p :: ps => if decide (Key p = key) then Some (Val p) else Get ps key
  end.

Fixpoint Has (ps : CodecParams) (key : str) : bool :=
  match ps with
  | [] => false
  | p :: ps => if decide (Key p = key) then true else Has ps key
  end.

Fixpoint HasValue (ps : CodecParams) (key val : str) : bool :=
  match ps with
  | [] => false
  | p :: ps => if decide (Key p = key) then bool_decide (Val p = val) else HasValue ps key val
  end.

Fixpoint HasParam (ps : CodecParams) (p2 : CodecParam) : bool :=
  match ps with
  | [] => false
  | p :: ps => if decide (Key p = Key p2) then bool_decide (Val p = Val p2) else HasParam ps p2
  end.

Definition Add (ps : CodecParams) (key val : str) : CodecParams := ps ++ [mkParam key val].

(** The loop of [Equals], after the lengths were compared. *)
Fixpoint sameParams (ps ps2 : CodecParams) : bool :=
  match ps, ps2 with
  | p1 :: ps, p2 :: ps2 => if decide (p1 <> p2) then false else sameParams ps ps2
  | _, _ => true
  end.

Definition paramsEquals (ps ps2 : CodecParams) : bool :=
  if negb (zlen ps =? zlen ps2) then false else sameParams ps ps2.

(** ** Configurations and codecs *)

Inductive Kind : Type := Unknown | Audio | Data.
#[export] Instance Kind_eq_dec : EqDecision Kind.
Proof. solve_decision. Defined.

Record CodecConfig : Type := mkConfig { SampleRate : Z; Channels : Z; Params : CodecParams }.

Record CodecTypeInfo : Type := mkTypeInfo {
  Name : str;
  kind : Kind;
  RTPDefType : Z;
  RTPIsStatic : bool;
  Priority : Z;
  FileExt : str;
}.

(** The struct embeds [CodecTypeInfo] and [CodecConfig]. *)
Record CodecInfo : Type := mkInfo {
  typeInfo : CodecTypeInfo;
  config : CodecConfig;
  RTPClockRate : Z;
}.

(** The zero values. *)
Definition noConfig : CodecConfig := mkConfig 0 0 [].
Definition noTypeInfo : CodecTypeInfo := mkTypeInfo [] Unknown 0 false 0 [].
Definition noInfo : CodecInfo := mkInfo noTypeInfo noConfig 0.

(** [CodecConfig.Equals] on pointers *)
Definition configEquals (c c2 : option CodecConfig) : bool :=
  match c, c2 with
  | None, None => true
  | Some c, Some c2 =>
      (SampleRate c =? SampleRate c2) && (Channels c =? Channels c2) && paramsEquals (Params c) (Params c2)
  | _, _ => false
  end.

(** [CodecInfo.Equals] on pointers *)
Definition infoEquals (c c2 : option CodecInfo) : bool :=
  match c, c2 with
  | None, None => true
  | Some c, Some c2 =>
      bool_decide (Name (typeInfo c) = Name (typeInfo c2)) && configEquals (Some (config c)) (Some (config c2))
  | _, _ => false
  end.

Definition Defaults (c : CodecInfo) : CodecInfo :=
  if RTPClockRate c =? 0 then mkInfo (typeInfo c) (config c) (SampleRate (config c)) else c.

Definition SDPFullName (c : CodecInfo) : str :=
  if Channels (config c) =? 0 then Name (typeInfo c) ++ lit "/" ++ Itoa (RTPClockRate c)
  else Name (typeInfo c) ++ lit "/" ++ Itoa (RTPClockRate c) ++ lit "/" ++ Itoa (Channels (config c)).

(** The two [OfferFunc]s of the program: the one [NewCodec] makes when it is
    given none, and that of [src/dtmf/dtmf.go], which looks at the rates of the
    other enabled codecs. *)
Inductive OfferFunc : Type := OfferDefault | OfferRates.

(** A [*baseCodecType]; [support] also returns whether the configuration is
    supported. *)
Record CodecType : Type := mkCodecType {
  info : CodecTypeInfo;
  offer : OfferFunc;
  support : CodecConfig -> CodecInfo * bool;
}.

Definition SDPName (c : CodecType) : str := Name (info c).

Definition NewCodec (i : CodecTypeInfo) (o : option OfferFunc) (sup : CodecConfig -> CodecInfo * bool)
    : outcome CodecType :=
  if decide (Name i = []) then Panic
  else if ContainsAny (Name i) (lit " /") then Panic
  else if decide (kind i = Unknown) then Panic
  else Ok (mkCodecType i (default OfferDefault o) sup).

Definition Supports (c : CodecType) (cfg : CodecConfig) : CodecInfo * bool :=
  let '(i, ok) := support c cfg in ((if ok then Defaults i else i), ok).

(** ** Codec sets and the registry *)

Record CodecSet : Type := mkSet { parent : option nat; enabled : gmap str bool }.

(** [calls] records the calls of the functions given to [OnRegister], which are
    named by their position. *)
Record world : Type := mkWorld {
  sets : list CodecSet;
  codecs : list CodecType;
  codecOnRegister : list nat;
  calls : list (nat * CodecType);
}.

Definition globalSet : nat := 0.
Definition initial : world := mkWorld [mkSet None ∅] [] [] [].

Definition NewCodecSet (w : world) : world * nat :=
  (mkWorld (sets w ++ [mkSet None ∅]) (codecs w) (codecOnRegister w) (calls w), length (sets w)).

(** The receiver [s] may be nil. *)
Definition NewSet (s : option nat) (w : world) : world * nat :=
  (mkWorld (sets w ++ [mkSet s ∅]) (codecs w) (codecOnRegister w) (calls w), length (sets w)).

(** The key of a codec name: without its parameters, in lower case. *)
Definition setKey (name : str) : str :=
  let name := match IndexByte name slash with Some i => take i name | None => name end in
  ToLower name.

Definition SetEnabled (s : nat) (name : str) (b : bool) (w : world) : outcome world :=
  match sets w !! s with
  | None => Panic
  | Some cs =>
      Ok (mkWorld (<[s := mkSet (parent cs) (<[setKey name := b]> (enabled cs))]> (sets w))
            (codecs w) (codecOnRegister w) (calls w))
  end.

(** [SetEnabledMap]; the entries in the order of the iteration. *)
Fixpoint SetEnabledMap (s : nat) (entries : list (str * bool)) (w : world) : outcome world :=
  match entries with
  | [] => Ok w
  | (name, b) :: entries => let! w := SetEnabled s name b w in SetEnabledMap s entries w
  end.

(** The loop of [IsEnabledByName] over the chain of parents. *)
Fixpoint lookupSets (fuel : nat) (ss : list CodecSet) (s : option nat) (key : str) : bool :=
  match fuel, s with
  | S fuel, Some i =>
      match ss !! i with
      | Some cs => match enabled cs !! key with Some b => b | None => lookupSets fuel ss (parent cs) key end
      | None => false
      end
  | _, _ => false
  end.

Definition IsEnabledByName (w : world) (s : option nat) (name : str) : bool :=
  match s with
  | None => false
  | Some _ => lookupSets (length (sets w)) (sets w) s (setKey name)
  end.

(** [c] is nil for [None]. *)
Definition IsEnabled (w : world) (s : option nat) (c : option CodecType) : bool :=
  match s, c with
  | Some _, Some c => IsEnabledByName w s (SDPName c)
  | _, _ => false
  end.

Definition ListEnabled (w : world) (s : option nat) : list CodecType :=
  match s with
  | None => []
  | Some _ => filter (fun c => IsEnabled w s (Some c) = true) (codecs w)
  end.

(** The same on the set of [GlobalCodecs]. *)
Definition CodecSetEnabled (name : str) (b : bool) (w : world) : outcome world := SetEnabled globalSet name b w.
Definition CodecsSetEnabled (entries : list (str * bool)) (w : world) : outcome world := SetEnabledMap globalSet entries w.
Definition CodecEnabled (w : world) (c : option CodecType) : bool := IsEnabled w (Some globalSet) c.
Definition CodecEnabledByName (w : world) (name : str) : bool := IsEnabledByName w (Some globalSet) name.
Definition EnabledCodecs (w : world) : list CodecType := ListEnabled w (Some globalSet).

Definition OnRegister (w : world) : world :=
  let k := length (codecOnRegister w) in
  mkWorld (sets w) (codecs w) (codecOnRegister w ++ [k]) (calls w ++ ((fun c => (k, c)) <$> codecs w)).

Definition RegisterCodec (c : CodecType) (w : world) : outcome world :=
  let w := mkWorld (sets w) (codecs w ++ [c]) (codecOnRegister w) (calls w) in
  let! w := SetEnabled globalSet (SDPName c) true w in
  Ok (mkWorld (sets w) (codecs w) (codecOnRegister w) (calls w ++ ((fun k => (k, c)) <$> codecOnRegister w))).

(** ** Offers *)

Definition telephoneEvent : str := lit "telephone-event".

(** The rates that the offer of telephone-event collects from the offers of one
    codec. *)
Definition addRates (rates : list Z) (offers : list CodecInfo) : list Z :=
  fold_left (fun rates cc =>
    let rate := RTPClockRate cc in
    if rate <=? 0 then rates
    else if bool_decide (rate ∈ rates) then rates else rates ++ [rate]) offers rates.

(** The [OfferFunc] of telephone-event; [offerOf] is [c.Offer(s)], [legacy] is
    the variable [OfferLegacyRate], [i] its [CodecTypeInfo]. *)
Definition offerRates (legacy : bool) (i : CodecTypeInfo) (offerOf : CodecType -> list CodecInfo)
    (listed : list CodecType) : list CodecInfo :=
  let rates := if legacy then [8000] else [] in
  let rates := fold_left (fun rates c =>
    if decide (SDPName c = telephoneEvent) then rates else addRates rates (offerOf c)) listed rates in
  let rates := merge_sort Z.le rates in
  (fun rate => mkInfo i (mkConfig rate 0 [mkParam (lit "0-16") []]) 0) <$> rates.

(** [Offer]; the fuel bounds the depth of offers that look at offers. *)
Fixpoint OfferDepth (depth : nat) (legacy : bool) (w : world) (s : option nat) (c : CodecType) : list CodecInfo :=
  if negb (IsEnabled w s (Some c)) then []
  else
    let out :=
      match offer c with
      | OfferDefault =>
          let '(i, ok) := support c noConfig in if ok then [Defaults i] else []
      | OfferRates =>
          match depth with
          | O => []
          | S depth => offerRates legacy (info c) (OfferDepth depth legacy w s) (ListEnabled w s)
          end
      end in
    Defaults <$> out.

Definition Offer : bool -> world -> option nat -> CodecType -> list CodecInfo := OfferDepth 1.

(** ** Runs of the program *)

(** The worlds that the calls above reach; a set can only be made from a set
    that exists. *)
Inductive reachable : world -> Prop :=
| ReachInitial : reachable initial
| ReachNewCodecSet w : reachable w -> reachable (NewCodecSet w).1
| ReachNewSet w s :
    reachable w -> (forall i, s = Some i -> is_Some (sets w !! i)) -> reachable (NewSet s w).1
| ReachSetEnabled w w' s name b : reachable w -> SetEnabled s name b w = Ok w' -> reachable w'
| ReachOnRegister w : reachable w -> reachable (OnRegister w)
| ReachRegisterCodec w w' c : reachable w -> RegisterCodec c w = Ok w' -> reachable w'.
