(* ===== verification/CodecsProps.v ===== *)
(** * CodecsProps: codec sets, registration and offers

    The answer of a set is that of the nearest set of its chain of parents that
    has an entry; callbacks see every codec once; offers need no more depth than
    they are given. *)

From Stdlib Require Import Ascii.
From stdpp Require Import base tactics numbers strings list gmap sorting.
From S2P Require Import Prelude GoStr Codecs.

#[local] Open Scope go_scope.

(** ** The chain of parents *)

Definition setsWf (ss : list CodecSet) : Prop :=
  forall i cs p, ss !! i = Some cs -> parent cs = Some p -> (p < i)%nat.

(** The set [s] and its parents, nearest first. *)
Fixpoint chain (fuel : nat) (ss : list CodecSet) (s : option nat) : list nat :=
  match fuel, s with
  | S fuel, Some i => match ss !! i with Some cs => i :: chain fuel ss (parent cs) | None => [] end
  | _, _ => []
  end.

Definition ancestors (w : world) (s : nat) : list nat := chain (length (sets w)) (sets w) (Some s).

(** The entry of set [i]. *)
Definition setting (ss : list CodecSet) (key : str) (i : nat) : option bool :=
  match ss !! i with Some cs => enabled cs !! key | None => None end.

Definition answer (ss : list CodecSet) (key : str) (l : list nat) : bool :=
  default false (head (omap (setting ss key) l)).

Lemma lookupSets_answer fuel ss s key : lookupSets fuel ss s key = answer ss key (chain fuel ss s).
Proof.
  revert s. induction fuel as [|fuel IH]; intros s; [done|]. destruct s as [i|]; [|done]. cbn [lookupSets chain].
  destruct (ss !! i) as [cs|] eqn:E; [|done]. unfold answer. cbn [omap list_omap]. unfold setting at 1. rewrite E.
  destruct (enabled cs !! key); [done|]. apply IH.
Qed.

Lemma IsEnabledByName_answer w s name :
  IsEnabledByName w (Some s) name = answer (sets w) (setKey name) (ancestors w s).
Proof. apply lookupSets_answer. Qed.

(** The chain only depends on the parents. *)
Lemma chain_ext fuel ss ss' s :
  (forall i, parent <$> (ss !! i) = parent <$> (ss' !! i)) -> chain fuel ss s = chain fuel ss' s.
Proof.
  intros He. revert s. induction fuel as [|fuel IH]; intros s; [done|]. destruct s as [i|]; [|done]. simpl.
  specialize (He i). destruct (ss !! i), (ss' !! i); simpl in He; try done. injection He as ->. by rewrite IH.
Qed.

(** Parents are older, so the length of the store is enough fuel. *)
Lemma chain_fuel fuel fuel' ss s :
  setsWf ss -> (forall i, s = Some i -> i < fuel)%nat -> (fuel <= fuel')%nat -> chain fuel ss s = chain fuel' ss s.
Proof.
  intros Hwf. revert fuel' s. induction fuel as [|fuel IH]; intros fuel' s Hs Hf.
  - destruct s as [i|]; [specialize (Hs i eq_refl); lia|]. by destruct fuel'.
  - destruct fuel' as [|fuel']; [lia|]. destruct s as [i|]; [|done]. simpl.
    destruct (ss !! i) as [cs|] eqn:E; [|done]. f_equal. apply IH; [|lia].
    intros p Hp. specialize (Hwf i cs p E Hp). specialize (Hs i eq_refl). lia.
Qed.

Lemma chain_app fuel ss ss' s :
  setsWf ss -> (forall i, s = Some i -> i < length ss)%nat -> chain fuel (ss ++ ss') s = chain fuel ss s.
Proof.
  intros Hwf. revert s. induction fuel as [|fuel IH]; intros s Hs; [done|]. destruct s as [i|]; [|done].
  cbn [chain]. rewrite lookup_app_l by auto. destruct (ss !! i) as [cs|] eqn:E; [|done]. f_equal. apply IH.
  intros p Hp. specialize (Hwf i cs p E Hp). specialize (Hs i eq_refl). lia.
Qed.

Lemma chain_valid fuel ss s i : i ∈ chain fuel ss s -> (i < length ss)%nat.
Proof.
  revert s. induction fuel as [|fuel IH]; intros s; [by intros ?%not_elem_of_nil|].
  destruct s as [j|]; [|by intros ?%not_elem_of_nil]. simpl.
  destruct (ss !! j) as [cs|] eqn:E; [|by intros ?%not_elem_of_nil].
  intros [->|H]%elem_of_cons; [by eapply lookup_lt_Some|by eapply IH].
Qed.

(** ** What reachable worlds satisfy *)

Record worldWf (w : world) : Prop := mkWf {
  wf_sets : setsWf (sets w);
  wf_global : (0 < length (sets w))%nat;
  wf_ids : codecOnRegister w = seq 0 (length (codecOnRegister w));
  wf_calls : forall k, (filter (fun x => x.1 = k) (calls w)).*2 =
               (if decide (k < length (codecOnRegister w))%nat then codecs w else []);
}.

Lemma SetEnabled_inv s name b w w' :
  SetEnabled s name b w = Ok w' ->
  exists cs, sets w !! s = Some cs /\
    sets w' = <[s := mkSet (parent cs) (<[setKey name := b]> (enabled cs))]> (sets w) /\
    codecs w' = codecs w /\ codecOnRegister w' = codecOnRegister w /\ calls w' = calls w.
Proof. unfold SetEnabled. destruct (sets w !! s) as [cs|]; [|done]. intros [= <-]. by exists cs. Qed.

Lemma setsWf_insert ss s cs e :
  setsWf ss -> ss !! s = Some cs -> setsWf (<[s := mkSet (parent cs) e]> ss).
Proof.
  intros Hwf Hs i cs' p. destruct (decide (i = s)) as [->|Hi].
  - rewrite list_lookup_insert_eq by (by eapply lookup_lt_Some). intros [= <-] Hp. by eapply Hwf.
  - rewrite list_lookup_insert_ne by done. apply Hwf.
Qed.

Lemma setsWf_snoc ss s :
  setsWf ss -> (forall i, s = Some i -> is_Some (ss !! i)) -> setsWf (ss ++ [mkSet s ∅]).
Proof.
  intros Hwf Hs i cs p Hi Hp. apply lookup_app_Some in Hi as [Hi|[Hlen Hi]]; [by eapply Hwf|].
  apply list_lookup_singleton_Some in Hi as [Hi <-]. simpl in Hp.
  destruct (Hs p Hp) as [x Hx]. apply lookup_lt_Some in Hx. lia.
Qed.

Lemma filter_calls_one (l : list CodecType) (k k' : nat) :
  (filter (fun x : nat * CodecType => x.1 = k) ((fun c => (k', c)) <$> l)).*2 = if decide (k' = k) then l else [].
Proof.
  induction l as [|c l IH]; [by case_decide|]. rewrite fmap_cons, filter_cons.
  case_decide; [rewrite decide_True by done; rewrite fmap_cons|rewrite decide_False by done]; by rewrite IH.
Qed.

Lemma filter_calls_seq (c : CodecType) (n k : nat) :
  (filter (fun x : nat * CodecType => x.1 = k) ((fun k => (k, c)) <$> seq 0 n)).*2 =
    if decide (k < n)%nat then [c] else [].
Proof.
  induction n as [|n IH]; [done|]. rewrite seq_S, fmap_app, filter_app, fmap_app, IH. simpl.
  rewrite filter_cons. simpl. repeat case_decide; simpl; try done; lia.
Qed.

Lemma reachable_wf w : reachable w -> worldWf w.
Proof.
  induction 1 as [|w Hr IH|w s Hr IH Hs|w w' s name b Hr IH Hw|w Hr IH|w w' c Hr IH Hw].
  - split; simpl; [|lia|done|by intros k; repeat case_decide].
    intros [|i] cs p; simpl; [by intros [= <-]|done].
  - destruct IH as [H1 H2 H3 H4]. split; simpl; [by apply setsWf_snoc|rewrite length_app; lia|done|done].
  - destruct IH as [H1 H2 H3 H4]. split; simpl; [by apply setsWf_snoc|rewrite length_app; lia|done|done].
  - apply SetEnabled_inv in Hw as (cs & Hs & Hss & Hc & Ho & Hca). destruct IH as [H1 H2 H3 H4].
    split; rewrite ?Hss, ?Hc, ?Ho, ?Hca, ?length_insert; [by apply setsWf_insert|done|done|done].
  - destruct IH as [H1 H2 H3 H4]. split; simpl; [done|done| |].
    + rewrite length_app, Nat.add_1_r, seq_S, <- H3. done.
    + intros k. rewrite filter_app, fmap_app, H4, filter_calls_one, length_app. simpl.
      repeat case_decide; try done; try lia. apply app_nil_r.
  - unfold RegisterCodec in Hw. apply obind_Ok in Hw as (w1 & Hw1 & [= <-]).
    apply SetEnabled_inv in Hw1 as (cs & Hs & Hss & Hc & Ho & Hca). destruct IH as [H1 H2 H3 H4]. simpl in *.
    split; simpl; rewrite ?Hss, ?Hc, ?Ho, ?Hca, ?length_insert; [by apply setsWf_insert|done|done|].
    intros k. rewrite filter_app, fmap_app, H4, H3, filter_calls_seq, length_seq.
    by repeat case_decide.
Qed.

(** ** Answers *)

Lemma answer_cons ss key i l :
  answer ss key (i :: l) = match setting ss key i with Some b => b | None => answer ss key l end.
Proof. unfold answer. simpl. by destruct (setting ss key i). Qed.

Lemma answer_app_none ss key l l' :
  Forall (fun i => setting ss key i = None) l -> answer ss key (l ++ l') = answer ss key l'.
Proof. induction 1 as [|i l Hi _ IH]; [done|]. simpl. by rewrite answer_cons, Hi. Qed.

Lemma answer_ext ss ss' key key' l :
  (forall i, i ∈ l -> setting ss key i = setting ss' key' i) -> answer ss key l = answer ss' key' l.
Proof.
  induction l as [|i l IH]; intros He; [done|]. rewrite !answer_cons, (He i) by apply list_elem_of_here.
  rewrite IH; [done|]. intros j Hj. apply He. by apply list_elem_of_further.
Qed.

(** The entries before [t] in the chain of [s] do not decide [key]. *)
Definition decidedBy (w : world) (s : nat) (key : str) (t : nat) : Prop :=
  exists l l', ancestors w s = l ++ t :: l' /\ t ∉ l /\ Forall (fun i => setting (sets w) key i = None) l.

Lemma SetEnabled_setting t name b w w' key i :
  SetEnabled t name b w = Ok w' ->
  setting (sets w') key i =
    (if decide (i = t /\ key = setKey name) then Some b else setting (sets w) key i).
Proof.
  intros Hw. apply SetEnabled_inv in Hw as (cs & Hs & Hss & _). unfold setting. rewrite Hss.
  destruct (decide (i = t)) as [->|Hi].
  - rewrite list_lookup_insert_eq by (by eapply lookup_lt_Some). rewrite Hs. simpl.
    case_decide as Hd; [destruct Hd as [_ ->]; apply lookup_insert_eq|].
    apply lookup_insert_ne. intros Hk. by apply Hd.
  - rewrite list_lookup_insert_ne by done. case_decide as Hd; [by destruct Hd|done].
Qed.

Lemma SetEnabled_ancestors t name b w w' s :
  SetEnabled t name b w = Ok w' -> ancestors w' s = ancestors w s.
Proof.
  intros Hw. apply SetEnabled_inv in Hw as (cs & Hs & Hss & _). unfold ancestors. rewrite Hss, length_insert.
  apply chain_ext. intros i. destruct (decide (i = t)) as [->|Hi].
  - rewrite list_lookup_insert_eq by (by eapply lookup_lt_Some). by rewrite Hs.
  - by rewrite list_lookup_insert_ne.
Qed.

Lemma split_at_first (l : list nat) (t : nat) : t ∈ l -> exists l1 l2, l = l1 ++ t :: l2 /\ t ∉ l1.
Proof.
  induction l as [|x l IH]; [by intros ?%not_elem_of_nil|]. intros Ht.
  destruct (decide (t = x)) as [->|Hx]; [exists [], l; by split; [|apply not_elem_of_nil]|].
  apply elem_of_cons in Ht as [?|Ht]; [done|]. destruct (IH Ht) as (l1 & l2 & -> & Hl1).
  exists (x :: l1), l2. split; [done|]. by apply not_elem_of_cons.
Qed.

Lemma NewSet_ancestors w s w' n :
  worldWf w -> (forall i, s = Some i -> is_Some (sets w !! i)) -> NewSet s w = (w', n) ->
  (forall i, (i < length (sets w))%nat -> ancestors w' i = ancestors w i) /\
  ancestors w' n = n :: match s with Some t => ancestors w t | None => [] end.
Proof.
  intros [Hwf _ _ _] Hs [= <- <-]. unfold ancestors. simpl. rewrite length_app. simpl.
  assert (Hold : forall m i, (i < length (sets w))%nat -> (length (sets w) <= m)%nat ->
    chain m (sets w ++ [mkSet s ∅]) (Some i) = chain (length (sets w)) (sets w) (Some i)).
  { intros m i Hi Hm. rewrite chain_app; [|done|congruence]. symmetry. apply chain_fuel; [done|congruence|done]. }
  split; [intros i Hi; apply Hold; lia|].
  rewrite Nat.add_1_r. cbn [chain]. rewrite lookup_app_r, Nat.sub_diag by lia. cbn [lookup list_lookup parent].
  f_equal. destruct s as [t|]; [|by destruct (length (sets w))].
  apply Hold; [|lia]. destruct (Hs t eq_refl) as [x Hx]. by eapply lookup_lt_Some.
Qed.

(** Codec sets overlay each other: in any world the program can reach,
    whatever the sets, enabling or disabling a name in a set changes the answer
    of exactly the sets that reach it in their chain of parents with no nearer
    entry, and of exactly the names that are the same up to case and
    parameters; the new answer is the value given.  A new set answers like its
    parent, and making it changes no other answer. *)
Theorem codec_sets (w : world) (Hw : reachable w) :
  (forall t name b w' s name', SetEnabled t name b w = Ok w' ->
     (setKey name' = setKey name /\ decidedBy w s (setKey name) t ->
        IsEnabledByName w' (Some s) name' = b) /\
     (~ (setKey name' = setKey name /\ decidedBy w s (setKey name) t) ->
        IsEnabledByName w' (Some s) name' = IsEnabledByName w (Some s) name')) /\
  (forall s w' n name', (forall i, s = Some i -> is_Some (sets w !! i)) -> NewSet s w = (w', n) ->
     IsEnabledByName w' (Some n) name' = IsEnabledByName w s name' /\
     forall i, (i < n)%nat -> IsEnabledByName w' (Some i) name' = IsEnabledByName w (Some i) name').
Proof.
  apply reachable_wf in Hw. split.
  - intros t name b w' s name' Hset. rewrite !IsEnabledByName_answer, (SetEnabled_ancestors _ _ _ _ _ _ Hset).
    pose proof (fun key i => SetEnabled_setting t name b w w' key i Hset) as Hs. split.
    + intros [-> (l & l' & -> & Ht & Hn)]. rewrite answer_app_none.
      * rewrite answer_cons, Hs, decide_True by done. done.
      * apply Forall_forall. intros i Hi. rewrite Hs, decide_False by (intros [-> _]; done).
        by apply (proj1 (Forall_forall _ _) Hn).
    + intros Hnot. destruct (decide (setKey name' = setKey name)) as [Hk|Hk].
      2:{ apply answer_ext. intros i _. rewrite Hs. by rewrite decide_False by tauto. }
      rewrite Hk in *. destruct (decide (t ∈ ancestors w s)) as [Ht|Ht].
      2:{ apply answer_ext. intros i Hi. rewrite Hs. rewrite decide_False; [done|]. by intros [-> _]. }
      apply split_at_first in Ht as (l & l' & Hl & Ht). rewrite Hl.
      assert (Hex : Exists (not ∘ (fun i => setting (sets w) (setKey name) i = None)) l).
      { apply not_Forall_Exists; [intros i; apply _|]. intros Hn. apply Hnot. split; [done|].
        by exists l, l'. }
      clear Hl. induction Hex as [i l Hx|i l Hex IH]; simpl; rewrite !answer_cons.
      * apply not_elem_of_cons in Ht as [Hi _]. rewrite Hs, decide_False by (intros [-> _]; done).
        simpl in Hx. by destruct (setting (sets w) (setKey name) i).
      * apply not_elem_of_cons in Ht as [Hi Ht]. rewrite Hs, decide_False by (intros [-> _]; done).
        destruct (setting (sets w) (setKey name) i); [done|]. by apply IH.
  - intros s w' n name' Hs Hn. destruct (NewSet_ancestors w s w' n Hw Hs Hn) as [Hold Hnew].
    injection Hn as <- <-.
    assert (Hset : forall i, (i < length (sets w))%nat ->
      setting (sets w ++ [mkSet s ∅]) (setKey name') i = setting (sets w) (setKey name') i).
    { intros i Hi. unfold setting. by rewrite lookup_app_l. }
    assert (Hchain : forall i, (i < length (sets w))%nat ->
      IsEnabledByName (NewSet s w).1 (Some i) name' = IsEnabledByName w (Some i) name').
    { intros i Hi. rewrite !IsEnabledByName_answer, Hold by done. apply answer_ext.
      intros j Hj. apply Hset. by eapply chain_valid. }
    split; [|exact Hchain]. rewrite IsEnabledByName_answer, Hnew, answer_cons.
    assert (setting (sets (NewSet s w).1) (setKey name') (length (sets w)) = None) as Hnone.
    { unfold setting. simpl. rewrite lookup_app_r, Nat.sub_diag by lia. simpl. apply lookup_empty. }
    simpl in Hnone. simpl. rewrite Hnone. destruct s as [t|]; [|done].
    rewrite IsEnabledByName_answer. apply answer_ext. intros j Hj. apply Hset. by eapply chain_valid.
Qed.

(** The registration order does not matter: in any world the program can
    reach, every function given to [OnRegister], before or after any codec was
    registered, has been called once for each registered codec, in the order of
    registration, and no other function was called. *)
Theorem registration_order (w : world) (Hw : reachable w) :
  forall k, (filter (fun x => x.1 = k) (calls w)).*2 =
              (if decide (k < length (codecOnRegister w))%nat then codecs w else []).
Proof. apply reachable_wf in Hw. apply (wf_calls w Hw). Qed.

Lemma codec_sets_witness :
  exists w1 w2 w3,
    NewSet (Some globalSet) initial = (w1, 1%nat) /\
    SetEnabled globalSet (lit "opus/48000/2") true w1 = Ok w2 /\
    IsEnabledByName w2 (Some 1%nat) (lit "OPUS") = true /\
    SetEnabled 1 (lit "opus") false w2 = Ok w3 /\
    IsEnabledByName w3 (Some 1%nat) (lit "Opus/48000") = false /\
    IsEnabledByName w3 (Some globalSet) (lit "opus") = IsEnabledByName w2 (Some globalSet) (lit "opus").
Proof.
  assert (H1 : reachable (NewSet (Some globalSet) initial).1).
  { apply ReachNewSet; [apply ReachInitial|]. intros i [= <-]. by eexists. }
  destruct (SetEnabled globalSet (lit "opus/48000/2") true (NewSet (Some globalSet) initial).1) as [w2|] eqn:E2;
    [|discriminate E2].
  pose proof (ReachSetEnabled _ w2 _ _ _ H1 E2) as H2.
  destruct (SetEnabled 1 (lit "opus") false w2) as [w3|] eqn:E3; [|injection E2 as <-; discriminate E3].
  exists (NewSet (Some globalSet) initial).1, w2, w3.
  destruct (codec_sets _ H1) as [Hs1 _]. destruct (codec_sets _ H2) as [Hs2 _]. split_and!; try done.
  - apply (Hs1 _ _ _ _ _ _ E2). split; [reflexivity|]. exists [1%nat], []. split_and!; [done|by apply not_elem_of_cons; split; [|apply not_elem_of_nil]|by repeat constructor].
  - apply (Hs2 _ _ _ _ _ _ E3). split; [reflexivity|]. injection E2 as <-.
    exists [], [0%nat]. split_and!; [done|apply not_elem_of_nil|constructor].
  - apply (Hs2 _ _ _ _ _ _ E3). intros [_ (l & l' & Hl & _)]. injection E2 as <-.
    destruct l as [|x [|y l]]; discriminate Hl.
Defined.

Definition anyCodec : CodecType := mkCodecType (mkTypeInfo (lit "x") Audio 0 false 0 []) OfferDefault (fun _ => (noInfo, false)).

Lemma registration_order_witness :
  exists w, RegisterCodec anyCodec (OnRegister initial) = Ok w /\
    (filter (fun x => x.1 = 1%nat) (calls (OnRegister w))).*2 = [anyCodec].
Proof.
  destruct (RegisterCodec anyCodec (OnRegister initial)) as [w|] eqn:E; [|discriminate E]. exists w. split; [done|].
  assert (Hr : reachable (OnRegister w)).
  { eapply ReachOnRegister, ReachRegisterCodec; [apply ReachOnRegister, ReachInitial|exact E]. }
  rewrite (registration_order _ Hr). injection E as <-. done.
Defined.

(** ** Offers *)

(** One level is enough: the offer of telephone-event skips telephone-event. *)
Lemma Offer_depth (depth : nat) legacy w s c :
  Forall (fun c => offer c = OfferRates -> SDPName c = telephoneEvent) (codecs w) ->
  OfferDepth (S depth) legacy w s c = Offer legacy w s c.
Proof.
  intros Hall. unfold Offer. cbn [OfferDepth]. destruct (negb _); [done|]. f_equal.
  destruct (offer c); [done|]. unfold offerRates. do 2 f_equal.
  assert (Hl : Forall (fun c => offer c = OfferRates -> SDPName c = telephoneEvent) (ListEnabled w s)).
  { unfold ListEnabled. destruct s; [|constructor]. apply Forall_forall.
    intros x [_ Hx]%list_elem_of_filter. by apply (proj1 (Forall_forall _ _) Hall). }
  generalize (if legacy then [8000] else []). induction Hl as [|x l Hx _ IH]; intros rates; [done|]. cbn [fold_left].
  rewrite IH. f_equal. case_decide as Hn; [done|]. destruct depth as [|depth]; [done|].
  cbn [OfferDepth]. destruct (negb _); [done|]. destruct (offer x) eqn:E; [done|]. by destruct Hn, Hx.
Qed.
