(* ===== verification/CodecList.v ===== *)
(** * CodecList: the codecs that [src/all] registers

    The [CodecTypeInfo] and [SupportsFunc] of each codec, from the [init]
    functions of [src/amrwb], [src/dtmf], [src/g711], [src/g722] and [src/opus],
    and the two tables that [OnRegister] fills: [codecByType] of
    [src/rtp/codecs.go] and [codecByName] of [src/sdp/codecs.go]. *)

From Stdlib Require Import Ascii.
From stdpp Require Import base tactics numbers strings list gmap.
From S2P Require Import Prelude GoStr Codecs.

#[local] Open Scope go_scope.

(** Constants of pion/rtp and of the AMR-WB library. *)
Class Constants : Type := {
  PayloadTypePCMU : Z;
  PayloadTypePCMA : Z;
  PayloadTypeG722 : Z;
  amrwbBest : Z;
}.

Section codecs.
Context `{Constants}.

Definition ALawInfo : CodecTypeInfo := mkTypeInfo (lit "PCMA") Audio PayloadTypePCMA true (-20) (lit "g711a").
Definition ULawInfo : CodecTypeInfo := mkTypeInfo (lit "PCMU") Audio PayloadTypePCMU true (-10) (lit "g711u").
Definition G722Info : CodecTypeInfo := mkTypeInfo (lit "G722") Audio PayloadTypeG722 true (-5) (lit "g722").
Definition OpusInfo : CodecTypeInfo := mkTypeInfo (lit "opus") Audio 0 false 10 (lit "opus").
Definition AMRWBInfo : CodecTypeInfo := mkTypeInfo (lit "AMR-WB") Audio 0 false (-4) (lit "amrwb").
Definition DTMFInfo : CodecTypeInfo := mkTypeInfo telephoneEvent Data 0 false (-100) [].

Definition unsupported : CodecInfo * bool := (noInfo, false).

(** [if c.SampleRate == 0 { c.SampleRate = rate }] *)
Definition defaultRate (c : CodecConfig) (rate : Z) : Z := if SampleRate c =? 0 then rate else SampleRate c.

Definition supportALaw (c : CodecConfig) : CodecInfo * bool :=
  if negb (Channels c =? 0) && negb (Channels c =? 1) then unsupported
  else
    let rate := defaultRate c 8000 in
    if negb (rate =? 8000) then unsupported
    else (mkInfo ALawInfo (mkConfig rate (Channels c) []) 0, true).

Definition supportULaw (c : CodecConfig) : CodecInfo * bool :=
  if negb (Channels c =? 0) && negb (Channels c =? 1) then unsupported
  else
    let rate := defaultRate c 8000 in
    if negb (rate =? 8000) then unsupported
    else (mkInfo ULawInfo (mkConfig rate (Channels c) []) 0, true).

Definition supportG722 (c : CodecConfig) : CodecInfo * bool :=
  if negb (Channels c =? 0) && negb (Channels c =? 1) then unsupported
  else
    let rate := defaultRate c 16000 in
    if negb (rate =? 8000) && negb (rate =? 16000) then unsupported
    else (mkInfo G722Info (mkConfig 16000 (Channels c) []) 8000, true).

Definition supportOpus (c : CodecConfig) : CodecInfo * bool :=
  if negb ((Channels c =? 0) || (Channels c =? 1) || (Channels c =? 2)) then unsupported
  else
    let channels := if Channels c =? 0 then 2 else Channels c in
    let rate := defaultRate c 48000 in
    if negb (rate =? 48000) then unsupported
    else (mkInfo OpusInfo (mkConfig rate channels []) 0, true).

(** The loop over the modes of a mode-set; [None] when one is not a number. *)
Fixpoint maxModeOf (modes : list str) (maxMode : Z) : option Z :=
  match modes with
  | [] => Some maxMode
  | s :: modes =>
      if decide (s = []) then maxModeOf modes maxMode
      else match Atoi s with
           | Some m => maxModeOf modes (Z.max m maxMode)
           | None => None
           end
  end.

Definition paramOctetAlign : str := lit "octet-align".
Definition paramModeSet : str := lit "mode-set".

Definition supportAMRWB (c : CodecConfig) : CodecInfo * bool :=
  if negb (Channels c =? 0) && negb (Channels c =? 1) then unsupported
  else
    let rate := defaultRate c 16000 in
    if negb (rate =? 16000) then unsupported
    else if match Get (Params c) paramOctetAlign with Some v => negb (bool_decide (v = lit "0")) | None => false end
    then unsupported
    else
      let accepted := Add [] paramOctetAlign (lit "0") in
      let offered := default [] (Get (Params c) paramModeSet) in
      match (match Get (Params c) paramModeSet with
             | Some v => maxModeOf (split "," v) (-1)
             | None => Some (-1)
             end) with
      | None => unsupported
      | Some maxMode =>
          let accepted :=
            if 0 <=? maxMode then Add accepted paramModeSet offered
            else Add accepted paramModeSet (Itoa amrwbBest) in
          (mkInfo AMRWBInfo (mkConfig rate (Channels c) accepted) 0, true)
      end.

Definition supportDTMF (c : CodecConfig) : CodecInfo * bool :=
  if SampleRate c =? 0 then unsupported
  else if negb (Z.rem (SampleRate c) 8000 =? 0) then unsupported
  else
    let i := Z.quot (SampleRate c) 8000 in
    let ti := mkTypeInfo (Name DTMFInfo) (kind DTMFInfo) (RTPDefType DTMFInfo) (RTPIsStatic DTMFInfo)
                (Priority DTMFInfo - i) (FileExt DTMFInfo) in
    (mkInfo ti (mkConfig (SampleRate c) (Channels c) [mkParam (lit "0-16") []]) 0, true).

Definition ALaw : CodecType := mkCodecType ALawInfo OfferDefault supportALaw.
Definition ULaw : CodecType := mkCodecType ULawInfo OfferDefault supportULaw.
Definition G722 : CodecType := mkCodecType G722Info OfferDefault supportG722.
Definition Opus : CodecType := mkCodecType OpusInfo OfferDefault supportOpus.
Definition AMRWB : CodecType := mkCodecType AMRWBInfo OfferDefault supportAMRWB.
Definition DTMF : CodecType := mkCodecType DTMFInfo OfferRates supportDTMF.

(** In the order of the package names, as Go initialises them. *)
Definition allCodecs : list CodecType := [AMRWB; DTMF; ALaw; ULaw; G722; Opus].

Fixpoint registerAll (cs : list CodecType) (w : world) : outcome world :=
  match cs with
  | [] => Ok w
  | c :: cs => let! w := RegisterCodec c w in registerAll cs w
  end.

End codecs.

(** ** The tables filled by [OnRegister] *)

(** [codecByType], an array of 255 entries: one call of the callback. *)
Definition setByType (t : list (option CodecType)) (c : CodecType) : outcome (list (option CodecType)) :=
  if RTPIsStatic (info c) then go_set t (RTPDefType (info c)) (Some c) else Ok t.

Fixpoint codecByTypeFrom (t : list (option CodecType)) (cs : list CodecType) : outcome (list (option CodecType)) :=
  match cs with
  | [] => Ok t
  | c :: cs => let! t := setByType t c in codecByTypeFrom t cs
  end.

Definition codecByType (w : world) : outcome (list (option CodecType)) :=
  codecByTypeFrom (replicate 255 None) (codecs w).

Definition CodecByPayloadType (w : world) (typ : Z) : outcome (option CodecType) :=
  let! t := codecByType w in go_index t typ.

(** [codecByName]: one call of the callback. *)
Definition setByName (m : gmap str CodecType) (c : CodecType) : gmap str CodecType :=
  if decide (SDPName c = []) then m else <[ToLower (SDPName c) := c]> m.

Definition codecByName (w : world) : gmap str CodecType := fold_left setByName (codecs w) ∅.

Definition CodecByNameWith (w : world) (s : option nat) (name : str) : option CodecType :=
  let s := match s with None => Some globalSet | Some _ => s end in
  let name := match IndexByte name slash with Some i => take i name | None => name end in
  let c := codecByName w !! ToLower name in
  if negb (IsEnabled w s c) then None else c.
