(* ===== verification/CodecListProps.v ===== *)
(** * CodecListProps: negotiated configurations are stable

    The configuration a codec accepted, in the form the program keeps or in the
    form SDP carries (clock rate, channels and parameters), is accepted again
    with the same result; the tables of the registry. *)

From Stdlib Require Import Ascii.
From stdpp Require Import base tactics numbers strings list gmap.
From S2P Require Import Prelude GoStr Codecs CodecsProps CodecList.

#[local] Open Scope go_scope.

Section stable.
Context `{Constants}.

(** The best mode is a mode of an int. *)
Hypothesis amrwbBest_int : 0 <= amrwbBest <= 9223372036854775807.

(** The configuration as SDP carries it: rtpmap has the clock rate. *)
Definition onWire (i : CodecInfo) : CodecConfig := mkConfig (RTPClockRate i) (Channels (config i)) (Params (config i)).

Definition stable (c : CodecType) : Prop :=
  forall cfg i, Supports c cfg = (i, true) ->
    Supports c (config i) = (i, true) /\ Supports c (onWire i) = (i, true).

Lemma Supports_support c cfg i :
  Supports c cfg = (i, true) <-> exists i0, support c cfg = (i0, true) /\ i = Defaults i0.
Proof.
  unfold Supports. destruct (support c cfg) as [i0 ok]. split.
  - destruct ok; [|done]. intros [= <-]. by exists i0.
  - by intros (? & [= -> ->] & ->).
Qed.

Lemma stable_support c :
  (forall cfg i, support c cfg = (i, true) ->
     support c (config i) = (i, true) /\ support c (onWire (Defaults i)) = (i, true)) -> stable c.
Proof.
  intros Hs cfg i (i0 & H0 & ->)%Supports_support. destruct (Hs _ _ H0) as [H1 H2].
  assert (config (Defaults i0) = config i0) as -> by (unfold Defaults; by case_if).
  rewrite !Supports_support. by split; exists i0.
Qed.

(** Two tests of a [SupportsFunc] that did not refuse. *)
Ltac accepted Hs :=
  repeat match type of Hs with
  | (if ?b then unsupported else _) = (_, true) => destruct b eqn:?; [discriminate Hs|]
  end.

Lemma stable_fixed (ti : CodecTypeInfo) (rate : Z) (sup : CodecConfig -> CodecInfo * bool) o :
  0 < rate ->
  (forall c, sup c = if negb (Channels c =? 0) && negb (Channels c =? 1) then unsupported
     else if negb (defaultRate c rate =? rate) then unsupported
     else (mkInfo ti (mkConfig (defaultRate c rate) (Channels c) []) 0, true)) ->
  stable (mkCodecType ti o sup).
Proof.
  intros Hr Hsup. apply stable_support. intros cfg i Hs. simpl in *. rewrite Hsup in Hs. accepted Hs.
  injection Hs as <-. bool_cases. rewrite !Hsup. unfold onWire, Defaults. simpl.
  rewrite Heqb, Heqb0. unfold defaultRate. simpl.
  destruct (rate =? 0) eqn:E0; bool_cases; [lia|]. by rewrite Z.eqb_refl.
Qed.

Lemma ALaw_stable : stable ALaw.
Proof. by apply (stable_fixed ALawInfo 8000). Qed.
Lemma ULaw_stable : stable ULaw.
Proof. by apply (stable_fixed ULawInfo 8000). Qed.

Lemma G722_stable : stable G722.
Proof.
  apply stable_support. intros cfg i Hs. simpl in *. unfold supportG722 in *. accepted Hs.
  injection Hs as <-. simpl. by rewrite Heqb.
Qed.

Lemma Opus_stable : stable Opus.
Proof.
  apply stable_support. intros [r ch ps] i Hs. simpl in *. unfold supportOpus in *. accepted Hs.
  injection Hs as <-. apply negb_false_iff, Z.eqb_eq in Heqb0. rewrite Heqb0. unfold onWire, Defaults. simpl in *.
  destruct (ch =? 0) eqn:E0; [done|]. by rewrite E0, Heqb.
Qed.

Lemma DTMF_stable : stable DTMF.
Proof.
  apply stable_support. intros [r ch ps] i Hs. simpl in *. unfold supportDTMF in *. accepted Hs.
  injection Hs as <-. unfold onWire, Defaults. simpl in *. by rewrite Heqb, Heqb0.
Qed.

Lemma split_numeral z : split "," (Itoa z) = [Itoa z].
Proof.
  unfold split. apply splitN_none. intros Hin.
  apply (proj1 (Forall_forall _ _) (Itoa_numeral z)) in Hin as [[d Hd]|Hd]; discriminate Hd.
Qed.

Lemma maxModeOf_ge modes m m' : maxModeOf modes m = Some m' -> m <= m'.
Proof.
  revert m. induction modes as [|s modes IH]; intros m; simpl; [intros [= ->]; lia|].
  case_decide; [apply IH|]. destruct (Atoi s); [|done]. intros Hm%IH. lia.
Qed.

Lemma AMRWB_stable : stable AMRWB.
Proof.
  assert (Hmode : forall ch v m, negb (ch =? 0) && negb (ch =? 1) = false ->
    maxModeOf (split "," v) (-1) = Some m -> 0 <= m ->
    let ps := [mkParam paramOctetAlign (lit "0"); mkParam paramModeSet v] in
    support AMRWB (mkConfig 16000 ch ps) = (mkInfo AMRWBInfo (mkConfig 16000 ch ps) 0, true)).
  { intros ch v m Hch Hm Hpos ps. subst ps. simpl. unfold supportAMRWB. simpl. rewrite Hch, Hm. simpl.
    destruct (0 <=? m) eqn:E; bool_cases; [done|lia]. }
  apply stable_support. intros [r ch ps] i Hs. cbn [support AMRWB] in Hs. unfold supportAMRWB in Hs. accepted Hs.
  simpl in Heqb, Hs. apply negb_false_iff, Z.eqb_eq in Heqb0. rewrite Heqb0 in Hs.
  destruct (match Get ps paramModeSet with Some v => maxModeOf (split "," v) (-1) | None => Some (-1) end)
    as [m|] eqn:Em; [|discriminate Hs].
  destruct (0 <=? m) eqn:E; bool_cases; injection Hs as <-; unfold onWire, Defaults; cbn [config Params RTPClockRate Channels].
  - destruct (Get ps paramModeSet) as [v|]; [|injection Em; lia].
    split; exact (Hmode ch v m Heqb Em E).
  - split; (eapply (Hmode ch (Itoa amrwbBest) (Z.max amrwbBest (-1)) Heqb); [|lia]);
      rewrite split_numeral; cbn [maxModeOf]; rewrite decide_False by apply Itoa_not_nil;
      rewrite Atoi_Itoa by lia; done.
Qed.

Lemma allCodecs_stable c : c ∈ allCodecs -> stable c.
Proof.
  revert c. refine (proj1 (Forall_forall _ _) _).
  unfold allCodecs. rewrite !Forall_cons.
  split_and!; [apply AMRWB_stable|apply DTMF_stable|apply ALaw_stable|apply ULaw_stable|apply G722_stable|apply Opus_stable|constructor].
Qed.

(** C33: negotiated configurations are stable: for every codec of the program,
    if it supports a configuration then it supports the one it answered with,
    and also that one as SDP carries it (with the clock rate, which for G.722 is
    not the sample rate), each time with the same answer. *)
Theorem negotiated_config_stable (c : CodecType) (cfg : CodecConfig) (i : CodecInfo)
    (Hc : c ∈ allCodecs) (Hs : Supports c cfg = (i, true)) :
  Supports c (config i) = (i, true) /\ Supports c (onWire i) = (i, true).
Proof.
  exact (allCodecs_stable c Hc cfg i Hs).
Qed.

End stable.

(** The values of RFC 3551 and of the library. *)
#[local] Instance rfc3551 : Constants := {|
  PayloadTypePCMU := 0; PayloadTypePCMA := 8; PayloadTypeG722 := 9; amrwbBest := 8 |}.

Lemma negotiated_config_stable_witness :
  let i := mkInfo AMRWBInfo (mkConfig 16000 1 [mkParam (lit "octet-align") (lit "0"); mkParam (lit "mode-set") (lit "0,1,2")]) 16000 in
  Supports AMRWB (mkConfig 0 1 [mkParam (lit "mode-set") (lit "0,1,2"); mkParam (lit "max-red") (lit "0")]) = (i, true) /\
  Supports AMRWB (config i) = (i, true) /\ Supports AMRWB (onWire i) = (i, true).
Proof.
  intros i. assert (Hb : 0 <= amrwbBest <= 9223372036854775807) by (unfold amrwbBest; simpl; lia).
  assert (Hs : Supports AMRWB (mkConfig 0 1 [mkParam (lit "mode-set") (lit "0,1,2"); mkParam (lit "max-red") (lit "0")]) = (i, true))
    by (vm_compute; reflexivity).
  split; [exact Hs|]. refine (negotiated_config_stable Hb AMRWB _ i _ Hs).
  unfold allCodecs. apply list_elem_of_here.
Defined.
