(* ===== verification/Srtp.v ===== *)
(** * Srtp: SRTP profiles and their SDP form

    [Profile] and the profile names of [src/srtp/srtp.go], and the parsers of
    crypto attributes of [src/sdp/offer.go], with the base64 of Go's standard
    library.  The lengths of keys and salts are pion's, and random bytes are an
    argument. *)

From Stdlib Require Import Ascii.
From stdpp Require Import base tactics numbers strings list.
From S2P Require Import Prelude GoStr.

#[local] Open Scope go_scope.

(** ** base64 *)

Definition b64char (v : Z) : ascii :=
  if v <? 26 then chr (65 + v)
  else if v <? 52 then chr (97 + (v - 26))
  else if v <? 62 then chr (48 + (v - 52))
  else if v =? 62 then "+" else "/".

Definition b64val (c : ascii) : option Z :=
  let b := byteOf c in
  if (65 <=? b) && (b <=? 90) then Some (b - 65)
  else if (97 <=? b) && (b <=? 122) then Some (b - 97 + 26)
  else if (48 <=? b) && (b <=? 57) then Some (b - 48 + 52)
  else if b =? 43 then Some 62
  else if b =? 47 then Some 63
  else None.

Definition padChar : ascii := "=".

(** [base64.StdEncoding.WithPadding(base64.StdPadding).EncodeToString] *)
Fixpoint EncodeToString (src : list Z) : str :=
  match src with
  | [] => []
  | [a] => [b64char (a / 4); b64char (a mod 4 * 16); padChar; padChar]
  | [a; b] => [b64char (a / 4); b64char (a mod 4 * 16 + b / 16); b64char (b mod 16 * 4); padChar]
  | a :: b :: c :: src =>
      b64char (a / 4) :: b64char (a mod 4 * 16 + b / 16) :: b64char (b mod 16 * 4 + c / 64)
        :: b64char (c mod 64) :: EncodeToString src
  end.

Definition byte1 (v1 v2 : Z) : Z := u8 (v1 * 4 + v2 / 16).
Definition byte2 (v2 v3 : Z) : Z := u8 (v2 * 16 + v3 / 4).
Definition byte3 (v3 v4 : Z) : Z := u8 (v3 * 64 + v4).

(** The quanta of [DecodeString], for input without line breaks. *)
Fixpoint decodeQuanta (padded : bool) (s : str) : option (list Z) :=
  match s with
  | [] => Some []
  | [_] => None
  | [c1; c2] =>
      match padded, b64val c1, b64val c2 with
      | false, Some v1, Some v2 => Some [byte1 v1 v2]
      | _, _, _ => None
      end
  | [c1; c2; c3] =>
      match padded, b64val c1, b64val c2, b64val c3 with
      | false, Some v1, Some v2, Some v3 => Some [byte1 v1 v2; byte2 v2 v3]
      | _, _, _, _ => None
      end
  | c1 :: c2 :: c3 :: c4 :: t =>
      match b64val c1, b64val c2 with
      | Some v1, Some v2 =>
          match b64val c3, b64val c4 with
          | Some v3, Some v4 =>
              match decodeQuanta padded t with
              | Some rest => Some (byte1 v1 v2 :: byte2 v2 v3 :: byte3 v3 v4 :: rest)
              | None => None
              end
          | Some v3, None =>
              if padded && bool_decide (c4 = padChar /\ t = []) then Some [byte1 v1 v2; byte2 v2 v3] else None
          | None, _ =>
              if padded && bool_decide (c3 = padChar /\ c4 = padChar /\ t = []) then Some [byte1 v1 v2] else None
          end
      | _, _ => None
      end
  end.

(** [DecodeString], of [RawStdEncoding] when not [padded], of [StdEncoding]
    otherwise; line breaks are skipped. *)
Definition DecodeString (padded : bool) (s : str) : option (list Z) :=
  decodeQuanta padded (filter (fun c => byteOf c <> 10 /\ byteOf c <> 13) s).

(** ** Profiles ([src/srtp/srtp.go]) *)

(** The constants of pion/srtp that the program uses. *)
Inductive ProtectionProfile : Type :=
| Aes128CmHmacSha1_80
| Aes128CmHmacSha1_32
| Aes256CmHmacSha1_80
| Aes256CmHmacSha1_32.
#[export] Instance ProtectionProfile_eq_dec : EqDecision ProtectionProfile.
Proof. solve_decision. Defined.

(** pion's lengths of keys and salts. *)
Class SrtpLib : Type := {
  KeyLen : ProtectionProfile -> Z + error;
  SaltLen : ProtectionProfile -> Z + error;
}.

Definition Parse (p : str) : option ProtectionProfile :=
  if decide (p = lit "AES_CM_128_HMAC_SHA1_80") then Some Aes128CmHmacSha1_80
  else if decide (p = lit "AES_CM_128_HMAC_SHA1_32") then Some Aes128CmHmacSha1_32
  else if decide (p = lit "AES_256_CM_HMAC_SHA1_80") then Some Aes256CmHmacSha1_80
  else if decide (p = lit "AES_256_CM_HMAC_SHA1_32") then Some Aes256CmHmacSha1_32
  else None.

Record Profile : Type := mkProfile {
  Index : Z;
  profile : str;
  PKey : list Z;
  Salt : list Z;
  MKI : list Z;
  Lifetime : Z;
}.

#[export] Instance Profile_eq_dec : EqDecision Profile.
Proof. solve_decision. Defined.

Definition defaultProfiles : list str :=
  [lit "AES_CM_128_HMAC_SHA1_80"; lit "AES_CM_128_HMAC_SHA1_32";
   lit "AES_256_CM_HMAC_SHA1_80"; lit "AES_256_CM_HMAC_SHA1_32"].

Section srtp.
Context `{SrtpLib}.

(** [rand.Read]: the outcome of the [k]-th call for a buffer of some length. *)
Context (randRead : nat -> Z -> list Z + error).

(** The loop of [DefaultProfiles] from the [i]-th profile on. *)
Fixpoint defaultFrom (i : nat) (names : list str) : list Profile + error :=
  match names with
  | [] => inl []
  | p :: names =>
      match Parse p with
      | None => inr (Errorf "unsupported profile")
      | Some sp =>
          match KeyLen sp, SaltLen sp with
          | inr err, _ => inr err
          | inl _, inr err => inr err
          | inl keyLen, inl saltLen =>
              match randRead (2 * i) keyLen, randRead (2 * i + 1) saltLen with
              | inr err, _ => inr err
              | inl _, inr err => inr err
              | inl key, inl salt =>
                  match defaultFrom (S i) names with
                  | inr err => inr err
                  | inl out => inl (mkProfile (Z.of_nat i + 1) p key salt [] 0 :: out)
                  end
              end
          end
      end
  end.

Definition DefaultProfiles : list Profile + error := defaultFrom 0 defaultProfiles.

(** [Options.LocalProfiles]; [given] is the field [Profiles]. *)
Definition LocalProfiles (given : list Profile) : list Profile + error :=
  if negb (zlen given =? 0) then inl given else DefaultProfiles.

(** ** Crypto attributes ([src/sdp/offer.go]) *)

(** The value of the crypto attribute of a profile, in
    [appendCryptoProfiles]. *)
Definition cryptoValue (p : Profile) : str :=
  Itoa (Index p) ++ lit " " ++ profile p ++ lit " inline:" ++ EncodeToString (PKey p ++ Salt p).

Definition parseLifetime (s : str) : Z + error :=
  let s := TrimSpace s in
  match CutPrefix s (lit "2^") with
  | Some e =>
      match ParseUint e 64 with
      | None => inr (Errorf "invalid exponent")
      | Some exp => if 63 <? exp then inr (Errorf "exponent too large") else inl (u64 (Z.shiftl 1 exp))
      end
  | None =>
      match ParseUint s 64 with
      | None => inr (Errorf "invalid lifetime value")
      | Some val => if val =? 0 then inr (Errorf "lifetime must be positive") else inl val
      end
  end.

(** [binary.BigEndian.PutUint64] into 8 bytes *)
Definition PutUint64 (v : Z) : list Z :=
  [u8 (Z.shiftr v 56); u8 (Z.shiftr v 48); u8 (Z.shiftr v 40); u8 (Z.shiftr v 32);
   u8 (Z.shiftr v 24); u8 (Z.shiftr v 16); u8 (Z.shiftr v 8); u8 v].

Definition parseMKI (s : str) : outcome (list Z + error) :=
  let s := TrimSpace s in
  match splitN 2 ":" s with
  | [p0; p1] =>
      match ParseUint p0 64 with
      | None => Ok (inr (Errorf "invalid MKI value"))
      | Some value =>
          match ParseUint p1 8 with
          | None => Ok (inr (Errorf "invalid MKI length"))
          | Some length =>
              if (length =? 0) || (8 <? length) then Ok (inr (Errorf "supported MKI length between 1 and 8 bytes"))
              else
                (* 1 << 64 is 0 in Go *)
                let maxValue := u64 (Z.shiftl 1 (length * 8)) in
                if maxValue <=? value then Ok (inr (Errorf "value is too large"))
                else let! mki := go_slice (PutUint64 value) (8 - length) 8 in Ok (inl mki)
          end
      end
  | _ => Ok (inr (Errorf "MKI must be in format 'value:length'"))
  end.

(** [parseSRTPProfile]; [None] for an attribute that is ignored. *)
Definition parseSRTPProfile (val : str) : outcome (option Profile + error) :=
  let val := TrimSpace val in
  match splitN 3 space val with
  | [sind; prof; skey] =>
      match Atoi sind with
      | None => Ok (inr (Errorf "invalid syntax"))
      | Some ind =>
          match CutPrefix skey (lit "inline:") with
          | None => Ok (inl None)
          | Some skey =>
              if ContainsAny skey [space; chr 9] then Ok (inl None)
              else
                let parts := split "|" skey in
                let part i := nth i parts [] in
                match (match DecodeString false (part 0%nat) with
                       | Some keys => Some keys
                       | None => DecodeString true (part 0%nat)
                       end) with
                | None => Ok (inr (Errorf "cannot parse crypto key"))
                | Some keys =>
                    match (if (1 <? zlen parts) && negb (zlen (part 1%nat) =? 0)
                           then parseLifetime (part 1%nat) else inl 0) with
                    | inr _ => Ok (inr (Errorf "invalid lifetime parameter"))
                    | inl lifetime =>
                        let! r := (if (2 <? zlen parts) && negb (zlen (part 2%nat) =? 0)
                                   then parseMKI (part 2%nat) else Ok (inl [])) in
                        match r with
                        | inr _ => Ok (inr (Errorf "invalid MKI parameter"))
                        | inl mki =>
                            match Parse prof with
                            | None => Ok (inl (Some (mkProfile ind prof keys [] mki lifetime)))
                            | Some sp =>
                                match KeyLen sp with
                                | inr err => Ok (inr err)
                                | inl keyLen =>
                                    if zlen keys <? keyLen
                                    then Ok (inr (Errorf "parsed key length is greater than key buffer size"))
                                    else
                                      let! k := go_slice keys 0 keyLen in
                                      let! salt := go_slice keys keyLen (zlen keys) in
                                      Ok (inl (Some (mkProfile ind prof k salt mki lifetime)))
                                end
                            end
                        end
                    end
                end
          end
      end
  | _ => Ok (inl None)
  end.

End srtp.
