(* ===== verification/SrtpProps.v ===== *)
(** * SrtpProps: crypto attributes survive SDP, and the master key identifier *)

From Stdlib Require Import Ascii.
From stdpp Require Import base tactics numbers strings list.
From S2P Require Import Prelude GoStr Srtp.

#[local] Open Scope go_scope.

(** ** base64 *)

Definition bytes (l : list Z) : Prop := Forall (fun b => 0 <= b < 256) l.

Lemma b64_inv v : 0 <= v < 64 -> b64val (b64char v) = Some v.
Proof.
  intros Hv. assert (Hall : Forall (fun v => b64val (b64char v) = Some v) (seqZ 0 64)).
  { apply (bool_decide_unpack _). vm_compute. exact I. }
  apply (proj1 (Forall_forall _ _) Hall). apply elem_of_seqZ. lia.
Qed.

Lemma quantum3 a b c :
  0 <= a < 256 -> 0 <= b < 256 -> 0 <= c < 256 ->
  byte1 (a / 4) (a mod 4 * 16 + b / 16) = a /\
  byte2 (a mod 4 * 16 + b / 16) (b mod 16 * 4 + c / 64) = b /\
  byte3 (b mod 16 * 4 + c / 64) (c mod 64) = c.
Proof. intros. unfold byte1, byte2, byte3. split_and!; word_lia. Qed.

Lemma list_ind3 {A : Type} (P : list A -> Prop) :
  P [] -> (forall a, P [a]) -> (forall a b, P [a; b]) ->
  (forall a b c l, P l -> P (a :: b :: c :: l)) -> forall l, P l.
Proof.
  intros H0 H1 H2 H3 l. enough (P l /\ (forall a, P (a :: l)) /\ (forall a b, P (a :: b :: l))) by tauto.
  induction l as [|x l (IH1 & IH2 & IH3)]; split_and!; auto.
Qed.

(** The characters of an encoding. *)
Definition b64like (c : ascii) : Prop := is_Some (b64val c) \/ c = padChar.

Lemma EncodeToString_like src : bytes src -> Forall b64like (EncodeToString src).
Proof.
  assert (Hc : forall v, 0 <= v < 64 -> b64like (b64char v)) by (intros v Hv; left; rewrite b64_inv by done; by eexists).
  induction src as [|a|a b|a b c src IH] using list_ind3; intros Hb; unfold bytes in *;
    repeat match goal with H : Forall _ (_ :: _) |- _ => apply Forall_cons in H as [? H] end; simpl.
  - constructor.
  - repeat (apply Forall_cons_2; [first [by right|apply Hc; lia]|]). constructor.
  - repeat (apply Forall_cons_2; [first [by right|apply Hc; lia]|]). constructor.
  - repeat (apply Forall_cons_2; [apply Hc; lia|]). by apply IH.
Qed.

Lemma decode_quanta src :
  bytes src ->
  decodeQuanta true (EncodeToString src) = Some src /\
  (decodeQuanta false (EncodeToString src) = Some src \/ decodeQuanta false (EncodeToString src) = None).
Proof.
  induction src as [|a|a b|a b c src IH] using list_ind3; intros Hb; unfold bytes in *;
    repeat match goal with H : Forall _ (_ :: _) |- _ => apply Forall_cons in H as [? H] end.
  - by split; [|left].
  - cbn [EncodeToString decodeQuanta]. rewrite !b64_inv by lia. simpl.
    split; [|by right]. unfold byte1. do 2 f_equal. word_lia.
  - cbn [EncodeToString decodeQuanta]. rewrite !b64_inv by lia. simpl.
    split; [|by right]. unfold byte1, byte2. repeat f_equal; word_lia.
  - cbn [EncodeToString decodeQuanta]. rewrite !b64_inv by lia.
    destruct (quantum3 a b c) as (-> & -> & ->); [done..|].
    destruct (IH Hb) as [-> [-> | ->]]; split; auto.
Qed.

Lemma b64like_plain c : b64like c -> byteOf c <> 10 /\ byteOf c <> 13 /\ c <> "|"%char /\ c <> " "%char /\ c <> chr 9 /\ isSpace c = false.
Proof.
  unfold b64like, b64val, isSpace. intros Hc.
  assert (Hb : (65 <= byteOf c <= 90 \/ 97 <= byteOf c <= 122 \/ 48 <= byteOf c <= 57 \/ byteOf c = 43 \/ byteOf c = 47 \/ byteOf c = 61)).
  { destruct Hc as [[x Hx]| ->]; [|by right; right; right; right; right].
    destruct ((65 <=? byteOf c) && (byteOf c <=? 90)) eqn:E1; bool_cases; [lia|].
    destruct ((97 <=? byteOf c) && (byteOf c <=? 122)) eqn:E2; bool_cases; [lia|].
    destruct ((48 <=? byteOf c) && (byteOf c <=? 57)) eqn:E3; bool_cases; [lia|].
    destruct (byteOf c =? 43) eqn:E4; bool_cases; [lia|].
    destruct (byteOf c =? 47) eqn:E5; bool_cases; [lia|]. done. }
  split_and!; try lia.
  - intros ->. change (byteOf "|") with 124 in Hb. lia.
  - intros ->. change (byteOf " ") with 32 in Hb. lia.
  - intros ->. change (byteOf (chr 9)) with 9 in Hb. lia.
Qed.

Lemma DecodeString_Encode padded src :
  bytes src -> DecodeString padded (EncodeToString src) = decodeQuanta padded (EncodeToString src).
Proof.
  intros Hb. unfold DecodeString. f_equal. pose proof (EncodeToString_like src Hb) as Hl.
  induction Hl as [|c s Hc _ IH]; [done|]. rewrite filter_cons, IH.
  apply b64like_plain in Hc. by rewrite decide_True by tauto.
Qed.

(** ** Crypto attributes *)

Section crypto.
Context `{SrtpLib}.

Lemma profile_name p sp :
  Parse p = Some sp -> " "%char ∉ p /\ p <> [].
Proof.
  unfold Parse. repeat case_decide; intros [= <-]; subst p;
    (split; [apply (bool_decide_unpack _); vm_compute; exact I|done]).
Qed.

Lemma CutPrefix_app p s : CutPrefix (p ++ s) p = Some s.
Proof. induction p as [|c p IH]; [by destruct s|]. simpl. by rewrite decide_True. Qed.

Lemma ContainsAny_none s chars : Forall (fun c => c ∉ chars) s -> ContainsAny s chars = false.
Proof.
  unfold ContainsAny. induction 1 as [|c s Hc _ IH]; [done|]. simpl. rewrite IH, bool_decide_eq_false_2 by done. done.
Qed.

Lemma parse_cryptoValue (p : Profile) (sp : ProtectionProfile)
    (Hn : Parse (profile p) = Some sp) (Hk : KeyLen sp = inl (zlen (PKey p)))
    (Hb : bytes (PKey p ++ Salt p)) (Hi : -9223372036854775808 <= Index p <= 9223372036854775807) :
  parseSRTPProfile (cryptoValue p) =
    Ok (inl (Some (mkProfile (Index p) (profile p) (PKey p) (Salt p) [] 0))).
Proof.
  destruct (profile_name _ _ Hn) as [Hsp Hne].
  pose proof (EncodeToString_like _ Hb) as Hlike. set (key := EncodeToString (PKey p ++ Salt p)) in *.
  assert (Htrim : TrimSpace (cryptoValue p) = cryptoValue p).
  { apply TrimSpace_id; unfold cryptoValue; fold key; intros c Hc.
    - pose proof (Itoa_numeral (Index p)) as Hnum. pose proof (Itoa_not_nil (Index p)) as Hnil.
      destruct (Itoa (Index p)) as [|x s]; [done|]. apply Forall_cons in Hnum as [Hx _]. simpl in Hc.
      injection Hc as ->. by apply numeral_plain.
    - rewrite !last_app in Hc. destruct (last key) as [x|] eqn:Hl.
      + injection Hc as ->. apply last_Some in Hl as [l Hl]. rewrite Hl in Hlike.
        apply Forall_app in Hlike as [_ [Hx _]%Forall_cons]. by apply b64like_plain.
      + by injection Hc as <-. }
  unfold parseSRTPProfile. rewrite Htrim. unfold cryptoValue. fold key.
  change (lit " " ++ profile p ++ lit " inline:" ++ key) with (space :: profile p ++ space :: lit "inline:" ++ key).
  rewrite splitN_app by (apply Itoa_notin; intros d Hd; by destruct (numeral_plain d Hd) as (_ & ? & _)).
  rewrite splitN_app by done. rewrite splitN_1, Atoi_Itoa by done. rewrite CutPrefix_app.
  rewrite ContainsAny_none.
  2:{ eapply Forall_impl; [exact Hlike|]. intros c Hc. apply b64like_plain in Hc.
      apply not_elem_of_cons. split; [tauto|]. apply not_elem_of_cons. split; [tauto|]. apply not_elem_of_nil. }
  unfold split. rewrite splitN_none.
  2:{ intros Hin. apply (proj1 (Forall_forall _ _) Hlike) in Hin. by apply b64like_plain in Hin as (_ & _ & ? & _). }
  cbn [nth]. subst key. rewrite !DecodeString_Encode by done.
  destruct (decode_quanta _ Hb) as [-> Hraw].
  assert ((match decodeQuanta false (EncodeToString (PKey p ++ Salt p)) with
           | Some keys => Some keys | None => Some (PKey p ++ Salt p) end) = Some (PKey p ++ Salt p)) as ->
    by (by destruct Hraw as [-> | ->]).
  change (1 <? zlen [_]) with false. change (2 <? zlen [_]) with false. cbn [andb obind]. rewrite Hn, Hk.
  rewrite zlen_app. destruct (zlen (PKey p) + zlen (Salt p) <? zlen (PKey p)) eqn:E; bool_cases.
  { pose proof (zlen_nonneg (Salt p)). lia. }
  pose proof (zlen_nonneg (PKey p)). pose proof (zlen_nonneg (Salt p)).
  rewrite !go_slice_Ok by (rewrite ?zlen_app; lia). cbn [obind].
  rewrite Z.sub_0_r, drop_0. unfold zlen. rewrite Nat2Z.id, take_app_length, drop_app_length.
  rewrite take_ge by lia. done.
Qed.

(** A crypto attribute carries the profile: for every profile of a
    supported name, with a key of the length of its cipher, whatever the key and
    salt bytes, parsing the attribute value that an offer or an answer carries
    gives the profile back (the attribute has no lifetime nor MKI): the base64
    of the key and salt is decoded, padded or not, and cut where the key ends. *)
Theorem crypto_attr_roundtrip (p : Profile) (sp : ProtectionProfile)
    (Hn : Parse (profile p) = Some sp) (Hk : KeyLen sp = inl (zlen (PKey p)))
    (Hb : bytes (PKey p ++ Salt p)) (Hi : -9223372036854775808 <= Index p <= 9223372036854775807) :
  parseSRTPProfile (cryptoValue p) =
    Ok (inl (Some (mkProfile (Index p) (profile p) (PKey p) (Salt p) [] 0))).
Proof. by apply (parse_cryptoValue p sp). Qed.

End crypto.

(** The value of bytes in big-endian order. *)
Definition bigEndian (m : list Z) : Z := fold_left (fun acc b => 256 * acc + b) m 0.

Lemma PutUint64_suffix v l :
  1 <= l <= 7 -> 0 <= v < 2 ^ (8 * l) ->
  exists m, go_slice (PutUint64 v) (8 - l) 8 = Ok m /\ zlen m = l /\ bytes m /\ bigEndian m = v.
Proof.
  intros Hl Hv. rewrite go_slice_Ok by (unfold zlen; simpl; lia). eexists. split; [done|].
  assert (Hc : l = 1 \/ l = 2 \/ l = 3 \/ l = 4 \/ l = 5 \/ l = 6 \/ l = 7) by lia.
  unfold PutUint64. rewrite !Z.shiftr_div_pow2 by lia.
  repeat match type of Hc with _ \/ _ => destruct Hc as [->|Hc] end; subst;
    (split; [reflexivity|]); (split; [repeat constructor; apply u8_range|]);
    unfold bigEndian, u8; simpl in *; lia.
Qed.

(** A master key identifier "value:length" is parsed to exactly [length]
    bytes that hold the value in big-endian order, for lengths from 1 to 7 and
    the values that fit; every other pair is refused, among them all of length
    8, since the bound of the values that fit in 8 bytes overflows to zero. *)
Theorem mki_encoding (v l : Z) (Hv : 0 <= v < 18446744073709551616) (Hl : 0 <= l) :
  (1 <= l <= 7 /\ v < 2 ^ (8 * l) ->
     exists m, parseMKI (Itoa v ++ lit ":" ++ Itoa l) = Ok (inl m) /\
       zlen m = l /\ bytes m /\ bigEndian m = v) /\
  (~ (1 <= l <= 7 /\ v < 2 ^ (8 * l)) ->
     exists e, parseMKI (Itoa v ++ lit ":" ++ Itoa l) = Ok (inr e)).
Proof.
  assert (Hparts : splitN 2 ":" (TrimSpace (Itoa v ++ lit ":" ++ Itoa l)) = [Itoa v; Itoa l]).
  { rewrite TrimSpace_plain.
    - change (lit ":" ++ Itoa l) with (":"%char :: Itoa l). rewrite splitN_app, splitN_1; [done|].
      apply Itoa_notin. intros d Hd. by destruct (numeral_plain d Hd) as (_ & _ & ? & _).
    - assert (Hn : forall z, Forall (fun c => isSpace c = false) (Itoa z)).
      { intros z. eapply Forall_impl; [apply Itoa_numeral|]. intros c Hc. by apply numeral_plain. }
      apply Forall_app. split; [apply Hn|]. apply Forall_app. split; [by repeat constructor|apply Hn]. }
  unfold parseMKI. rewrite Hparts, !ParseUint_Itoa by lia.
  destruct (v <? 2 ^ 64) eqn:E1; bool_cases; [|simpl in E1; lia].
  destruct (l <? 2 ^ 8) eqn:E2; bool_cases; [|split; [intros [? _]; simpl in E2; lia|by eexists]].
  destruct ((l =? 0) || (8 <? l)) eqn:E3; [split; [intros [? _]; exfalso; lia|by eexists]|].
  assert (Hl8 : 1 <= l <= 8) by lia. clear E1 E2 E3. rewrite Z.shiftl_1_l, (Z.mul_comm l 8).
  destruct (Z.eq_dec l 8) as [->|Hne].
  - change (u64 (2 ^ (8 * 8))) with 0. destruct (0 <=? v) eqn:E; bool_cases; [|lia].
    split; [lia|by eexists].
  - assert (Hp : 2 ^ (8 * l) <= 2 ^ 56) by (apply Z.pow_le_mono_r; lia).
    assert (u64 (2 ^ (8 * l)) = 2 ^ (8 * l)) as ->.
    { unfold u64. apply Z.mod_small. split; [apply Z.pow_nonneg; lia|]. change (2 ^ 56) with 72057594037927936 in Hp. lia. }
    destruct (2 ^ (8 * l) <=? v) eqn:E; bool_cases; [split; [lia|by eexists]|].
    split; [|lia]. intros _. destruct (PutUint64_suffix v l) as (m & -> & Hm); [lia|lia|]. by exists m.
Qed.

Lemma mki_encoding_witness :
  parseMKI (lit "258:3") = Ok (inl [0; 1; 2]) /\
  (exists m, parseMKI (Itoa 258 ++ lit ":" ++ Itoa 3) = Ok (inl m) /\ zlen m = 3 /\ bytes m /\ bigEndian m = 258) /\
  (exists e, parseMKI (Itoa 1 ++ lit ":" ++ Itoa 8) = Ok (inr e)).
Proof.
  split; [vm_compute; reflexivity|]. split.
  - apply (mki_encoding 258 3); [lia|lia|]. split; [lia|]. reflexivity.
  - apply (mki_encoding 1 8); lia.
Defined.

(** The lengths of the ciphers, as pion documents them. *)
#[local] Instance rfc3711 : SrtpLib := {|
  KeyLen p := inl (match p with Aes128CmHmacSha1_80 | Aes128CmHmacSha1_32 => 16 | _ => 32 end);
  SaltLen _ := inl 14 |}.

Lemma crypto_attr_roundtrip_witness :
  let p := mkProfile 2 (lit "AES_CM_128_HMAC_SHA1_32") (seqZ 250 6 ++ seqZ 0 10) (replicate 14 255) [] 0 in
  parseSRTPProfile (cryptoValue p) = Ok (inl (Some p)) /\
  cryptoValue p = lit "2 AES_CM_128_HMAC_SHA1_32 inline:+vv8/f7/AAECAwQFBgcICf//////////////////".
Proof.
  intros p. split; [|vm_compute; reflexivity].
  apply (crypto_attr_roundtrip p Aes128CmHmacSha1_32); [reflexivity|reflexivity| |simpl; lia].
  apply (bool_decide_unpack _). vm_compute. exact I.
Defined.
