(* ===== verification/Sdp.v ===== *)
(** * Sdp: offers, answers and their media descriptions

    [src/sdp/offer.go] and [src/sdp/helpers.go].  The descriptions are pion's
    structs, restricted to the fields that the program reads or writes;
    addresses are values of a type [Addr].  Calls of pion and of [netip] are
    arguments of the model. *)

From Stdlib Require Import Ascii.
From stdpp Require Import base tactics numbers strings list sorting.
From S2P Require Import Prelude GoStr Codecs CodecList Srtp.

#[local] Open Scope go_scope.

(** ** The data *)

Record Attribute : Type := mkAttr { aKey : str; aVal : str }.

Record ConnectionInformation : Type := mkConn { NetworkType : str; Address : option str }.

(** [sdp.MediaDescription] *)
Record MediaDescription : Type := mkMedia {
  Media : str;
  Port : Z;
  Protos : list str;
  Formats : list str;
  Attributes : list Attribute;
  mediaConn : option ConnectionInformation;
}.

(** [sdp.SessionDescription] *)
Record SessionDescription : Type := mkSession {
  SessionID : Z;
  SessionVersion : Z;
  OriginNetworkType : str;
  UnicastAddress : str;
  sessionConn : option ConnectionInformation;
  sessionAttributes : list Attribute;
  MediaDescriptions : list MediaDescription;
}.

(** [CodecInfo] of the package; [Codec] may be nil. *)
Record CodecInfo : Type := mkCodec {
  Type_ : Z;
  Codec : option CodecType;
  Info : Codecs.CodecInfo;
}.

Definition codecEquals (c c2 : option CodecInfo) : bool :=
  match c, c2 with
  | None, None => true
  | Some c, Some c2 => (Type_ c =? Type_ c2) && infoEquals (Some (Info c)) (Some (Info c2))
  | _, _ => false
  end.

Record MediaDesc : Type := mkDesc {
  AudioCodecs : list CodecInfo;
  DataCodecs : list CodecInfo;
  UnknownCodecs : list CodecInfo;
  CryptoProfiles : list Profile;
  Direction : Z;
}.

Record AudioConfig : Type := mkAudio { audioCodec : CodecInfo; DTMFCodec : option CodecInfo }.

(** [srtp.Config]; the options are the master key identifiers. *)
Record Config : Type := mkSrtpConfig {
  LocalMasterKey : list Z;
  LocalMasterSalt : list Z;
  RemoteMasterKey : list Z;
  RemoteMasterSalt : list Z;
  cipher : ProtectionProfile;
  LocalMKI : list (list Z);
  RemoteMKI : list (list Z);
}.

Inductive Encryption : Type := EncryptionNone | EncryptionAllow | EncryptionRequire.
#[export] Instance Encryption_eq_dec : EqDecision Encryption.
Proof. solve_decision. Defined.

Definition ErrNoCommonMedia : error := Errorf "common audio codec not found".
Definition ErrNoCommonCrypto : error := Errorf "no common encryption profiles".

(** ** Offers *)

(** The comparison that sorts the codecs. *)
Definition codecCmp (a b : CodecType) : Z :=
  if Priority (info a) =? Priority (info b) then Compare (SDPName a) (SDPName b)
  else Priority (info b) - Priority (info a).

Definition codecLe (a b : CodecType) : Prop := codecCmp a b <= 0.
#[export] Instance codecLe_dec : RelDecision codecLe.
Proof. intros a b. unfold codecLe. apply _. Defined.

(** The loop over the offers of one codec. *)
Fixpoint assignTypes (c : CodecType) (offers : list Codecs.CodecInfo) (nextType : Z) : list CodecInfo * Z :=
  match offers with
  | [] => ([], nextType)
  | ci :: offers =>
      let '(typ, nextType) :=
        if RTPIsStatic (info c) then (RTPDefType (info c), nextType) else (nextType, u8 (nextType + 1)) in
      let '(infos, nextType) := assignTypes c offers nextType in
      (mkCodec typ (Some c) ci :: infos, nextType)
  end.

(** The loop over the codecs; [offersOf] is [c.Offer(s)]. *)
Fixpoint assignAll (offersOf : CodecType -> list Codecs.CodecInfo) (cs : list CodecType) (nextType : Z) : list CodecInfo :=
  match cs with
  | [] => []
  | c :: cs =>
      let '(infos, nextType) := assignTypes c (offersOf c) nextType in
      infos ++ assignAll offersOf cs nextType
  end.

Definition dynamicType : Z := 101.

Definition OfferCodecsWith (legacy : bool) (w : world) (s : option nat) : list CodecInfo :=
  let s := match s with None => Some globalSet | Some _ => s end in
  assignAll (Offer legacy w s) (merge_sort codecLe (ListEnabled w s)) dynamicType.

Definition rtpmap (typ : Z) (ci : Codecs.CodecInfo) : Attribute :=
  mkAttr (lit "rtpmap") (Itoa typ ++ lit " " ++ SDPFullName ci).

Definition fmtp (typ : Z) (ci : Codecs.CodecInfo) : list Attribute :=
  if negb (zlen (Params (config ci)) =? 0)
  then [mkAttr (lit "fmtp") (Itoa typ ++ lit " " ++ paramsString (Params (config ci)))] else [].

(** The attributes of one codec. *)
Definition codecAttributes (c : CodecInfo) : list Attribute := rtpmap (Type_ c) (Info c) :: fmtp (Type_ c) (Info c).

Definition kindOf (c : CodecInfo) : Kind := kind (typeInfo (Info c)).

Definition appendCryptoProfiles (attrs : list Attribute) (profiles : list Profile) : list Attribute :=
  attrs ++ ((fun p => mkAttr (lit "crypto") (cryptoValue p)) <$> profiles).

Definition lastAttributes : list Attribute := [mkAttr (lit "ptime") (lit "20"); mkAttr (lit "sendrecv") []].

(** [WithLocalProfiles], and the options applied to the [Profiles] of the SRTP
    options. *)
Definition WithLocalProfiles (profiles given : list Profile) : list Profile :=
  if negb (zlen profiles =? 0) then profiles else given.

Definition negotiationOptions (opts : list (list Profile -> list Profile)) : list Profile :=
  fold_left (fun given opt => opt given) opts [].

(** [OfferMediaWith], for the codecs that [OfferCodecsWith] lists;
    [local] is the result of [opt.Srtp.LocalProfiles()]. *)
Definition OfferMediaWith (codecs : list CodecInfo) (rtpListenerPort : Z) (encrypted : Encryption)
    (local : list Profile + error) : (MediaDesc * MediaDescription) + error :=
  let listed := filter (fun c => kindOf c <> Unknown) codecs in
  let attrs := concat (codecAttributes <$> listed) in
  let audio := filter (fun c => kindOf c = Audio) codecs in
  let data := filter (fun c => kindOf c = Data) codecs in
  let formats := (fun c => Itoa (Type_ c)) <$> listed in
  match (if decide (encrypted = EncryptionNone) then inl [] else local) with
  | inr err => inr err
  | inl profiles =>
      let attrs := appendCryptoProfiles attrs profiles ++ lastAttributes in
      let proto := if decide (encrypted = EncryptionNone) then lit "AVP" else lit "SAVP" in
      inl (mkDesc audio data [] profiles 0,
           mkMedia (lit "audio") rtpListenerPort [lit "RTP"; proto] formats attrs None)
  end.

Definition AnswerMedia (rtpListenerPort : Z) (audio : AudioConfig) (crypt : option Profile) : MediaDescription :=
  let a := audioCodec audio in
  let formats := [Itoa (Type_ a)] in
  let attrs := codecAttributes a in
  let '(formats, attrs) :=
    match DTMFCodec audio with
    | Some d => (formats ++ [Itoa (Type_ d)], attrs ++ codecAttributes d)
    | None => (formats, attrs)
    end in
  let '(proto, attrs) :=
    match crypt with
    | Some p => (lit "SAVP", appendCryptoProfiles attrs [p])
    | None => (lit "AVP", attrs)
    end in
  mkMedia (lit "audio") rtpListenerPort [lit "RTP"; proto] formats (attrs ++ lastAttributes) None.

(** ** Selection *)

(** The loop of [SelectAudio] over the audio codecs. *)
Fixpoint bestAudio (answer : bool) (cs : list CodecInfo) (best : option CodecInfo) (priority : Z) : option CodecInfo :=
  match cs with
  | [] => best
  | c :: cs =>
      let p := Priority (typeInfo (Info c)) in
      let '(best, priority) :=
        if (match best with None => true | Some _ => false end) || (priority <? p)
        then (Some c, p) else (best, priority) in
      if answer then best else bestAudio answer cs best priority
  end.

Definition isDTMF (d : CodecInfo) : Prop := Name (typeInfo (Info d)) = telephoneEvent.
#[export] Instance isDTMF_dec d : Decision (isDTMF d).
Proof. unfold isDTMF. apply _. Defined.

(** The loop that looks for the highest rate up to that of the audio codec. *)
Fixpoint lowerDTMF (rate : Z) (ds : list CodecInfo) (best : option CodecInfo) (maxRate : Z) : option CodecInfo :=
  match ds with
  | [] => best
  | d :: ds =>
      let r := RTPClockRate (Info d) in
      if decide (~ isDTMF d) then lowerDTMF rate ds best maxRate
      else if rate <? r then lowerDTMF rate ds best maxRate
      else if (maxRate <? 0) || (maxRate <? r) then lowerDTMF rate ds (Some d) r
      else lowerDTMF rate ds best maxRate
  end.

Definition selectDTMF (rate : Z) (ds : list CodecInfo) : option CodecInfo :=
  match list_find (fun d => isDTMF d /\ RTPClockRate (Info d) = rate) ds with
  | Some (_, d) => Some d
  | None => lowerDTMF rate ds None (-1)
  end.

Definition SelectAudio (desc : MediaDesc) (answer : bool) : AudioConfig + error :=
  match bestAudio answer (AudioCodecs desc) None 0 with
  | None => inr ErrNoCommonMedia
  | Some a => inl (mkAudio a (selectDTMF (RTPClockRate (Info a)) (DataCodecs desc)))
  end.

(** The configuration for an offered profile [off] and an answered one. *)
Definition cryptoConfig (off ans : Profile) (sp : ProtectionProfile) (swap : bool) : Config :=
  let mki m := if 0 <? zlen m then [m] else [] in
  if swap then
    mkSrtpConfig (PKey ans) (Salt ans) (PKey off) (Salt off) sp (mki (MKI ans)) (mki (MKI off))
  else mkSrtpConfig (PKey off) (Salt off) (PKey ans) (Salt ans) sp (mki (MKI off)) (mki (MKI ans)).

Definition withIndex (p : Profile) (i : Z) : Profile := mkProfile i (profile p) (PKey p) (Salt p) (MKI p) (Lifetime p).

(** The loop of [SelectCrypto]. *)
Fixpoint selectProfile (offer answer : list Profile) (swap : bool) : option (Config * Profile) :=
  match answer with
  | [] => None
  | ans :: answer =>
      match Parse (profile ans) with
      | None => selectProfile offer answer swap
      | Some sp =>
          match list_find (fun off => profile off = profile ans) offer with
          | Some (_, off) => Some (cryptoConfig off ans sp swap, if swap then withIndex ans (Index off) else off)
          | None => selectProfile offer answer swap
          end
      end
  end.

Definition SelectCrypto (offer answer : list Profile) (swap : bool) : option (Config * Profile) :=
  if zlen offer =? 0 then None else selectProfile offer answer swap.

(** ** Parsing a media description *)

(** pion's functions, for a session description that was already parsed. *)
Class SdpLib : Type := {
  NewDirection : str -> option Z;
  DirectionSendRecv : Z;
  SessionAttribute : SessionDescription -> str -> option str;
  Unmarshal : list Z -> SessionDescription + error;
}.

(** [codecInfo] of [ParseMediaWith]. *)
Record parsedCodec : Type := mkParsed { pType : Z; pName : str; pConfig : CodecConfig }.

(** [getCodec(typ)], and the change made through the pointer it returns. *)
Fixpoint getCodec (typ : Z) (f : parsedCodec -> parsedCodec) (cs : list parsedCodec) : list parsedCodec :=
  match cs with
  | [] => [f (mkParsed typ [] noConfig)]
  | c :: cs => if pType c =? typ then f c :: cs else c :: getCodec typ f cs
  end.

Definition setRtpmap (name : str) (rate channels : Z) (c : parsedCodec) : parsedCodec :=
  mkParsed (pType c) name (mkConfig rate channels (Params (pConfig c))).

Definition addParam (p : CodecParam) (c : parsedCodec) : parsedCodec :=
  mkParsed (pType c) (pName c)
    (mkConfig (SampleRate (pConfig c)) (Channels (pConfig c)) (Params (pConfig c) ++ [p])).

(** The case "rtpmap". *)
Definition parseRtpmap (value : str) (cs : list parsedCodec) : list parsedCodec :=
  match splitN 2 space value with
  | [sub0; sub1] =>
      match Atoi sub0 with
      | None => cs
      | Some typ =>
          match splitN 4 slash sub1 with
          | [name; srate] =>
              match Atoi srate with
              | Some rate => getCodec typ (setRtpmap name rate 0) cs
              | None => cs
              end
          | [name; srate; schannels] =>
              match Atoi srate with
              | Some rate =>
                  match Atoi schannels with
                  | Some channels => getCodec typ (setRtpmap name rate channels) cs
                  | None => cs
                  end
              | None => cs
              end
          | _ => cs
          end
      end
  | _ => cs
  end.

Definition equals : ascii := "=".

(** One parameter of the case "fmtp"; [None] for an empty one. *)
Definition parseParam (par : str) : option CodecParam :=
  let par := TrimSpace par in
  if decide (par = []) then None
  else match IndexByte par equals with
       | Some i => Some (mkParam (TrimSpace (take i par)) (TrimSpace (drop (S i) par)))
       | None => Some (mkParam par [])
       end.

(** The case "fmtp". *)
Definition parseFmtp (value : str) (cs : list parsedCodec) : list parsedCodec :=
  match splitN 2 space value with
  | [sub0; sub1] =>
      match Atoi sub0 with
      | None => cs
      | Some typ =>
          let params := omap parseParam (split ";" sub1) in
          getCodec typ (fun c => fold_left (fun c p => addParam p c) params c) cs
      end
  | _ => cs
  end.

Definition directions : list str := [lit "sendrecv"; lit "sendonly"; lit "recvonly"; lit "inactive"].

(** The variables of [ParseMediaWith] that the attributes change. *)
Record parseState : Type := mkParse {
  pCodecs : list parsedCodec;
  pProfiles : list Profile;
  pDirection : Z;
}.

Section parse.
Context `{SrtpLib} `{SdpLib}.

(** One attribute. *)
Definition parseAttribute (m : Attribute) (st : parseState) : outcome (parseState + error) :=
  if decide (aKey m = lit "rtpmap") then
    Ok (inl (mkParse (parseRtpmap (aVal m) (pCodecs st)) (pProfiles st) (pDirection st)))
  else if decide (aKey m = lit "fmtp") then
    Ok (inl (mkParse (parseFmtp (aVal m) (pCodecs st)) (pProfiles st) (pDirection st)))
  else if decide (aKey m = lit "crypto") then
    let! r := parseSRTPProfile (aVal m) in
    Ok (match r with
        | inr _ => inr (Errorf "cannot parse srtp profile")
        | inl None => inl st
        | inl (Some p) => inl (mkParse (pCodecs st) (pProfiles st ++ [p]) (pDirection st))
        end)
  else if decide (aKey m ∈ directions) then
    Ok (inl (match NewDirection (aKey m) with
             | Some dir => mkParse (pCodecs st) (pProfiles st) dir
             | None => st
             end))
  else Ok (inl st).

Fixpoint parseAttributes (ms : list Attribute) (st : parseState) : outcome (parseState + error) :=
  match ms with
  | [] => Ok (inl st)
  | m :: ms =>
      let! r := parseAttribute m st in
      match r with
      | inl st => parseAttributes ms st
      | inr err => Ok (inr err)
      end
  end.

(** The loop over the formats. *)
Definition addFormats (formats : list str) (cs : list parsedCodec) : list parsedCodec :=
  fold_left (fun cs f => match Atoi f with Some typ => getCodec typ id cs | None => cs end) formats cs.

(** The codec of a payload type, if it is enabled and supports the
    configuration, with the information it answers. *)
Definition lookupCodec (w : world) (s : option nat) (ci : parsedCodec) : outcome CodecInfo :=
  let! codec :=
    (if decide (pName ci <> []) then Ok (CodecByNameWith w s (pName ci))
     else
       let! c := CodecByPayloadType w (u8 (pType ci)) in
       Ok (if IsEnabled w s c then c else None)) in
  match codec with
  | None => Ok (mkCodec (u8 (pType ci)) None noInfo)
  | Some c =>
      let '(i, ok) := Supports c (pConfig ci) in
      Ok (mkCodec (u8 (pType ci)) (if ok then Some c else None) i)
  end.

Fixpoint lookupCodecs (w : world) (s : option nat) (cs : list parsedCodec) : outcome (list CodecInfo) :=
  match cs with
  | [] => Ok []
  | ci :: cs =>
      let! c := lookupCodec w s ci in
      let! out := lookupCodecs w s cs in
      Ok (c :: out)
  end.

Definition ParseMediaWith (w : world) (s : option nat) (d : MediaDescription) : outcome (MediaDesc + error) :=
  let! r := parseAttributes (Attributes d) (mkParse [] [] 0) in
  match r with
  | inr err => Ok (inr err)
  | inl st =>
      let! cs := lookupCodecs w s (addFormats (Formats d) (pCodecs st)) in
      Ok (inl (mkDesc (filter (fun c => kindOf c = Audio) cs) (filter (fun c => kindOf c = Data) cs)
                 (filter (fun c => kindOf c = Unknown) cs) (pProfiles st) (pDirection st)))
  end.

(** ** Descriptions ([helpers.go]) *)

Context {Addr : Type}.
Context (ParseAddr : str -> option Addr).
Context (AddrString : Addr -> str).
Context (AddrIsValid : Addr -> bool).

(** [netip.AddrPort] *)
Notation AddrPort := (Addr * Z)%type.

Definition GetAudio (s : SessionDescription) : option MediaDescription :=
  snd <$> list_find (fun m => Media m = lit "audio") (MediaDescriptions s).

Definition connAddr (ci : option ConnectionInformation) : str :=
  match ci with
  | None => []
  | Some ci => if decide (NetworkType ci <> lit "IN") then [] else default [] (Address ci)
  end.

(** [s] and [audio] may be nil. *)
Definition GetAudioDest (s : option SessionDescription) (audio : option MediaDescription) : AddrPort + error :=
  match audio, s with
  | Some audio, Some s =>
      let addr := connAddr (mediaConn audio) in
      let addr := if decide (addr = []) then connAddr (sessionConn s) else addr in
      let addr := if decide (addr = [] /\ OriginNetworkType s = lit "IN") then UnicastAddress s else addr in
      if decide (addr = []) then inr (Errorf "no destination address in sdp")
      else match ParseAddr addr with
           | None => inr (Errorf "invalid destination address")
           | Some ip => inl (ip, u16 (Port audio))
           end
  | _, _ => inr (Errorf "no audio in sdp")
  end.

(** [Description], with the types [Offer] and [Answer]. *)
Record Description : Type := mkDescription { SDP : SessionDescription; address : AddrPort; desc : MediaDesc }.

(** The direction of the session, when the media has none. *)
Definition sessionDirection (s : SessionDescription) : Z :=
  match list_find (fun key => SessionAttribute s key <> None) directions with
  | Some (_, key) => default 0 (NewDirection key)
  | None => DirectionSendRecv
  end.

Definition withDirection (m : MediaDesc) (dir : Z) : MediaDesc :=
  mkDesc (AudioCodecs m) (DataCodecs m) (UnknownCodecs m) (CryptoProfiles m) dir.

Definition ParseWith (w : world) (s : option nat) (data : list Z) : outcome (Description + error) :=
  match Unmarshal data with
  | inr err => Ok (inr err)
  | inl sd =>
      match GetAudio sd with
      | None => Ok (inr (Errorf "no audio in sdp"))
      | Some audio =>
          match GetAudioDest (Some sd) (Some audio) with
          | inr err => Ok (inr err)
          | inl addr =>
              if negb (AddrIsValid addr.1) || (addr.2 =? 0) then Ok (inr (Errorf "invalid audio address"))
              else
                let! r := ParseMediaWith w s audio in
                Ok (match r with
                    | inr err => inr err
                    | inl m =>
                        let dir := if negb (Direction m =? 0) then Direction m else sessionDirection sd in
                        inl (mkDescription sd addr (withDirection m dir))
                    end)
          end
      end
  end.

(** ** Negotiation *)

Record MediaConfig : Type := mkMediaConfig {
  Local : AddrPort;
  Remote : AddrPort;
  AudioConf : AudioConfig;
  Crypto : option Config;
  PeerDirection : Z;
}.

(** The session around a media description, as [NewOfferWith], [Answer] and
    [buildLocalSDP] build it. *)
Definition sessionOf (id version : Z) (addr : str) (m : MediaDescription) : SessionDescription :=
  mkSession id version (lit "IN") addr (Some (mkConn (lit "IN") (Some addr))) [] [m].

(** [NewOfferWith]; [sessId] is the random identifier. *)
Definition NewOfferWith (sessId : Z) (codecs : list CodecInfo) (publicIp : Addr) (rtpListenerPort : Z)
    (encrypted : Encryption) (local : list Profile + error) : Description + error :=
  match OfferMediaWith codecs rtpListenerPort encrypted local with
  | inr err => inr err
  | inl (m, mediaDesc) =>
      inl (mkDescription (sessionOf sessId sessId (AddrString publicIp) mediaDesc)
             (publicIp, u16 rtpListenerPort) m)
  end.

(** [Offer.Answer]; [local] is the result of [opt.Srtp.LocalProfiles()]. *)
Definition Answer (d : Description) (publicIp : Addr) (rtpListenerPort : Z) (enc : Encryption)
    (local : list Profile + error) : (Description * MediaConfig) + error :=
  match SelectAudio (desc d) false with
  | inr err => inr err
  | inl audio =>
      match (if negb (zlen (CryptoProfiles (desc d)) =? 0) && negb (bool_decide (enc = EncryptionNone))
             then match local with
                  | inr err => inr err
                  | inl answer => inl (SelectCrypto (CryptoProfiles (desc d)) answer true)
                  end
             else inl None) with
      | inr err => inr err
      | inl sel =>
          if bool_decide (sel = None) && bool_decide (enc = EncryptionRequire) then inr ErrNoCommonCrypto
          else
            let mediaDesc := AnswerMedia rtpListenerPort audio (snd <$> sel) in
            let id := SessionID (SDP d) in
            let src := (publicIp, u16 rtpListenerPort) in
            inl (mkDescription (sessionOf id (u64 (id + 2)) (AddrString publicIp) mediaDesc) src
                   (mkDesc [audioCodec audio] (option_list (DTMFCodec audio)) [] [] 0),
                 mkMediaConfig src (address d) audio (fst <$> sel) (Direction (desc d)))
      end
  end.

(** [buildLocalSDP]; [random] is used for a session without identifier. *)
Definition buildLocalSDP (random : Z) (sessionID : Z) (local : AddrPort) (audio : AudioConfig) (sprof : option Profile)
    : SessionDescription :=
  let sessionID := if sessionID =? 0 then random else sessionID in
  sessionOf sessionID (u64 (sessionID + 4)) (AddrString local.1) (AnswerMedia local.2 audio sprof).

(** [Answer.apply], and what [Apply] and [ApplyWithLocal] return of it. *)
Definition apply (random : Z) (d offer : Description) (enc : Encryption) (generateLocalSDP : bool)
    : (MediaConfig * option SessionDescription) + error :=
  match SelectAudio (desc d) true with
  | inr err => inr err
  | inl audio =>
      let sel :=
        if negb (zlen (CryptoProfiles (desc d)) =? 0) && negb (bool_decide (enc = EncryptionNone))
        then SelectCrypto (CryptoProfiles (desc offer)) (CryptoProfiles (desc d)) false
        else None in
      if bool_decide (sel = None) && bool_decide (enc = EncryptionRequire) then inr ErrNoCommonCrypto
      else
        let mc := mkMediaConfig (address offer) (address d) audio (fst <$> sel) (Direction (desc d)) in
        if negb generateLocalSDP then inl (mc, None)
        else inl (mc, Some (buildLocalSDP random (SessionID (SDP offer)) (address offer) audio (snd <$> sel)))
  end.

Definition Apply (random : Z) (d offer : Description) (enc : Encryption) : MediaConfig + error :=
  match apply random d offer enc false with inl (mc, _) => inl mc | inr err => inr err end.

Definition ApplyWithLocal (random : Z) (d offer : Description) (enc : Encryption)
    : (MediaConfig * option SessionDescription) + error := apply random d offer enc true.

(** ** The functions for the type of a description, and for the global set *)

(** [ParseOfferWith], [ParseAnswerWith]: the same description under another
    type. *)
Definition ParseOfferWith (w : world) (s : option nat) (data : list Z) : outcome (Description + error) :=
  let! r := ParseWith w s data in
  Ok (match r with inr err => inr err | inl d => inl d end).
Definition ParseAnswerWith (w : world) (s : option nat) (data : list Z) : outcome (Description + error) :=
  let! r := ParseWith w s data in
  Ok (match r with inr err => inr err | inl d => inl d end).

(** [Parse] *)
Definition Parse_ (w : world) (data : list Z) : outcome (Description + error) := ParseWith w (Some globalSet) data.
Definition ParseOffer (w : world) (data : list Z) : outcome (Description + error) := ParseOfferWith w (Some globalSet) data.
Definition ParseAnswer (w : world) (data : list Z) : outcome (Description + error) := ParseAnswerWith w (Some globalSet) data.
Definition ParseMedia (w : world) (d : MediaDescription) : outcome (MediaDesc + error) := ParseMediaWith w (Some globalSet) d.

Definition OfferCodecs (legacy : bool) (w : world) : list CodecInfo := OfferCodecsWith legacy w (Some globalSet).

Definition OfferMedia (legacy : bool) (w : world) (rtpListenerPort : Z) (encrypted : Encryption) (local : list Profile + error)
    : (MediaDesc * MediaDescription) + error :=
  OfferMediaWith (OfferCodecs legacy w) rtpListenerPort encrypted local.

Definition NewOffer (sessId : Z) (legacy : bool) (w : world) (publicIp : Addr) (rtpListenerPort : Z) (encrypted : Encryption)
    (local : list Profile + error) : Description + error :=
  NewOfferWith sessId (OfferCodecs legacy w) publicIp rtpListenerPort encrypted local.

End parse.

(** [CodecByName] *)
Definition CodecByName (w : world) (name : str) : option CodecType := CodecByNameWith w (Some globalSet) name.
