(* ===== verification/SdpParse.v ===== *)
(** * SdpParse: a rendered media description parses back

    What [OfferMediaWith] and [AnswerMedia] write, [ParseMediaWith] reads: the
    rtpmap and fmtp attributes of a codec give its type, name and configuration
    as SDP carries it, the crypto attributes give the profiles, and the formats
    add nothing. *)

From Stdlib Require Import Ascii.
From stdpp Require Import base tactics numbers strings list.
From S2P Require Import Prelude GoStr Codecs CodecList CodecListProps Srtp SrtpProps Sdp.

#[local] Open Scope go_scope.

(** ** Parameters *)

(** A text that SDP can carry as a parameter: no separator, no space at its
    ends. *)
Definition token (s : str) : Prop :=
  ";"%char ∉ s /\ (forall c, head s = Some c -> isSpace c = false) /\ (forall c, last s = Some c -> isSpace c = false).

Definition paramOk (p : CodecParam) : Prop :=
  Key p <> [] /\ token (Key p) /\ equals ∉ Key p /\ token (Val p).

Lemma TrimSpace_token s : token s -> TrimSpace s = s.
Proof. intros (_ & Hh & Hl). by apply TrimSpace_id. Qed.

Lemma IndexByte_app p s c : c ∉ p -> IndexByte (p ++ c :: s) c = Some (length p).
Proof.
  induction p as [|x p IH]; simpl; [by rewrite decide_True|].
  intros [Hx Hp]%not_elem_of_cons. rewrite decide_False by done. by rewrite IH.
Qed.

Lemma parseParam_string p : paramOk p -> parseParam (paramString p) = Some p.
Proof.
  intros (Hn & Hk & He & Hv). destruct p as [k v]. unfold paramString, parseParam. simpl in *.
  destruct (decide (v = [])) as [Hvn|Hvn].
  - subst v. rewrite TrimSpace_token by done. rewrite decide_False by done. by rewrite IndexByte_notin.
  - change ("="%char :: v) with (equals :: v).
    assert (Ht : TrimSpace (k ++ equals :: v) = k ++ equals :: v).
    { apply TrimSpace_id; intros c Hc.
      - destruct Hk as (_ & Hk & _). apply Hk. destruct k; [done|exact Hc].
      - apply Hv. rewrite last_app_cons in Hc. by destruct v. }
    rewrite Ht. rewrite decide_False by (by destruct k).
    rewrite IndexByte_app by done.
    rewrite take_app_length. replace (S (length k)) with (length (k ++ [equals])) by (rewrite length_app; simpl; lia).
    change (equals :: v) with ([equals] ++ v). rewrite app_assoc, drop_app_length.
    by rewrite !TrimSpace_token.
Qed.

Lemma paramString_semicolon p : paramOk p -> ";"%char ∉ paramString p.
Proof.
  intros (_ & [Hk _] & _ & [Hv _]). unfold paramString. case_decide; [done|].
  rewrite !not_elem_of_app. split_and!; [done|apply (bool_decide_unpack _); vm_compute; exact I|done].
Qed.

(** Splitting a join. *)
Lemma splitN_more n m sep s : (length s < n)%nat -> (length s < m)%nat -> splitN (S n) sep s = splitN (S m) sep s.
Proof.
  revert n m. induction s as [|c s IH]; intros n m Hn Hm; [by destruct n, m; simpl in *; try lia|].
  destruct n as [|n]; [simpl in Hn; lia|]. destruct m as [|m]; [simpl in Hm; lia|]. simpl in Hn, Hm.
  change (splitN (S (S n)) sep (c :: s)) with
    (if decide (c = sep) then [] :: splitN (S n) sep s
     else match splitN (S (S n)) sep s with p :: ps => (c :: p) :: ps | [] => [[c]] end).
  change (splitN (S (S m)) sep (c :: s)) with
    (if decide (c = sep) then [] :: splitN (S m) sep s
     else match splitN (S (S m)) sep s with p :: ps => (c :: p) :: ps | [] => [[c]] end).
  rewrite (IH n m) by lia. by rewrite (IH (S n) (S m)) by lia.
Qed.

Lemma split_app sep p s : sep ∉ p -> split sep (p ++ sep :: s) = p :: split sep s.
Proof.
  intros Hp. unfold split. rewrite splitN_app by done. f_equal.
  apply splitN_more; rewrite ?length_app; simpl; lia.
Qed.

Lemma split_Join sep ps :
  ps <> [] -> Forall (fun p => sep ∉ p) ps -> split sep (Join ps [sep]) = ps.
Proof.
  intros Hne Hps. induction Hps as [|p ps Hp Hps IH]; [done|]. destruct ps as [|q ps].
  - simpl. unfold split. by apply splitN_none.
  - change (Join (p :: q :: ps) [sep]) with (p ++ sep :: Join (q :: ps) [sep]).
    rewrite split_app by done. by rewrite IH.
Qed.

Lemma params_parse ps :
  ps <> [] -> Forall paramOk ps -> omap parseParam (split ";" (paramsString ps)) = ps.
Proof.
  intros Hne Hps. unfold paramsString. change (lit ";") with [";"%char]. rewrite split_Join.
  - clear Hne. induction Hps as [|p ps Hp _ IH]; [done|]. simpl. rewrite parseParam_string by done. f_equal. exact IH.
  - by destruct ps.
  - apply Forall_map, (Forall_impl _ _ _ Hps). apply paramString_semicolon.
Qed.

(** ** The list of codecs *)

Definition typesOf (cs : list parsedCodec) : list Z := pType <$> cs.

Lemma getCodec_new typ f cs :
  typ ∉ typesOf cs -> getCodec typ f cs = cs ++ [f (mkParsed typ [] noConfig)].
Proof.
  induction cs as [|c cs IH]; intros Ht; [done|]. apply not_elem_of_cons in Ht as [Hc Ht]. simpl.
  destruct (pType c =? typ) eqn:E; bool_cases; [congruence|]. by rewrite IH.
Qed.

Lemma getCodec_last typ f cs c :
  typ ∉ typesOf cs -> pType c = typ -> getCodec typ f (cs ++ [c]) = cs ++ [f c].
Proof.
  intros Ht Hc. induction cs as [|x cs IH]; simpl; [by rewrite Hc, Z.eqb_refl|].
  apply not_elem_of_cons in Ht as [Hx Ht]. destruct (pType x =? typ) eqn:E; bool_cases; [congruence|]. by rewrite IH.
Qed.

Lemma getCodec_id typ cs : typ ∈ typesOf cs -> getCodec typ id cs = cs.
Proof.
  induction cs as [|c cs IH]; [by intros ?%not_elem_of_nil|]. simpl.
  destruct (pType c =? typ) eqn:E; bool_cases; [done|].
  intros [?|Ht]%elem_of_cons; [congruence|]. by rewrite IH.
Qed.

Lemma fold_addParam ps c :
  fold_left (fun c p => addParam p c) ps c =
    mkParsed (pType c) (pName c) (mkConfig (SampleRate (pConfig c)) (Channels (pConfig c)) (Params (pConfig c) ++ ps)).
Proof.
  revert c. induction ps as [|p ps IH]; intros c; simpl.
  - rewrite app_nil_r. by destruct c as [? ? []].
  - rewrite IH. simpl. by rewrite <- app_assoc.
Qed.

(** ** One codec *)

Definition int64 (z : Z) : Prop := -9223372036854775808 <= z <= 9223372036854775807.

(** A codec whose attributes can be read back. *)
Record renderable (c : CodecInfo) : Prop := mkRenderable {
  ren_type : 0 <= Type_ c < 256;
  ren_name : slash ∉ Name (typeInfo (Info c)) /\ Name (typeInfo (Info c)) <> [];
  ren_rate : int64 (RTPClockRate (Info c));
  ren_channels : int64 (Channels (config (Info c)));
  ren_params : Forall paramOk (Params (config (Info c)));
}.

(** What the attributes of a codec say. *)
Definition parsedOf (c : CodecInfo) : parsedCodec :=
  mkParsed (Type_ c) (Name (typeInfo (Info c))) (onWire (Info c)).

Lemma Itoa_slash z : slash ∉ Itoa z.
Proof. apply Itoa_notin. intros d Hd. by destruct (numeral_plain d Hd) as (_ & _ & _ & ?). Qed.

Lemma Itoa_space z : space ∉ Itoa z.
Proof. apply Itoa_notin. intros d Hd. by destruct (numeral_plain d Hd) as (_ & ? & _ & _). Qed.

Lemma type_int64 c : renderable c -> int64 (Type_ c).
Proof. intros []. unfold int64. lia. Qed.

Lemma parseRtpmap_render c cs :
  renderable c -> Type_ c ∉ typesOf cs ->
  parseRtpmap (aVal (rtpmap (Type_ c) (Info c))) cs =
    cs ++ [mkParsed (Type_ c) (Name (typeInfo (Info c))) (mkConfig (RTPClockRate (Info c)) (Channels (config (Info c))) [])].
Proof.
  intros Hc Ht. pose proof (type_int64 c Hc) as Hty. destruct Hc as [_ [Hs Hn] Hr Hch _].
  unfold parseRtpmap, rtpmap. simpl.
  change (lit " " ++ SDPFullName (Info c)) with (space :: SDPFullName (Info c)).
  rewrite splitN_app, splitN_1 by apply Itoa_space. rewrite Atoi_Itoa by done. unfold SDPFullName.
  destruct (Channels (config (Info c)) =? 0) eqn:E; bool_cases.
  - change (lit "/" ++ Itoa (RTPClockRate (Info c))) with (slash :: Itoa (RTPClockRate (Info c))).
    rewrite splitN_app, splitN_none by (done || apply Itoa_slash). rewrite Atoi_Itoa by done.
    rewrite getCodec_new by done. unfold setRtpmap. simpl. by rewrite E.
  - change (lit "/" ++ Itoa (RTPClockRate (Info c)) ++ lit "/" ++ Itoa (Channels (config (Info c))))
      with (slash :: Itoa (RTPClockRate (Info c)) ++ slash :: Itoa (Channels (config (Info c)))).
    rewrite splitN_app, splitN_app, splitN_none by (done || apply Itoa_slash). rewrite !Atoi_Itoa by done.
    by rewrite getCodec_new.
Qed.

Lemma parseFmtp_render c cs c0 :
  renderable c -> Params (config (Info c)) <> [] -> Type_ c ∉ typesOf cs -> pType c0 = Type_ c ->
  Params (pConfig c0) = [] ->
  parseFmtp (Itoa (Type_ c) ++ lit " " ++ paramsString (Params (config (Info c)))) (cs ++ [c0]) =
    cs ++ [mkParsed (pType c0) (pName c0)
             (mkConfig (SampleRate (pConfig c0)) (Channels (pConfig c0)) (Params (config (Info c))))].
Proof.
  intros Hc Hne Ht H0 Hp. pose proof (type_int64 c Hc) as Hty. destruct Hc as [_ _ _ _ Hps].
  unfold parseFmtp. change (lit " " ++ ?x) with (space :: x).
  rewrite splitN_app, splitN_1 by apply Itoa_space. rewrite Atoi_Itoa, params_parse by done.
  rewrite getCodec_last by done. by rewrite fold_addParam, Hp.
Qed.

(** ** A whole description *)

Section render.
Context `{SrtpLib} `{SdpLib}.

Lemma parse_codec c rest st :
  renderable c -> Type_ c ∉ typesOf (pCodecs st) ->
  parseAttributes (codecAttributes c ++ rest) st =
    parseAttributes rest (mkParse (pCodecs st ++ [parsedOf c]) (pProfiles st) (pDirection st)).
Proof.
  intros Hc Ht. unfold codecAttributes, fmtp. cbn [app parseAttributes].
  assert (Hmap : forall st, parseAttribute (rtpmap (Type_ c) (Info c)) st =
    Ok (inl (mkParse (parseRtpmap (aVal (rtpmap (Type_ c) (Info c))) (pCodecs st)) (pProfiles st) (pDirection st))))
    by done.
  rewrite Hmap, parseRtpmap_render by done. cbn [obind].
  destruct (zlen (Params (config (Info c))) =? 0) eqn:E; bool_cases; cbn [negb app parseAttributes].
  - apply zlen_0 in E. unfold parsedOf, onWire. by rewrite E.
  - assert (Hf : forall v st, parseAttribute (mkAttr (lit "fmtp") v) st =
      Ok (inl (mkParse (parseFmtp v (pCodecs st)) (pProfiles st) (pDirection st)))) by done.
    rewrite Hf. cbn [obind pCodecs pProfiles pDirection].
    rewrite parseFmtp_render by (done || (intros Hn; rewrite Hn in E; done)). done.
Qed.

Lemma parse_codecs cs rest st :
  Forall renderable cs -> NoDup (typesOf (pCodecs st) ++ (Type_ <$> cs)) ->
  parseAttributes (concat (codecAttributes <$> cs) ++ rest) st =
    parseAttributes rest (mkParse (pCodecs st ++ (parsedOf <$> cs)) (pProfiles st) (pDirection st)).
Proof.
  intros Hcs. revert st. induction Hcs as [|c cs Hc _ IH]; intros st Hd.
  - simpl. rewrite app_nil_r. by destruct st.
  - rewrite fmap_cons. cbn [concat]. rewrite <- app_assoc. rewrite fmap_cons in Hd.
    rewrite parse_codec; [|done|].
    2:{ apply NoDup_app in Hd as (_ & Hd & _). intros Hin. apply (Hd _ Hin), list_elem_of_here. }
    rewrite IH; cbn [pCodecs pProfiles pDirection].
    + by rewrite <- app_assoc, fmap_cons.
    + unfold typesOf in *. rewrite fmap_app, <- app_assoc. exact Hd.
Qed.

(** A profile that a crypto attribute can carry, and what it carries. *)
Definition carried (p : Profile) : Prop :=
  (exists sp, Parse (profile p) = Some sp /\ KeyLen sp = inl (zlen (PKey p))) /\
  bytes (PKey p ++ Salt p) /\ int64 (Index p).

Definition wire (p : Profile) : Profile := mkProfile (Index p) (profile p) (PKey p) (Salt p) [] 0.

Lemma parseSRTPProfile_wire p : carried p -> parseSRTPProfile (cryptoValue p) = Ok (inl (Some (wire p))).
Proof. intros ((sp & Hp & Hk) & Hb & Hi). by apply (parse_cryptoValue p sp). Qed.

Lemma parse_profiles ps rest st :
  Forall carried ps ->
  parseAttributes (((fun p => mkAttr (lit "crypto") (cryptoValue p)) <$> ps) ++ rest) st =
    parseAttributes rest (mkParse (pCodecs st) (pProfiles st ++ (wire <$> ps)) (pDirection st)).
Proof.
  intros Hps. revert st. induction Hps as [|p ps Hp _ IH]; intros st.
  - simpl. rewrite app_nil_r. by destruct st.
  - rewrite fmap_cons. cbn [app parseAttributes].
    assert (Hc : forall v st, parseAttribute (mkAttr (lit "crypto") v) st =
      let! r := parseSRTPProfile v in
      Ok (match r with
          | inr _ => inr (Errorf "cannot parse srtp profile")
          | inl None => inl st
          | inl (Some p) => inl (mkParse (pCodecs st) (pProfiles st ++ [p]) (pDirection st))
          end)) by done.
    rewrite Hc, parseSRTPProfile_wire by done. cbn [obind]. rewrite IH. cbn [pCodecs pProfiles pDirection].
    by rewrite <- app_assoc, fmap_cons.
Qed.

Lemma parse_last st :
  parseAttributes lastAttributes st =
    Ok (inl (match NewDirection (lit "sendrecv") with
             | Some dir => mkParse (pCodecs st) (pProfiles st) dir
             | None => st
             end)).
Proof. done. Qed.

Lemma addFormats_render cs l :
  (forall c, c ∈ l -> renderable c /\ Type_ c ∈ typesOf cs) ->
  addFormats ((fun c => Itoa (Type_ c)) <$> l) cs = cs.
Proof.
  unfold addFormats. induction l as [|c l IH]; intros Hl; [done|]. rewrite fmap_cons. cbn [fold_left].
  destruct (Hl c (list_elem_of_here _ _)) as [Hc Ht].
  rewrite Atoi_Itoa by (by apply type_int64). rewrite getCodec_id by done. apply IH.
  intros x Hx. apply Hl. by apply list_elem_of_further.
Qed.

(** A codec that the reader knows, and the information the reader gets. *)
Record known (w : world) (s : option nat) (c : CodecInfo) (i : Codecs.CodecInfo) : Prop := mkKnown {
  kn_ren : renderable c;
  kn_codec : exists t, Codec c = Some t /\ CodecByNameWith w s (Name (typeInfo (Info c))) = Some t /\
               Supports t (onWire (Info c)) = (i, true);
}.

Definition received (c : CodecInfo) (i : Codecs.CodecInfo) : CodecInfo := mkCodec (Type_ c) (Codec c) i.

Lemma lookupCodecs_known w s cs infos :
  Forall2 (known w s) cs infos -> lookupCodecs w s (parsedOf <$> cs) = Ok (zip_with received cs infos).
Proof.
  induction 1 as [|c i cs infos [Hr (t & Hc & Hn & Hs)] _ IH]; [done|]. rewrite fmap_cons. cbn [lookupCodecs].
  rewrite IH. unfold lookupCodec, parsedOf. cbn [pName pType pConfig].
  rewrite decide_True by (apply Hr). cbn [obind]. rewrite Hn, Hs. simpl.
  unfold received. rewrite Hc. unfold u8. rewrite Z.mod_small by (destruct Hr; done). done.
Qed.

(** The description that a reader makes of a rendered one. *)
Definition readDesc (cs : list CodecInfo) (profiles : list Profile) (dir : Z) : MediaDesc :=
  mkDesc (filter (fun c => kindOf c = Audio) cs) (filter (fun c => kindOf c = Data) cs)
    (filter (fun c => kindOf c = Unknown) cs) (wire <$> profiles) dir.

Definition rendered (cs : list CodecInfo) (profiles : list Profile) (m : MediaDescription) : Prop :=
  Attributes m = appendCryptoProfiles (concat (codecAttributes <$> cs)) profiles ++ lastAttributes /\
  Formats m = (fun c => Itoa (Type_ c)) <$> cs.

Lemma parse_rendered w s cs infos profiles m dir :
  rendered cs profiles m -> Forall2 (known w s) cs infos -> NoDup (Type_ <$> cs) -> Forall carried profiles ->
  NewDirection (lit "sendrecv") = Some dir ->
  ParseMediaWith w s m = Ok (inl (readDesc (zip_with received cs infos) profiles dir)).
Proof.
  intros [Ha Hf] Hk Hd Hp Hdir. unfold ParseMediaWith. rewrite Ha, Hf. unfold appendCryptoProfiles.
  assert (Hren : Forall renderable cs).
  { apply Forall_forall. intros c Hc. apply list_elem_of_lookup in Hc as [k Hc].
    destruct (Forall2_lookup_l _ _ _ _ _ Hk Hc) as (i & _ & []). done. }
  rewrite <- app_assoc, parse_codecs by done. rewrite parse_profiles by done. rewrite parse_last, Hdir.
  cbn [obind pCodecs pProfiles pDirection app]. rewrite addFormats_render.
  - rewrite (lookupCodecs_known w s cs infos) by done. done.
  - intros c Hc. split; [by apply (proj1 (Forall_forall _ _) Hren)|]. unfold typesOf.
    rewrite <- list_fmap_compose. apply list_elem_of_fmap. by exists c.
Qed.

End render.
