(* ===== verification/SdpProps.v ===== *)
(** * SdpProps: offers, answers and what both sides conclude

    An offer is read as it was written; the audio codec, the DTMF codec and the
    SRTP keys are chosen as documented; and after an offer and an answer both
    sides hold the same configuration. *)

From Stdlib Require Import Ascii.
From stdpp Require Import base tactics numbers strings list sorting.
From S2P Require Import Prelude GoStr Codecs CodecsProps CodecList CodecListProps Srtp SrtpProps Sdp SdpParse.

#[local] Open Scope go_scope.

(** ** Rendered descriptions *)

(** The codecs that an offer lists. *)
Definition listed (codecs : list CodecInfo) : list CodecInfo := filter (fun c => kindOf c <> Unknown) codecs.

Lemma OfferMediaWith_rendered codecs port enc local m md :
  OfferMediaWith codecs port enc local = inl (m, md) ->
  rendered (listed codecs) (CryptoProfiles m) md /\ Port md = port /\ Media md = lit "audio" /\ mediaConn md = None /\
  AudioCodecs m = filter (fun c => kindOf c = Audio) codecs /\ DataCodecs m = filter (fun c => kindOf c = Data) codecs /\
  (CryptoProfiles m = [] \/ enc <> EncryptionNone /\ local = inl (CryptoProfiles m)).
Proof.
  unfold OfferMediaWith. case_decide as He; [|destruct local as [ps|]; [|done]];
    intros [= <- <-]; split_and!; try done; [by left|by right].
Qed.

Lemma AnswerMedia_rendered port audio crypt :
  rendered (audioCodec audio :: option_list (DTMFCodec audio)) (option_list crypt) (AnswerMedia port audio crypt) /\
  Port (AnswerMedia port audio crypt) = port /\ Media (AnswerMedia port audio crypt) = lit "audio" /\
  mediaConn (AnswerMedia port audio crypt) = None.
Proof.
  unfold AnswerMedia, rendered. destruct (DTMFCodec audio), crypt; simpl; by rewrite ?app_nil_r.
Qed.

(** ** Selection of the codecs *)

Definition priorityOf (c : CodecInfo) : Z := Priority (typeInfo (Info c)).

Lemma bestAudio_spec cs b :
  bestAudio false cs (Some b) (priorityOf b) = Some b /\ Forall (fun c => priorityOf c <= priorityOf b) cs \/
  exists l a l', cs = l ++ a :: l' /\ bestAudio false cs (Some b) (priorityOf b) = Some a /\
    priorityOf b < priorityOf a /\ Forall (fun c => priorityOf c < priorityOf a) l /\
    Forall (fun c => priorityOf c <= priorityOf a) l'.
Proof.
  revert b. induction cs as [|c cs IH]; intros b; [by left|].
  cbn [bestAudio]. fold (priorityOf c). cbn [orb]. destruct (priorityOf b <? priorityOf c) eqn:E; bool_cases.
  - right. destruct (IH c) as [[-> Hc]|(l & a & l' & -> & -> & Ha & Hl & Hl')].
    + by exists [], c, cs.
    + exists (c :: l), a, l'. split_and!; try done; [lia|]. by constructor.
  - destruct (IH b) as [[-> Hb]|(l & a & l' & -> & -> & Ha & Hl & Hl')]; [left; split; [done|by constructor]|right].
    exists (c :: l), a, l'. split_and!; try done. constructor; [lia|done].
Qed.

Lemma bestAudio_first cs a :
  bestAudio false cs None 0 = Some a <->
  exists l l', cs = l ++ a :: l' /\ Forall (fun c => priorityOf c < priorityOf a) l /\
    Forall (fun c => priorityOf c <= priorityOf a) l'.
Proof.
  assert (Huniq : forall a a' l l1 l' l1', l ++ a :: l' = l1 ++ a' :: l1' ->
    Forall (fun c => priorityOf c < priorityOf a) l -> Forall (fun c => priorityOf c <= priorityOf a) l' ->
    Forall (fun c => priorityOf c < priorityOf a') l1 -> Forall (fun c => priorityOf c <= priorityOf a') l1' -> a = a').
  { intros x x' l. induction l as [|y l IH]; intros l1 l' l1' He H1 H2 H3 H4; destruct l1 as [|y1 l1];
      simplify_eq/=; try done.
    - apply Forall_cons in H3 as [? _]. apply Forall_app in H2 as [_ [? _]%Forall_cons]. lia.
    - apply Forall_cons in H1 as [? _]. apply Forall_app in H4 as [_ [? _]%Forall_cons]. lia.
    - apply Forall_cons in H1 as [_ H1]. apply Forall_cons in H3 as [_ H3]. by eapply IH. }
  assert (Hspec : cs = [] \/ exists a l l', bestAudio false cs None 0 = Some a /\ cs = l ++ a :: l' /\
    Forall (fun c => priorityOf c < priorityOf a) l /\ Forall (fun c => priorityOf c <= priorityOf a) l').
  { destruct cs as [|c cs]; [by left|right]. cbn [bestAudio orb]. fold (priorityOf c).
    destruct (bestAudio_spec cs c) as [[-> Hc]|(l & x & l' & -> & -> & Hx & Hl & Hl')].
    - by exists c, [], cs.
    - exists x, (c :: l), l'. split_and!; try done. by constructor. }
  destruct Hspec as [->|(x & l & l' & Hx & Hcs & Hl & Hl')].
  { split; [done|]. by intros ([] & ? & ? & _). }
  rewrite Hx. split; [intros [= <-]; by exists l, l'|]. intros (l1 & l1' & Hcs' & Hl1 & Hl1'). f_equal.
  rewrite Hcs in Hcs'. by eapply Huniq.
Qed.

(** Among the DTMF codecs of a rate up to [rate], the first of the highest
    rate. *)
Definition bestDTMF (rate : Z) (ds : list CodecInfo) (d : CodecInfo) : Prop :=
  exists l l', ds = l ++ d :: l' /\ isDTMF d /\ RTPClockRate (Info d) <= rate /\
    Forall (fun c => isDTMF c -> RTPClockRate (Info c) <= rate -> RTPClockRate (Info c) < RTPClockRate (Info d)) l /\
    Forall (fun c => isDTMF c -> RTPClockRate (Info c) <= rate -> RTPClockRate (Info c) <= RTPClockRate (Info d)) l'.

Lemma lowerDTMF_spec rate ds best maxRate :
  Forall (fun d => isDTMF d -> 0 <= RTPClockRate (Info d)) ds -> -1 <= maxRate ->
  lowerDTMF rate ds best maxRate = best /\
    Forall (fun d => isDTMF d -> RTPClockRate (Info d) <= rate -> RTPClockRate (Info d) <= maxRate) ds \/
  exists d, lowerDTMF rate ds best maxRate = Some d /\ bestDTMF rate ds d /\ maxRate < RTPClockRate (Info d).
Proof.
  intros Hds. revert best maxRate. induction Hds as [|d ds Hd _ IH]; intros best maxRate Hm; [by left|].
  assert (Hskip : (isDTMF d -> RTPClockRate (Info d) <= rate -> RTPClockRate (Info d) <= maxRate) ->
    lowerDTMF rate ds best maxRate = best /\
      Forall (fun d => isDTMF d -> RTPClockRate (Info d) <= rate -> RTPClockRate (Info d) <= maxRate) (d :: ds) \/
    exists d', lowerDTMF rate ds best maxRate = Some d' /\ bestDTMF rate (d :: ds) d' /\ maxRate < RTPClockRate (Info d')).
  { intros Hs. destruct (IH best maxRate Hm) as [[-> Hall]|(d' & -> & (l & l' & -> & H1 & H2 & H3 & H4) & Hlt)].
    - left. split; [done|]. by constructor.
    - right. exists d'. split_and!; [done| |done]. exists (d :: l), l'. split_and!; try done.
      constructor; [|done]. intros Ha Hb. specialize (Hs Ha Hb). lia. }
  cbn [lowerDTMF]. case_decide as Hdt; [apply Hskip; tauto|].
  destruct (rate <? RTPClockRate (Info d)) eqn:E1; bool_cases; [apply Hskip; lia|].
  specialize (Hd Hdt).
  destruct ((maxRate <? 0) || (maxRate <? RTPClockRate (Info d))) eqn:E2; [|apply Hskip; lia].
  assert (Hlt : maxRate < RTPClockRate (Info d)) by lia.
  right. destruct (IH (Some d) (RTPClockRate (Info d)) ltac:(lia)) as [[-> Hall]|(d' & -> & (l & l' & -> & H1 & H2 & H3 & H4) & Hlt')].
  - exists d. split_and!; [done| |done]. exists [], ds. split_and!; try done.
  - exists d'. split_and!; [done| |lia]. exists (d :: l), l'. split_and!; try done.
    constructor; [|done]. intros _ _. done.
Qed.

Definition ratesOk (ds : list CodecInfo) : Prop := Forall (fun d => isDTMF d -> 0 <= RTPClockRate (Info d)) ds.

Lemma selectDTMF_spec rate ds :
  ratesOk ds ->
  match selectDTMF rate ds with
  | Some d => bestDTMF rate ds d
  | None => Forall (fun d => isDTMF d -> rate < RTPClockRate (Info d)) ds
  end.
Proof.
  intros Hds. unfold selectDTMF.
  destruct (list_find (fun d => isDTMF d /\ RTPClockRate (Info d) = rate) ds) as [[i d]|] eqn:E.
  - apply list_find_Some in E as (Hi & [Hd Hr] & Hbefore).
    exists (take i ds), (drop (S i) ds). split_and!; [by rewrite take_drop_middle|done|lia| |].
    + apply Forall_lookup. intros j c Hj Hc Hle. apply lookup_take_Some in Hj as [Hj Hlt].
      destruct (decide (RTPClockRate (Info c) = rate)); [|lia]. by destruct (Hbefore j c Hj Hlt).
    + apply Forall_forall. intros c _ _ Hle. lia.
  - destruct (lowerDTMF_spec rate ds None (-1) Hds ltac:(lia)) as [[-> Hall]|(d & -> & Hd & _)]; [|done].
    apply Forall_forall. intros d Hd Hdt. apply list_elem_of_lookup in Hd as [i Hd].
    pose proof (Forall_lookup_1 _ _ _ _ Hds Hd Hdt). pose proof (Forall_lookup_1 _ _ _ _ Hall Hd Hdt). lia.
Qed.

(** C32: the choice of codecs: an offer is answered with its first audio codec
    of the highest priority, an answer is taken at its first audio codec, and
    there is an error exactly when there is none; the DTMF codec is the first
    of those with the highest clock rate not above that of the audio codec (so
    one with the same rate if there is any), and none only when every DTMF
    codec has a higher rate. *)
Theorem select_audio (d : MediaDesc) (answer : bool) (Hr : ratesOk (DataCodecs d)) :
  match SelectAudio d answer with
  | inr err => err = ErrNoCommonMedia /\ AudioCodecs d = []
  | inl a =>
      (if answer then head (AudioCodecs d) = Some (audioCodec a)
       else exists l l', AudioCodecs d = l ++ audioCodec a :: l' /\
              Forall (fun c => priorityOf c < priorityOf (audioCodec a)) l /\
              Forall (fun c => priorityOf c <= priorityOf (audioCodec a)) l') /\
      (let rate := RTPClockRate (Info (audioCodec a)) in
       match DTMFCodec a with
       | Some x => bestDTMF rate (DataCodecs d) x
       | None => Forall (fun x => isDTMF x -> rate < RTPClockRate (Info x)) (DataCodecs d)
       end)
  end.
Proof.
  unfold SelectAudio. destruct (bestAudio answer (AudioCodecs d) None 0) as [a|] eqn:E.
  - split; [|by apply selectDTMF_spec]. cbn [audioCodec]. destruct answer; [|by apply bestAudio_first].
    destruct (AudioCodecs d) as [|c cs]; [done|]. simpl in E. exact E.
  - split; [done|]. destruct (AudioCodecs d) as [|c cs] eqn:Hc; [done|exfalso]. destruct answer; [done|].
    cbn [bestAudio orb] in E. fold (priorityOf c) in E.
    destruct (bestAudio_spec cs c) as [[He _]|(l & x & l' & _ & He & _)]; rewrite He in E; done.
Qed.

(** ** Selection of the keys *)

(** The same keys seen from the other side. *)
Definition mirrored (c c' : Config) : Prop :=
  cipher c = cipher c' /\
  LocalMasterKey c = RemoteMasterKey c' /\ LocalMasterSalt c = RemoteMasterSalt c' /\
  RemoteMasterKey c = LocalMasterKey c' /\ RemoteMasterSalt c = LocalMasterSalt c'.

Lemma list_find_wire (name : str) (offers : list Profile) :
  list_find (fun off => profile off = name) (wire <$> offers) =
    prod_map id wire <$> list_find (fun off => profile off = name) offers.
Proof.
  induction offers as [|p offers IH]; [done|]. rewrite fmap_cons. cbn [list_find].
  change (profile (wire p)) with (profile p). case_decide; [done|]. rewrite IH.
  by destruct (list_find _ offers) as [[]|].
Qed.

Lemma selectProfile_agree offers answers c p :
  selectProfile (wire <$> offers) answers true = Some (c, p) ->
  exists off ans sp, off ∈ offers /\ ans ∈ answers /\ Parse (profile ans) = Some sp /\
    p = withIndex ans (Index off) /\
    selectProfile offers [wire p] false = Some (cryptoConfig off (wire p) sp false, off) /\
    mirrored (cryptoConfig off (wire p) sp false) c.
Proof.
  induction answers as [|ans answers IH]; [done|]. cbn [selectProfile].
  destruct (Parse (profile ans)) as [sp|] eqn:Hp.
  2:{ intros H. destruct (IH H) as (off & a & sp & ? & ? & ?). exists off, a, sp. split; [done|].
      split; [by apply list_elem_of_further|done]. }
  rewrite list_find_wire. destruct (list_find (fun off => profile off = profile ans) offers) as [[i off]|] eqn:Hf.
  - intros [= <- <-]. exists off, ans, sp. split_and!; try done.
    + apply list_find_Some in Hf as (Hi & _). by eapply list_elem_of_lookup_2.
    + apply list_elem_of_here.
    + cbn [selectProfile]. change (profile (wire (withIndex ans (Index off)))) with (profile ans).
      by rewrite Hp, Hf.
  - intros H. destruct (IH H) as (off & a & sp' & ? & ? & ?). exists off, a, sp'. split; [done|].
    split; [by apply list_elem_of_further|done].
Qed.

(** Both sides hold the same keys: when the answering side selected a
    profile from the offered ones as their attributes carry them, the offering
    side, which reads the one profile of the answer, selects the same cipher,
    and the keys and salts of the two configurations are each other's mirror
    image: what one side sends with, the other receives with.  The answer
    carries the tag of the offered profile. *)
Theorem crypto_agreement (offers answers : list Profile) (c : Config) (p : Profile)
    (Hsel : SelectCrypto (wire <$> offers) answers true = Some (c, p)) :
  exists c' off, SelectCrypto offers [wire p] false = Some (c', off) /\ mirrored c' c /\
    off ∈ offers /\ profile off = profile p /\ Index off = Index p.
Proof.
  unfold SelectCrypto in *. destruct (zlen (wire <$> offers) =? 0) eqn:E; [done|]. unfold zlen in *.
  rewrite length_fmap in E. rewrite E.
  destruct (selectProfile_agree _ _ _ _ Hsel) as (off & ans & sp & Hoff & _ & Hp & -> & Hs & Hm).
  eexists _, off. split_and!; [exact Hs|exact Hm|done| |done].
  cbn [selectProfile] in Hs. change (profile (wire (withIndex ans (Index off)))) with (profile ans) in Hs.
  rewrite Hp in Hs. destruct (list_find _ offers) as [[i x]|] eqn:Hf; [|done].
  apply (inj Some), (f_equal snd) in Hs. simpl in Hs. subst x.
  by apply list_find_Some in Hf as (_ & ? & _).
Qed.

Lemma lowerDTMF_in rate ds best maxRate d :
  lowerDTMF rate ds best maxRate = Some d ->
  best = Some d \/ (d ∈ ds /\ isDTMF d /\ RTPClockRate (Info d) <= rate).
Proof.
  revert best maxRate. induction ds as [|x ds IH]; intros best maxRate; [by left|]. cbn [lowerDTMF].
  assert (Hskip : forall b m, lowerDTMF rate ds b m = Some d ->
    b = Some d \/ (d ∈ x :: ds /\ isDTMF d /\ RTPClockRate (Info d) <= rate)).
  { intros b m Hl. destruct (IH b m Hl) as [?|(? & ? & ?)]; [by left|right].
    split; [by apply list_elem_of_further|done]. }
  case_decide as Hx; [apply Hskip|]. destruct (rate <? RTPClockRate (Info x)) eqn:E1; bool_cases; [apply Hskip|].
  case_if; [|apply Hskip]. intros Hl. apply Hskip in Hl as [[= <-]|Hl]; [right|by right].
  split_and!; [apply list_elem_of_here|done|lia].
Qed.

(** The DTMF codec chosen from a list is chosen again when it is alone. *)
Lemma selectDTMF_again rate ds d :
  selectDTMF rate ds = Some d -> d ∈ ds /\ selectDTMF rate [d] = Some d.
Proof.
  intros Hs. assert (Hd : d ∈ ds /\ isDTMF d /\ RTPClockRate (Info d) <= rate).
  { unfold selectDTMF in Hs.
    destruct (list_find _ ds) as [[i x]|] eqn:E.
    - injection Hs as ->. apply list_find_Some in E as (Hi & [Hd Hr] & _).
      split_and!; [by eapply list_elem_of_lookup_2|done|lia].
    - by apply lowerDTMF_in in Hs as [|]. }
  destruct Hd as (Hin & Hd & Hr). split; [done|]. unfold selectDTMF. cbn [list_find].
  case_decide; [done|]. cbn [fmap option_fmap option_map lowerDTMF]. case_decide; [done|].
  destruct (rate <? RTPClockRate (Info d)) eqn:E; bool_cases; [lia|done].
Qed.

(** ** What the other side reads *)

Section negotiate.
Context `{SrtpLib} `{SdpLib}.
Context {Addr : Type}.
Context (ParseAddr : str -> option Addr) (AddrString : Addr -> str) (AddrIsValid : Addr -> bool).

(** [netip]: an address is printed and parsed back; pion: "sendrecv" is a
    direction. *)
Hypothesis ParseAddr_String : forall a, AddrIsValid a = true -> AddrString a <> [] /\ ParseAddr (AddrString a) = Some a.
Context (dir : Z).
Hypothesis NewDirection_sendrecv : NewDirection (lit "sendrecv") = Some dir /\ dir <> 0.

Definition usable (ip : Addr) (port : Z) : Prop := AddrIsValid ip = true /\ 0 < port < 65536.

(** Reading a session that this package built. *)
Lemma read_session w s data id v ip port md m :
  Unmarshal data = inl (sessionOf id v (AddrString ip) md) -> usable ip port ->
  Port md = port -> Media md = lit "audio" -> mediaConn md = None ->
  ParseMediaWith w s md = Ok (inl m) -> Direction m = dir ->
  ParseWith ParseAddr AddrIsValid w s data =
    Ok (inl (mkDescription (sessionOf id v (AddrString ip) md) (ip, port) m)).
Proof.
  intros Hu [Hv Hp] Hport Hm Hc Hparse Hd. destruct (ParseAddr_String ip Hv) as [Hne Hpa].
  destruct NewDirection_sendrecv as [_ Hdir].
  unfold ParseWith. rewrite Hu.
  assert (GetAudio (sessionOf id v (AddrString ip) md) = Some md) as ->.
  { unfold GetAudio, sessionOf. cbn [MediaDescriptions list_find]. by rewrite decide_True. }
  assert (GetAudioDest ParseAddr (Some (sessionOf id v (AddrString ip) md)) (Some md) = inl (ip, port)) as ->.
  { assert (Hca : connAddr (sessionConn (sessionOf id v (AddrString ip) md)) = AddrString ip).
    { reflexivity. }
    unfold GetAudioDest. rewrite Hc, Hca. change (connAddr None) with (@nil ascii).
    destruct (decide (@nil ascii = [])) as [_|Hx]; [|by destruct Hx].
    rewrite (decide_False (P := AddrString ip = [] /\ _)) by tauto.
    rewrite decide_False by done. rewrite Hpa, Hport. by rewrite u16_id by lia. }
  cbn [fst snd]. rewrite Hv. destruct (port =? 0) eqn:E; bool_cases; [lia|]. cbn [negb orb].
  rewrite Hparse. cbn [obind]. rewrite Hd.
  destruct (dir =? 0) eqn:E2; bool_cases; [done|]. cbn [negb].
  unfold withDirection. rewrite <- Hd. by destruct m.
Qed.

Lemma NewOfferWith_inv id codecs ip port enc local o :
  NewOfferWith AddrString id codecs ip port enc local = inl o ->
  exists md, OfferMediaWith codecs port enc local = inl (desc o, md) /\
    SDP o = sessionOf id id (AddrString ip) md /\ address o = (ip, u16 port).
Proof.
  unfold NewOfferWith. destruct (OfferMediaWith codecs port enc local) as [[m md]|]; [|done].
  intros [= <-]. by exists md.
Qed.

Lemma read_offer (w : world) (s : option nat) (data : list Z) (id : Z) (codecs : list CodecInfo)
    (ip : Addr) (port : Z) (enc : Encryption) (local : list Profile + error) (o : Description)
    (infos : list Codecs.CodecInfo)
    (Ho : NewOfferWith AddrString id codecs ip port enc local = inl o)
    (Hd : Unmarshal data = inl (SDP o)) (Hip : usable ip port)
    (Hk : Forall2 (known w s) (listed codecs) infos) (Ht : NoDup (Type_ <$> listed codecs))
    (Hc : Forall carried (CryptoProfiles (desc o))) :
  ParseWith ParseAddr AddrIsValid w s data =
    Ok (inl (mkDescription (SDP o) (ip, port)
               (readDesc (zip_with received (listed codecs) infos) (CryptoProfiles (desc o)) dir))).
Proof.
  destruct (NewOfferWith_inv _ _ _ _ _ _ _ Ho) as (md & Hm & Hs & _).
  destruct (OfferMediaWith_rendered _ _ _ _ _ _ Hm) as (Hr & Hp & Hmedia & Hconn & _).
  rewrite Hs in *. eapply read_session; try done.
  apply parse_rendered; try done. apply NewDirection_sendrecv.
Qed.

(** C14: an offer is read as it was written: for any reader that knows the
    codecs of an offer (whose registry finds them by name, enabled, and accepts
    the configuration SDP carries), parsing the offer gives its address, its
    codecs with their payload types in the same order and with the information
    the reader's codecs answer, the keys and salts of all its profiles, and
    nothing unknown. *)
Theorem offer_is_read (w : world) (s : option nat) (data : list Z) (id : Z) (codecs : list CodecInfo)
    (ip : Addr) (port : Z) (enc : Encryption) (local : list Profile + error) (o : Description)
    (infos : list Codecs.CodecInfo)
    (Ho : NewOfferWith AddrString id codecs ip port enc local = inl o)
    (Hd : Unmarshal data = inl (SDP o)) (Hip : usable ip port)
    (Hk : Forall2 (known w s) (listed codecs) infos) (Ht : NoDup (Type_ <$> listed codecs))
    (Hc : Forall carried (CryptoProfiles (desc o))) :
  ParseWith ParseAddr AddrIsValid w s data =
    Ok (inl (mkDescription (SDP o) (ip, port)
               (readDesc (zip_with received (listed codecs) infos) (CryptoProfiles (desc o)) dir))).
Proof. by eapply read_offer. Qed.

(** ** Both sides *)

Lemma received_self c : received c (Info c) = c.
Proof. by destruct c. Qed.

Lemma answer_codecs_read w s (cs : list CodecInfo) a ds d profiles :
  Forall (fun c => known w s c (Info c)) cs -> NoDup (Type_ <$> cs) ->
  a ∈ cs -> kindOf a = Audio -> selectDTMF (RTPClockRate (Info a)) ds = d ->
  (forall x, x ∈ ds -> x ∈ cs /\ kindOf x = Data) ->
  let got := a :: option_list d in
  Forall2 (known w s) got (Info <$> got) /\ NoDup (Type_ <$> got) /\
  SelectAudio (readDesc (zip_with received got (Info <$> got)) profiles dir) true = inl (mkAudio a d).
Proof.
  intros Hk Hnd Ha Hka Hd Hds got.
  assert (Hzip : zip_with received got (Info <$> got) = got).
  { subst got. clear. induction (a :: option_list d) as [|x l IH]; [done|]. rewrite fmap_cons. cbn [zip_with].
    by rewrite received_self, IH. }
  assert (Hd' : forall x, d = Some x -> x ∈ cs /\ kindOf x = Data /\ selectDTMF (RTPClockRate (Info a)) [x] = Some x).
  { intros x ->. destruct (selectDTMF_again _ _ _ Hd) as [Hx Hagain]. destruct (Hds x Hx). done. }
  pose proof (proj1 (Forall_forall _ _) Hk) as Hk'. rewrite Hzip. split_and!.
  - rewrite Forall2_fmap_r. apply Forall_Forall2_diag. apply Forall_cons. split; [by apply Hk'|].
    destruct d as [x|]; [|constructor]. destruct (Hd' x eq_refl) as (Hx & _). apply Forall_singleton. by apply Hk'.
  - destruct d as [x|]; [|by apply NoDup_singleton]. destruct (Hd' x eq_refl) as (Hx & Hkx & _).
    subst got. simpl. apply NoDup_cons. split; [|by apply NoDup_singleton].
    rewrite list_elem_of_singleton. intros Htt.
    apply list_elem_of_lookup in Ha as [i Hi]. apply list_elem_of_lookup in Hx as [j Hj].
    assert (i = j) as ->.
    { eapply NoDup_lookup; [exact Hnd| |]; rewrite list_lookup_fmap; [rewrite Hi|rewrite Hj]; [done|].
      simpl. by rewrite Htt. }
    rewrite Hi in Hj. injection Hj as ->. by rewrite Hka in Hkx.
  - unfold SelectAudio, readDesc. cbn [AudioCodecs DataCodecs]. subst got.
    rewrite filter_cons_True by done. cbn [bestAudio orb]. rewrite filter_cons_False by (by rewrite Hka).
    destruct d as [x|]; [|done]. destruct (Hd' x eq_refl) as (_ & Hkx & Hs). simpl option_list.
    rewrite filter_cons_True by done. rewrite filter_nil. by rewrite Hs.
Qed.

Lemma best_in cs a : bestAudio false cs None 0 = Some a -> a ∈ cs.
Proof. intros (l & l' & -> & _)%bestAudio_first. rewrite elem_of_app. right. apply list_elem_of_here. Qed.

(** What an answer is made of. *)
Lemma Answer_inv d ip port enc local a mc :
  Answer AddrString d ip port enc local = inl (a, mc) ->
  exists audio sel,
    SelectAudio (desc d) false = inl audio /\
    address a = (ip, u16 port) /\
    SDP a = sessionOf (SessionID (SDP d)) (u64 (SessionID (SDP d) + 2)) (AddrString ip) (AnswerMedia port audio (snd <$> sel)) /\
    mc = mkMediaConfig (ip, u16 port) (address d) audio (fst <$> sel) (Direction (desc d)) /\
    match sel with
    | None => True
    | Some s => exists ps, local = inl ps /\ SelectCrypto (CryptoProfiles (desc d)) ps true = Some s
    end.
Proof.
  unfold Answer. destruct (SelectAudio (desc d) false) as [audio|]; [|done].
  destruct (negb _ && negb _).
  - destruct local as [ps|]; [|done]. destruct (bool_decide _ && bool_decide _); [done|].
    intros [= <- <-]. exists audio, (SelectCrypto (CryptoProfiles (desc d)) ps true). split_and!; try done.
    destruct (SelectCrypto (CryptoProfiles (desc d)) ps true) as [s|] eqn:E; [|done]. by exists ps.
  - destruct (bool_decide _ && bool_decide _); [done|]. intros [= <- <-]. by exists audio, None.
Qed.

Lemma SelectCrypto_carried offers answers c p :
  Forall carried offers -> Forall carried answers -> SelectCrypto (wire <$> offers) answers true = Some (c, p) ->
  carried p /\ offers <> [] /\ exists c' off, SelectCrypto offers [wire p] false = Some (c', off) /\ mirrored c' c.
Proof.
  intros Ho Ha Hsel. unfold SelectCrypto in *.
  destruct (zlen (wire <$> offers) =? 0) eqn:E; [done|]. unfold zlen in *. rewrite length_fmap in E. rewrite E.
  destruct (selectProfile_agree _ _ _ _ Hsel) as (off & ans & sp & Hoff & Hans & Hp & -> & Hs & Hm).
  destruct (proj1 (Forall_forall _ _) Ho _ Hoff) as (_ & _ & Hi).
  destruct (proj1 (Forall_forall _ _) Ha _ Hans) as (Hk & Hb & _).
  split; [by split_and!|]. split; [by intros ->|]. by eexists _, off.
Qed.

(** The keys of an answer are carried, and the offering side finds their mirror. *)
Lemma answered_crypto (sel : option (Config * Profile)) offers (localO localA : list Profile + error) enc :
  Forall carried offers -> (forall ps, localA = inl ps -> Forall carried ps) ->
  offers = [] \/ enc <> EncryptionNone /\ localO = inl offers ->
  match sel with
  | None => True
  | Some s => exists ps, localA = inl ps /\ SelectCrypto (wire <$> offers) ps true = Some s
  end ->
  Forall carried (option_list (snd <$> sel)) /\
  match sel with
  | None => True
  | Some (c, p) => enc <> EncryptionNone /\
      exists c' off, SelectCrypto offers [wire p] false = Some (c', off) /\ mirrored c' c
  end.
Proof.
  intros Ho Ha Henc Hsel. destruct sel as [[c p]|]; [|by split]. destruct Hsel as (ps & Hps & Hsel).
  destruct (SelectCrypto_carried _ _ _ _ Ho (Ha ps Hps) Hsel) as (Hp & Hne & Hex).
  split; [by apply Forall_singleton|]. split; [|done]. by destruct Henc as [|[? _]].
Qed.

Lemma received_types w s l infos :
  Forall2 (known w s) l infos -> Type_ <$> zip_with received l infos = Type_ <$> l.
Proof. induction 1 as [|c i l infos _ _ IH]; [done|]. rewrite fmap_cons. cbn [zip_with]. by rewrite fmap_cons, IH. Qed.

Lemma usable_u16 ip port : usable ip port -> u16 port = port.
Proof. intros [_ Hp]. apply u16_id. lia. Qed.

(** C13: both sides conclude the same: an offer is built, read by the answering
    side, answered, and the answer read and applied by the offering side; when
    each side knows the codecs it reads, both hold the same audio codec with
    the same payload type and configuration and the same DTMF codec, each has
    the other's address as its remote one, and either both or neither encrypt,
    with mirrored keys; the offering side may only refuse an answer without
    encryption because it requires one. *)
Theorem negotiation_agrees (wO wA : world) (sO sA : option nat) (dataO dataA : list Z) (idO rnd : Z)
    (codecs : list CodecInfo) (ipO ipA : Addr) (portO portA : Z) (encO encA : Encryption)
    (localO localA : list Profile + error) (o o' a : Description) (mcA : MediaConfig)
    (infos : list Codecs.CodecInfo)
    (Ho : NewOfferWith AddrString idO codecs ipO portO encO localO = inl o)
    (HdO : Unmarshal dataO = inl (SDP o)) (HipO : usable ipO portO) (HipA : usable ipA portA)
    (Hk : Forall2 (known wA sA) (listed codecs) infos) (Ht : NoDup (Type_ <$> listed codecs))
    (HkO : Forall (fun c => known wO sO c (Info c)) (zip_with received (listed codecs) infos))
    (HcO : Forall carried (CryptoProfiles (desc o))) (HcA : forall ps, localA = inl ps -> Forall carried ps)
    (Hread : ParseWith ParseAddr AddrIsValid wA sA dataO = Ok (inl o'))
    (Ha : Answer AddrString o' ipA portA encA localA = inl (a, mcA))
    (HdA : Unmarshal dataA = inl (SDP a)) :
  exists a', ParseWith ParseAddr AddrIsValid wO sO dataA = Ok (inl a') /\
    match Apply AddrString rnd a' o encO with
    | inl mcO =>
        AudioConf mcO = AudioConf mcA /\ Local mcO = Remote mcA /\ Remote mcO = Local mcA /\
        match Crypto mcO, Crypto mcA with
        | Some c', Some c => mirrored c' c
        | None, None => True
        | _, _ => False
        end
    | inr err => err = ErrNoCommonCrypto /\ encO = EncryptionRequire /\ Crypto mcA = None
    end.
Proof.
  rewrite (read_offer wA sA dataO idO codecs ipO portO encO localO o infos) in Hread by done.
  injection Hread as <-.
  destruct (NewOfferWith_inv _ _ _ _ _ _ _ Ho) as (md & Hm & Hs & Haddr).
  destruct (OfferMediaWith_rendered _ _ _ _ _ _ Hm) as (_ & _ & _ & _ & _ & _ & Henc).
  destruct (Answer_inv _ _ _ _ _ _ _ Ha) as (audio & sel & Haud & HaddrA & HsdpA & -> & Hsel).
  cbn [desc SDP address] in *. set (cs := zip_with received (listed codecs) infos) in *.
  (* the codecs *)
  assert (Htypes : NoDup (Type_ <$> cs)) by (subst cs; by rewrite (received_types _ _ _ _ Hk)).
  unfold SelectAudio, readDesc in Haud. cbn [AudioCodecs DataCodecs] in Haud.
  destruct (bestAudio false _ None 0) as [x|] eqn:Hbest; [|done]. injection Haud as <-.
  apply best_in, list_elem_of_filter in Hbest as [Hkx Hx].
  destruct (answer_codecs_read wO sO cs x (filter (fun c => kindOf c = Data) cs) _ (option_list (snd <$> sel)) HkO Htypes Hx Hkx eq_refl) as (Hk2 & Ht2 & Hsel2).
  { intros y Hy. by apply list_elem_of_filter in Hy as [? ?]. }
  set (d := selectDTMF _ _) in *. set (got := x :: option_list d) in *.
  destruct (AnswerMedia_rendered portA (mkAudio x d) (snd <$> sel)) as (Hrend & Hp & Hmedia & Hconn).
  cbn [audioCodec DTMFCodec] in Hrend. fold got in Hrend.
  destruct (answered_crypto sel _ localO localA encO HcO HcA Henc Hsel) as [Hcp Hcrypto].
  eexists. split.
  { rewrite HsdpA in HdA.
    exact (read_session wO sO dataA _ _ ipA portA _ _ HdA HipA Hp Hmedia Hconn
      (parse_rendered wO sO got (Info <$> got) _ _ dir Hrend Hk2 Ht2 Hcp (proj1 NewDirection_sendrecv)) eq_refl). }
  unfold Apply, apply. cbn [desc]. fold got. rewrite Hsel2. cbn [CryptoProfiles readDesc].
  destruct sel as [[c p]|]; cbn [fmap option_fmap option_map option_list snd fst list_fmap].
  - destruct Hcrypto as (Hne & c' & off & Hsc & Hmir). rewrite (bool_decide_eq_false_2 (encO = _)) by done.
    change (wire <$> option_list (Some p)) with [wire p]. change (zlen [wire p] =? 0) with false.
    cbn [negb andb]. rewrite Hsc.
    rewrite bool_decide_eq_false_2 by done. cbn. by rewrite Haddr, (usable_u16 _ _ HipO), (usable_u16 _ _ HipA).
  - change (zlen (wire <$> option_list (@None Profile)) =? 0) with true. cbn [negb andb]. rewrite bool_decide_eq_true_2 by done.
    cbn [andb]. case_bool_decide; cbn; [done|]. by rewrite Haddr, (usable_u16 _ _ HipO), (usable_u16 _ _ HipA).
Qed.

End negotiate.

(** ** Checks for concrete descriptions *)

Definition tokenb (s : str) : bool :=
  bool_decide (";"%char ∉ s) && match head s with Some c => negb (isSpace c) | None => true end &&
  match last s with Some c => negb (isSpace c) | None => true end.

Lemma tokenb_token s : tokenb s = true -> token s.
Proof.
  unfold tokenb, token. intros [[Hs Hh]%andb_true_iff Hl]%andb_true_iff.
  apply bool_decide_eq_true in Hs. split_and!; [done| |]; intros c Hc; rewrite Hc in *; by apply negb_true_iff.
Qed.

Definition paramOkb (p : CodecParam) : bool :=
  bool_decide (Key p <> []) && tokenb (Key p) && bool_decide (equals ∉ Key p) && tokenb (Val p).

Definition int64b (z : Z) : bool := (-9223372036854775808 <=? z) && (z <=? 9223372036854775807).

Definition renderableb (c : CodecInfo) : bool :=
  (0 <=? Type_ c) && (Type_ c <? 256) && bool_decide (slash ∉ Name (typeInfo (Info c))) &&
  bool_decide (Name (typeInfo (Info c)) <> []) && int64b (RTPClockRate (Info c)) &&
  int64b (Channels (config (Info c))) && forallb paramOkb (Params (config (Info c))).

Lemma renderableb_renderable c : renderableb c = true -> renderable c.
Proof.
  unfold renderableb, int64b. intros H. bool_cases.
  repeat match goal with H : bool_decide _ = true |- _ => apply bool_decide_eq_true in H end.
  split; unfold int64; try lia; [by split|].
  apply Forall_forall. intros p Hp. apply list_elem_of_In in Hp.
  match goal with H : forallb _ _ = true |- _ => rewrite forallb_forall in H; specialize (H p Hp) end.
  unfold paramOkb in *. bool_cases.
  repeat match goal with H : bool_decide _ = true |- _ => apply bool_decide_eq_true in H end.
  split_and!; try done; by apply tokenb_token.
Qed.

(** ** An example: two sides, one with the legacy rate only *)

Module Example.

#[export] Instance rfc3711 : SrtpLib := {|
  KeyLen p := inl (match p with Aes128CmHmacSha1_80 | Aes128CmHmacSha1_32 => 16 | _ => 32 end);
  SaltLen _ := inl 14 |}.
#[export] Instance rfc3551 : Constants := {|
  PayloadTypePCMU := 0; PayloadTypePCMA := 8; PayloadTypeG722 := 9; amrwbBest := 8 |}.

(** Addresses are numbers here. *)
Definition valid (a : Z) : bool := int64b a.
Definition parseAddr (s : str) : option Z := Atoi s.

Lemma parseAddr_Itoa a : valid a = true -> Itoa a <> [] /\ parseAddr (Itoa a) = Some a.
Proof.
  intros Ha. split; [apply Itoa_not_nil|]. apply Atoi_Itoa. unfold valid, int64b in Ha. bool_cases. lia.
Qed.

Definition worldOf (cs : list CodecType) : world := match registerAll cs initial with Ok w => w | Panic => initial end.

Definition offering : world := worldOf [ULaw; Opus; DTMF].
Definition answering : world := worldOf [DTMF; ULaw].
Definition codecs : list CodecInfo :=
  filter (fun c => Name (typeInfo (Info c)) <> lit "opus") (OfferCodecsWith true offering None).

Definition infos : list Codecs.CodecInfo :=
  (fun c => match Codec c with Some t => fst (Supports t (onWire (Info c))) | None => noInfo end) <$> listed codecs.

Definition profile1 (k : Z) : Profile :=
  mkProfile 1 (lit "AES_CM_128_HMAC_SHA1_80") (replicate 16 k) (replicate 14 (k + 1)) [] 0.

Definition offerResult : Description (Addr := Z) + error := NewOfferWith Itoa 77 codecs 1001 5004 EncryptionRequire (inl [profile1 3]).

Definition noSession : SessionDescription := mkSession 0 0 [] [] None [] [].
Definition sdpOf (r : Description (Addr := Z) + error) : SessionDescription := match r with inl d => SDP d | inr _ => noSession end.

(** What the answering side reads. *)
Definition offerRead : Description (Addr := Z) :=
  mkDescription (sdpOf offerResult) (1001, 5004)
    (readDesc (zip_with received (listed codecs) infos) [profile1 3] 1).

Definition answerResult : (Description (Addr := Z) * MediaConfig (Addr := Z)) + error :=
  Answer Itoa offerRead 2002 6006 EncryptionAllow (inl [profile1 9]).

#[export] Instance pion : SdpLib := {|
  NewDirection s := if decide (s = lit "sendrecv") then Some 1 else None;
  DirectionSendRecv := 1;
  SessionAttribute _ _ := None;
  Unmarshal data :=
    if decide (data = [0]) then inl (sdpOf offerResult)
    else inl (match answerResult with inl (d, _) => SDP d | inr _ => noSession end) |}.

Lemma pion_sendrecv : NewDirection (lit "sendrecv") = Some 1 /\ 1 <> 0.
Proof. by split. Qed.

Ltac check_known := split; [apply renderableb_renderable; vm_compute; reflexivity|
  eexists; split; [vm_compute; reflexivity|split; vm_compute; reflexivity]].

Lemma answering_knows : Forall2 (known answering None) (listed codecs) infos.
Proof.
  let l := eval vm_compute in (listed codecs) in change (Forall2 (known answering None) l infos).
  let l := eval vm_compute in infos in change infos with l.
  repeat (apply Forall2_cons; split; [check_known|]). constructor.
Qed.

Lemma offering_knows :
  Forall (fun c => known offering None c (Info c)) (zip_with received (listed codecs) infos).
Proof.
  let l := eval vm_compute in (zip_with received (listed codecs) infos) in
    change (Forall (fun c => known offering None c (Info c)) l).
  repeat (apply Forall_cons; split; [check_known|]). constructor.
Qed.

Lemma types_differ : NoDup (Type_ <$> listed codecs).
Proof. apply (bool_decide_unpack _). vm_compute. exact I. Qed.

Lemma profile1_carried k : 0 <= k < 255 -> carried (profile1 k).
Proof.
  intros Hk. split; [by exists Aes128CmHmacSha1_80|]. split; [|by split].
  unfold profile1. cbn [PKey Salt]. apply Forall_app. split; apply Forall_replicate; lia.
Qed.

Lemma usable_port ip port : valid ip = true -> 0 < port < 65536 -> usable valid ip port.
Proof. done. Qed.

End Example.

Lemma select_audio_witness :
  ratesOk (DataCodecs (desc Example.offerRead)) /\
  exists x d, SelectAudio (desc Example.offerRead) false = inl (mkAudio x (Some d)) /\ Type_ x = 0 /\ Type_ d = 102 /\
    bestDTMF 8000 (DataCodecs (desc Example.offerRead)) d.
Proof.
  assert (Hr : ratesOk (DataCodecs (desc Example.offerRead))).
  { apply Forall_forall. intros x Hx _.
    let l := eval vm_compute in (DataCodecs (desc Example.offerRead)) in
      change (x ∈ l) in Hx.
    repeat (apply elem_of_cons in Hx as [->|Hx]; [done|]). by apply not_elem_of_nil in Hx. }
  split; [exact Hr|].
  pose proof (select_audio (desc Example.offerRead) false Hr) as H.
  destruct (SelectAudio (desc Example.offerRead) false) as [a|err] eqn:E; [|vm_compute in E; discriminate E].
  destruct a as [x d]. vm_compute in E. injection E as <- <-. destruct H as [_ H].
  eexists _, _. split; [reflexivity|]. split; [reflexivity|]. split; [reflexivity|exact H].
Defined.

Lemma crypto_agreement_witness :
  exists c p c' off, SelectCrypto (wire <$> [Example.profile1 3]) [Example.profile1 9] true = Some (c, p) /\
    SelectCrypto [Example.profile1 3] [wire p] false = Some (c', off) /\ mirrored c' c.
Proof.
  destruct (SelectCrypto (wire <$> [Example.profile1 3]) [Example.profile1 9] true) as [[c p]|] eqn:E;
    [|vm_compute in E; discriminate E].
  destruct (crypto_agreement [Example.profile1 3] [Example.profile1 9] c p E) as (c' & off & Hs & Hm & _).
  by exists c, p, c', off.
Defined.

Import Example.

Lemma offer_is_read_witness :
  exists o, offerResult = inl o /\
    ParseWith parseAddr valid answering None [0] = Ok (inl offerRead).
Proof.
  destruct offerResult as [o|err] eqn:E; [|vm_compute in E; discriminate E]. exists o. split; [done|].
  assert (Hd : Unmarshal [0] = inl (SDP o)) by (unfold Unmarshal; cbn; unfold sdpOf; by rewrite E).
  assert (Hc : CryptoProfiles (desc o) = [profile1 3]) by (vm_compute in E; injection E as <-; reflexivity).
  pose proof (offer_is_read parseAddr Itoa valid parseAddr_Itoa 1 pion_sendrecv answering None [0] 77 codecs 1001 5004
    EncryptionRequire (inl [profile1 3]) o infos E Hd (usable_port 1001 5004 eq_refl ltac:(lia))
    answering_knows types_differ) as H.
  rewrite Hc in H. unfold offerRead. unfold sdpOf. rewrite E. apply H.
  apply Forall_singleton, profile1_carried. lia.
Defined.

Lemma negotiation_agrees_witness :
  exists o a mcA a' mcO, offerResult = inl o /\ answerResult = inl (a, mcA) /\
    ParseWith parseAddr valid offering None [1] = Ok (inl a') /\
    Apply Itoa 0 a' o EncryptionRequire = inl mcO /\ AudioConf mcO = AudioConf mcA /\
    Type_ (audioCodec (AudioConf mcO)) = 0 /\ (Type_ <$> DTMFCodec (AudioConf mcO)) = Some 102 /\
    exists c' c, Crypto mcO = Some c' /\ Crypto mcA = Some c /\ mirrored c' c.
Proof.
  destruct offerResult as [o|err] eqn:E; [|vm_compute in E; discriminate E].
  destruct answerResult as [[a mcA]|err] eqn:EA; [|vm_compute in EA; discriminate EA].
  assert (Hd : Unmarshal [0] = inl (SDP o)) by (unfold Unmarshal; cbn; unfold sdpOf; by rewrite E).
  assert (HdA : Unmarshal [1] = inl (SDP a)) by (unfold Unmarshal; cbn; by rewrite EA).
  assert (Hc : Forall carried (CryptoProfiles (desc o))).
  { vm_compute in E. injection E as <-. apply Forall_singleton, (profile1_carried 3). lia. }
  assert (Hread : ParseWith parseAddr valid answering None [0] = Ok (inl offerRead)).
  { assert (Hp : CryptoProfiles (desc o) = [profile1 3]) by (vm_compute in E; injection E as <-; reflexivity).
    pose proof (read_offer parseAddr Itoa valid parseAddr_Itoa 1 pion_sendrecv answering None [0] 77 codecs 1001 5004
      EncryptionRequire (inl [profile1 3]) o infos E Hd (usable_port 1001 5004 eq_refl ltac:(lia))
      answering_knows types_differ Hc) as H.
    rewrite Hp in H. unfold offerRead, sdpOf. rewrite E. exact H. }
  destruct (negotiation_agrees parseAddr Itoa valid parseAddr_Itoa 1 pion_sendrecv offering answering None None [0] [1]
    77 0 codecs 1001 2002 5004 6006 EncryptionRequire EncryptionAllow (inl [profile1 3]) (inl [profile1 9])
    o offerRead a mcA infos E Hd (usable_port 1001 5004 eq_refl ltac:(lia)) (usable_port 2002 6006 eq_refl ltac:(lia))
    answering_knows types_differ offering_knows Hc) as (a' & Ha' & H); [|exact Hread|exact EA|exact HdA|].
  { intros ps [= <-]. apply Forall_singleton, profile1_carried. lia. }
  assert (Hmc : Crypto mcA <> None /\ Type_ (audioCodec (AudioConf mcA)) = 0 /\
    (Type_ <$> DTMFCodec (AudioConf mcA)) = Some 102).
  { vm_compute in EA. injection EA as _ <-. split; [discriminate|]. by split. }
  destruct Hmc as (Hne & Hta & Htd). exists o, a, mcA, a'.
  destruct (Apply Itoa 0 a' o EncryptionRequire) as [mcO|err]; [|destruct H as (_ & _ & Hn); destruct (Hne Hn)].
  destruct H as (Hau & _ & _ & Hcr). exists mcO. rewrite Hau. do 5 (split; [assumption || reflexivity|]).
  split; [exact Hta|]. split; [exact Htd|].
  destruct (Crypto mcO) as [c'|], (Crypto mcA) as [c|];
    [exists c', c; split; [reflexivity|split; [reflexivity|exact Hcr]]|destruct Hcr..|destruct (Hne eq_refl)].
Defined.
