(* ===== verification/Mux.v ===== *)
(** * Mux: dispatch by payload type, [src/rtp/mux.go]

    Handlers are values of a type [H]; a call of a handler is represented by
    the handler.  The lock makes every operation one step. *)

From stdpp Require Import base tactics numbers list gmap.
From S2P Require Import Prelude.

#[local] Open Scope go_scope.

Section mux.
Context {H : Type}.

(** [rtp.PayloadTypeFirstDynamic] of pion: the length of the static table. *)
Context (firstDynamic : Z).

Record Mux : Type := mkMux {
  static : list (option H);
  dynamic : gmap Z H;
  def : option H;
}.

Definition NewMux (d : option H) : Mux := mkMux (replicate (Z.to_nat firstDynamic) None) ∅ d.

(** The handler that [HandleRTP] calls, if any; [m] may be nil. *)
Definition HandleRTP (m : option Mux) (typ : Z) : outcome (option H) :=
  match m with
  | None => Ok None
  | Some m =>
      let! r := (if typ <? u8 (zlen (static m)) then go_index (static m) typ else Ok (dynamic m !! typ)) in
      Ok (match r with Some h => Some h | None => def m end)
  end.

Definition SetDefault (h : option H) (m : Mux) : Mux := mkMux (static m) (dynamic m) h.

Definition Register (typ : Z) (h : option H) (m : Mux) : outcome Mux :=
  if typ <? u8 (zlen (static m)) then
    let! s := go_set (static m) typ h in Ok (mkMux s (dynamic m) (def m))
  else
    match h with
    | None => Ok (mkMux (static m) (delete typ (dynamic m)) (def m))
    | Some h => Ok (mkMux (static m) (<[typ := h]> (dynamic m)) (def m))
    end.

(** ** Any sequence of calls *)

Inductive muxCall : Type :=
| CRegister (typ : Z) (h : option H)
| CSetDefault (h : option H).

Definition muxStep (c : muxCall) (m : Mux) : outcome Mux :=
  match c with
  | CRegister typ h => Register typ h m
  | CSetDefault h => Ok (SetDefault h m)
  end.

Fixpoint muxRun (cs : list muxCall) (m : Mux) : outcome Mux :=
  match cs with
  | [] => Ok m
  | c :: cs => let! m := muxStep c m in muxRun cs m
  end.

(** The abstract mux: a function from payload types to handlers, and a
    default. *)
Definition specStep (c : muxCall) (f : (Z -> option H) * option H) : (Z -> option H) * option H :=
  match c with
  | CRegister typ h => (fun t => if decide (t = typ) then h else f.1 t, f.2)
  | CSetDefault h => (f.1, h)
  end.

Definition specRun (cs : list muxCall) (f : (Z -> option H) * option H) : (Z -> option H) * option H :=
  foldl (fun f c => specStep c f) f cs.

Definition specHandle (f : (Z -> option H) * option H) (t : Z) : option H :=
  match f.1 t with Some h => Some h | None => f.2 end.

Definition callByte (c : muxCall) : Prop :=
  match c with CRegister typ _ => 0 <= typ < 256 | CSetDefault _ => True end.

(** ** Refinement *)

Hypothesis firstDynamic_byte : 0 <= firstDynamic < 256.

(** What the tables hold for a type. *)
Definition entry (m : Mux) (t : Z) : option H :=
  if t <? firstDynamic then default None (static m !! Z.to_nat t) else dynamic m !! t.

Definition simulates (m : Mux) (f : (Z -> option H) * option H) : Prop :=
  zlen (static m) = firstDynamic /\ def m = f.2 /\ forall t, 0 <= t < 256 -> entry m t = f.1 t.

Lemma NewMux_simulates d : simulates (NewMux d) (fun _ => None, d).
Proof.
  unfold simulates, NewMux, entry, zlen. simpl. rewrite length_replicate. split_and!; [lia|done|].
  intros t Ht. case_if; [|by rewrite lookup_empty].
  by rewrite lookup_replicate_2 by lia.
Qed.

Lemma u8_firstDynamic : u8 firstDynamic = firstDynamic.
Proof. unfold u8. apply Z.mod_small. done. Qed.

Lemma muxStep_simulates c m f :
  simulates m f -> callByte c -> exists m', muxStep c m = Ok m' /\ simulates m' (specStep c f).
Proof.
  intros (Hl & Hd & He) Hc. destruct c as [typ h|h]; simpl; [|by eexists].
  unfold Register. rewrite Hl, u8_firstDynamic. simpl in Hc. case_if.
  - rewrite go_set_Ok by lia. eexists. split; [done|]. split_and!; simpl; [by rewrite zlen_insert|done|].
    intros t Ht. unfold entry. simpl. case_decide as Ht2.
    + subst. destruct (typ <? firstDynamic) eqn:E; bool_cases; [|lia].
      rewrite list_lookup_insert_eq by (unfold zlen in *; lia). done.
    + rewrite <- He by done. unfold entry. destruct (t <? firstDynamic) eqn:E; bool_cases; [|done].
      rewrite list_lookup_insert_ne by lia. done.
  - assert (Ht : forall D : gmap Z H, (forall t, D !! t = if decide (t = typ) then h else dynamic m !! t) ->
      simulates (mkMux (static m) D (def m)) (fun t => if decide (t = typ) then h else f.1 t, f.2)).
    { intros D HD. split_and!; simpl; [done|done|]. intros t Ht. unfold entry. simpl. rewrite HD.
      case_decide; subst; [destruct (typ <? firstDynamic) eqn:E; bool_cases; [lia|done]|].
      rewrite <- He by done. done. }
    destruct h as [h|]; eexists; (split; [done|]); apply Ht; intros t; case_decide; subst.
    + apply lookup_insert_eq.
    + by apply lookup_insert_ne.
    + apply lookup_delete_eq.
    + by apply lookup_delete_ne.
Qed.

Lemma muxRun_simulates cs m f :
  simulates m f -> Forall callByte cs -> exists m', muxRun cs m = Ok m' /\ simulates m' (specRun cs f).
Proof.
  revert m f. induction cs as [|c cs IH]; intros m f Hs; [by eexists|].
  intros [Hc Hcs]%Forall_cons. destruct (muxStep_simulates c m f Hs Hc) as (m1 & H1 & Hs1).
  simpl. rewrite H1. simpl. by apply IH.
Qed.

(** The mux is the map it documents: whatever was registered before, on
    either side of the boundary between the static table and the dynamic map, a
    packet goes to the handler last registered for its type, and to the current
    default when there is none or it was removed; no call panics. *)
Theorem mux_dispatches (d : option H) (cs : list muxCall) (t : Z)
    (Hcs : Forall callByte cs) (Ht : 0 <= t < 256) :
  exists m, muxRun cs (NewMux d) = Ok m /\
    HandleRTP (Some m) t = Ok (specHandle (specRun cs (fun _ => None, d)) t).
Proof.
  destruct (muxRun_simulates cs _ _ (NewMux_simulates d) Hcs) as (m & Hm & Hl & Hd & He).
  exists m. split; [done|]. unfold HandleRTP, specHandle. rewrite Hl, u8_firstDynamic, <- He, <- Hd by done.
  unfold entry. destruct (t <? firstDynamic) eqn:E; bool_cases; [|done].
  destruct (lookup_lt_is_Some_2 (static m) (Z.to_nat t)) as [x Hx]; [unfold zlen in *; lia|].
  rewrite (go_index_Ok _ _ x) by (done || lia). rewrite Hx. done.
Qed.

End mux.

Lemma mux_dispatches_witness :
  let cs := [CRegister 0 (Some 7); CRegister 101 (Some 8); CRegister 0 None; CSetDefault (Some 9)] in
  exists m, muxRun cs (NewMux 35 (Some 5)) = Ok m /\
    HandleRTP (Some m) 0 = Ok (Some 9).
Proof.
  intros cs. apply (mux_dispatches 35 ltac:(lia) (Some 5) cs 0); [|lia].
  repeat constructor; simpl; lia.
Defined.
