(* ===== verification/Listen.v ===== *)
(** * Listen: binding a UDP port of a range, [src/rtp/listen.go]

    The sockets are outside: [create k port] is the outcome of the [k]-th
    attempt, so that a port may become free or busy between attempts.  The
    generator [rand.Intn] is an argument with its documented range. *)

From Stdlib Require Import Ascii.
From stdpp Require Import base tactics numbers strings list sorting.
From S2P Require Import Prelude GoStr.

#[local] Open Scope go_scope.

Section listen.
Context {C : Type}.

(** What [create] returns: a connection, [EADDRINUSE] or another error. *)
Inductive bindResult : Type :=
| Bound (c : C)
| AddrInUse
| BindFailed (e : error).

Definition ErrListenFailed : error := Errorf "failed to listen on udp port".

Implicit Types create : nat -> Z -> bindResult.

Definition asResult (r : bindResult) : C + error :=
  match r with
  | Bound c => inl c
  | AddrInUse => inr (Errorf "address already in use")
  | BindFailed e => inr e
  end.

(** The loop: the ports tried, in order, and the result. *)
Fixpoint tryPorts (ports : nat) (k : nat) (cur step lo hi : Z) create : list Z * (C + error) :=
  match ports with
  | O => ([], inr ErrListenFailed)
  | S ports =>
      match create k cur with
      | AddrInUse =>
          let next := cur + step in
          let next := if hi <? next then lo else next in
          let '(tried, r) := tryPorts ports (S k) next step lo hi create in
          (cur :: tried, r)
      | r => ([cur], asResult r)
      end
  end.

Context (Intn : Z -> Z).

Definition bindRange (portMin portMax : Z) create : list Z * (C + error) :=
  if (portMin <=? 0) && (portMax <=? 0) then ([0], asResult (create 0%nat 0))
  else if portMin =? portMax then ([portMin], asResult (create 0%nat portMin))
  else
    let portMin := if portMin <=? 0 then 1 else portMin in
    let portMax := if (portMax <=? 0) || (65535 <? portMax) then 65535 else portMax in
    if portMax <? portMin then ([], inr ErrListenFailed)
    else
      let ports := portMax - portMin + 1 in
      let portCurrent := Intn ports + portMin in
      tryPorts (Z.to_nat ports) 0 portCurrent 1 portMin portMax create.

Definition bindEvenRange (portMin portMax : Z) create : list Z * (C + error) :=
  let portMin := if portMin <=? 0 then 1 else portMin in
  let portMax := if (portMax <=? 0) || (65535 <? portMax) then 65535 else portMax in
  let evenMin := Z.ldiff (portMin + 1) 1 in
  let evenMax := Z.ldiff portMax 1 in
  if evenMax <? evenMin then ([], inr ErrListenFailed)
  else
    let ports := (evenMax - evenMin) / 2 + 1 in
    let portCurrent := evenMin + 2 * Intn ports in
    tryPorts (Z.to_nat ports) 0 portCurrent 2 evenMin evenMax create.

(** ** The listeners

    [net.ListenUDP] on an address and a port, and [ListenPacket] of a
    [net.ListenConfig] on a text, at the [k]-th attempt; [IPString] is
    [netip.Addr.String]. *)
Section listeners.
Context {IP : Type} (IPString : IP -> str).
Context (ListenUDP : nat -> IP -> Z -> bindResult) (ListenPacket : nat -> str -> bindResult).

Definition ListenUDPPortRange (portMin portMax : Z) (ip : IP) : list Z * (C + error) :=
  bindRange portMin portMax (fun k port => ListenUDP k ip port).

(** [fmt.Sprintf("%s:%d", ipStr, port)] *)
Definition hostPort (ipStr : str) (port : Z) : str := ipStr ++ ":"%char :: Itoa port.

Definition ListenUDPPortRangeWithConfig (portMin portMax : Z) (ip : IP) : list Z * (C + error) :=
  bindRange portMin portMax (fun k port => ListenPacket k (hostPort (IPString ip) port)).

Definition ListenUDPEvenPortRange (portMin portMax : Z) (ip : IP) : list Z * (C + error) :=
  bindEvenRange portMin portMax (fun k port => ListenUDP k ip port).

Definition ListenUDPEvenPortRangeWithConfig (portMin portMax : Z) (ip : IP) : list Z * (C + error) :=
  bindEvenRange portMin portMax (fun k port => ListenPacket k (hostPort (IPString ip) port)).

(** What the package net documents: the host of an address is separated by a
    colon, and a host with colons is in square brackets. *)
Definition unbracketed (addr : str) : Prop :=
  exists host port, addr = host ++ ":"%char :: port /\ ":"%char ∈ host /\ head host <> Some "["%char.

(** An IPv6 address is given without brackets, so that the listeners with a
    configuration fail on it at the first port they try. *)
Lemma WithConfig_ipv6 (even : bool) (portMin portMax : Z) (ip : IP) :
  (forall k addr, unbracketed addr -> exists e, ListenPacket k addr = BindFailed e) ->
  ":"%char ∈ IPString ip -> head (IPString ip) <> Some "["%char ->
  exists e, ((if even then ListenUDPEvenPortRangeWithConfig else ListenUDPPortRangeWithConfig) portMin portMax ip).2 = inr e.
Proof.
  intros Hnet Hip Hhead.
  assert (forall (k : nat) (port : Z), exists e, ListenPacket k (hostPort (IPString ip) port) = BindFailed e) as Hfail.
  { intros k port. apply Hnet. by exists (IPString ip), (Itoa port). }
  assert (forall (ports k : nat) (cur step lo hi : Z), exists e,
    (tryPorts ports k cur step lo hi (fun k port => ListenPacket k (hostPort (IPString ip) port))).2 = inr e) as Htry.
  { intros [|ports] k cur step lo hi; simpl; [eauto|]. destruct (Hfail k cur) as [e ->]. simpl. eauto. }
  destruct even; unfold ListenUDPEvenPortRangeWithConfig, ListenUDPPortRangeWithConfig, bindEvenRange, bindRange; cbv zeta.
  - case_if; [eauto|]. apply Htry.
  - case_if; [destruct (Hfail 0%nat 0) as [e ->]; simpl; eauto|]. case_if; [destruct (Hfail 0%nat portMin) as [e ->]; simpl; eauto|].
    case_if; [eauto|]. apply Htry.
Qed.

End listeners.

(** ** What is tried *)

(** The ports a call may use. *)
Definition candidates (even : bool) (portMin portMax : Z) : list Z :=
  let lo := if portMin <=? 0 then 1 else portMin in
  let hi := if (portMax <=? 0) || (65535 <? portMax) then 65535 else portMax in
  if even then filter (fun p => Z.even p = true) (seqZ lo (hi - lo + 1))
  else if (portMin <=? 0) && (portMax <=? 0) then [0]
  else if portMin =? portMax then [portMin]
  else seqZ lo (hi - lo + 1).

Definition bind (even : bool) : Z -> Z -> (nat -> Z -> bindResult) -> list Z * (C + error) :=
  if even then bindEvenRange else bindRange.

(** A call stops at the first attempt that does not report the port in use. *)
Definition stopsAt create (k : nat) (tried : list Z) (r : C + error) : Prop :=
  (forall i p, tried !! i = Some p -> (S i < length tried)%nat -> create (k + i)%nat p = AddrInUse) /\
  exists p, last tried = Some p /\ create (k + length tried - 1)%nat p <> AddrInUse /\
    r = asResult (create (k + length tried - 1)%nat p).

Definition exhausts create (k : nat) (tried : list Z) (r : C + error) : Prop :=
  (forall i p, tried !! i = Some p -> create (k + i)%nat p = AddrInUse) /\ r = inr ErrListenFailed.

Section cycle.
Context (lo hi step n : Z).
Hypothesis step_pos : 0 < step.
Hypothesis hi_n : hi < lo + step * n <= hi + step.

(** The ports from the [a]-th one on, going round. *)
Definition cycle (m : nat) (a : Z) : list Z := (fun j => lo + step * ((a + j) mod n)) <$> seqZ 0 (Z.of_nat m).

Lemma cycle_S m a :
  0 <= a < n -> cycle (S m) a = (lo + step * a) :: cycle m ((a + 1) mod n).
Proof.
  intros Ha. unfold cycle. rewrite seqZ_cons by lia. simpl. f_equal.
  - rewrite Z.add_0_r, Z.mod_small by lia. done.
  - replace (Z.pred (Z.of_nat (S m))) with (Z.of_nat m) by lia.
    change (Z.succ 0) with (1 + 0). rewrite <- (fmap_add_seqZ 1 0), <- list_fmap_compose. apply list_fmap_ext. intros i j _. simpl.
    rewrite Zplus_mod_idemp_l, Z.add_assoc. done.
Qed.

Lemma tryPorts_spec m k a create :
  0 <= a < n ->
  exists tried rest r, tryPorts m k (lo + step * a) step lo hi create = (tried, r) /\
    tried ++ rest = cycle m a /\
    (stopsAt create k tried r \/ (exhausts create k tried r /\ rest = [])).
Proof.
  revert k a. induction m as [|m IH]; intros k a Ha; simpl.
  - exists [], [], (inr ErrListenFailed). split_and!; try done. right. by split.
  - rewrite cycle_S by done. destruct (create k (lo + step * a)) as [c| |e] eqn:Ec.
    2:{ assert (Hnext : (if hi <? lo + step * a + step then lo else lo + step * a + step)
          = lo + step * ((a + 1) mod n)).
        { case_if.
          - assert (a + 1 = n) as -> by nia. rewrite Z.mod_same by lia. lia.
          - rewrite Z.mod_small by nia. lia. }
        rewrite Hnext. destruct (IH (S k) ((a + 1) mod n)) as (tried & rest & r & -> & Hc & Hr).
        { apply Z.mod_pos_bound. lia. }
        exists ((lo + step * a) :: tried), rest, r. rewrite <- Hc. split_and!; try done.
        destruct Hr as [[Hb (p & Hl & Hp & ->)]|[[Hb ->] ->]]; [left|right].
        - split.
          + intros [|i] q; simpl; [intros [= <-] _; by rewrite Nat.add_0_r|].
            intros Hq Hlen. replace (k + S i)%nat with (S k + i)%nat by lia. apply Hb; [done|lia].
          + exists p. destruct tried as [|x tried]; [done|]. split; [done|].
            cbn [length] in *. replace (k + S (S (length tried)) - 1)%nat
              with (S k + S (length tried) - 1)%nat by lia. done.
        - split; [|done]. split; [|done]. intros [|i] q; simpl; [intros [= <-]; by rewrite Nat.add_0_r|].
          intros Hq. replace (k + S i)%nat with (S k + i)%nat by lia. by apply Hb. }
    all: eexists _, (cycle m ((a + 1) mod n)), _; split; [reflexivity|]; split; [done|]; left; split;
      [intros i p _; simpl; lia|];
      exists (lo + step * a); split; [done|]; simpl; replace (k + 1 - 1)%nat with k by lia; rewrite Ec; (split; [discriminate|reflexivity]).
Qed.

(** Going round visits every port once. *)
Lemma cycle_perm a l :
  0 <= a < n -> NoDup l -> (forall p, p ∈ l <-> exists j, 0 <= j < n /\ p = lo + step * j) ->
  cycle (Z.to_nat n) a ≡ₚ l.
Proof.
  intros Ha Hl Hin. apply NoDup_Permutation; [|done|].
  - unfold cycle. apply NoDup_fmap_2_strong; [|apply NoDup_seqZ].
    intros x y Hx Hy Hxy. apply elem_of_seqZ in Hx, Hy. rewrite Z2Nat.id in * by lia.
    assert (Hm : (a + x) mod n = (a + y) mod n) by nia. clear - Ha Hx Hy Hm.
    rewrite !Z.mod_eq in Hm by lia. generalize dependent ((a + x) / n). generalize ((a + y) / n).
    intros q1 q2 Hq. assert (n * (q2 - q1) = x - y) by (rewrite Z.mul_sub_distr_l; lia).
    assert (q2 - q1 = 0) by nia. nia.
  - intros p. rewrite Hin. unfold cycle. rewrite list_elem_of_fmap. split.
    + intros (j & -> & Hj). apply elem_of_seqZ in Hj. eexists. split; [|done]. apply Z.mod_pos_bound. lia.
    + intros (j & Hj & ->). exists ((j - a) mod n). rewrite elem_of_seqZ.
      pose proof (Z.mod_pos_bound (j - a) n ltac:(lia)). split; [|lia].
      rewrite Zplus_mod_idemp_r. replace (a + (j - a)) with j by lia. rewrite Z.mod_small by lia. done.
Qed.

End cycle.

Hypothesis Intn_range : forall n, 0 < n -> 0 <= Intn n < n.

(** The ports tried are ports of [l], none twice, and the call stops at the
    first success or error, or fails when all of [l] is in use. *)
Definition visits create (l : list Z) (x : list Z * (C + error)) : Prop :=
  exists rest, x.1 ++ rest ≡ₚ l /\
    (stopsAt create 0 x.1 x.2 \/ (exhausts create 0 x.1 x.2 /\ rest = [])).

(** One port, in use: its error is returned. *)
Definition refused create (l : list Z) (x : list Z * (C + error)) : Prop :=
  exists p, l = [p] /\ x = ([p], asResult AddrInUse) /\ create 0%nat p = AddrInUse.

Lemma tryPorts_visits lo hi step l n create :
  0 < step -> hi < lo + step * n <= hi + step -> 0 < n ->
  NoDup l -> (forall p, p ∈ l <-> exists j, 0 <= j < n /\ p = lo + step * j) ->
  visits create l (tryPorts (Z.to_nat n) 0 (lo + step * Intn n) step lo hi create).
Proof.
  intros Hs Hn Hpos Hl Hin. pose proof (Intn_range n Hpos) as Hr.
  destruct (tryPorts_spec lo hi step n Hs Hn (Z.to_nat n) 0 (Intn n) create Hr)
    as (tried & rest & r & -> & H2 & H3).
  exists rest. split; [|done]. simpl. rewrite H2.
  apply (cycle_perm lo hi step n Hs Hn); done.
Qed.

Lemma one_port create p :
  visits create [p] ([p], asResult (create 0%nat p)) \/ refused create [p] ([p], asResult (create 0%nat p)).
Proof.
  destruct (create 0%nat p) as [c| |e] eqn:E; [left|right; by exists p|left];
    exists []; (split; [done|]); left;
    (split; [intros i q Hq Hlen; simpl in Hlen; lia|]);
    exists p; simpl; rewrite E; by split_and!.
Qed.

Lemma no_port create : visits create [] ([], inr ErrListenFailed).
Proof. exists []. split; [done|]. right. by split. Qed.

Lemma ldiff_1 z : Z.ldiff z 1 = 2 * (z / 2).
Proof.
  change 1 with (Z.ones 1) at 1. rewrite Z.ldiff_ones_r by lia.
  rewrite Z.shiftr_div_pow2, Z.shiftl_mul_pow2 by lia. lia.
Qed.

Lemma even_2 z : Z.even z = true <-> exists k, z = 2 * k.
Proof. rewrite Z.even_spec. done. Qed.

Lemma even_ports lo hi p :
  p ∈ filter (fun p => Z.even p = true) (seqZ lo (hi - lo + 1)) <->
  exists j, 0 <= j < (2 * (hi / 2) - 2 * ((lo + 1) / 2)) / 2 + 1 /\ p = 2 * ((lo + 1) / 2) + 2 * j.
Proof.
  rewrite list_elem_of_filter, elem_of_seqZ, even_2. split.
  - intros [[k ->] Hk]. exists (k - (lo + 1) / 2). lia.
  - intros (j & Hj & ->). split; [exists ((lo + 1) / 2 + j)|]; lia.
Qed.

Lemma bindEvenRange_visits portMin portMax create :
  visits create (candidates true portMin portMax) (bindEvenRange portMin portMax create).
Proof.
  unfold bindEvenRange, candidates. cbv zeta.
  generalize (if portMin <=? 0 then 1 else portMin).
  generalize (if (portMax <=? 0) || (65535 <? portMax) then 65535 else portMax). intros hi lo.
  rewrite !ldiff_1. case_if.
  - assert (filter (fun p => Z.even p = true) (seqZ lo (hi - lo + 1)) = []) as ->; [|apply no_port].
    apply elem_of_nil_inv. intros p. rewrite even_ports. intros (j & Hj & _). lia.
  - apply tryPorts_visits; [lia|lia|lia| |apply even_ports]. apply NoDup_filter, NoDup_seqZ.
Qed.

Lemma bindRange_visits portMin portMax create :
  visits create (candidates false portMin portMax) (bindRange portMin portMax create) \/
  refused create (candidates false portMin portMax) (bindRange portMin portMax create).
Proof.
  unfold bindRange, candidates. cbv zeta. case_if; [apply one_port|]. case_if; [apply one_port|]. left.
  generalize (if portMin <=? 0 then 1 else portMin).
  generalize (if (portMax <=? 0) || (65535 <? portMax) then 65535 else portMax). intros hi lo. case_if.
  - assert (seqZ lo (hi - lo + 1) = []) as ->; [|apply no_port]. apply seqZ_nil. lia.
  - rewrite (Z.add_comm (Intn _)), <- (Z.mul_1_l (Intn _)). apply tryPorts_visits; [lia|lia|lia|apply NoDup_seqZ|].
    intros p. rewrite elem_of_seqZ. split; [intros Hp; exists (p - lo); lia|intros (j & Hj & ->); lia].
Qed.

(** C34: binding: for any state of the ports and any random start, the ports
    tried are ports of the range (even ones for RTP), none twice; the first
    attempt that does not report the port in use decides the result, success or
    error; [ErrListenFailed] is returned only after every port of the range was
    tried and found in use.  A range of one port (and the request for any port)
    may instead return the error of its single attempt. *)
Theorem bind_visits_range (even : bool) (portMin portMax : Z) (create : nat -> Z -> bindResult) :
  visits create (candidates even portMin portMax) (bind even portMin portMax create) \/
  (even = false /\ refused create (candidates even portMin portMax) (bind even portMin portMax create)).
Proof.
  destruct even; [left; apply bindEvenRange_visits|].
  destruct (bindRange_visits portMin portMax create); [by left|by right].
Qed.

End listen.
Arguments bindResult : clear implicits.

Lemma bind_visits_range_witness :
  let x := bind (fun n => n - 1) true 1 6 (fun k p => if (k <? 2)%nat then AddrInUse else Bound p) in
  x = ([6; 2; 4], inl 4) /\
  (visits (fun k p => if (k <? 2)%nat then AddrInUse else Bound p) (candidates true 1 6) x \/
   (true = false /\ refused (fun k p => if (k <? 2)%nat then AddrInUse else Bound p) (candidates true 1 6) x)).
Proof.
  intros x. split; [reflexivity|].
  apply (bind_visits_range (fun n => n - 1) ltac:(intros; lia) true 1 6).
Defined.
