(* ===== verification/Pipe.v ===== *)
(** * Pipe: the synchronous in-memory pipe, [src/pipe.go]

    Any number of goroutines call the two halves of a pipe.  A goroutine is the
    call it makes and the point its code has reached; a step moves one goroutine
    (a load, a store, a lock, the choice of a closed channel) or two of them (a
    rendezvous on one of the two unbuffered channels).  Go picks any ready case
    of a [select], so the schedule is an argument of the model: a theorem about
    every schedule is a theorem about every interleaving. *)

From stdpp Require Import base tactics numbers list.
From S2P Require Import Prelude.

#[local] Open Scope go_scope.

(** ** [onceError]: an error stored once *)

Definition onceError : Type := option error.

Definition Store (a : onceError) (err : error) : onceError :=
  match a with
  | Some e => Some e
  | None => Some err
  end.

Section pipe.
Context {E : Type}.

(** ** The shared state

    The channels are unbuffered, so they hold nothing; [done] is whether the
    channel of that name is closed, and [wrMu] names the goroutine that holds
    the mutex. *)
Record pipe : Type := mkPipe {
  wrMu : option nat;
  done : bool;
  rerr : onceError;
  werr : onceError;
}.

Definition Pipe : pipe := mkPipe None false None None.

Definition setWrMu (p : pipe) (m : option nat) : pipe := mkPipe m (done p) (rerr p) (werr p).
Definition closeDone (p : pipe) : pipe := mkPipe (wrMu p) true (rerr p) (werr p).

(** ** Goroutines *)

Inductive call : Type :=
| Read (b : list E)                     (* pipe.read, PipeReader.ReadSample *)
| Write (b : list E)                    (* pipe.write, PipeWriter.WriteSample *)
| CloseRead (err : option error)        (* PipeReader.CloseWithError *)
| CloseWrite (err : option error).      (* PipeWriter.CloseWithError *)

Inductive pc : Type :=
| ReadCheck                                      (* the first select *)
| ReadSelect                                     (* the second select *)
| ReadSend (b : list E) (nr : Z)                 (* p.rdCh <- nr *)
| ReadLoadR                                      (* readCloseError, p.rerr.Load() *)
| ReadLoadW (r : onceError)                      (* readCloseError, p.werr.Load() *)
| ReadReturn (b : list E) (n : Z) (err : option error)
| WriteCheck                                     (* the first select *)
| WriteLock                                      (* p.wrMu.Lock() *)
| WriteSelect (b : list E) (n : Z)               (* the select of the loop *)
| WriteRecv (b : list E) (n : Z)                 (* <-p.rdCh *)
| WriteLoadW (locked : bool) (n : Z)             (* writeCloseError, p.werr.Load() *)
| WriteLoadR (locked : bool) (n : Z) (w : onceError)
| WriteReturn (n : Z) (err : option error)
| CloseStore                                     (* Store of the error *)
| CloseOnce                                      (* p.once.Do *)
| CloseReturn.

Definition entryOf (c : call) : pc :=
  match c with
  | Read _ => ReadCheck
  | Write _ => WriteCheck
  | CloseRead _ | CloseWrite _ => CloseStore
  end.

(** ** The errors of a closed pipe *)

Definition readCloseError (r w : onceError) : error :=
  match r, w with
  | None, Some e => e
  | _, _ => ErrClosedPipe
  end.

Definition writeCloseError (w r : onceError) : error :=
  match w, r with
  | None, Some e => e
  | _, _ => ErrClosedPipe
  end.

Definition closeRead (p : pipe) (err : option error) : pipe :=
  mkPipe (wrMu p) (done p) (Store (rerr p) (default ErrClosedPipe err)) (werr p).

Definition closeWrite (p : pipe) (err : option error) : pipe :=
  mkPipe (wrMu p) (done p) (rerr p) (Store (werr p) (default EOF err)).

(** ** A step of one goroutine

    [None]: the goroutine [i] is blocked, has returned, or waits for a partner
    on a channel. *)
Definition read (p : pipe) (b : list E) (s : pc) : option (pipe * pc) :=
  match s with
  | ReadCheck => Some (p, if done p then ReadLoadR else ReadSelect)
  | ReadSelect => if done p then Some (p, ReadLoadR) else None
  | ReadLoadR => Some (p, ReadLoadW (rerr p))
  | ReadLoadW r => Some (p, ReadReturn b 0 (Some (readCloseError r (werr p))))
  | _ => None
  end.

Definition write (p : pipe) (i : nat) (b : list E) (s : pc) : option (pipe * pc) :=
  match s with
  | WriteCheck => Some (p, if done p then WriteLoadW false 0 else WriteLock)
  | WriteLock => match wrMu p with None => Some (setWrMu p (Some i), WriteSelect b 0) | Some _ => None end
  | WriteSelect _ n => if done p then Some (p, WriteLoadW true n) else None
  | WriteLoadW locked n => Some (p, WriteLoadR locked n (werr p))
  | WriteLoadR locked n w =>
      Some (if locked then setWrMu p None else p, WriteReturn n (Some (writeCloseError w (rerr p))))
  | _ => None
  end.

Definition close (p : pipe) (store : pipe -> pipe) (s : pc) : option (pipe * pc) :=
  match s with
  | CloseStore => Some (store p, CloseOnce)
  | CloseOnce => Some (closeDone p, CloseReturn)
  | _ => None
  end.

Definition advance (p : pipe) (i : nat) (c : call) (s : pc) : option (pipe * pc) :=
  match c with
  | Read b => read p b s
  | Write b => write p i b s
  | CloseRead err => close p (fun p => closeRead p err) s
  | CloseWrite err => close p (fun p => closeWrite p err) s
  end.

(** The end of an iteration of the loop of [write], after [nw := <-p.rdCh]. *)
Definition acknowledge (p : pipe) (b : list E) (n nw : Z) : outcome (pipe * pc) :=
  let! b := go_slice b nw (zlen b) in
  Ok (if 0 <? zlen b then (p, WriteSelect b (n + nw)) else (setWrMu p None, WriteReturn (n + nw) None)).

(** ** The whole program *)

Record config : Type := mkConfig {
  shared : pipe;
  routines : list (call * pc);
}.

Definition start : config := mkConfig Pipe [].

(** What a rendezvous on [wrCh] moved: writer, reader, elements. *)
Record transfer : Type := mkTransfer {
  writer : nat;
  reader : nat;
  chunk : list E;
}.

Inductive choice : Type :=
| Call (c : call)           (* a new goroutine calls the pipe *)
| Move (i : nat)            (* goroutine i takes its own step *)
| Data (i j : nat)          (* rendezvous on wrCh: i writes, j reads *)
| Ack (j i : nat).          (* rendezvous on rdCh: j reports to i *)

Definition setPc (c : config) (i : nat) (k : call) (s : pc) : list (call * pc) :=
  <[i := (k, s)]> (routines c).

(** [None]: the step is not enabled. *)
Definition step (x : choice) (c : config) : option (outcome (config * list transfer)) :=
  match x with
  | Call k => Some (Ok (mkConfig (shared c) (routines c ++ [(k, entryOf k)]), []))
  | Move i =>
      '(k, s) ← routines c !! i;
      '(p, s) ← advance (shared c) i k s;
      Some (Ok (mkConfig p (setPc c i k s), []))
  | Data i j =>
      match routines c !! i, routines c !! j with
      | Some (Write d, WriteSelect bw n), Some (Read b, ReadSelect) =>
          let '(b', nr) := go_copy b bw in
          let rs := <[j := (Read b, ReadSend b' nr)]> (setPc c i (Write d) (WriteRecv bw n)) in
          Some (Ok (mkConfig (shared c) rs, [mkTransfer i j (take (Z.to_nat nr) bw)]))
      | _, _ => None
      end
  | Ack j i =>
      match routines c !! j, routines c !! i with
      | Some (Read b, ReadSend b' nr), Some (Write d, WriteRecv bw n) =>
          Some (let! ps := acknowledge (shared c) bw n nr in
                let rs := <[j := (Read b, ReadReturn b' nr None)]> (setPc c i (Write d) ps.2) in
                Ok (mkConfig ps.1 rs, []))
      | _, _ => None
      end
  end.

(** A schedule: its configuration and what it transferred, in order.  A step
    that is not enabled is not part of a schedule. *)
Fixpoint run (xs : list choice) (c : config) : option (outcome (config * list transfer)) :=
  match xs with
  | [] => Some (Ok (c, []))
  | x :: xs =>
      match step x c with
      | None => None
      | Some Panic => Some Panic
      | Some (Ok (c1, l1)) =>
          match run xs c1 with
          | Some (Ok (c2, l2)) => Some (Ok (c2, l1 ++ l2))
          | r => r
          end
      end
  end.

(** ** Observations *)

Definition returned (s : pc) : bool :=
  match s with
  | ReadReturn _ _ _ | WriteReturn _ _ | CloseReturn => true
  | _ => false
  end.

(** What was taken from writer [i], and what was given to reader [j]. *)
Definition sentBy (i : nat) (l : list transfer) : list E :=
  concat (chunk <$> filter (fun t => writer t = i) l).
Definition givenTo (j : nat) (l : list transfer) : list E :=
  concat (chunk <$> filter (fun t => reader t = j) l).

(** All that passed through the pipe. *)
Definition stream (l : list transfer) : list E := concat (chunk <$> l).

End pipe.

Arguments call : clear implicits.
Arguments pc : clear implicits.
Arguments config : clear implicits.
Arguments transfer : clear implicits.
Arguments choice : clear implicits.
