(* ===== verification/PipeProps.v ===== *)
(** * PipeProps: what a pipe delivers, and that a closed pipe lets go

    The theorems hold of every schedule of any number of readers, writers and
    closers. *)

From stdpp Require Import base tactics numbers list sets.
From S2P Require Import Prelude Pipe.

#[local] Open Scope go_scope.

Section pipe.
Context {E : Type}.
Implicit Types (c : config E) (l : list (transfer E)) (k : call E) (s : pc E) (t : transfer E).

(** ** Lists of transfers *)

Lemma sentBy_app i l1 l2 : sentBy i (l1 ++ l2) = sentBy i l1 ++ sentBy i l2.
Proof. unfold sentBy. by rewrite filter_app, fmap_app, concat_app. Qed.

Lemma givenTo_app i l1 l2 : givenTo i (l1 ++ l2) = givenTo i l1 ++ givenTo i l2.
Proof. unfold givenTo. by rewrite filter_app, fmap_app, concat_app. Qed.

Lemma stream_app l1 l2 : stream (l1 ++ l2) = stream l1 ++ stream l2.
Proof. unfold stream. by rewrite fmap_app, concat_app. Qed.

Lemma sentBy_one i t : sentBy i [t] = if decide (writer t = i) then chunk t else [].
Proof. unfold sentBy. rewrite filter_cons. case_decide; simpl; [by rewrite app_nil_r|done]. Qed.

Lemma givenTo_one i t : givenTo i [t] = if decide (reader t = i) then chunk t else [].
Proof. unfold givenTo. rewrite filter_cons. case_decide; simpl; [by rewrite app_nil_r|done]. Qed.

Lemma sentBy_none i l : (forall t, t ∈ l -> writer t <> i) -> sentBy i l = [].
Proof.
  intros H. unfold sentBy. induction l as [|t l IH]; [done|].
  rewrite filter_cons_False by (apply H; set_solver). apply IH. set_solver.
Qed.

Lemma givenTo_none i l : (forall t, t ∈ l -> reader t <> i) -> givenTo i l = [].
Proof.
  intros H. unfold givenTo. induction l as [|t l IH]; [done|].
  rewrite filter_cons_False by (apply H; set_solver). apply IH. set_solver.
Qed.

(** ** The invariant *)

(** The goroutine holds the mutex of the writers. *)
Definition holds s : bool :=
  match s with
  | WriteSelect _ _ | WriteRecv _ _ | WriteLoadW true _ | WriteLoadR true _ _ => true
  | _ => false
  end.

(** A writer that may have sent something. *)
Definition begun s : bool :=
  match s with WriteCheck | WriteLock => false | _ => true end.

Definition sending s : bool := match s with ReadSend _ _ => true | _ => false end.
Definition receiving s : bool := match s with WriteRecv _ _ => true | _ => false end.

(** [sent] is the first [n] elements of [d]. *)
Definition prefixOf (d sent : list E) (n : Z) : Prop :=
  0 <= n <= zlen d /\ sent = take (Z.to_nat n) d.

(** The buffer of a reader after a copy of [got]. *)
Definition filled (b got b' : list E) (n : Z) : Prop :=
  n = zlen got /\ zlen got <= zlen b /\ b' = got ++ drop (length got) b.

Definition localOk (k : call E) (s : pc E) (sent got : list E) : Prop :=
  match k, s with
  | Read b, (ReadCheck | ReadSelect | ReadLoadR | ReadLoadW _) => got = []
  | Read b, ReadSend b' nr => filled b got b' nr
  | Read b, ReadReturn b' n err => filled b got b' n /\ (err <> None -> got = [])
  | Write d, (WriteCheck | WriteLock) => sent = []
  | Write d, WriteSelect b n => prefixOf d sent n /\ b = drop (Z.to_nat n) d
  | Write d, WriteRecv b n => 0 <= n <= zlen d /\ b = drop (Z.to_nat n) d
  | Write d, (WriteLoadW _ n | WriteLoadR _ n _) => prefixOf d sent n
  | Write d, WriteReturn n err => prefixOf d sent n /\ (err = None -> n = zlen d)
  | (CloseRead _ | CloseWrite _), (CloseStore | CloseOnce | CloseReturn) => True
  | _, _ => False
  end.

(** A writer that waits for a report has exactly one reader about to send it. *)
Record handshake (rs : list (call E * pc E)) l : Prop := {
  hs_reader i d b n : rs !! i = Some (Write d, WriteRecv b n) ->
    exists j kb b' nr, rs !! j = Some (Read kb, ReadSend b' nr) /\
      0 <= nr <= zlen b /\ sentBy i l = take (Z.to_nat (n + nr)) d;
  hs_writer j k s : rs !! j = Some (k, s) -> sending s = true ->
    exists i k' s', rs !! i = Some (k', s') /\ receiving s' = true;
  hs_unique j j' k s k' s' : rs !! j = Some (k, s) -> rs !! j' = Some (k', s') ->
    sending s = true -> sending s' = true -> j = j';
}.

(** The writers had the pipe one after the other. *)
Definition inTurn (rs : list (call E * pc E)) l (ws : list nat) : Prop :=
  NoDup ws /\
  stream l = concat ((fun i => sentBy i l) <$> ws) /\
  (forall t, t ∈ l -> writer t ∈ ws) /\
  (forall i, i ∈ ws -> exists k s, rs !! i = Some (k, s) /\ begun s = true /\
     (holds s = true -> last ws = Some i)).

Record Inv c l : Prop := {
  inv_local i k s : routines c !! i = Some (k, s) -> localOk k s (sentBy i l) (givenTo i l);
  inv_fresh t : t ∈ l -> (writer t < length (routines c))%nat /\ (reader t < length (routines c))%nat;
  inv_mutex i k s : routines c !! i = Some (k, s) -> holds s = true <-> wrMu (shared c) = Some i;
  inv_owner i : wrMu (shared c) = Some i -> (i < length (routines c))%nat;
  inv_hs : handshake (routines c) l;
  inv_turn : exists ws, inTurn (routines c) l ws;
}.

Lemma start_Inv : Inv start [].
Proof.
  split; simpl; try done.
  - intros t Ht. by apply elem_of_nil in Ht.
  - exists []. split_and!; try done; [constructor|intros t Ht|intros i Hi]; by apply elem_of_nil in Ht || apply elem_of_nil in Hi.
Qed.

(** ** A new call *)

Lemma lookup_snoc_cases {A} (rs : list A) x i y :
  (rs ++ [x]) !! i = Some y -> rs !! i = Some y \/ (i = length rs /\ y = x).
Proof. rewrite lookup_app_Some, list_lookup_singleton_Some. intros [?|(? & ? & <-)]; [by left|right; split; [lia|done]]. Qed.

Lemma Call_Inv c l k :
  Inv c l -> Inv (mkConfig (shared c) (routines c ++ [(k, entryOf k)])) l.
Proof.
  intros [Hl Hf Hm Ho [Hr Hw Hu] (ws & Hnd & Hst & Hin & Hws)].
  assert (forall i x, routines c !! i = Some x -> (routines c ++ [(k, entryOf k)]) !! i = Some x) as Hold.
  { intros i x Hi. rewrite lookup_app_l; [done|]. by eapply lookup_lt_Some. }
  assert (sending (entryOf k) = false /\ receiving (entryOf k) = false /\ holds (entryOf k) = false) as (Hns & Hnr & Hnh)
    by (by destruct k).
  split; simpl.
  - intros i k' s' [Hi|[-> [= -> ->]]]%lookup_snoc_cases; [by apply Hl|].
    rewrite sentBy_none, givenTo_none by (intros t Ht; apply Hf in Ht; lia). by destruct k.
  - intros t Ht. apply Hf in Ht. rewrite length_app. lia.
  - intros i k' s' [Hi|[-> [= -> ->]]]%lookup_snoc_cases; [by eapply Hm|].
    rewrite Hnh. split; [done|]. intros Hi%Ho. lia.
  - intros i Hi%Ho. rewrite length_app. lia.
  - split.
    + intros i d b n [Hi|[-> [= H1 H2]]]%lookup_snoc_cases.
      * apply Hr in Hi as (j & kb & b' & nr & ? & ?). exists j, kb, b', nr. eauto.
      * rewrite <- H2 in Hnr. done.
    + intros j k' s' [Hi|[-> [= -> ->]]]%lookup_snoc_cases Hs; [|congruence].
      apply Hw in Hi as (i & k1 & s1 & ? & ?); [|done]. exists i, k1, s1. eauto.
    + intros j j' k1 s1 k2 s2 [Hi|[-> [= -> ->]]]%lookup_snoc_cases [Hi'|[-> [= -> ->]]]%lookup_snoc_cases Hs1 Hs2;
        try congruence. by eapply Hu.
  - exists ws. split_and!; try done. intros i Hi. apply Hws in Hi as (k1 & s1 & ? & ? & ?).
    exists k1, s1. eauto.
Qed.

(** ** A step of one goroutine *)

Lemma advance_spec (p p' : pipe) i k s s' sent got :
  advance p i k s = Some (p', s') -> localOk k s sent got ->
  localOk k s' sent got /\ sending s = false /\ sending s' = false /\
  receiving s = false /\ receiving s' = false /\ (begun s = true -> begun s' = true) /\
  ((wrMu p' = wrMu p /\ holds s' = holds s) \/
   (wrMu p = None /\ wrMu p' = Some i /\ begun s = false /\ holds s' = true) \/
   (wrMu p' = None /\ holds s = true /\ holds s' = false)).
Proof.
  destruct k as [b|d|e|e], s; simpl; intros Ha Hl; try discriminate Ha; try contradiction Hl;
    repeat match type of Ha with
    | context [if ?b then _ else _] => destruct b
    | context [match ?b with Some _ => _ | None => _ end] => destruct b eqn:?
    end; simplify_eq; simpl; unfold prefixOf, filled in *; split_and!; auto;
    try (rewrite Hl; simpl; naive_solver lia); try (unfold zlen in *; naive_solver lia).
Qed.

Lemma insert_cases {A} (rs : list A) i x j y :
  <[i := x]> rs !! j = Some y -> (i = j /\ y = x /\ (i < length rs)%nat) \/ (i <> j /\ rs !! j = Some y).
Proof. rewrite list_lookup_insert_Some. naive_solver. Qed.

Lemma insert_here {A} (rs : list A) i x y : rs !! i = Some x -> <[i := y]> rs !! i = Some y.
Proof. intros H. apply list_lookup_insert_eq. by eapply lookup_lt_Some. Qed.

(** Goroutines that neither wait for a report nor send one can change without
    breaking a handshake. *)
Lemma handshake_insert rs l i k s k' s' :
  handshake rs l -> rs !! i = Some (k, s) ->
  sending s = false -> sending s' = false -> receiving s = false -> receiving s' = false ->
  handshake (<[i := (k', s')]> rs) l.
Proof.
  intros [Hr Hw Hu] Hi Hs Hs' Hrs Hrs'. split.
  - intros i1 d b n [(-> & [= H1 H2] & _)|[Hne H1]]%insert_cases; [by rewrite <- H2 in Hrs'|].
    apply Hr in H1 as (j & kb & b' & nr & Hj & ?). exists j, kb, b', nr. split; [|done].
    rewrite list_lookup_insert_ne; [done|]. intros ->. by simplify_eq.
  - intros j k1 s1 [(-> & [= -> ->] & _)|[Hne H1]]%insert_cases Hs1; [congruence|].
    destruct (Hw _ _ _ H1 Hs1) as (i2 & k2 & s2 & H2 & ?). exists i2, k2, s2. split; [|done].
    rewrite list_lookup_insert_ne; [done|]. intros ->. simplify_eq. congruence.
  - intros j j' k1 s1 k2 s2 [(-> & [= -> ->] & _)|[_ H1]]%insert_cases [(<- & [= -> ->] & _)|[_ H2]]%insert_cases;
      try congruence. by eapply Hu.
Qed.

(** The order of the writers survives the step of a goroutine that does not
    forget that it has begun and does not take the pipe from another. *)
Lemma inTurn_insert rs l ws i k s k' s' :
  inTurn rs l ws -> rs !! i = Some (k, s) -> (begun s = true -> begun s' = true) ->
  (begun s = true -> holds s' = true -> holds s = true) ->
  inTurn (<[i := (k', s')]> rs) l ws.
Proof.
  intros (Hnd & Hst & Hin & Hws) Hi Hb Hh. split_and!; [done|done|done|].
  intros i1 H1. destruct (Hws i1 H1) as (k1 & s1 & Hk & Hb1 & Hh1).
  destruct (decide (i = i1)) as [->|Hne].
  - simplify_eq. exists k', s'. split_and!; [by eapply insert_here|by apply Hb|].
    intros H2. by apply Hh1, Hh.
  - exists k1, s1. by rewrite list_lookup_insert_ne.
Qed.

Lemma Move_Inv c l i k s p s' :
  Inv c l -> routines c !! i = Some (k, s) -> advance (shared c) i k s = Some (p, s') ->
  Inv (mkConfig p (setPc c i k s')) l.
Proof.
  intros [Hl Hf Hm Ho Hhs (ws & Ht)] Hi Ha.
  destruct (advance_spec _ _ _ _ _ _ _ _ Ha (Hl _ _ _ Hi)) as (Hl' & Hs1 & Hs2 & Hr1 & Hr2 & Hb & Hmx).
  assert (i < length (routines c))%nat as Hlt by (by eapply lookup_lt_Some).
  unfold setPc. split; simpl.
  - intros j k1 s1 [(<- & [= -> ->] & _)|[_ H1]]%insert_cases; [done|by apply Hl].
  - intros t H. rewrite length_insert. by apply Hf.
  - intros j k1 s1 [(<- & [= -> ->] & _)|[Hne H1]]%insert_cases.
    + destruct Hmx as [[-> ->]|[(H1 & -> & _ & ->)|(-> & _ & ->)]]; [by eapply Hm|done|done].
    + rewrite (Hm _ _ _ H1). destruct Hmx as [[-> _]|[(-> & -> & _ & _)|(-> & H2 & _)]]; [done|naive_solver|].
      apply (Hm _ _ _ Hi) in H2. rewrite H2. naive_solver.
  - intros j Hj. rewrite length_insert. destruct Hmx as [[Hx _]|[(_ & Hx & _)|(Hx & _)]].
    + apply Ho. congruence.
    + rewrite Hx in Hj. by injection Hj as <-.
    + by rewrite Hx in Hj.
  - by eapply handshake_insert.
  - exists ws. eapply inTurn_insert; [done|done|done|].
    intros Hb1 Hh. destruct Hmx as [[_ ?]|[(_ & _ & ? & _)|(_ & ? & _)]]; congruence.
Qed.

(** ** A rendezvous on [wrCh] *)

Lemma go_copy_spec (b bw b' : list E) nr :
  go_copy b bw = (b', nr) ->
  filled b (take (Z.to_nat nr) bw) b' nr /\ 0 <= nr <= zlen bw.
Proof.
  unfold go_copy. intros [= <- <-]. rewrite Nat2Z.id. unfold filled, zlen.
  rewrite length_take. split_and!; try lia.
  replace (Nat.min (Nat.min _ _) _) with (Nat.min (length b) (length bw)) by lia. done.
Qed.

Lemma inTurn_data rs l ws i d bw n k' s' t :
  inTurn rs l ws -> rs !! i = Some (Write d, WriteSelect bw n) -> writer t = i ->
  begun s' = true -> (forall j k s, rs !! j = Some (k, s) -> holds s = true -> j = i) ->
  exists ws', inTurn (<[i := (k', s')]> rs) (l ++ [t]) ws'.
Proof.
  intros (Hnd & Hst & Hin & Hws) Hi Hwt Hb Hown.
  set (ws' := if decide (i ∈ ws) then ws else ws ++ [i]).
  assert (Hlast : last ws' = Some i /\ NoDup ws' /\ i ∈ ws' /\ (forall j, j ∈ ws' <-> j ∈ ws \/ j = i) /\
    exists ws0, ws' = ws0 ++ [i] /\ concat ((fun i => sentBy i l) <$> ws') = stream l).
  { unfold ws'. case_decide as Hd.
    - destruct (Hws i Hd) as (k1 & s1 & Hk & _ & Hh). simplify_eq. specialize (Hh eq_refl).
      split_and!; [done|done|done|naive_solver|].
      apply last_Some in Hh as [ws0 ->]. exists ws0. split; [done|]. by rewrite Hst.
    - split_and!; [by rewrite last_snoc| |set_solver|set_solver|].
      { apply NoDup_app. split_and!; [done|set_solver|apply NoDup_singleton]. }
      exists ws. split; [done|]. rewrite fmap_app, concat_app, Hst. simpl.
      rewrite (sentBy_none i); [by rewrite !app_nil_r|]. intros t' Ht' <-. by apply Hd, Hin. }
  destruct Hlast as (Hla & Hnd' & _ & Hmem & ws0 & Heq & Hcat).
  exists ws'. split_and!; [done| | |].
  - rewrite stream_app, <- Hcat, Heq, !fmap_app, !concat_app. simpl. rewrite !app_nil_r, <- app_assoc.
    f_equal.
    + f_equal. apply list_fmap_ext. intros n0 j Hj. rewrite sentBy_app, sentBy_one, decide_False, app_nil_r; [done|].
      rewrite Hwt. intros <-. rewrite Heq, NoDup_app in Hnd'. destruct Hnd' as (_ & Hnd' & _).
      apply (Hnd' i); [by eapply list_elem_of_lookup_2|set_solver].
    + rewrite sentBy_app, sentBy_one, decide_True by done. unfold stream. simpl. by rewrite app_nil_r.
  - intros t' [Ht'|Ht'%list_elem_of_singleton]%elem_of_app; apply Hmem; [left; by apply Hin|right; by subst].
  - intros j Hj. destruct (decide (i = j)) as [->|Hne].
    + exists k', s'. split_and!; [by eapply insert_here|done|done].
    + rewrite list_lookup_insert_ne by done. apply Hmem in Hj as [Hj| ->]; [|done].
      destruct (Hws j Hj) as (k1 & s1 & Hk & Hb1 & Hh). exists k1, s1. split_and!; [done|done|].
      intros Hj1. by apply (Hown _ _ _ Hk) in Hj1 as ->.
Qed.

(** Only the holder of the mutex can wait for a report, so a writer about to
    send excludes every handshake under way. *)
Lemma no_handshake c l i k s j k' s' :
  Inv c l -> routines c !! i = Some (k, s) -> holds s = true -> receiving s = false ->
  routines c !! j = Some (k', s') -> sending s' = false /\ receiving s' = false.
Proof.
  intros [_ _ Hm _ [_ Hw _] _] Hi Hh Hr Hj.
  assert (H : forall i2 k2 s2, routines c !! i2 = Some (k2, s2) -> receiving s2 = false).
  { intros i2 k2 s2 H2. destruct (receiving s2) eqn:E2; [|done].
    assert (holds s2 = true) as H3 by (by destruct s2).
    apply (Hm _ _ _ H2) in H3. apply (Hm _ _ _ Hi) in Hh. rewrite Hh in H3. simplify_eq. congruence. }
  split; [|by eapply H]. destruct (sending s') eqn:E2; [|done].
  destruct (Hw _ _ _ Hj E2) as (i2 & k2 & s2 & H2 & H3). apply H in H2. congruence.
Qed.

Lemma local_other c l i k s t :
  localOk k s (sentBy i l) (givenTo i l) -> writer t <> i -> reader t <> i ->
  localOk k s (sentBy i (l ++ [t])) (givenTo i (l ++ [t])).
Proof.
  intros H H1 H2. rewrite sentBy_app, givenTo_app, sentBy_one, givenTo_one.
  rewrite !decide_False by done. by rewrite !app_nil_r.
Qed.

Lemma Data_Inv c l i j d bw n b b' nr :
  Inv c l -> routines c !! i = Some (Write d, WriteSelect bw n) ->
  routines c !! j = Some (Read b, ReadSelect) -> go_copy b bw = (b', nr) ->
  let t := mkTransfer i j (take (Z.to_nat nr) bw) in
  Inv (mkConfig (shared c) (<[j := (Read b, ReadSend b' nr)]> (setPc c i (Write d) (WriteRecv bw n)))) (l ++ [t]).
Proof.
  intros HI Hi Hj Hc t. assert (Hno := fun j k' s' => no_handshake c l i _ (WriteSelect bw n) j k' s' HI Hi eq_refl eq_refl).
  destruct HI as [Hl Hf Hm Ho _ (ws & Ht)].
  assert (i <> j) as Hne by (intros ->; simplify_eq).
  apply go_copy_spec in Hc as [Hfill Hnr].
  pose proof (Hl _ _ _ Hi) as [[Hn Hsent] Hbw]. pose proof (Hl _ _ _ Hj) as Hgot. simpl in Hgot.
  assert (Hlti := lookup_lt_Some _ _ _ Hi). assert (Hltj := lookup_lt_Some _ _ _ Hj).
  assert (Hlook : forall x y, <[j := (Read b, ReadSend b' nr)]> (setPc c i (Write d) (WriteRecv bw n)) !! x = Some y ->
    (x = j /\ y = (Read b, ReadSend b' nr)) \/ (x = i /\ y = (Write d, WriteRecv bw n)) \/
    (x <> i /\ x <> j /\ routines c !! x = Some y)).
  { intros x y [(<- & -> & _)|[H1 [(<- & -> & _)|[H2 H3]]%insert_cases]]%insert_cases; auto. }
  split; simpl.
  - intros x k s [[-> [= -> ->]]|[[-> [= -> ->]]|(H1 & H2 & H3)]]%Hlook.
    + simpl. rewrite givenTo_app, givenTo_one, Hgot, decide_True by done. done.
    + simpl. done.
    + by apply local_other; [|apply Hl|..].
  - unfold setPc. rewrite !length_insert. intros t' [Ht'|Ht'%list_elem_of_singleton]%elem_of_app; [by apply Hf|by subst].
  - intros x k s [[-> [= -> ->]]|[[-> [= -> ->]]|(H1 & H2 & H3)]]%Hlook; [by apply (Hm _ _ _ Hj)|by apply (Hm _ _ _ Hi)|by eapply Hm].
  - unfold setPc. rewrite !length_insert. done.
  - split.
    + intros x d1 b1 n1 [[-> [=]]|[[-> [= -> -> ->]]|(H1 & H2 & H3)]]%Hlook; [|by apply Hno in H3 as [_ [=]]].
      exists j, b, b', nr. split; [|split; [done|]].
      * apply list_lookup_insert_eq. unfold setPc. by rewrite length_insert.
      * rewrite sentBy_app, sentBy_one, decide_True, Hsent by done. subst t. simpl. rewrite Hbw.
        rewrite Z2Nat.inj_add by lia. by rewrite take_take_drop.
    + intros x k s _ _. exists i, (Write d), (WriteRecv bw n). split; [|done].
      rewrite list_lookup_insert_ne by done. unfold setPc. by rewrite list_lookup_insert_eq.
    + intros x y k s k' s' [[-> [= -> ->]]|[[-> [= -> ->]]|(H1 & H2 & H3)]]%Hlook
        [[-> [= -> ->]]|[[-> [= -> ->]]|(H4 & H5 & H6)]]%Hlook Hs1 Hs2; try done;
        first [apply Hno in H3 as [? _]|apply Hno in H6 as [? _]]; congruence.
  - destruct (inTurn_data _ _ _ _ _ _ _ (Write d) (WriteRecv bw n) t Ht Hi eq_refl eq_refl) as (ws' & Ht').
    { intros x k s Hx Hs. apply (Hm _ _ _ Hx) in Hs. pose proof (proj1 (Hm _ _ _ Hi) eq_refl). congruence. }
    exists ws'. apply (inTurn_insert _ _ _ _ (Read b) ReadSelect); [done| |done|done].
    unfold setPc. rewrite list_lookup_insert_ne by done. exact Hj.
Qed.

(** ** A report on [rdCh] *)

Lemma acknowledge_spec (p : pipe) i bw n nr d got :
  0 <= n <= zlen d -> bw = drop (Z.to_nat n) d -> 0 <= nr <= zlen bw -> wrMu p = Some i ->
  exists p' s, acknowledge p bw n nr = Ok (p', s) /\
    localOk (Write d) s (take (Z.to_nat (n + nr)) d) got /\
    sending s = false /\ receiving s = false /\ begun s = true /\
    ((wrMu p' = Some i /\ holds s = true) \/ (wrMu p' = None /\ holds s = false)).
Proof.
  intros Hn Hbw Hnr Hp.
  assert (Hdl : zlen bw = zlen d - n) by (subst bw; rewrite zlen_drop; unfold zlen in *; lia).
  unfold acknowledge. rewrite go_slice_Ok by lia. simpl.
  assert (take (Z.to_nat (zlen bw - nr)) (drop (Z.to_nat nr) bw) = drop (Z.to_nat (n + nr)) d) as ->.
  { rewrite Hdl, Hbw, drop_drop, Z2Nat.inj_add by lia. apply take_ge. rewrite length_drop. unfold zlen in *. lia. }
  assert (zlen (drop (Z.to_nat (n + nr)) d) = zlen d - (n + nr)) as -> by (rewrite zlen_drop; unfold zlen in *; lia).
  case_if; do 2 eexists; (split; [done|]); simpl; unfold prefixOf; split_and!; auto; lia.
Qed.

Lemma Ack_Inv c l i j d bw n b b' nr :
  Inv c l -> routines c !! i = Some (Write d, WriteRecv bw n) ->
  routines c !! j = Some (Read b, ReadSend b' nr) ->
  exists p s, acknowledge (shared c) bw n nr = Ok (p, s) /\
    Inv (mkConfig p (<[j := (Read b, ReadReturn b' nr None)]> (setPc c i (Write d) s))) l.
Proof.
  intros [Hl Hf Hm Ho [Hr Hw Hu] (ws & Ht)] Hi Hj.
  destruct (Hr _ _ _ _ Hi) as (j0 & kb & b0 & nr0 & Hj0 & Hnr & Hsent).
  assert (j0 = j) as -> by (by eapply Hu). simplify_eq.
  pose proof (Hl _ _ _ Hi) as [Hn Hbw]. pose proof (proj1 (Hm _ _ _ Hi) eq_refl) as Hmu.
  destruct (acknowledge_spec (shared c) i bw n nr d (givenTo i l)) as (p & s & -> & Hs & Hs1 & Hs2 & Hs3 & Hp); [done..|].
  exists p, s. split; [done|]. rewrite <- Hsent in Hs.
  assert (i <> j) as Hne by (intros ->; simplify_eq).
  assert (Hlti := lookup_lt_Some _ _ _ Hi). assert (Hltj := lookup_lt_Some _ _ _ Hj).
  assert (Hlook : forall x y, <[j := (Read b, ReadReturn b' nr None)]> (setPc c i (Write d) s) !! x = Some y ->
    (x = j /\ y = (Read b, ReadReturn b' nr None)) \/ (x = i /\ y = (Write d, s)) \/
    (x <> i /\ x <> j /\ routines c !! x = Some y)).
  { intros x y [(<- & -> & _)|[H1 [(<- & -> & _)|[H2 H3]]%insert_cases]]%insert_cases; auto. }
  assert (Hother : forall x k1 s1, x <> i -> routines c !! x = Some (k1, s1) -> holds s1 = false).
  { intros x k1 s1 Hx H1. destruct (holds s1) eqn:E1; [|done].
    apply (Hm _ _ _ H1) in E1. congruence. }
  split; simpl.
  - intros x k1 s1 [[-> [= -> ->]]|[[-> [= -> ->]]|(H1 & H2 & H3)]]%Hlook; [|done|by apply Hl].
    split; [apply (Hl _ _ _ Hj)|done].
  - unfold setPc. rewrite !length_insert. done.
  - intros x k1 s1 [[-> [= -> ->]]|[[-> [= -> ->]]|(H1 & H2 & H3)]]%Hlook; simpl.
    + destruct Hp as [[-> _]|[-> _]]; naive_solver.
    + destruct Hp as [[-> ->]|[-> ->]]; naive_solver.
    + rewrite (Hother _ _ _ H1 H3). destruct Hp as [[-> _]|[-> _]]; naive_solver.
  - unfold setPc. rewrite !length_insert. intros x Hx. destruct Hp as [[Hp _]|[Hp _]]; [|congruence].
    rewrite Hp in Hx. by injection Hx as <-.
  - assert (Hnone : forall x k1 s1, <[j := (Read b, ReadReturn b' nr None)]> (setPc c i (Write d) s) !! x = Some (k1, s1) ->
      sending s1 = false /\ receiving s1 = false).
    { intros x k1 s1 [[-> [= -> ->]]|[[-> [= -> ->]]|(H1 & H2 & H3)]]%Hlook; [done|done|].
      specialize (Hother _ _ _ H1 H3). split; [|by destruct s1].
      destruct (sending s1) eqn:E1; [|done]. by destruct (H2 (Hu _ _ _ _ _ _ H3 Hj E1 eq_refl)). }
    split; [intros x d1 b1 n1 Hx|intros x k1 s1 Hx Hsx|intros x y k1 s1 k2 s2 Hx Hy Hsx];
      apply Hnone in Hx as [H1 H2]; simpl in *; congruence.
  - exists ws. apply (inTurn_insert _ _ _ _ (Read b) (ReadSend b' nr)); [|unfold setPc; rewrite list_lookup_insert_ne by done; exact Hj|done|done].
    eapply inTurn_insert; [done|done|done|done].
Qed.

(** ** Every schedule *)

Lemma step_Inv x c l r :
  Inv c l -> step x c = Some r -> exists c' l', r = Ok (c', l') /\ Inv c' (l ++ l').
Proof.
  intros HI. destruct x as [k|i|i j|j i]; unfold step.
  - intros [= <-]. eexists _, _. split; [done|]. rewrite app_nil_r. by apply Call_Inv.
  - destruct (routines c !! i) as [[k s]|] eqn:Hi; simpl; [|done].
    destruct (advance (shared c) i k s) as [[p s']|] eqn:Ha; simpl; [|done].
    intros [= <-]. eexists _, _. split; [done|]. rewrite app_nil_r. by eapply Move_Inv.
  - destruct (routines c !! i) as [[[] []]|] eqn:Hi; try done.
    destruct (routines c !! j) as [[[] []]|] eqn:Hj; try done.
    destruct (go_copy b1 b0) as [b' nr] eqn:Hc. intros [= <-].
    eexists _, _. split; [done|]. by eapply Data_Inv.
  - destruct (routines c !! j) as [[[] []]|] eqn:Hj; try done.
    destruct (routines c !! i) as [[[] []]|] eqn:Hi; try done.
    destruct (Ack_Inv _ _ _ _ _ _ _ _ _ _ HI Hi Hj) as (p & s & -> & HI'). intros [= <-].
    eexists _, _. split; [done|]. by rewrite app_nil_r.
Qed.

Lemma run_Inv xs c l r :
  Inv c l -> run xs c = Some r -> exists c' l', r = Ok (c', l') /\ Inv c' (l ++ l').
Proof.
  revert c l r. induction xs as [|x xs IH]; intros c l r HI; simpl.
  - intros [= <-]. eexists _, _. split; [done|]. by rewrite app_nil_r.
  - destruct (step x c) as [r1|] eqn:Hx; [|done].
    destruct (step_Inv _ _ _ _ HI Hx) as (c1 & l1 & -> & HI1).
    destruct (run xs c1) as [r2|] eqn:Hr; [|done].
    destruct (IH _ _ _ HI1 Hr) as (c2 & l2 & -> & HI2). intros [= <-].
    eexists _, _. split; [done|]. by rewrite app_assoc.
Qed.

(** ** A call that has returned takes no more part *)

Lemma step_returned x c c' l' i k s :
  step x c = Some (Ok (c', l')) -> routines c !! i = Some (k, s) -> returned s = true ->
  routines c' !! i = Some (k, s) /\ sentBy i l' = [] /\ givenTo i l' = [].
Proof.
  intros Hx Hi Hs. destruct x as [k1|i1|i1 j1|j1 i1]; unfold step in Hx.
  - simplify_eq. simpl. split; [|done]. apply lookup_app_l_Some. done.
  - destruct (routines c !! i1) as [[k1 s1]|] eqn:H1; simpl in Hx; [|done].
    destruct (advance (shared c) i1 k1 s1) as [[p s']|] eqn:Ha; simpl in Hx; [|done].
    simplify_eq. simpl. split; [|done]. unfold setPc. rewrite list_lookup_insert_ne; [done|].
    intros ->. rewrite Hi in H1. injection H1 as <- <-. by destruct k, s.
  - destruct (routines c !! i1) as [[[] []]|] eqn:H1; try done.
    destruct (routines c !! j1) as [[[] []]|] eqn:H2; try done.
    destruct (go_copy b1 b0) as [b' nr]. simplify_eq. simpl.
    assert (i1 <> i /\ j1 <> i) as [Hn1 Hn2] by (split; intros ->; simplify_eq; done).
    unfold setPc. rewrite !list_lookup_insert_ne, sentBy_one, givenTo_one by done. simpl.
    by rewrite !decide_False.
  - destruct (routines c !! j1) as [[[] []]|] eqn:H1; try done.
    destruct (routines c !! i1) as [[[] []]|] eqn:H2; try done.
    destruct (acknowledge _ _ _ _) as [[p s']|]; simpl in Hx; [|done]. simplify_eq. simpl.
    assert (i1 <> i /\ j1 <> i) as [Hn1 Hn2] by (split; intros ->; simplify_eq; done).
    unfold setPc. by rewrite !list_lookup_insert_ne.
Qed.

Lemma run_returned xs c c' l' i k s :
  run xs c = Some (Ok (c', l')) -> routines c !! i = Some (k, s) -> returned s = true ->
  routines c' !! i = Some (k, s) /\ sentBy i l' = [] /\ givenTo i l' = [].
Proof.
  revert c l'. induction xs as [|x xs IH]; intros c l' Hr Hi Hs; simpl in Hr; [by simplify_eq|].
  destruct (step x c) as [[[c1 l1]|]|] eqn:Hx; try done.
  destruct (step_returned _ _ _ _ _ _ _ Hx Hi Hs) as (Hi1 & H1 & H2).
  destruct (run xs c1) as [[[c2 l2]|]|] eqn:Hr1; try done. simplify_eq.
  destruct (IH _ _ Hr1 Hi1 Hs) as (Hi2 & H3 & H4).
  rewrite sentBy_app, givenTo_app, H1, H2, H3, H4. done.
Qed.

(** C15: whatever the interleaving of reads, writes and closes, no call panics;
    what the reads get, joined in the order of the transfers, is the data of the
    writes one after the other, of each the prefix whose length it reports, all
    of it when it reports no error; a read returns how many elements it got, at
    the front of its buffer whose rest is untouched, and none with an error; a
    call that has returned takes no part in a later transfer. *)
Theorem pipe_delivers (xs : list (choice E)) (r : outcome (config E * list (transfer E)))
    (Hr : run xs start = Some r) :
  exists c l, r = Ok (c, l) /\
    (exists ws, NoDup ws /\ stream l = concat ((fun i => sentBy i l) <$> ws)) /\
    (forall i d n err, routines c !! i = Some (Write d, WriteReturn n err) ->
      0 <= n <= zlen d /\ sentBy i l = take (Z.to_nat n) d /\ (err = None -> n = zlen d)) /\
    (forall j b b' n err, routines c !! j = Some (Read b, ReadReturn b' n err) ->
      n = zlen (givenTo j l) /\ n <= zlen b /\ b' = givenTo j l ++ drop (Z.to_nat n) b /\
      (err <> None -> n = 0)) /\
    (forall i k s xs2 c2 l2, routines c !! i = Some (k, s) -> returned s = true ->
      run xs2 c = Some (Ok (c2, l2)) ->
      routines c2 !! i = Some (k, s) /\ sentBy i l2 = [] /\ givenTo i l2 = []).
Proof.
  destruct (run_Inv _ _ [] _ start_Inv Hr) as (c & l & -> & HI). exists c, l. simpl in HI.
  split; [done|]. split; [|split; [|split]].
  - destruct (inv_turn _ _ HI) as (ws & ? & ? & _). by exists ws.
  - intros i d n err Hi. apply (inv_local _ _ HI) in Hi as [[? ?] ?]. done.
  - intros j b b' n err Hj. apply (inv_local _ _ HI) in Hj as [(-> & H2 & ->) H3].
    split_and!; [done|done| |].
    + unfold zlen. by rewrite Nat2Z.id.
    + intros He. by rewrite H3.
  - intros i k s xs2 c2 l2 Hi Hs H2. by eapply run_returned.
Qed.

End pipe.

(** A write of three elements to readers with room for two. *)
Definition twoReads : list (choice Z) :=
  [Call (Write [1; 2; 3]); Call (Read [0; 0]); Call (Read [0; 0]); Move 0; Move 1; Move 0;
   Data 0 1; Ack 1 0; Move 2; Data 0 2; Ack 2 0].

Definition twoReadsEnd : config Z :=
  mkConfig (mkPipe None false None None)
    [(Write [1; 2; 3], WriteReturn 3 None);
     (Read [0; 0], ReadReturn [1; 2] 2 None);
     (Read [0; 0], ReadReturn [3; 0] 1 None)].

Definition twoReadsLog : list (transfer Z) := [mkTransfer 0 1 [1; 2]; mkTransfer 0 2 [3]].

Lemma twoReads_run : run twoReads start = Some (Ok (twoReadsEnd, twoReadsLog)).
Proof. vm_compute. reflexivity. Qed.

Lemma pipe_delivers_witness :
  exists c l, run twoReads start = Some (Ok (c, l)) /\ stream l = [1; 2; 3] /\
    routines c !! 0%nat = Some (Write [1; 2; 3], WriteReturn 3 None) /\
    routines c !! 2%nat = Some (Read [0; 0], ReadReturn [3; 0] 1 None) /\
    exists ws, NoDup ws /\ stream l = concat ((fun i => sentBy i l) <$> ws).
Proof.
  destruct (pipe_delivers twoReads _ twoReads_run) as (c & l & [= <- <-] & Hws & _).
  exists twoReadsEnd, twoReadsLog. split; [exact twoReads_run|].
  split; [reflexivity|]. split; [reflexivity|]. split; [reflexivity|exact Hws].
Defined.
