(* ===== verification/PipeClose.v ===== *)
(** * PipeClose: closing a pipe, progress and termination *)

From stdpp Require Import base tactics numbers list sets.
From S2P Require Import Prelude Pipe PipeProps.

#[local] Open Scope go_scope.

Section pipe.
Context {E : Type}.
Implicit Types (c : config E) (l : list (transfer E)) (k : call E) (s : pc E) (t : transfer E).

(** ** How many steps a call has left *)

Definition stepsLeft s : nat :=
  match s with
  | ReadCheck => 6
  | ReadSelect => 5
  | ReadSend _ _ => 1
  | ReadLoadR => 2
  | ReadLoadW _ => 1
  | WriteCheck => 5
  | WriteLock => 4
  | WriteSelect _ _ => 3
  | WriteRecv _ _ => 3
  | WriteLoadW _ _ => 2
  | WriteLoadR _ _ _ => 1
  | CloseStore => 2
  | CloseOnce => 1
  | ReadReturn _ _ _ | WriteReturn _ _ | CloseReturn => 0
  end%nat.

Definition leftAll (rs : list (call E * pc E)) : nat := sum_list_with (fun r => stepsLeft r.2) rs.
Definition left (c : config E) : nat := leftAll (routines c).

Definition isCall (x : choice E) : bool := match x with Call _ => true | _ => false end.

Lemma left_insert rs i r r' :
  rs !! i = Some r -> (leftAll (<[i := r']> rs) + stepsLeft r.2 = leftAll rs + stepsLeft r'.2)%nat.
Proof.
  unfold leftAll. revert i. induction rs as [|r0 rs IH]; intros [|i] Hi; simpl in *; [done|done| |].
  - injection Hi as ->. lia.
  - specialize (IH i Hi). lia.
Qed.

Lemma advance_left (p p' : pipe) i k s s' :
  advance p i k s = Some (p', s') -> (stepsLeft s' < stepsLeft s)%nat.
Proof.
  destruct k, s; simpl; intros Ha; try discriminate Ha;
    repeat match type of Ha with
    | context [if ?b then _ else _] => destruct b
    | context [match ?b with Some _ => _ | None => _ end] => destruct b
    end; simplify_eq; simpl; lia.
Qed.

Lemma acknowledge_left (p p' : pipe) (b : list E) n nw s :
  acknowledge p b n nw = Ok (p', s) -> (stepsLeft s <= 3)%nat.
Proof.
  unfold acknowledge. destruct (go_slice _ _ _); simpl; [|done]. case_if; intros; simplify_eq; simpl; lia.
Qed.

(** Two goroutines change in a rendezvous. *)
Lemma left_insert2 rs i j ri rj ri' rj' :
  i <> j -> rs !! i = Some ri -> rs !! j = Some rj ->
  (leftAll (<[j := rj']> (<[i := ri']> rs)) + stepsLeft ri.2 + stepsLeft rj.2 =
   leftAll rs + stepsLeft ri'.2 + stepsLeft rj'.2)%nat.
Proof.
  intros Hne Hi Hj. pose proof (left_insert rs i ri ri' Hi).
  assert (Hj' : <[i := ri']> rs !! j = Some rj) by (by rewrite list_lookup_insert_ne).
  pose proof (left_insert _ j rj rj' Hj'). lia.
Qed.

Lemma step_left x c c' l' :
  step x c = Some (Ok (c', l')) ->
  if isCall x then (left c' <= left c + 6)%nat /\ length (routines c') = S (length (routines c))
  else (left c' < left c)%nat /\ length (routines c') = length (routines c).
Proof.
  unfold left. destruct x as [k|i|i j|j i]; unfold step; simpl; intros Hx.
  - simplify_eq. simpl. unfold leftAll. rewrite sum_list_with_app, length_app.
    destruct k; simpl; lia.
  - destruct (routines c !! i) as [[k1 s1]|] eqn:H1; simpl in Hx; [|done].
    destruct (advance (shared c) i k1 s1) as [[p s']|] eqn:Ha; simpl in Hx; [|done].
    simplify_eq. simpl. unfold setPc. rewrite length_insert. apply advance_left in Ha.
    pose proof (left_insert _ _ _ (k1, s') H1) as H. simpl in H. lia.
  - destruct (routines c !! i) as [[[] []]|] eqn:H1; try done.
    destruct (routines c !! j) as [[[] []]|] eqn:H2; try done.
    simplify_eq. simpl. unfold setPc. rewrite !length_insert.
    assert (i <> j) as Hne by (intros ->; simplify_eq).
    match goal with |- context [<[j := ?rj]> (<[i := ?ri]> _)] =>
      pose proof (left_insert2 _ _ _ _ _ ri rj Hne H1 H2) as H end.
    simpl in H. lia.
  - destruct (routines c !! j) as [[[] []]|] eqn:H1; try done.
    destruct (routines c !! i) as [[[] []]|] eqn:H2; try done.
    destruct (acknowledge _ _ _ _) as [[p s']|] eqn:Ha; simpl in Hx; [|done]. simplify_eq. simpl.
    apply acknowledge_left in Ha. unfold setPc. rewrite !length_insert.
    assert (i <> j) as Hne by (intros ->; simplify_eq).
    match goal with |- context [<[j := ?rj]> (<[i := ?ri]> _)] =>
      pose proof (left_insert2 _ _ _ _ _ ri rj Hne H2 H1) as H end.
    simpl in H. lia.
Qed.

Lemma run_left xs c c' l' :
  run xs c = Some (Ok (c', l')) ->
  (length (filter (fun x => isCall x = false) xs) + left c' <=
   left c + 6 * length (filter (fun x => isCall x = true) xs))%nat.
Proof.
  revert c l'. induction xs as [|x xs IH]; intros c l' Hr; simpl in Hr; [simplify_eq; simpl; lia|].
  destruct (step x c) as [[[c1 l1]|]|] eqn:Hx; try done.
  destruct (run xs c1) as [[[c2 l2]|]|] eqn:Hr1; try done. simplify_eq.
  apply step_left in Hx. apply IH in Hr1. rewrite !filter_cons.
  destruct (isCall x); simpl; repeat case_decide; simpl; try done; lia.
Qed.

(** ** Who can move *)

Definition enabled (x : choice E) (c : config E) : Prop := exists r, step x c = Some r.

Definition stuck (c : config E) : Prop := forall x, enabled x c -> isCall x = true.

Lemma stuck_advance c i k s :
  stuck c -> routines c !! i = Some (k, s) -> advance (shared c) i k s = None.
Proof.
  intros Hst Hi. destruct (advance (shared c) i k s) as [[p s']|] eqn:Ha; [|done].
  discriminate (Hst (Move i)). eexists. unfold step. rewrite Hi. simpl. rewrite Ha. reflexivity.
Qed.

(** In a stuck configuration no handshake is under way. *)
Lemma stuck_no_handshake c l j k s :
  Inv c l -> stuck c -> routines c !! j = Some (k, s) -> sending s = false /\ receiving s = false.
Proof.
  intros HI Hst.
  assert (Hrecv : forall i k s, routines c !! i = Some (k, s) -> receiving s = false).
  { intros i k1 s1 Hi. destruct (receiving s1) eqn:E1; [|done].
    pose proof (inv_local _ _ HI _ _ _ Hi) as Hloc. destruct s1 as [| | | | | | | | |b n| | | | | |]; try discriminate E1.
    destruct k1 as [|d| |]; try contradiction Hloc.
    destruct (hs_reader _ _ (inv_hs _ _ HI) _ _ _ _ Hi) as (j0 & kb & b' & nr & Hj & _).
    discriminate (Hst (Ack j0 i)). eexists. unfold step. rewrite Hj, Hi. reflexivity. }
  intros Hj. split; [|by eapply Hrecv]. destruct (sending s) eqn:E1; [|done].
  destruct (hs_writer _ _ (inv_hs _ _ HI) _ _ _ Hj E1) as (i & k1 & s1 & Hi & H1).
  apply Hrecv in Hi. congruence.
Qed.

(** What is left blocked: a reader in its second [select], or writers, one of
    them in the [select] of its loop. *)
Lemma stuck_blocked c l i k s :
  Inv c l -> stuck c -> routines c !! i = Some (k, s) -> returned s = false ->
  done (shared c) = false /\
  ((exists b, k = Read b /\ s = ReadSelect) \/
   (exists d, k = Write d /\ exists i0 d0 b0 n0, routines c !! i0 = Some (Write d0, WriteSelect b0 n0))).
Proof.
  intros HI Hst Hi Hs. pose proof (stuck_advance _ _ _ _ Hst Hi) as Ha.
  pose proof (inv_local _ _ HI _ _ _ Hi) as Hloc.
  destruct (stuck_no_handshake _ _ _ _ _ HI Hst Hi) as [Hns Hnr].
  assert (Hwait : forall i d b n, routines c !! i = Some (Write d, WriteSelect b n) -> done (shared c) = false).
  { intros i1 d1 b1 n1 H1. apply (stuck_advance _ _ _ _ Hst) in H1. simpl in H1. by destruct (done (shared c)). }
  destruct k as [b|d|e|e], s; simpl in *; try contradiction Hloc; try discriminate.
  - destruct (done (shared c)); [discriminate|]. split; [done|]. left. by exists b.
  - destruct (wrMu (shared c)) as [i0|] eqn:Hmu; [|discriminate].
    destruct (lookup_lt_is_Some_2 _ _ (inv_owner _ _ HI _ Hmu)) as [[k0 s0] H0].
    pose proof (proj2 (inv_mutex _ _ HI _ _ _ H0) Hmu) as Hh.
    pose proof (stuck_advance _ _ _ _ Hst H0) as Ha0. pose proof (inv_local _ _ HI _ _ _ H0) as Hl0.
    destruct (stuck_no_handshake _ _ _ _ _ HI Hst H0) as [_ Hr0].
    destruct s0 as [| | | | | | | |b0 n0|b0 n0|[] n0|[] n0 w0| | | |]; try discriminate Hh; try discriminate Hr0;
      destruct k0; try contradiction Hl0; try discriminate Ha0.
    split; [by eapply Hwait|]. right. exists d. split; [done|]. eauto 6.
  - split; [by eapply Hwait|]. right. exists d. split; [done|]. eauto 6.
Qed.

(** C35: reads, writes and closes take at most six steps per call, and when no
    goroutine can step any more, every call on a closed pipe has returned, and on
    an open one there are not both a read and a write that wait. *)
Theorem pipe_progress (xs : list (choice E)) (c : config E) (l : list (transfer E))
    (Hr : run xs start = Some (Ok (c, l))) :
  (length (filter (fun x => isCall x = false) xs) <=
   6 * length (filter (fun x => isCall x = true) xs))%nat /\
  (stuck c ->
    (done (shared c) = true -> Forall (fun r => returned r.2 = true) (routines c)) /\
    ~ exists i j d b s s', routines c !! i = Some (Write d, s) /\ returned s = false /\
        routines c !! j = Some (Read b, s') /\ returned s' = false).
Proof.
  split; [pose proof (run_left _ _ _ _ Hr) as H; simpl in H; lia|].
  destruct (run_Inv _ _ [] _ start_Inv Hr) as (c0 & l0 & [= <- <-] & HI). simpl in HI.
  intros Hst. split.
  - intros Hd. apply Forall_lookup. intros i [k s] Hi. simpl. destruct (returned s) eqn:Hs; [done|].
    destruct (stuck_blocked _ _ _ _ _ HI Hst Hi Hs) as [? _]. congruence.
  - intros (i & j & d & b & s & s' & Hi & Hs & Hj & Hs').
    destruct (stuck_blocked _ _ _ _ _ HI Hst Hi Hs) as [_ [(? & [=] & _)|(_ & _ & i0 & d0 & b0 & n0 & H0)]].
    destruct (stuck_blocked _ _ _ _ _ HI Hst Hj Hs') as [_ [(b1 & [= <-] & ->)|(? & [=] & _)]].
    discriminate (Hst (Data i0 j)). unfold enabled, step. rewrite H0, Hj.
    destruct (go_copy b b0). by eexists.
Qed.

(** ** The errors of a close *)

(** The state of a pipe only grows. *)
Definition grows (p p' : pipe) : Prop :=
  (done p = true -> done p' = true) /\
  (forall e, rerr p = Some e -> rerr p' = Some e) /\
  (forall e, werr p = Some e -> werr p' = Some e).

#[global] Instance grows_preorder : PreOrder grows.
Proof. split; [by intros p|]. intros p1 p2 p3 (? & ? & ?) (? & ? & ?). split_and!; auto. Qed.

(** What an error means: the error that the other side closed with, or
    [ErrClosedPipe] when the side closed itself. *)
Definition errorOk (own other : onceError) (e : error) : Prop :=
  (e = ErrClosedPipe \/ other = Some e) /\ (own = None -> other = Some e).

Definition closeOk (p : pipe) (k : call E) (s : pc E) : Prop :=
  match k, s with
  | Read _, ReadLoadR | Write _, WriteLoadW _ _ => done p = true
  | Read _, ReadLoadW r => done p = true /\ (r = None \/ r = rerr p)
  | Write _, WriteLoadR _ _ w => done p = true /\ (w = None \/ w = werr p)
  | Read _, ReadReturn _ _ (Some e) => done p = true /\ errorOk (rerr p) (werr p) e
  | Write _, WriteReturn _ (Some e) => done p = true /\ errorOk (werr p) (rerr p) e
  | CloseRead _, (CloseOnce | CloseReturn) => rerr p <> None
  | CloseWrite _, (CloseOnce | CloseReturn) => werr p <> None
  | _, _ => True
  end.

(** The errors stored are those of calls. *)
Definition storedAs (o : onceError) (mk : option error -> call E) (dflt : error) (rs : list (call E * pc E)) : Prop :=
  forall e, o = Some e -> exists i err s, rs !! i = Some (mk err, s) /\ e = default dflt err.

Definition storedBy (p : pipe) (rs : list (call E * pc E)) : Prop :=
  storedAs (rerr p) CloseRead ErrClosedPipe rs /\ storedAs (werr p) CloseWrite EOF rs.

Record CInv c : Prop := {
  ci_calls i k s : routines c !! i = Some (k, s) -> closeOk (shared c) k s;
  ci_done : done (shared c) = true -> rerr (shared c) <> None \/ werr (shared c) <> None;
  ci_stored : storedBy (shared c) (routines c);
}.

Lemma grown (a b : onceError) : (forall e, a = Some e -> b = Some e) -> b = None -> a = None.
Proof. destruct a as [e|]; [|done]. intros H Hb. specialize (H e eq_refl). congruence. Qed.

Lemma closeOk_grows p p' k s : closeOk p k s -> grows p p' -> closeOk p' k s.
Proof.
  intros Hc (Hd & Hr & Hw). destruct k, s as [| | | | |? ? []| | | | | | |? []| | |]; simpl in *; auto.
  - destruct Hc as [? [->| ->]]; split; auto. destruct (rerr p) eqn:Hp; [|auto]. right. symmetry. auto.
  - unfold errorOk in *. pose proof (grown _ _ Hr). naive_solver.
  - destruct Hc as [? [->| ->]]; split; auto. destruct (werr p) eqn:Hp; [|auto]. right. symmetry. auto.
  - unfold errorOk in *. pose proof (grown _ _ Hw). naive_solver.
  - intros H. by apply Hc, (grown _ _ Hr).
  - intros H. by apply Hc, (grown _ _ Hr).
  - intros H. by apply Hc, (grown _ _ Hw).
  - intros H. by apply Hc, (grown _ _ Hw).
Qed.

Lemma Store_Some a e : Store a e <> None.
Proof. by destruct a. Qed.

Lemma Store_keeps a e e0 : a = Some e -> Store a e0 = Some e.
Proof. by intros ->. Qed.

(** Both close errors are computed from the other side's error [w], read after
    the side's own, [r]. *)
Lemma closeError_ok (r own other : onceError) :
  (r = None \/ r = own) -> (own <> None \/ other <> None) ->
  errorOk own other (readCloseError r other) /\ errorOk own other (writeCloseError r other).
Proof.
  unfold errorOk, readCloseError, writeCloseError.
  intros [-> | ->] H; destruct own, other; naive_solver.
Qed.

Lemma advance_close p p' i k s s' :
  advance p i k s = Some (p', s') -> closeOk p k s ->
  (done p = true -> rerr p <> None \/ werr p <> None) ->
  grows p p' /\ closeOk p' k s' /\ (done p' = true -> rerr p' <> None \/ werr p' <> None).
Proof.
  destruct k as [b|d|e|e], s; simpl; intros Ha Hc Hd; try discriminate Ha;
    repeat match type of Ha with
    | context [if ?b then _ else _] => destruct b eqn:?
    | context [match ?b with Some _ => _ | None => _ end] => destruct b eqn:?
    end; simplify_eq; simpl in *; unfold grows; simpl;
    split_and!; auto using Store_Some, Store_keeps; try tauto; try congruence.
  all: apply closeError_ok; tauto.
Qed.

(** Goroutines keep their calls. *)
Definition sameCalls (rs rs' : list (call E * pc E)) : Prop :=
  forall i k s, rs !! i = Some (k, s) -> exists s', rs' !! i = Some (k, s').

Lemma sameCalls_refl rs : sameCalls rs rs.
Proof. intros i k s H. by exists s. Qed.

Lemma sameCalls_insert rs rs' i k s s' :
  sameCalls rs rs' -> rs !! i = Some (k, s) -> sameCalls rs (<[i := (k, s')]> rs').
Proof.
  intros Hk Hi j k1 s1 Hj. destruct (decide (i = j)) as [->|Hne].
  - simplify_eq. destruct (Hk _ _ _ Hi) as [s2 H2]. exists s'. by eapply insert_here.
  - rewrite list_lookup_insert_ne by done. by eapply Hk.
Qed.

Lemma storedAs_keeps o mk d rs rs' : storedAs o mk d rs -> sameCalls rs rs' -> storedAs o mk d rs'.
Proof.
  intros H Hk e He. destruct (H e He) as (i & err & s & Hi & ->).
  destruct (Hk _ _ _ Hi) as [s' ?]. eauto.
Qed.

Lemma storedAs_Store o mk d rs i err s :
  storedAs o mk d rs -> rs !! i = Some (mk err, s) -> storedAs (Store o (default d err)) mk d rs.
Proof. intros H Hi e He. destruct o as [e0|]; simpl in He; [by apply H|]. injection He as <-. eauto. Qed.

Lemma advance_stored p p' i k s s' rs rs' :
  advance p i k s = Some (p', s') -> storedBy p rs -> sameCalls rs rs' -> rs' !! i = Some (k, s') ->
  storedBy p' rs'.
Proof.
  intros Ha [H1 H2] Hk Hi. pose proof (storedAs_keeps _ _ _ _ _ H1 Hk). pose proof (storedAs_keeps _ _ _ _ _ H2 Hk).
  destruct k, s; simpl in Ha; try discriminate Ha;
    repeat match type of Ha with
    | context [if ?b then _ else _] => destruct b
    | context [match ?b with Some _ => _ | None => _ end] => destruct b
    end; simplify_eq; split; simpl; eauto using storedAs_Store.
Qed.

(** ** The invariant of closing *)

Lemma start_CInv : CInv start.
Proof. split; [done|done|]. split; done. Qed.

Lemma CInv_Call c k : CInv c -> CInv (mkConfig (shared c) (routines c ++ [(k, entryOf k)])).
Proof.
  intros [Hc Hd [H1 H2]]. split; simpl; [|done|].
  - intros i k1 s1 [Hi|[_ [= -> ->]]]%lookup_snoc_cases; [by eapply Hc|]. by destruct k.
  - assert (sameCalls (routines c) (routines c ++ [(k, entryOf k)])).
    { intros i k1 s1 Hi. exists s1. by apply lookup_app_l_Some. }
    split; by eapply storedAs_keeps.
Qed.

Lemma CInv_Move c i k s p s' :
  CInv c -> routines c !! i = Some (k, s) -> advance (shared c) i k s = Some (p, s') ->
  CInv (mkConfig p (setPc c i k s')) /\ grows (shared c) p.
Proof.
  intros [Hc Hd Hs] Hi Ha.
  destruct (advance_close _ _ _ _ _ _ Ha (Hc _ _ _ Hi) Hd) as (Hg & Hok & Hd').
  split; [|done]. unfold setPc. split; simpl; [|done|].
  - intros j k1 s1 [(_ & [= -> ->] & _)|[_ H]]%insert_cases; [done|].
    eapply closeOk_grows; [by eapply Hc|done].
  - eapply advance_stored; [done|done| |by eapply insert_here].
    eapply sameCalls_insert; [apply sameCalls_refl|done].
Qed.

(** A rendezvous changes two goroutines and, at most, the mutex. *)
Lemma CInv_rendezvous c i j ki kj si sj si' sj' p :
  CInv c -> done p = done (shared c) -> rerr p = rerr (shared c) -> werr p = werr (shared c) ->
  routines c !! i = Some (ki, si) -> routines c !! j = Some (kj, sj) ->
  closeOk p ki si' -> closeOk p kj sj' ->
  CInv (mkConfig p (<[j := (kj, sj')]> (setPc c i ki si'))).
Proof.
  intros [Hc Hd [H1 H2]] Ed Er Ew Hi Hj Hoi Hoj.
  assert (grows (shared c) p) as Hg by (split_and!; congruence).
  split; simpl; unfold setPc.
  - intros x k s [(_ & [= -> ->] & _)|[_ [(_ & [= -> ->] & _)|[_ H]]%insert_cases]]%insert_cases; [done|done|].
    eapply closeOk_grows; [by eapply Hc|done].
  - by rewrite Ed, Er, Ew.
  - assert (sameCalls (routines c) (<[j := (kj, sj')]> (<[i := (ki, si')]> (routines c)))).
    { eapply sameCalls_insert; [|done]. eapply sameCalls_insert; [apply sameCalls_refl|done]. }
    unfold storedBy. rewrite Er, Ew. split; by eapply storedAs_keeps.
Qed.

Lemma acknowledge_close p p' (b : list E) n nw s :
  acknowledge p b n nw = Ok (p', s) ->
  done p' = done p /\ rerr p' = rerr p /\ werr p' = werr p /\ forall d, closeOk p' (Write d) s.
Proof.
  unfold acknowledge. destruct (go_slice _ _ _); simpl; [|done]. case_if; intros; by simplify_eq.
Qed.

Lemma step_CInv x c c' l' :
  CInv c -> step x c = Some (Ok (c', l')) -> CInv c' /\ grows (shared c) (shared c').
Proof.
  intros HC Hx. destruct x as [k|i|i j|j i]; unfold step in Hx.
  - simplify_eq. split; [by apply CInv_Call|done].
  - destruct (routines c !! i) as [[k1 s1]|] eqn:H1; simpl in Hx; [|done].
    destruct (advance (shared c) i k1 s1) as [[p s']|] eqn:Ha; simpl in Hx; [|done].
    simplify_eq. by eapply CInv_Move.
  - destruct (routines c !! i) as [[[] []]|] eqn:H1; try done.
    destruct (routines c !! j) as [[[] []]|] eqn:H2; try done.
    destruct (go_copy b1 b0) as [b' nr]. simplify_eq. split; [|done].
    by eapply CInv_rendezvous.
  - destruct (routines c !! j) as [[[] []]|] eqn:H1; try done.
    destruct (routines c !! i) as [[[] []]|] eqn:H2; try done.
    destruct (acknowledge _ _ _ _) as [[p s']|] eqn:Ha; simpl in Hx; [|done]. simplify_eq.
    apply acknowledge_close in Ha as (Ed & Er & Ew & Hok).
    split; [by eapply CInv_rendezvous|]. simpl. split_and!; congruence.
Qed.

Lemma run_CInv xs c c' l' :
  CInv c -> run xs c = Some (Ok (c', l')) -> CInv c' /\ grows (shared c) (shared c').
Proof.
  revert c l'. induction xs as [|x xs IH]; intros c l' HC Hr; simpl in Hr; [by simplify_eq|].
  destruct (step x c) as [[[c1 l1]|]|] eqn:Hx; try done.
  destruct (step_CInv _ _ _ _ HC Hx) as [HC1 Hg1].
  destruct (run xs c1) as [[[c2 l2]|]|] eqn:Hr1; try done. simplify_eq.
  destruct (IH _ _ HC1 Hr1) as [HC2 Hg2]. split; [done|]. by etrans.
Qed.

(** ** Calls made after a close *)

(** Where a call is that began when the pipe was closed. *)
Definition lateOk (k : call E) (s : pc E) : Prop :=
  match k, s with
  | Read _, (ReadCheck | ReadLoadR | ReadLoadW _) => True
  | Read b, ReadReturn b' n (Some _) => b' = b /\ n = 0
  | Write _, (WriteCheck | WriteLoadW false 0 | WriteLoadR false 0 _ | WriteReturn 0 (Some _)) => True
  | (CloseRead _ | CloseWrite _), _ => True
  | _, _ => False
  end.

Definition lateCalls (m : nat) (c : config E) : Prop :=
  forall i k s, (m <= i)%nat -> routines c !! i = Some (k, s) -> lateOk k s.

Lemma advance_late p p' i k s s' :
  done p = true -> advance p i k s = Some (p', s') -> lateOk k s -> lateOk k s'.
Proof.
  intros Hd Ha Hl. destruct k, s; simpl in *; try discriminate Ha; try contradiction Hl; rewrite ?Hd in Ha;
    repeat case_match; by simplify_eq.
Qed.

Lemma step_late x c c' l' m :
  done (shared c) = true -> lateCalls m c -> step x c = Some (Ok (c', l')) ->
  lateCalls m c' /\ forall i, (m <= i)%nat -> sentBy i l' = [] /\ givenTo i l' = [].
Proof.
  intros Hd Hl Hx. destruct x as [k|i|i j|j i]; unfold step in Hx.
  - simplify_eq. split; [|done]. intros i k1 s1 Hi [H|[_ [= -> ->]]]%lookup_snoc_cases; [by eapply Hl|].
    by destruct k.
  - destruct (routines c !! i) as [[k1 s1]|] eqn:H1; simpl in Hx; [|done].
    destruct (advance (shared c) i k1 s1) as [[p s']|] eqn:Ha; simpl in Hx; [|done].
    simplify_eq. split; [|done]. intros i1 k2 s2 Hi [(<- & [= -> ->] & _)|[_ H]]%insert_cases; [|by eapply Hl].
    eapply advance_late; [done|done|by eapply Hl].
  - destruct (routines c !! i) as [[[] []]|] eqn:H1; try done.
    destruct (routines c !! j) as [[[] []]|] eqn:H2; try done.
    destruct (go_copy b1 b0) as [b' nr]. simplify_eq.
    assert (i < m)%nat by (destruct (decide (m <= i)%nat) as [Hm|]; [destruct (Hl _ _ _ Hm H1)|lia]).
    assert (j < m)%nat by (destruct (decide (m <= j)%nat) as [Hm|]; [destruct (Hl _ _ _ Hm H2)|lia]).
    split.
    + intros i1 k2 s2 Hi [(<- & _)|[_ [(<- & _)|[_ H3]]%insert_cases]]%insert_cases; [lia|lia|by eapply Hl].
    + intros i1 Hi. rewrite sentBy_one, givenTo_one. simpl. by rewrite !decide_False by lia.
  - destruct (routines c !! j) as [[[] []]|] eqn:H1; try done.
    destruct (routines c !! i) as [[[] []]|] eqn:H2; try done.
    destruct (acknowledge _ _ _ _) as [[p s']|] eqn:Ha; simpl in Hx; [|done]. simplify_eq.
    assert (i < m)%nat by (destruct (decide (m <= i)%nat) as [Hm|]; [destruct (Hl _ _ _ Hm H2)|lia]).
    assert (j < m)%nat by (destruct (decide (m <= j)%nat) as [Hm|]; [destruct (Hl _ _ _ Hm H1)|lia]).
    split; [|done]. intros i1 k2 s2 Hi [(<- & _)|[_ [(<- & _)|[_ H3]]%insert_cases]]%insert_cases; [lia|lia|by eapply Hl].
Qed.

Lemma run_late xs c c' l' m :
  CInv c -> done (shared c) = true -> lateCalls m c -> run xs c = Some (Ok (c', l')) ->
  lateCalls m c' /\ forall i, (m <= i)%nat -> sentBy i l' = [] /\ givenTo i l' = [].
Proof.
  revert c l'. induction xs as [|x xs IH]; intros c l' HC Hd Hl Hr; simpl in Hr; [by simplify_eq|].
  destruct (step x c) as [[[c1 l1]|]|] eqn:Hx; try done.
  destruct (step_CInv _ _ _ _ HC Hx) as [HC1 (Hd1 & _)]. destruct (step_late _ _ _ _ _ Hd Hl Hx) as [Hl1 H1].
  destruct (run xs c1) as [[[c2 l2]|]|] eqn:Hr1; try done. simplify_eq.
  destruct (IH _ _ HC1 (Hd1 Hd) Hl1 Hr1) as [Hl2 H2]. split; [done|].
  intros i Hi. destruct (H1 i Hi) as [E1 E2], (H2 i Hi) as [E3 E4].
  by rewrite sentBy_app, givenTo_app, E1, E2, E3, E4.
Qed.

(** after a close the calls fail as the comments promise: the error of a
    read is the one the writing side closed with (io.EOF by default), of a write
    the one the reading side closed with, and [ErrClosedPipe] only when the
    failing side was itself closed; the first error stored is never overwritten;
    and a call that begins when the pipe is closed moves nothing and returns an
    error. *)
Theorem close_errors (xs xs2 : list (choice E)) (c c2 : config E) (l l2 : list (transfer E))
    (Hr : run xs start = Some (Ok (c, l))) (Hr2 : run xs2 c = Some (Ok (c2, l2))) :
  (forall j b b' n e, routines c !! j = Some (Read b, ReadReturn b' n (Some e)) ->
    errorOk (rerr (shared c)) (werr (shared c)) e) /\
  (forall i d n e, routines c !! i = Some (Write d, WriteReturn n (Some e)) ->
    errorOk (werr (shared c)) (rerr (shared c)) e) /\
  storedBy (shared c) (routines c) /\ grows (shared c) (shared c2) /\
  (done (shared c) = true -> forall i k s, (length (routines c) <= i)%nat ->
    routines c2 !! i = Some (k, s) -> lateOk k s /\ sentBy i l2 = [] /\ givenTo i l2 = []).
Proof.
  destruct (run_CInv _ _ _ _ start_CInv Hr) as [HC _]. pose proof HC as [Hc _ Hs].
  split; [|split; [|split; [|split]]].
  - intros j b b' n e Hj. by apply (Hc _ _ _ Hj).
  - intros i d n e Hi. by apply (Hc _ _ _ Hi).
  - done.
  - by eapply run_CInv.
  - intros Hd i k s Hi H. destruct (run_late xs2 c c2 l2 (length (routines c)) HC Hd) as [Hl H1]; [|done|].
    + intros i1 k1 s1 Hi1 H1%lookup_lt_Some. lia.
    + split; [by eapply Hl|by apply H1].
Qed.

End pipe.

(** A write of two elements of which one is read before the reader closes, and
    a read after that. *)
Definition closeEarly : list (choice Z) :=
  [Call (Write [1; 2]); Call (Read [0]); Move 0; Move 0; Move 1; Data 0 1; Ack 1 0;
   Call (CloseRead (Some ErrShortBuffer)); Move 2; Move 2; Move 0; Move 0; Move 0].

Definition readLate : list (choice Z) := [Call (Read [7]); Move 3; Move 3; Move 3].

Definition closedEarly : config Z :=
  mkConfig (mkPipe None true (Some ErrShortBuffer) None)
    [(Write [1; 2], WriteReturn 1 (Some ErrShortBuffer));
     (Read [0], ReadReturn [1] 1 None);
     (CloseRead (Some ErrShortBuffer), CloseReturn)].

Definition lateRead : config Z :=
  mkConfig (mkPipe None true (Some ErrShortBuffer) None)
    (routines closedEarly ++ [(Read [7], ReadReturn [7] 0 (Some ErrClosedPipe))]).

Lemma closeEarly_run : run closeEarly start = Some (Ok (closedEarly, [mkTransfer 0 1 [1]])).
Proof. vm_compute. reflexivity. Qed.

Lemma readLate_run : run readLate closedEarly = Some (Ok (lateRead, [])).
Proof. vm_compute. reflexivity. Qed.

Lemma pipe_progress_witness :
  done (shared closedEarly) = true /\
  (stuck closedEarly -> Forall (fun r => returned r.2 = true) (routines closedEarly)).
Proof.
  split; [reflexivity|]. intros Hs.
  destruct (pipe_progress closeEarly closedEarly _ closeEarly_run) as [_ H].
  destruct (H Hs) as [H1 _]. apply H1. reflexivity.
Defined.

Lemma close_errors_witness :
  errorOk None (Some ErrShortBuffer) ErrShortBuffer /\
  lateOk (Read [7]) (ReadReturn [7] 0 (Some ErrClosedPipe)).
Proof.
  destruct (close_errors closeEarly readLate closedEarly lateRead _ _ closeEarly_run readLate_run)
    as (_ & H1 & _ & _ & H2).
  split.
  - apply (H1 0%nat [1; 2] 1 ErrShortBuffer). reflexivity.
  - destruct (H2 eq_refl 3%nat (Read [7]) (ReadReturn [7] 0 (Some ErrClosedPipe))) as [H _].
    + simpl. lia.
    + reflexivity.
    + exact H.
Defined.
