(* ===== verification/Session.v ===== *)
(** * Session: RTP streams over one connection, [src/rtp/session.go]

    Goroutines accept streams, read from them and close the session.  A
    goroutine is its call and the point its code has reached.  The sections
    that run under a stream's [mu] do not block, so each is one step; [rmu] is
    held over blocking operations and is a field of the state.  The connection
    is the environment: a step of [AcceptStream] takes what [conn.Read] returns
    as an argument.  A schedule chooses the order and, where a [select] has
    several ready cases, the case. *)

From stdpp Require Import base tactics numbers list gmap.
From S2P Require Import Prelude RtpTypes.

#[local] Open Scope go_scope.

Definition MTUSize : Z := 1500.

(** ** The shared state

    The reader's header and payload are memory that the reader and the
    accepting goroutine both write: addresses and what they hold. *)

(** [recv] is the channel of capacity 10; [offer] the fields [hdr] and
    [payload], which are set and cleared together. *)
Record readStream : Type := mkReadStream {
  ssrc : Z;
  recv : list Packet;
  offer : option (nat * nat);
}.

Definition recvCap : nat := 10.

Record session : Type := mkSession {
  closed : bool;                       (* the fuse *)
  rmu : option nat;                    (* the goroutine that holds it *)
  bySSRC : option (gmap Z nat);        (* the indices of [streams]; nil after Close *)
  streams : list readStream;           (* every readStream made so far *)
  hdrs : nat -> Header;
  bufs : nat -> list Z;
}.

Definition upd {A : Type} (f : nat -> A) (a : nat) (x : A) : nat -> A :=
  fun b => if decide (a = b) then x else f b.

Definition setStream (s : session) (k : nat) (r : readStream) : session :=
  mkSession (closed s) (rmu s) (bySSRC s) (<[k := r]> (streams s)) (hdrs s) (bufs s).
Definition setRmu (s : session) (m : option nat) : session :=
  mkSession (closed s) m (bySSRC s) (streams s) (hdrs s) (bufs s).
Definition setMemory (s : session) (h : nat -> Header) (b : nat -> list Z) : session :=
  mkSession (closed s) (rmu s) (bySSRC s) (streams s) h b.

(** [*h = p.Header; n := copy(payload, p.Payload)] *)
Definition copyPacket (s : session) (h b : nat) (p : Packet) : session * Z :=
  let '(b', n) := go_copy (bufs s b) (Payload p) in
  (setMemory s (upd (hdrs s) h (header p)) (upd (bufs s) b b'), n).

(** ** Goroutines *)

Inductive call : Type :=
| AcceptStream
| ReadRTP (k h b : nat)     (* on stream [k], header at [h], payload at [b] *)
| Close.

Inductive pc : Type :=
| AcLock                                      (* s.rmu.Lock() *)
| AcRead                                      (* s.conn.Read *)
| AcSignal (k : nat) (n : Z) (isNew : bool)   (* the select of readStream.write *)
| AcReturn (r : nat + error)
| RdStart                                     (* the first lock of ReadRTP *)
| RdWait (notify : bool)                      (* its last select; whether copyNotify is set *)
| RdCopy (p : Packet) (offered : bool)        (* p taken from recv *)
| RdDefer (n : Z) (err : option error)        (* the deferred function *)
| RdReturn (n : Z) (err : option error)
| ClLock                                      (* conn closed; s.rmu.Lock() *)
| ClReturn.

Definition entryOf (c : call) : pc :=
  match c with
  | AcceptStream => AcLock
  | ReadRTP _ _ _ => RdStart
  | Close => ClLock
  end.

(** What can be observed: a packet reaches a stream, a read returns. *)
Inductive route : Type := Queued | Dropped | Copied.

Inductive event : Type :=
| Arrived (k : nat) (p : Packet) (r : route)
| Got (k : nat) (h : Header) (data : list Z) (cap : nat)  (* ReadRTP: n, nil *)
| Ended (k : nat) (err : error).                          (* ReadRTP: 0, err *)

(** [readStream.write] up to the end of its critical section: the new state,
    the count to signal if a reader had offered its buffers, and the route. *)
Definition write (s : session) (k : nat) (r : readStream) (p : Packet) : session * option Z * route :=
  match offer r with
  | Some (h, b) =>
      let '(s, n) := copyPacket s h b p in
      (setStream s k (mkReadStream (ssrc r) (recv r) None), Some n, Copied)
  | None =>
      if (length (recv r) <? recvCap)%nat then
        (setStream s k (mkReadStream (ssrc r) (recv r ++ [p]) None), None, Queued)
      else (s, None, Dropped)
  end.

(** The stream of an SSRC, made when there is none. *)
Definition streamOf (s : session) (m : gmap Z nat) (ss : Z) : session * nat * bool :=
  match m !! ss with
  | Some k => (s, k, false)
  | None =>
      let k := length (streams s) in
      (mkSession (closed s) (rmu s) (Some (<[ss := k]> m)) (streams s ++ [mkReadStream ss [] None]) (hdrs s) (bufs s), k, true)
  end.

(** What [conn.Read] returns. *)
Inductive netRead : Type :=
| Datagram (bs : list Z)
| ReadError (err : error).

Section session.
(** pion's [Packet.Unmarshal]. *)
Context (Unmarshal : list Z -> option Packet).

(** [write] is over: the rest of the iteration of [AcceptStream]. *)
Definition accepted (s : session) (k : nat) (isNew : bool) : session * pc :=
  if isNew then (setRmu s None, AcReturn (inl k)) else (s, AcRead).

(** An iteration of the loop of [AcceptStream], once [conn.Read] returned. *)
Definition acceptOne (s : session) (r : netRead) : option (session * pc * list event) :=
  match r with
  | ReadError err => Some (setRmu s None, AcReturn (inr err), [])
  | Datagram bs =>
      let n := Z.min (zlen bs) (MTUSize + 1) in
      if MTUSize <? n then Some (s, AcRead, [])
      else
        match Unmarshal bs with
        | None => Some (s, AcRead, [])
        | Some p =>
            m ← bySSRC s;     (* a nil map would panic; [rmu] excludes it *)
            let '(s, k, isNew) := streamOf s m (SSRC (header p)) in
            r ← streams s !! k;
            let '(s, sig, rt) := write s k r p in
            match sig with
            | Some n => Some (s, AcSignal k n isNew, [Arrived k p rt])
            | None => let '(s, t) := accepted s k isNew in Some (s, t, [Arrived k p rt])
            end
        end
  end.

(** The first critical section of [ReadRTP]. *)
Definition readStart (s : session) (k h b : nat) : option (session * pc) :=
  r ← streams s !! k;
  match recv r with
  | p :: ps => Some (setStream s k (mkReadStream (ssrc r) ps (offer r)), RdCopy p false)
  | [] =>
      match offer r with
      | None => Some (setStream s k (mkReadStream (ssrc r) [] (Some (h, b))), RdWait true)
      | Some _ => Some (s, RdWait false)
      end
  end.

(** The deferred function, for a call that offered its buffers. *)
Definition readDefer (s : session) (k h : nat) : option session :=
  r ← streams s !! k;
  Some (match offer r with
        | Some (h', _) => if decide (h' = h) then setStream s k (mkReadStream (ssrc r) (recv r) None) else s
        | None => s
        end).

(** What the caller sees of a read that returned [n, err]. *)
Definition report (s : session) (k h b : nat) (n : Z) (err : option error) : event :=
  match err with
  | None => Got k (hdrs s h) (take (Z.to_nat n) (bufs s b)) (length (bufs s b))
  | Some e => Ended k e
  end.

(** A step of the goroutine [i] alone. *)
Definition advance (s : session) (i : nat) (c : call) (t : pc) : option (session * pc * list event) :=
  match c, t with
  | AcceptStream, AcLock =>
      match rmu s, bySSRC s with
      | Some _, _ => None
      | None, None => Some (s, AcReturn (inr EOF), [])
      | None, Some _ => Some (setRmu s (Some i), AcRead, [])
      end
  | ReadRTP k h b, RdStart => '(s, t) ← readStart s k h b; Some (s, t, [])
  | ReadRTP k h b, RdWait notify =>
      r ← streams s !! k;
      match recv r with
      | p :: ps => Some (setStream s k (mkReadStream (ssrc r) ps (offer r)), RdCopy p notify, [])
      | [] => None
      end
  | ReadRTP k h b, RdCopy p offered =>
      let '(s, n) := copyPacket s h b p in
      Some (s, if offered then RdDefer n None else RdReturn n None, if offered then [] else [report s k h b n None])
  | ReadRTP k h b, RdDefer n err =>
      s ← readDefer s k h;
      Some (s, RdReturn n err, [report s k h b n err])
  | Close, ClLock =>
      match rmu s with
      | Some _ => None
      | None => Some (mkSession (closed s) (rmu s) None (streams s) (hdrs s) (bufs s), ClReturn, [])
      end
  | _, _ => None
  end.

(** A step that finds [closed] closed. *)
Definition advanceClosed (s : session) (c : call) (t : pc) : option (session * pc * list event) :=
  if closed s then
    match c, t with
    | AcceptStream, AcSignal k n isNew => let '(s, t) := accepted s k isNew in Some (s, t, [])
    | ReadRTP k h b, RdWait notify =>
        Some (s, if notify then RdDefer 0 (Some EOF) else RdReturn 0 (Some EOF),
              if notify then [] else [Ended k EOF])
    | _, _ => None
    end
  else None.

(** ** The whole program *)

Record config : Type := mkConfig {
  shared : session;
  routines : list (call * pc);
}.

Inductive choice : Type :=
| Call (c : call)
| Move (i : nat)
| MoveClosed (i : nat)
| Net (i : nat) (r : netRead)
| Signal (i j : nat)       (* copied <- n by i, received by j *)
| Break.                   (* the fuse of the session breaks *)

(** Only a stream that exists can be read from. *)
Definition callable (s : session) (c : call) : bool :=
  match c with ReadRTP k _ _ => (k <? length (streams s))%nat | _ => true end.

Definition moved (c : config) (i : nat) (k : call) (r : session * pc * list event) : config * list event :=
  (mkConfig r.1.1 (<[i := (k, r.1.2)]> (routines c)), r.2).

Definition step (x : choice) (c : config) : option (config * list event) :=
  match x with
  | Call k =>
      if callable (shared c) k then Some (mkConfig (shared c) (routines c ++ [(k, entryOf k)]), []) else None
  | Move i => '(k, t) ← routines c !! i; moved c i k <$> advance (shared c) i k t
  | MoveClosed i => '(k, t) ← routines c !! i; moved c i k <$> advanceClosed (shared c) k t
  | Net i r =>
      match routines c !! i with
      | Some (AcceptStream, AcRead) => moved c i AcceptStream <$> acceptOne (shared c) r
      | _ => None
      end
  | Signal i j =>
      match routines c !! i, routines c !! j with
      | Some (AcceptStream, AcSignal k n isNew), Some (ReadRTP k' h b, RdWait true) =>
          if decide (k' = k) then
            let '(s, t) := accepted (shared c) k isNew in
            Some (mkConfig s (<[j := (ReadRTP k' h b, RdDefer n None)]> (<[i := (AcceptStream, t)]> (routines c))), [])
          else None
      | _, _ => None
      end
  | Break =>
      let s := shared c in
      Some (mkConfig (mkSession true (rmu s) (bySSRC s) (streams s) (hdrs s) (bufs s)) (routines c), [])
  end.

Fixpoint run (xs : list choice) (c : config) : option (config * list event) :=
  match xs with
  | [] => Some (c, [])
  | x :: xs =>
      '(c1, l1) ← step x c;
      '(c2, l2) ← run xs c1;
      Some (c2, l1 ++ l2)
  end.

End session.

(** [NewSession] *)
Definition NewSession (h : nat -> Header) (b : nat -> list Z) : session :=
  mkSession false None (Some ∅) [] h b.

Definition start (h : nat -> Header) (b : nat -> list Z) : config := mkConfig (NewSession h b) [].

(** ** Writing: [writeStream.WriteRTP]

    The header's encoding is pion's.  [buf] is the array behind [w.buf], whose
    contents survive from packet to packet; [slices.Grow] makes an array of at
    least the size asked for, of which this is the least. *)
Section writeStream.
Context (MarshalSize : Header -> Z).
Context (MarshalTo : Header -> list Z + error).

Definition growTo (buf : list Z) (sz : Z) : list Z :=
  if zlen buf <? sz then replicate (Z.to_nat sz) 0 else buf.

(** The new array and what [conn.Write] is given, or the error of
    [MarshalTo]. *)
Definition WriteRTP (buf : list Z) (h : Header) (payload : list Z) : outcome (list Z * (list Z + error)) :=
  let hsz := MarshalSize h in
  let sz := hsz + zlen payload in
  let w := growTo buf sz in
  let! _ := go_slice w 0 sz in
  match MarshalTo h with
  | inr e => Ok (w, inr e)
  | inl bs =>
      let! r := go_copy_at w 0 bs in
      let n := zlen bs in
      let! all := go_slice r.1 0 sz in
      let! c := go_copy_at all n payload in
      Ok (c.1 ++ drop (Z.to_nat sz) r.1, inl c.1)
  end.

End writeStream.
