(* ===== verification/SessionProps.v ===== *)
(** * SessionProps: packets reach their streams, and readers in order *)

From stdpp Require Import base tactics numbers list gmap sets.
From S2P Require Import Prelude RtpTypes Session.

#[local] Open Scope go_scope.

(** ** What the log of events says of a stream *)

(** The packets that arrived for stream [k]; those that were not dropped; what
    its readers got. *)
Definition arrivals (k : nat) (l : list event) : list Packet :=
  omap (fun e => match e with Arrived k' p _ => if decide (k' = k) then Some p else None | _ => None end) l.

Definition taken (k : nat) (l : list event) : list Packet :=
  omap (fun e => match e with
                 | Arrived k' p (Queued | Copied) => if decide (k' = k) then Some p else None
                 | _ => None
                 end) l.

Definition got (k : nat) (l : list event) : list (Header * list Z * nat) :=
  omap (fun e => match e with Got k' h d cap => if decide (k' = k) then Some (h, d, cap) else None | _ => None end) l.

(** A read shows a packet: its header, and its payload up to the room there
    was. *)
Definition shows (g : Header * list Z * nat) (p : Packet) : Prop :=
  g.1.1 = header p /\ g.1.2 = take g.2 (Payload p).

Lemma arrivals_app k l1 l2 : arrivals k (l1 ++ l2) = arrivals k l1 ++ arrivals k l2.
Proof. apply omap_app. Qed.
Lemma taken_app k l1 l2 : taken k (l1 ++ l2) = taken k l1 ++ taken k l2.
Proof. apply omap_app. Qed.
Lemma got_app k l1 l2 : got k (l1 ++ l2) = got k l1 ++ got k l2.
Proof. apply omap_app. Qed.

(** A read that has not returned. *)
Definition reading (t : pc) : bool :=
  match t with RdStart | RdWait _ | RdCopy _ _ | RdDefer _ _ => true | _ => false end.

Section session.
Context (Unmarshal : list Z -> option Packet).
Implicit Types (c : config) (l : list event) (s : session) (t : pc) (r : readStream).

Notation step := (step Unmarshal).
Notation run := (run Unmarshal).
Notation acceptOne := (acceptOne Unmarshal).

(** ** Reads that do not overlap

    One read at a time on a stream, and no buffer given to two reads at once. *)
Definition clear (c : config) (k h b : nat) : Prop :=
  forall j k' h' b' t, routines c !! j = Some (ReadRTP k' h' b', t) -> reading t = true ->
    k' <> k /\ h' <> h /\ b' <> b.

Definition clearb (c : config) (k h b : nat) : bool :=
  forallb (fun x => match x with
                    | (ReadRTP k' h' b', t) =>
                        negb (reading t) || (negb (k' =? k)%nat && negb (h' =? h)%nat && negb (b' =? b)%nat)
                    | _ => true
                    end) (routines c).

Lemma clearb_clear c k h b : clearb c k h b = true -> clear c k h b.
Proof.
  unfold clearb. rewrite forallb_forall. intros H j k' h' b' t Hj Ht.
  specialize (H (ReadRTP k' h' b', t)). simpl in H. rewrite Ht in H. simpl in H.
  assert (In (ReadRTP k' h' b', t) (routines c)) as Hin by (by eapply list_elem_of_In, list_elem_of_lookup_2).
  specialize (H Hin). rewrite !andb_true_iff, !negb_true_iff, !Nat.eqb_neq in H. tauto.
Qed.

Definition polite (c : config) (x : choice) : bool :=
  match x with Call (ReadRTP k h b) => clearb c k h b | _ => true end.

Fixpoint politeRun (xs : list choice) (c : config) : bool :=
  match xs with
  | [] => true
  | x :: xs => polite c x && match step x c with Some (c', _) => politeRun xs c' | None => true end
  end.

(** ** The state of a stream *)

(** The memory at [h] and [b] holds packet [p], of which [n] bytes. *)
Definition inMemory (s : session) (h b : nat) (p : Packet) (n : Z) : Prop :=
  hdrs s h = header p /\ n = Z.of_nat (Nat.min (length (bufs s b)) (length (Payload p))) /\
  take (Z.to_nat n) (bufs s b) = take (length (bufs s b)) (Payload p).

Definition signals (c : config) (k i : nat) (n : Z) (isNew : bool) : Prop :=
  routines c !! i = Some (AcceptStream, AcSignal k n isNew).

Definition noSignal (c : config) (k : nat) : Prop := forall i n isNew, ~ signals c k i n isNew.

(** What the one read of a stream is doing, and the packet it has that it has
    not reported. *)
Inductive phase (c : config) (k : nat) (r : readStream) : list Packet -> Prop :=
| idle :
    (forall j h b t, routines c !! j = Some (ReadRTP k h b, t) -> reading t = false) ->
    offer r = None -> noSignal c k -> phase c k r []
| starting j h b :
    routines c !! j = Some (ReadRTP k h b, RdStart) -> offer r = None -> noSignal c k -> phase c k r []
| waiting j h b :
    routines c !! j = Some (ReadRTP k h b, RdWait true) -> offer r = Some (h, b) -> recv r = [] ->
    noSignal c k -> phase c k r []
| copied j h b i p n isNew :
    routines c !! j = Some (ReadRTP k h b, RdWait true) -> offer r = None -> recv r = [] ->
    signals c k i n isNew -> inMemory (shared c) h b p n -> phase c k r [p]
| copying j h b p :
    routines c !! j = Some (ReadRTP k h b, RdCopy p false) -> offer r = None -> noSignal c k -> phase c k r [p]
| deferred j h b p n :
    routines c !! j = Some (ReadRTP k h b, RdDefer n None) -> offer r = None -> noSignal c k ->
    inMemory (shared c) h b p n -> phase c k r [p].

Definition conserved c l k r : Prop :=
  exists front pend, taken k l = front ++ pend ++ recv r /\ Forall2 shows (got k l) front /\
    phase c k r pend.

(** Reads and signals are about streams that exist. *)
Definition streamIx (c : config) : Prop :=
  (forall j k h b t, routines c !! j = Some (ReadRTP k h b, t) -> (k < length (streams (shared c)))%nat) /\
  (forall i k n isNew, signals c k i n isNew -> (k < length (streams (shared c)))%nat).

Definition apart (c : config) : Prop :=
  forall j j' k h b t k' h' b' t',
    routines c !! j = Some (ReadRTP k h b, t) -> routines c !! j' = Some (ReadRTP k' h' b', t') ->
    reading t = true -> reading t' = true -> k = k' \/ h = h' \/ b = b' -> j = j'.

Definition holding (t : pc) : bool := match t with AcRead | AcSignal _ _ _ => true | _ => false end.

Record SInv c l : Prop := {
  si_conserved k r : streams (shared c) !! k = Some r -> conserved c l k r;
  si_ix : streamIx c;
  si_apart : apart c;
  si_mutex i k t : routines c !! i = Some (k, t) -> holding t = true -> rmu (shared c) = Some i;
  si_none k : (length (streams (shared c)) <= k)%nat -> taken k l = [] /\ got k l = [];
}.

(** ** What a stream's phase depends on *)

Definition frame (k : nat) (c c' : config) : Prop :=
  (forall j h b t, routines c !! j = Some (ReadRTP k h b, t) -> reading t = true ->
     routines c' !! j = Some (ReadRTP k h b, t) /\
     hdrs (shared c') h = hdrs (shared c) h /\ bufs (shared c') b = bufs (shared c) b) /\
  (forall j h b t, routines c' !! j = Some (ReadRTP k h b, t) -> reading t = true ->
     routines c !! j = Some (ReadRTP k h b, t)) /\
  (forall i n isNew, signals c k i n isNew <-> signals c' k i n isNew).

Lemma inMemory_same s s' h b p n :
  inMemory s h b p n -> hdrs s' h = hdrs s h -> bufs s' b = bufs s b -> inMemory s' h b p n.
Proof. unfold inMemory. intros H -> ->. done. Qed.

Lemma noSignal_frame k c c' : frame k c c' -> noSignal c k -> noSignal c' k.
Proof. intros (_ & _ & H) Hn i n isNew Hs. apply H in Hs. by eapply Hn. Qed.

Lemma phase_frame k c c' r pend : frame k c c' -> phase c k r pend -> phase c' k r pend.
Proof.
  intros Hf Hp. pose proof Hf as (H1 & H2 & H3).
  destruct Hp as [Hn|j h b Hj|j h b Hj|j h b i p n isNew Hj|j h b p Hj|j h b p n Hj].
  - eapply idle; [|done|by eapply noSignal_frame].
    intros j h b t Hj. destruct (reading t) eqn:E; [|done]. specialize (H2 _ _ _ _ Hj E). apply Hn in H2. congruence.
  - destruct (H1 _ _ _ _ Hj eq_refl) as (? & _). eapply starting; [done|done|by eapply noSignal_frame].
  - destruct (H1 _ _ _ _ Hj eq_refl) as (? & _). eapply waiting; [done|done|done|by eapply noSignal_frame].
  - destruct (H1 _ _ _ _ Hj eq_refl) as (? & ? & ?). eapply copied; [done|done|done|by apply H3|by eapply inMemory_same].
  - destruct (H1 _ _ _ _ Hj eq_refl) as (? & _). eapply copying; [done|done|by eapply noSignal_frame].
  - destruct (H1 _ _ _ _ Hj eq_refl) as (? & ? & ?). eapply deferred; [done|done|by eapply noSignal_frame|by eapply inMemory_same].
Qed.

Lemma conserved_frame k c c' l l' r :
  frame k c c' -> taken k l' = [] -> got k l' = [] -> conserved c l k r -> conserved c' (l ++ l') k r.
Proof.
  intros Hf Ht Hg (front & pend & H1 & H2 & H3). exists front, pend.
  rewrite taken_app, got_app, Ht, Hg, !app_nil_r. split_and!; [done|done|by eapply phase_frame].
Qed.

(** ** A step of one goroutine *)

Lemma insert_cases2 {A} (rs : list A) i x j y :
  <[i := x]> rs !! j = Some y -> (i = j /\ y = x /\ (i < length rs)%nat) \/ (i <> j /\ rs !! j = Some y).
Proof. rewrite list_lookup_insert_Some. naive_solver. Qed.

Definition withRoutine (c : config) (s : session) (i : nat) (kc : call) (t : pc) : config :=
  mkConfig s (<[i := (kc, t)]> (routines c)).

Lemma withRoutine_here c s i kc t t' kc' :
  routines c !! i = Some (kc, t) -> routines (withRoutine c s i kc' t') !! i = Some (kc', t').
Proof. intros H. apply list_lookup_insert_eq. by eapply lookup_lt_Some. Qed.

Lemma withRoutine_other c s i j kc t :
  i <> j -> routines (withRoutine c s i kc t) !! j = routines c !! j.
Proof. intros H. by apply list_lookup_insert_ne. Qed.

(** The goroutine that moved is not one that the phase of [k] depends on. *)
Lemma frame_one k c s' i kc t t' :
  routines c !! i = Some (kc, t) ->
  (forall h b, kc = ReadRTP k h b -> reading t = false /\ reading t' = false) ->
  (kc = AcceptStream -> (forall n w, t <> AcSignal k n w) /\ (forall n w, t' <> AcSignal k n w)) ->
  (forall j h b t0, routines c !! j = Some (ReadRTP k h b, t0) -> reading t0 = true ->
     hdrs s' h = hdrs (shared c) h /\ bufs s' b = bufs (shared c) b) ->
  frame k c (withRoutine c s' i kc t').
Proof.
  intros Hi Hr Ha Hm. split; [|split].
  - intros j h b t0 Hj Ht. split; [|by eapply Hm]. destruct (decide (i = j)) as [->|Hne].
    + simplify_eq. destruct (Hr h b eq_refl). congruence.
    + by rewrite withRoutine_other.
  - intros j h b t0 [(<- & [= <- ->] & _)|[_ Hj]]%insert_cases2 Ht; [|done].
    destruct (Hr h b eq_refl). congruence.
  - intros i0 n w. unfold signals. destruct (decide (i = i0)) as [->|Hne]; [|by rewrite withRoutine_other].
    erewrite withRoutine_here by done. rewrite Hi. split; intros [= -> ->]; destruct (Ha eq_refl) as [H1 H2];
      exfalso; first [by eapply H1|by eapply H2].
Qed.

Lemma SInv_one c l s' i kc t t' l' :
  SInv c l -> routines c !! i = Some (kc, t) ->
  length (streams s') = length (streams (shared c)) ->
  (forall k r', streams s' !! k = Some r' -> conserved (withRoutine c s' i kc t') (l ++ l') k r') ->
  (reading t' = true -> reading t = true) ->
  ((rmu s' = rmu (shared c) /\ (holding t' = true -> holding t = true)) \/
   (rmu s' = Some i /\ rmu (shared c) = None) \/
   (rmu s' = None /\ holding t = true /\ holding t' = false)) ->
  (forall k n w, t' = AcSignal k n w -> (k < length (streams s'))%nat) ->
  (forall k, (length (streams s') <= k)%nat -> taken k l' = [] /\ got k l' = []) ->
  SInv (withRoutine c s' i kc t') (l ++ l').
Proof.
  intros [Hc [Hx1 Hx2] Ha Hm Hn] Hi Hlen Hcons Hr Hmu Hsig Hnew. split; simpl.
  - done.
  - split; simpl; rewrite Hlen.
    + intros j k h b t0 [(<- & [= <- ->] & _)|[_ Hj]]%insert_cases2; by eapply Hx1.
    + intros j k n w [(<- & [= <- <-] & _)|[_ Hj]]%insert_cases2; [|by eapply Hx2].
      rewrite <- Hlen. by eapply Hsig.
  - intros j j' k h b t0 k' h' b' t0' [(<- & [= <- ->] & _)|[_ Hj]]%insert_cases2
      [(<- & [= <- ->] & _)|[_ Hj']]%insert_cases2 Ht Ht' Ho; try done; eapply Ha; eauto.
  - intros j kc' t0 [(<- & [= -> ->] & _)|[Hne Hj]]%insert_cases2 Ht.
    + destruct Hmu as [[-> Hh]|[[-> _]|(_ & _ & ?)]]; [by eapply Hm; eauto|done|congruence].
    + specialize (Hm _ _ _ Hj Ht) as Hmj. destruct Hmu as [[-> _]|[[_ Hx]|(_ & Hx & _)]]; [done|congruence|].
      specialize (Hm _ _ _ Hi Hx). congruence.
  - intros k Hk. rewrite taken_app, got_app. destruct (Hnew k Hk) as [-> ->].
    rewrite Hlen in Hk. by destruct (Hn k Hk) as [-> ->].
Qed.

(** Two reads of the same stream that have not returned are the same read. *)
Lemma only_reader c l i j k h b t h' b' t' :
  SInv c l -> routines c !! i = Some (ReadRTP k h b, t) -> reading t = true ->
  routines c !! j = Some (ReadRTP k h' b', t') -> reading t' = true -> i = j /\ h = h' /\ b = b' /\ t = t'.
Proof.
  intros HI Hi Ht Hj Ht'. assert (i = j) as -> by (eapply (si_apart _ _ HI); eauto). naive_solver.
Qed.

(** Only one goroutine signals. *)
Lemma only_signal c l i j k k' n n' w w' :
  SInv c l -> signals c k i n w -> signals c k' j n' w' -> i = j /\ k = k' /\ n = n' /\ w = w'.
Proof.
  intros HI Hi Hj. pose proof (si_mutex _ _ HI _ _ _ Hi eq_refl). pose proof (si_mutex _ _ HI _ _ _ Hj eq_refl).
  unfold signals in *. naive_solver.
Qed.

(** What the phase of its stream is, seen from a read. *)
Lemma phase_of c l i k h b t r pend :
  SInv c l -> routines c !! i = Some (ReadRTP k h b, t) -> reading t = true -> phase c k r pend ->
  match t with
  | RdStart => pend = [] /\ offer r = None /\ noSignal c k
  | RdWait notify => notify = true /\ recv r = [] /\
      ((offer r = Some (h, b) /\ pend = [] /\ noSignal c k) \/
       (offer r = None /\ exists p i0 n w, pend = [p] /\ signals c k i0 n w /\ inMemory (shared c) h b p n))
  | RdCopy p offered => offered = false /\ pend = [p] /\ offer r = None /\ noSignal c k
  | RdDefer n err => err = None /\ offer r = None /\ noSignal c k /\
      exists p, pend = [p] /\ inMemory (shared c) h b p n
  | _ => False
  end.
Proof.
  intros HI Hi Ht [Hn|j h' b' Hj|j h' b' Hj|j h' b' i0 p n w Hj|j h' b' p Hj|j h' b' p n Hj].
  1: { apply Hn in Hi. congruence. }
  all: destruct (only_reader c l i j k h b t h' b' _ HI Hi Ht Hj eq_refl) as (-> & -> & -> & ->).
  - done.
  - auto 6.
  - split_and!; [done|done|]. right. split; [done|]. by exists p, i0, n, w.
  - done.
  - split_and!; [done|done|done|]. by exists p.
Qed.

(** Once its read has returned, a stream is idle. *)
Lemma idle_after c l s' i k h b t t' r :
  SInv c l -> routines c !! i = Some (ReadRTP k h b, t) -> reading t = true -> reading t' = false ->
  offer r = None -> noSignal c k -> phase (withRoutine c s' i (ReadRTP k h b) t') k r [].
Proof.
  intros HI Hi Ht Ht' Ho Hn. apply idle; [|done|].
  - intros j h0 b0 t0 [(<- & [= <- <- ->] & _)|[Hne Hj]]%insert_cases2; [done|].
    destruct (reading t0) eqn:E; [|done]. by destruct (only_reader _ _ _ _ _ _ _ _ _ _ _ HI Hi Ht Hj E).
  - intros i0 n w [(<- & [=] & _)|[_ H]]%insert_cases2. by eapply Hn.
Qed.

(** ** A step of a read *)

(** Streams other than [k] do not notice a step of a read of [k] that writes at
    most its own buffers. *)
Lemma read_frame c l s' i k h b t t' k0 :
  SInv c l -> routines c !! i = Some (ReadRTP k h b, t) -> reading t = true -> k0 <> k ->
  (forall a, a <> h -> hdrs s' a = hdrs (shared c) a) -> (forall a, a <> b -> bufs s' a = bufs (shared c) a) ->
  frame k0 c (withRoutine c s' i (ReadRTP k h b) t').
Proof.
  intros HI Hi Ht Hk Hh Hb. eapply frame_one; [done| | |].
  - intros h0 b0 [= -> _ _]. done.
  - done.
  - intros j h0 b0 t0 Hj Ht0.
    assert (forall x y : nat, (x = y -> i = j) -> i <> j -> y <> x) as Hne by naive_solver.
    assert (i <> j) as Hij by (intros ->; simplify_eq).
    split; [apply Hh|apply Hb]; (eapply Hne; [|done]); intros ->; eapply (si_apart _ _ HI); eauto.
Qed.

(** The stream [k] of a read changes to [r'], or is left as it is. *)
Lemma read_SInv c l s' i k h b t t' r' l' :
  SInv c l -> routines c !! i = Some (ReadRTP k h b, t) -> reading t = true ->
  (forall a, a <> h -> hdrs s' a = hdrs (shared c) a) -> (forall a, a <> b -> bufs s' a = bufs (shared c) a) ->
  streams s' = <[k := r']> (streams (shared c)) -> rmu s' = rmu (shared c) -> holding t' = false ->
  (forall k0, k0 <> k -> taken k0 l' = [] /\ got k0 l' = []) ->
  conserved (withRoutine c s' i (ReadRTP k h b) t') (l ++ l') k r' ->
  SInv (withRoutine c s' i (ReadRTP k h b) t') (l ++ l').
Proof.
  intros HI Hi Ht Hh Hb Hs Hmu Hho Hl Hk. eapply SInv_one; [done|done| | | | | |].
  - by rewrite Hs, length_insert.
  - intros k0 r0. rewrite Hs. intros [(<- & -> & _)|[Hne H0]]%insert_cases2; [done|].
    destruct (Hl k0) as [H1 H2]; [done|]. eapply conserved_frame; [|done|done|by eapply si_conserved].
    eapply read_frame; eauto.
  - done.
  - left. split; [done|]. congruence.
  - intros k0 n w ->. discriminate Hho.
  - intros k0 Hk0. apply Hl. intros ->. destruct (si_ix _ _ HI) as [Hx _]. apply Hx in Hi.
    rewrite Hs, length_insert in Hk0. lia.
Qed.

Lemma upd_here {A} (f : nat -> A) a x : upd f a x a = x.
Proof. unfold upd. by rewrite decide_True. Qed.

Lemma upd_other {A} (f : nat -> A) a x y : y <> a -> upd f a x y = f y.
Proof. intros H. unfold upd. by rewrite decide_False. Qed.

Lemma copyPacket_spec s h b p s' n :
  copyPacket s h b p = (s', n) ->
  inMemory s' h b p n /\ streams s' = streams s /\ rmu s' = rmu s /\ closed s' = closed s /\ bySSRC s' = bySSRC s /\
  (forall a, a <> h -> hdrs s' a = hdrs s a) /\ (forall a, a <> b -> bufs s' a = bufs s a).
Proof.
  unfold copyPacket. destruct (go_copy (bufs s b) (Payload p)) as [b' n0] eqn:Hc. intros [= <- <-].
  simpl. split_and!; try done; try (intros; by apply upd_other).
  unfold go_copy in Hc. injection Hc as <- <-. unfold inMemory. simpl. rewrite !upd_here. split; [done|].
  rewrite length_app, length_take, length_drop.
  assert (Hlen : forall x y : nat, (Nat.min (Nat.min x y) y + (x - Nat.min x y) = x)%nat) by lia.
  rewrite Hlen. split; [done|]. rewrite Nat2Z.id, take_app_le by (rewrite length_take; lia).
  rewrite take_take, Nat.min_id.
  destruct (decide (length (bufs s b) <= length (Payload p))%nat); [by rewrite Nat.min_l|].
  rewrite Nat.min_r by lia. by rewrite !take_ge by lia.
Qed.

(** A read that reports a packet in its memory shows it. *)
Lemma shows_report s h b p n :
  inMemory s h b p n -> shows (hdrs s h, take (Z.to_nat n) (bufs s b), length (bufs s b)) p.
Proof. intros (H1 & _ & H2). by split. Qed.

Lemma got_self k h d cap : got k [Got k h d cap] = [(h, d, cap)].
Proof. unfold got. simpl. by rewrite decide_True. Qed.

Lemma got_other k k0 h d cap : k0 <> k -> got k0 [Got k h d cap] = [].
Proof. intros H. unfold got. simpl. by rewrite decide_False. Qed.

(** A stream whose read reports its packet [p]. *)
Lemma conserved_report c l s' i k h b t n r front p :
  SInv c l -> routines c !! i = Some (ReadRTP k h b, t) -> reading t = true ->
  offer r = None -> noSignal c k -> inMemory s' h b p n ->
  taken k l = front ++ [p] ++ recv r -> Forall2 shows (got k l) front ->
  conserved (withRoutine c s' i (ReadRTP k h b) (RdReturn n None)) (l ++ [report s' k h b n None]) k r.
Proof.
  intros HI Hi Ht Ho Hn Hm Hta Hg. exists (front ++ [p]), [].
  simpl. rewrite taken_app, got_app, got_self. simpl. rewrite app_nil_r. split_and!.
  - by rewrite Hta, <- app_assoc.
  - apply Forall2_app; [done|]. repeat constructor; apply Hm.
  - by eapply idle_after.
Qed.

Lemma setStream_same s k r : streams s !! k = Some r -> streams s = <[k := r]> (streams s).
Proof. intros H. by rewrite list_insert_id. Qed.

Lemma noSignal_read c s i k kc t' :
  (forall n w, t' <> AcSignal k n w) -> noSignal c k -> noSignal (withRoutine c s i kc t') k.
Proof. intros Ht Hn j n w [(<- & [= <- Hw] & _)|[_ H]]%insert_cases2; [by eapply Ht|by eapply Hn]. Qed.

Lemma Move_read c l i k h b t s' t' l' :
  SInv c l -> routines c !! i = Some (ReadRTP k h b, t) ->
  advance (shared c) i (ReadRTP k h b) t = Some (s', t', l') ->
  SInv (withRoutine c s' i (ReadRTP k h b) t') (l ++ l').
Proof.
  intros HI Hi Ha. pose proof (phase_of c l i k h b t) as Hph.
  destruct (streams (shared c) !! k) as [r|] eqn:Hk.
  2: { destruct (si_ix _ _ HI) as [Hx _]. apply Hx in Hi. apply lookup_ge_None in Hk. lia. }
  destruct (si_conserved _ _ HI _ _ Hk) as (front & pend & Hta & Hg & Hp).
  destruct t as [| | | | |notify|p offered|n err| | |]; try discriminate Ha.
  - destruct (Hph r pend HI Hi eq_refl Hp) as (-> & Ho & Hn).
    simpl in Ha. unfold readStart in Ha. rewrite Hk in Ha. simpl in Ha.
    destruct (recv r) as [|p ps] eqn:Hr.
    + rewrite Ho in Ha. simpl in Ha. injection Ha as <- <- <-. eapply read_SInv; [done..| |].
      * done.
      * exists front, []. rewrite app_nil_r. split_and!; [by rewrite Hta|done|].
        eapply waiting; [by eapply withRoutine_here|done|done|by apply noSignal_read].
    + simpl in Ha. injection Ha as <- <- <-. eapply read_SInv; [done..| |].
      * done.
      * exists front, [p]. rewrite app_nil_r. split_and!; [by rewrite Hta|done|].
        eapply copying; [by eapply withRoutine_here|done|by apply noSignal_read].
  - destruct (Hph r pend HI Hi eq_refl Hp) as (_ & Hr & _).
    simpl in Ha. rewrite Hk in Ha. simpl in Ha. by rewrite Hr in Ha.
  - destruct (Hph r pend HI Hi eq_refl Hp) as (-> & -> & Ho & Hn).
    cbn [advance] in Ha. destruct (copyPacket (shared c) h b p) as [s1 n] eqn:Hcp. injection Ha as <- <- <-.
    apply copyPacket_spec in Hcp as (Hm & Hs & Hmu & _ & _ & Hh & Hb).
    eapply (read_SInv _ _ _ _ _ _ _ _ _ r); [done|done|done|done|done|by rewrite Hs; apply setStream_same|done|done| |].
    + intros k0 Hk0. split; [done|by apply got_other].
    + by eapply conserved_report.
  - destruct (Hph r pend HI Hi eq_refl Hp) as (-> & Ho & Hn & p & -> & Hm).
    simpl in Ha. unfold readDefer in Ha. rewrite Hk in Ha. simpl in Ha. rewrite Ho in Ha. injection Ha as <- <- <-.
    eapply (read_SInv _ _ _ _ _ _ _ _ _ r); [done|done|done|done|done|by apply setStream_same|done|done| |].
    + intros k0 Hk0. split; [done|by apply got_other].
    + by eapply conserved_report.
Qed.

(** ** A step of a goroutine that accepts or closes *)

(** No stream, buffer or signal changes. *)
Lemma plain_SInv c l s' i kc t t' :
  SInv c l -> routines c !! i = Some (kc, t) -> (forall k h b, kc <> ReadRTP k h b) ->
  (forall k n w, t <> AcSignal k n w) -> (forall k n w, t' <> AcSignal k n w) -> reading t' = false ->
  streams s' = streams (shared c) -> hdrs s' = hdrs (shared c) -> bufs s' = bufs (shared c) ->
  ((rmu s' = rmu (shared c) /\ (holding t' = true -> holding t = true)) \/
   (rmu s' = Some i /\ rmu (shared c) = None) \/
   (rmu s' = None /\ holding t = true /\ holding t' = false)) ->
  SInv (withRoutine c s' i kc t') l.
Proof.
  intros HI Hi Hkc Ht Ht' Hrt Hs Hh Hb Hmu. rewrite <- (app_nil_r l).
  eapply SInv_one; [done|done|by rewrite Hs| |congruence|done| |done].
  - intros k r' Hr. rewrite Hs in Hr. eapply conserved_frame; [|done|done|by eapply si_conserved].
    eapply frame_one; [done| |done|].
    + intros h b H. by destruct (Hkc _ _ _ H).
    + intros j h b t0 _ _. by rewrite Hh, Hb.
  - intros k n w H. by destruct (Ht' _ _ _ H).
Qed.

Lemma reader_no_signal c l i k :
  SInv c l -> routines c !! i = Some (AcceptStream, AcRead) -> noSignal c k.
Proof.
  intros HI Hi j n w Hj. pose proof (si_mutex _ _ HI _ _ _ Hi eq_refl). pose proof (si_mutex _ _ HI _ _ _ Hj eq_refl).
  unfold signals in Hj. naive_solver.
Qed.

(** A stream with nobody signalling does not depend on its queue, except when
    its reader has offered its buffers. *)
Lemma phase_recv c k r r' pend :
  phase c k r pend -> noSignal c k -> offer r = None -> offer r' = None -> phase c k r' pend.
Proof.
  intros Hp Hn Ho Ho'. destruct Hp as [| | |j h b i p n w ? ? ? Hs| |].
  - by apply idle.
  - by eapply starting.
  - congruence.
  - by destruct (Hn _ _ _ Hs).
  - by eapply copying.
  - by eapply deferred.
Qed.

Lemma phase_offered c k r pend h b :
  phase c k r pend -> offer r = Some (h, b) ->
  pend = [] /\ recv r = [] /\ exists j, routines c !! j = Some (ReadRTP k h b, RdWait true).
Proof. intros [] Ho; try congruence. simplify_eq. eauto. Qed.

Lemma taken_one k p rt : taken k [Arrived k p rt] = match rt with Dropped => [] | _ => [p] end.
Proof. unfold taken. simpl. destruct rt; simpl; by rewrite ?decide_True. Qed.

Lemma taken_other k k0 p rt : k0 <> k -> taken k0 [Arrived k p rt] = [].
Proof. intros H. unfold taken. simpl. destruct rt; simpl; by rewrite ?decide_False. Qed.

Lemma accepted_spec s k isNew s' t' :
  accepted s k isNew = (s', t') ->
  streams s' = streams s /\ hdrs s' = hdrs s /\ bufs s' = bufs s /\ closed s' = closed s /\ bySSRC s' = bySSRC s /\
  reading t' = false /\ (forall k n w, t' <> AcSignal k n w) /\
  ((rmu s' = rmu s /\ t' = AcRead) \/ (rmu s' = None /\ holding t' = false)).
Proof. unfold accepted. destruct isNew; intros [= <- <-]; simpl; split_and!; auto; done. Qed.

(** The packet goes to the buffers of the waiting read. *)
Lemma Net_copied c l i k r p h b s1 n isNew :
  SInv c l -> routines c !! i = Some (AcceptStream, AcRead) -> streams (shared c) !! k = Some r ->
  offer r = Some (h, b) -> copyPacket (shared c) h b p = (s1, n) ->
  let s' := setStream s1 k (mkReadStream (ssrc r) (recv r) None) in
  SInv (withRoutine c s' i AcceptStream (AcSignal k n isNew)) (l ++ [Arrived k p Copied]).
Proof.
  intros HI Hi Hk Ho Hcp s'. destruct (si_conserved _ _ HI _ _ Hk) as (front & pend & Hta & Hg & Hp).
  destruct (phase_offered _ _ _ _ _ _ Hp Ho) as (-> & Hr & j & Hj).
  apply copyPacket_spec in Hcp as (Hm & Hs & Hmu & _ & _ & Hh & Hb).
  assert (i <> j) as Hij by (intros ->; simplify_eq).
  eapply SInv_one; [done|done| | |done| | |].
  - simpl. by rewrite length_insert, Hs.
  - simpl. rewrite Hs. intros k0 r0 [(<- & -> & _)|[Hne H0]]%insert_cases2.
    + exists front, [p]. rewrite taken_app, got_app, taken_one. simpl. rewrite app_nil_r.
      split_and!; [by rewrite Hta, Hr, app_nil_r|done|].
      eapply copied; [by rewrite withRoutine_other|done|done|by eapply withRoutine_here|exact Hm].
    + eapply conserved_frame; [|by apply taken_other|done|by eapply si_conserved].
      eapply frame_one; [done|done| |].
      * intros _. split; [done|]. by intros n0 w [= -> _ _].
      * intros j0 h0 b0 t0 Hj0 Ht0.
        assert (j0 <> j) as Hjj by (intros ->; simplify_eq).
        split; [apply Hh|apply Hb]; intros ->; apply Hjj; eapply (si_apart _ _ HI); eauto.
  - left. simpl. by rewrite Hmu.
  - intros k0 n0 w [= <- _ _]. simpl. rewrite length_insert, Hs. by eapply lookup_lt_Some.
  - intros k0. unfold s', setStream. cbn [streams]. rewrite length_insert, Hs. intros Hk0. apply lookup_lt_Some in Hk.
    split; [|done]. apply taken_other. lia.
Qed.

(** The packet is queued, or dropped when the queue is full. *)
Lemma Net_queued c l i k r r' p rt s1 s' t' isNew :
  SInv c l -> routines c !! i = Some (AcceptStream, AcRead) -> streams (shared c) !! k = Some r ->
  offer r = None -> offer r' = None -> s1 = setStream (shared c) k r' ->
  recv r' = recv r ++ match rt with Dropped => [] | _ => [p] end ->
  accepted s1 k isNew = (s', t') ->
  SInv (withRoutine c s' i AcceptStream t') (l ++ [Arrived k p rt]).
Proof.
  intros HI Hi Hk Ho Ho' -> Hrecv Hacc. destruct (si_conserved _ _ HI _ _ Hk) as (front & pend & Hta & Hg & Hp).
  apply accepted_spec in Hacc as (Hs & Hh & Hb & _ & _ & Hrt & Hnt & Hmu). simpl in *.
  assert (Hf : forall k0, frame k0 c (withRoutine c s' i AcceptStream t')).
  { intros k0. eapply frame_one; [done|done|done|]. intros j h b t0 _ _. by rewrite Hh, Hb. }
  eapply SInv_one; [done|done| | |congruence| | |].
  - by rewrite Hs, length_insert.
  - rewrite Hs. intros k0 r0 [(<- & -> & _)|[Hne H0]]%insert_cases2.
    + exists front, pend. rewrite taken_app, got_app, taken_one. simpl. rewrite app_nil_r.
      split_and!; [by rewrite Hta, Hrecv, <- !app_assoc|done|].
      eapply phase_frame; [by apply Hf|]. eapply phase_recv; [done|by eapply reader_no_signal|done|done].
    + eapply conserved_frame; [by apply Hf|by apply taken_other|done|by eapply si_conserved].
  - destruct Hmu as [[? ->]|[? ?]]; [left|right; right]; done.
  - intros k0 n w H. by destruct (Hnt _ _ _ H).
  - rewrite Hs, length_insert. intros k0 Hk0. apply lookup_lt_Some in Hk.
    split; [|done]. apply taken_other. lia.
Qed.

(** A stream is made for an SSRC that has none. *)
Lemma newStream_SInv c l m ss :
  SInv c l ->
  SInv (mkConfig (mkSession (closed (shared c)) (rmu (shared c)) (Some m)
    (streams (shared c) ++ [mkReadStream ss [] None]) (hdrs (shared c)) (bufs (shared c))) (routines c)) l.
Proof.
  intros HI. pose proof HI as [Hc [Hx1 Hx2] Ha Hm Hn]. split; simpl.
  - intros k r [Hk|(Hk & Hr)]%lookup_app_Some.
    + rewrite <- (app_nil_r l). eapply conserved_frame; [|done|done|by apply Hc].
      split_and!; [done|done|done].
    + apply list_lookup_singleton_Some in Hr as [Hk0 <-].
      assert (Hkl : k = length (streams (shared c))) by lia.
      destruct (Hn k) as [Ht Hg]; [lia|]. exists [], []. rewrite Ht, Hg. split_and!; [done|done|].
      apply idle; [|done|].
      * intros j h b t Hj. apply Hx1 in Hj. lia.
      * intros j n w Hj. apply Hx2 in Hj. lia.
  - split; simpl; rewrite length_app; [intros j k h b t Hj; apply Hx1 in Hj; lia|intros j k n w Hj; apply Hx2 in Hj; lia].
  - done.
  - done.
  - rewrite length_app. intros k Hk. apply Hn. lia.
Qed.

Lemma write_spec s k r p s' sig rt :
  write s k r p = (s', sig, rt) ->
  match offer r with
  | Some (h, b) => exists s1 n, copyPacket s h b p = (s1, n) /\ rt = Copied /\ sig = Some n /\
      s' = setStream s1 k (mkReadStream (ssrc r) (recv r) None)
  | None => sig = None /\ exists r', offer r' = None /\ ssrc r' = ssrc r /\
      recv r' = recv r ++ match rt with Dropped => [] | _ => [p] end /\ (rt = Dropped -> r' = r) /\
      (length (recv r) <= recvCap -> length (recv r') <= recvCap)%nat /\
      (rt = Dropped -> recvCap <= length (recv r))%nat /\ rt <> Copied /\
      (s' = setStream s k r' \/ (rt = Dropped /\ s' = s))
  end.
Proof.
  unfold write. destruct (offer r) as [[h b]|] eqn:Ho.
  - destruct (copyPacket s h b p) as [s1 n]. intros [= <- <- <-]. eauto 10.
  - destruct (length (recv r) <? recvCap)%nat eqn:Hl; intros [= <- <- <-]; split; try done.
    + apply Nat.ltb_lt in Hl. exists (mkReadStream (ssrc r) (recv r ++ [p]) None). simpl.
      rewrite length_app. simpl. split_and!; try done; [lia|by left].
    + apply Nat.ltb_ge in Hl. exists r. rewrite app_nil_r. split_and!; auto; lia.
Qed.

Lemma setStream_id s k r : streams s !! k = Some r -> setStream s k r = s.
Proof. intros H. unfold setStream. rewrite list_insert_id by done. by destruct s. Qed.

Lemma streamOf_SInv c l m ss s k isNew :
  SInv c l -> bySSRC (shared c) = Some m -> streamOf (shared c) m ss = (s, k, isNew) ->
  SInv (mkConfig s (routines c)) l.
Proof.
  intros HI Hm. unfold streamOf. destruct (m !! ss) as [k0|]; intros [= <- <- <-].
  - by destruct c.
  - by apply newStream_SInv.
Qed.

Lemma Net_SInv c l i (x : netRead) s' t' l' :
  SInv c l -> routines c !! i = Some (AcceptStream, AcRead) -> acceptOne (shared c) x = Some (s', t', l') ->
  SInv (withRoutine c s' i AcceptStream t') (l ++ l').
Proof.
  intros HI Hi Ha.
  assert (Hid : SInv (withRoutine c (shared c) i AcceptStream AcRead) (l ++ [])).
  { rewrite app_nil_r. eapply plain_SInv; try done. by left. }
  unfold acceptOne in Ha. destruct x as [bs|err]; [|].
  2: { injection Ha as <- <- <-. rewrite app_nil_r. eapply plain_SInv; try done. right; right. done. }
  destruct (MTUSize <? _); [by injection Ha as <- <- <-|].
  destruct (Unmarshal bs) as [p|]; [|by injection Ha as <- <- <-].
  destruct (bySSRC (shared c)) as [m|] eqn:Hm; simpl in Ha; [|done].
  destruct (streamOf (shared c) m (SSRC (header p))) as [[s k] isNew] eqn:Hst.
  pose proof (streamOf_SInv _ _ _ _ _ _ _ HI Hm Hst) as HI1.
  change (routines c) with (routines (mkConfig s (routines c))) in Hi.
  assert (Hsub : forall s0 t0, withRoutine c s0 i AcceptStream t0 = withRoutine (mkConfig s (routines c)) s0 i AcceptStream t0) by done.
  destruct (streams s !! k) as [r|] eqn:Hk; simpl in Ha; [|done].
  destruct (write s k r p) as [[s2 sig] rt] eqn:Hw. apply write_spec in Hw.
  destruct (offer r) as [[h b]|] eqn:Ho.
  - destruct Hw as (s1 & n & Hcp & -> & -> & ->). injection Ha as <- <- <-. rewrite Hsub.
    by eapply (Net_copied (mkConfig s (routines c))).
  - destruct Hw as (-> & r' & Ho' & _ & Hrecv & Hr' & _ & _ & _ & Hs2).
    destruct (accepted s2 k isNew) as [s3 t3] eqn:Hacc. injection Ha as <- <- <-. rewrite Hsub.
    eapply (Net_queued (mkConfig s (routines c)) _ _ _ r r'); try done.
    destruct Hs2 as [->|[Hd ->]]; [done|]. simpl. rewrite (Hr' Hd). by rewrite setStream_id.
Qed.

(** ** The reader receives the signal *)

Lemma frame_trans k c1 c2 c3 : frame k c1 c2 -> frame k c2 c3 -> frame k c1 c3.
Proof.
  intros (A1 & A2 & A3) (B1 & B2 & B3). split; [|split].
  - intros j h b t Hj Ht. destruct (A1 _ _ _ _ Hj Ht) as (H1 & E1 & E2).
    destruct (B1 _ _ _ _ H1 Ht) as (H2 & E3 & E4). split_and!; congruence.
  - intros j h b t Hj Ht. apply A2; [|done]. by apply B2.
  - intros i n w. rewrite A3. apply B3.
Qed.

Lemma Signal_SInv c l i j k h b n isNew s' t' :
  SInv c l -> signals c k i n isNew -> routines c !! j = Some (ReadRTP k h b, RdWait true) ->
  accepted (shared c) k isNew = (s', t') ->
  SInv (mkConfig s' (<[j := (ReadRTP k h b, RdDefer n None)]> (<[i := (AcceptStream, t')]> (routines c)))) l.
Proof.
  intros HI Hi Hj Hacc. unfold signals in Hi.
  apply accepted_spec in Hacc as (Hs & Hh & Hb & _ & _ & Hrt & Hnt & Hmu).
  assert (i <> j) as Hij by (intros ->; simplify_eq).
  set (c1 := withRoutine c s' i AcceptStream t'). set (c' := mkConfig _ _).
  assert (Hc' : c' = withRoutine c1 s' j (ReadRTP k h b) (RdDefer n None)) by done.
  assert (Hj1 : routines c1 !! j = Some (ReadRTP k h b, RdWait true)).
  { unfold c1. by rewrite withRoutine_other. }
  assert (Hlook : forall x y, routines c' !! x = Some y ->
    (x = j /\ y = (ReadRTP k h b, RdDefer n None)) \/ (x = i /\ y = (AcceptStream, t')) \/
    (x <> i /\ x <> j /\ routines c !! x = Some y)).
  { intros x y [(<- & -> & _)|[H1 [(<- & -> & _)|[H2 H3]]%insert_cases2]]%insert_cases2; auto. }
  pose proof HI as [Hc [Hx1 Hx2] Ha Hm Hn]. split; simpl.
  - rewrite Hs. intros k0 r Hk. destruct (Hc _ _ Hk) as (front & pend & Hta & Hg & Hp). exists front, pend.
    split; [done|]. split; [done|]. destruct (decide (k0 = k)) as [->|Hne].
    + destruct (phase_of _ _ _ _ _ _ _ _ _ HI Hj eq_refl Hp) as (_ & Hr & [(_ & _ & Hns)|(Ho & p & i0 & n0 & w0 & -> & Hsig & Hmem)]).
      { by destruct (Hns _ _ _ Hi). }
      destruct (only_signal _ _ _ _ _ _ _ _ _ _ HI Hi Hsig) as (<- & _ & <- & _).
      eapply (deferred c' _ _ j h b p n); [rewrite Hc'; by eapply withRoutine_here|done| |].
      2: { eapply inMemory_same; [exact Hmem|by simpl; rewrite Hh|by simpl; rewrite Hb]. }
      intros x n1 w1 [[-> [=]]|[[-> [= Ht]]|(H1 & _ & H3)]]%Hlook; [by eapply Hnt|].
      by destruct (only_signal _ _ _ _ _ _ _ _ _ _ HI Hi H3) as (-> & _).
    + eapply phase_frame; [|done]. rewrite Hc'. eapply frame_trans.
      * eapply (frame_one k0 c s' i); [exact Hi|done| |by rewrite Hh, Hb].
        intros _. split; [|done]. by intros ? ? [= -> _ _].
      * eapply frame_one; [exact Hj1| |done|done]. intros ? ? [= -> _ _]. done.
  - split; simpl; rewrite Hs.
    + intros x k1 h1 b1 t1 [[-> [= -> -> -> ->]]|[[-> [=]]|(_ & _ & H3)]]%Hlook; by eapply Hx1.
    + intros x k1 n1 w1 [[-> [=]]|[[-> [= Ht]]|(_ & _ & H3)]]%Hlook; [by destruct (Hnt k1 n1 w1)|by eapply Hx2].
  - intros x y k1 h1 b1 t1 k2 h2 b2 t2 [[-> [= -> -> -> ->]]|[[-> [=]]|(_ & Hxj & H3)]]%Hlook
      [[-> [= -> -> -> ->]]|[[-> [=]]|(_ & Hyj & H4)]]%Hlook Ht1 Ht2 Ho; try done; by eapply Ha.
  - intros x kc t1 [[-> [= -> ->]]|[[-> [= -> ->]]|(H1 & H2 & H3)]]%Hlook Ht; [done| |].
    + destruct Hmu as [[-> ->]|[_ ?]]; [by eapply Hm|congruence].
    + specialize (Hm _ _ _ H3 Ht) as H4. specialize (Hm _ _ _ Hi eq_refl). congruence.
  - rewrite Hs. done.
Qed.

(** ** A new call *)

Lemma snoc_cases {A} (rs : list A) x i y :
  (rs ++ [x]) !! i = Some y -> rs !! i = Some y \/ (i = length rs /\ y = x).
Proof. rewrite lookup_app_Some, list_lookup_singleton_Some. intros [?|(? & ? & <-)]; [by left|right; split; [lia|done]]. Qed.

Definition withCall (c : config) (kc : call) : config :=
  mkConfig (shared c) (routines c ++ [(kc, entryOf kc)]).

Lemma withCall_old c kc i x : routines c !! i = Some x -> routines (withCall c kc) !! i = Some x.
Proof. apply lookup_app_l_Some. Qed.

Lemma entry_no_signal c kc k i n w : signals (withCall c kc) k i n w <-> signals c k i n w.
Proof.
  split; [|apply withCall_old]. intros [H|[_ He]]%snoc_cases; [done|]. by destruct kc.
Qed.

Lemma frame_call c kc k : (forall h b, kc <> ReadRTP k h b) -> frame k c (withCall c kc).
Proof.
  intros Hk. split; [|split].
  - intros j h b t Hj Ht. split; [by apply withCall_old|done].
  - intros j h b t [Hj|[_ [= <- _]]]%snoc_cases Ht; [done|]. by destruct (Hk h b).
  - intros i n w. by rewrite entry_no_signal.
Qed.

Lemma Call_conserved c l kc k r :
  SInv c l -> polite c (Call kc) = true -> streams (shared c) !! k = Some r -> conserved (withCall c kc) l k r.
Proof.
  intros HI Hpo Hk.
  assert (Hdec : (exists h b, kc = ReadRTP k h b) \/ forall h b, kc <> ReadRTP k h b).
  { destruct kc as [|k0 h b|]; [by right| |by right]. destruct (decide (k0 = k)) as [->|]; [left; eauto|right; congruence]. }
  destruct Hdec as [(h & b & ->)|Hne].
  2: { rewrite <- (app_nil_r l). eapply conserved_frame; [by apply frame_call|done|done|by eapply si_conserved]. }
  destruct (si_conserved _ _ HI _ _ Hk) as (front & pend & Hta & Hg & Hp).
  exists front, pend. split; [done|]. split; [done|].
  assert (Hno : forall j h0 b0 t, routines c !! j = Some (ReadRTP k h0 b0, t) -> reading t = true -> False).
  { intros j h0 b0 t Hj Ht. apply clearb_clear in Hpo. by destruct (Hpo _ _ _ _ _ Hj Ht). }
  destruct Hp as [_ Ho Hn|j h1 b1 Hj|j h1 b1 Hj|j h1 b1 i p n w Hj|j h1 b1 p Hj|j h1 b1 p n Hj];
    try by destruct (Hno _ _ _ _ Hj).
  apply (starting _ _ _ (length (routines c)) h b); [|done|].
  - simpl. rewrite lookup_app_r, Nat.sub_diag by done. done.
  - intros i n w Hs. apply entry_no_signal in Hs. by eapply Hn.
Qed.

Lemma Call_SInv c l kc :
  SInv c l -> polite c (Call kc) = true -> callable (shared c) kc = true -> SInv (withCall c kc) l.
Proof.
  intros HI Hpo Hca. pose proof HI as [Hc [Hx1 Hx2] Ha Hm Hn]. split; [| | | |done].
  - intros k r Hk. by apply Call_conserved.
  - split.
    + intros j k h b t [Hj|[_ [= <- _]]]%snoc_cases; [by eapply Hx1|]. by apply Nat.ltb_lt in Hca.
    + intros i k n w Hs. apply entry_no_signal in Hs. by eapply Hx2.
  - intros j j' k h b t k' h' b' t' [Hj|[Ej [= <- ->]]]%snoc_cases [Hj'|[Ej' He]]%snoc_cases Ht Ht' Ho.
    + by eapply Ha.
    + injection He as <- ->. apply clearb_clear in Hpo. destruct (Hpo _ _ _ _ _ Hj Ht) as (? & ? & ?). naive_solver.
    + apply clearb_clear in Hpo. destruct (Hpo _ _ _ _ _ Hj' Ht') as (? & ? & ?). naive_solver.
    + congruence.
  - intros i k t [Hi|[_ [= -> ->]]]%snoc_cases Ht; [by eapply Hm|]. by destruct kc.
Qed.

(** ** A broken fuse stays broken *)

Lemma advance_closed s i kc t s' t' l' :
  advance s i kc t = Some (s', t', l') -> closed s' = closed s.
Proof.
  destruct kc as [|k h b|], t; cbn [advance]; intros Ha; try discriminate Ha.
  - repeat case_match; by simplify_eq.
  - unfold readStart in Ha. destruct (streams s !! k) as [r|]; simpl in Ha; [|done].
    destruct (recv r), (offer r); simpl in Ha; by injection Ha as <- <- <-.
  - destruct (streams s !! k) as [r|]; simpl in Ha; [|done].
    destruct (recv r); [done|]. by injection Ha as <- <- <-.
  - destruct (copyPacket s h b p) as [s1 n] eqn:Hc. injection Ha as <- <- <-. by apply copyPacket_spec in Hc as (_ & _ & _ & -> & _).
  - unfold readDefer in Ha. destruct (streams s !! k) as [r|]; simpl in Ha; [|done].
    injection Ha as <- <- <-. by repeat case_match.
  - repeat case_match; by simplify_eq.
Qed.

Lemma acceptOne_closed s x s' t' l' : acceptOne s x = Some (s', t', l') -> closed s' = closed s.
Proof.
  unfold acceptOne. destruct x as [bs|err]; [|by intros [= <- <- <-]].
  destruct (MTUSize <? _); [by intros [= <- <- <-]|].
  destruct (Unmarshal bs) as [p|]; [|by intros [= <- <- <-]].
  destruct (bySSRC s) as [m|]; simpl; [|done].
  destruct (streamOf s m (SSRC (header p))) as [[s0 k] isNew] eqn:Hst.
  assert (closed s0 = closed s) as <- by (unfold streamOf in Hst; by repeat case_match; simplify_eq).
  destruct (streams s0 !! k) as [r|]; simpl; [|done].
  destruct (write s0 k r p) as [[s2 sig] rt] eqn:Hw. apply write_spec in Hw.
  destruct (offer r) as [[h b]|].
  - destruct Hw as (s1 & n & Hcp & -> & -> & ->). intros [= <- <- <-]. simpl. by apply copyPacket_spec in Hcp as (_ & _ & _ & -> & _).
  - destruct Hw as (-> & r' & _ & _ & _ & _ & _ & _ & _ & Hs2).
    destruct (accepted s2 k isNew) as [s3 t3] eqn:Hacc. intros [= <- <- <-].
    apply accepted_spec in Hacc as (_ & _ & _ & -> & _). by destruct Hs2 as [-> |[_ ->]].
Qed.

Lemma step_closed x c c' l' : step x c = Some (c', l') -> closed (shared c) = true -> closed (shared c') = true.
Proof.
  intros Hx Hc. destruct x as [k|i|i|i r|i j|]; simpl in Hx.
  - destruct (callable _ _); [|done]. by injection Hx as <- <-.
  - destruct (routines c !! i) as [[k t]|]; simpl in Hx; [|done].
    destruct (advance (shared c) i k t) as [[[s' t'] l1]|] eqn:Ha; simpl in Hx; [|done].
    injection Hx as <- <-. simpl. by rewrite (advance_closed _ _ _ _ _ _ _ Ha).
  - destruct (routines c !! i) as [[k t]|]; simpl in Hx; [|done].
    unfold advanceClosed in Hx. rewrite Hc in Hx.
    destruct k, t; try discriminate Hx; [|by injection Hx as <- <-].
    unfold accepted in Hx. destruct isNew; by injection Hx as <- <-.
  - destruct (routines c !! i) as [[[] []]|]; try done.
    destruct (acceptOne (shared c) r) as [[[s' t'] l1]|] eqn:Ha; simpl in Hx; [|done].
    injection Hx as <- <-. simpl. by rewrite (acceptOne_closed _ _ _ _ _ Ha).
  - destruct (routines c !! i) as [[[] []]|]; try done.
    destruct (routines c !! j) as [[[] []]|]; try done.
    destruct notify; [|done]. destruct (decide _); [|done]. unfold accepted in Hx.
    destruct isNew; by injection Hx as <- <-.
  - by injection Hx as <- <-.
Qed.

(** ** Every polite schedule of an open session *)

Lemma Accept_SInv c l i s' t' l' :
  SInv c l -> routines c !! i = Some (AcceptStream, AcLock) ->
  advance (shared c) i AcceptStream AcLock = Some (s', t', l') ->
  SInv (withRoutine c s' i AcceptStream t') (l ++ l').
Proof.
  intros HI Hi Ha. simpl in Ha. destruct (rmu (shared c)) eqn:Hmu; [done|].
  destruct (bySSRC (shared c)); injection Ha as <- <- <-; rewrite app_nil_r; eapply plain_SInv; try done.
  - right; left. done.
  - left. done.
Qed.

Lemma Close_SInv c l i s' t' l' :
  SInv c l -> routines c !! i = Some (Close, ClLock) ->
  advance (shared c) i Close ClLock = Some (s', t', l') ->
  SInv (withRoutine c s' i Close t') (l ++ l').
Proof.
  intros HI Hi Ha. simpl in Ha. destruct (rmu (shared c)) eqn:Hmu; [done|].
  injection Ha as <- <- <-. rewrite app_nil_r. eapply plain_SInv; try done. left. simpl. by rewrite Hmu.
Qed.

Lemma step_SInv x c c' l l' :
  SInv c l -> polite c x = true -> closed (shared c') = false -> step x c = Some (c', l') -> SInv c' (l ++ l').
Proof.
  intros HI Hpo Hcl Hx. pose proof (step_closed _ _ _ _ Hx) as Hmono.
  destruct x as [k|i|i|i r|i j|]; simpl in Hx.
  - destruct (callable (shared c) k) eqn:Hca; [|done]. injection Hx as <- <-.
    rewrite app_nil_r. by apply Call_SInv.
  - destruct (routines c !! i) as [[k t]|] eqn:Hi; simpl in Hx; [|done].
    destruct (advance (shared c) i k t) as [[[s' t'] l1]|] eqn:Ha; simpl in Hx; [|done].
    injection Hx as <- <-. destruct k as [|k h b|].
    + destruct t; try discriminate Ha. by apply (Accept_SInv _ _ _ _ _ _ HI Hi Ha).
    + by apply (Move_read _ _ _ _ _ _ _ _ _ _ HI Hi Ha).
    + destruct t; try discriminate Ha. by apply (Close_SInv _ _ _ _ _ _ HI Hi Ha).
  - destruct (routines c !! i) as [[k t]|] eqn:Hi; simpl in Hx; [|done].
    exfalso. unfold advanceClosed in Hx. destruct (closed (shared c)); [|done]. specialize (Hmono eq_refl). congruence.
  - destruct (routines c !! i) as [[[] []]|] eqn:Hi; try done.
    destruct (acceptOne (shared c) r) as [[[s' t'] l1]|] eqn:Ha; simpl in Hx; [|done].
    injection Hx as <- <-. by apply (Net_SInv _ _ _ _ _ _ _ HI Hi Ha).
  - destruct (routines c !! i) as [[[] []]|] eqn:Hi; try done.
    destruct (routines c !! j) as [[[] []]|] eqn:Hj; try done.
    destruct notify; [|done]. destruct (decide _) as [->|]; [|done].
    destruct (accepted (shared c) k isNew) as [s' t'] eqn:Ha. injection Hx as <- <-.
    rewrite app_nil_r. by apply (Signal_SInv _ _ _ _ _ _ _ _ _ _ _ HI Hi Hj Ha).
  - by injection Hx as <- <-.
Qed.

Lemma start_SInv h b : SInv (start h b) [].
Proof. split; try done. Qed.

End session.
