(* ===== verification/SessionDemux.v ===== *)
(** * SessionDemux: which packets reach which stream, and the theorems *)

From stdpp Require Import base tactics numbers list gmap sets.
From S2P Require Import Prelude RtpTypes Session SessionProps.

#[local] Open Scope go_scope.

Section session.
Context (Unmarshal : list Z -> option Packet).
Implicit Types (c : config) (l : list event) (s : session) (t : pc) (r : readStream) (ps : list Packet).

Notation step := (step Unmarshal).
Notation run := (run Unmarshal).
Notation acceptOne := (acceptOne Unmarshal).

(** The packet that a datagram carries, if it is not longer than the MTU and
    parses. *)
Definition packetOf (x : choice) : option Packet :=
  match x with
  | Net _ (Datagram bs) => if MTUSize <? Z.min (zlen bs) (MTUSize + 1) then None else Unmarshal bs
  | _ => None
  end.

Definition packets (xs : list choice) : list Packet := omap packetOf xs.

Definition ssrcs (s : session) : list Z := ssrc <$> streams s.

Definition ofSSRC (x : Z) (ps : list Packet) : list Packet := filter (fun p => SSRC (header p) = x) ps.

Definition capped (s : session) : Prop := Forall (fun r => (length (recv r) <= recvCap)%nat) (streams s).

Definition returns (c : config) (i k : nat) : Prop :=
  routines c !! i = Some (AcceptStream, AcReturn (inl k)).

Record DInv ps c l : Prop := {
  d_arrivals k x : ssrcs (shared c) !! k = Some x -> arrivals k l = ofSSRC x ps;
  d_none k : (length (ssrcs (shared c)) <= k)%nat -> arrivals k l = [];
  d_dup : NoDup (ssrcs (shared c));
  d_cover p : p ∈ ps -> SSRC (header p) ∈ ssrcs (shared c);
  d_map m x k : bySSRC (shared c) = Some m -> m !! x = Some k <-> ssrcs (shared c) !! k = Some x;
  d_cap : capped (shared c);
  d_mutex i k t : routines c !! i = Some (k, t) -> holding t = true ->
    k = AcceptStream /\ rmu (shared c) = Some i /\ bySSRC (shared c) <> None;
  d_signal i k n w : signals c k i n w -> w = false;
  d_returned k : (k < length (ssrcs (shared c)))%nat -> exists i, returns c i k;
  d_returns i k : returns c i k -> (k < length (ssrcs (shared c)))%nat;
  d_once i j k : returns c i k -> returns c j k -> i = j;
}.

Lemma start_DInv h b : DInv [] (start h b) [].
Proof.
  split; try done.
  - constructor.
  - intros p Hp. by apply elem_of_nil in Hp.
  - intros m x k [= <-]. simpl. rewrite lookup_empty. done.
  - constructor.
  - simpl. lia.
Qed.

(** ** Steps that do not bring a packet *)

Lemma DInv_one ps c l i kc t s' t' l' :
  DInv ps c l -> routines c !! i = Some (kc, t) ->
  ssrcs s' = ssrcs (shared c) -> capped s' ->
  (bySSRC s' = bySSRC (shared c) \/ (bySSRC s' = None /\ rmu (shared c) = None)) ->
  ((rmu s' = rmu (shared c) /\ (holding t' = true -> holding t = true)) \/
   (rmu s' = Some i /\ rmu (shared c) = None /\ kc = AcceptStream /\ bySSRC s' <> None) \/
   (rmu s' = None /\ holding t = true /\ holding t' = false)) ->
  (forall k, t <> AcReturn (inl k)) -> (forall k, t' <> AcReturn (inl k)) ->
  (forall k n w, t' = AcSignal k n w -> w = false) ->
  (forall k, arrivals k l' = []) ->
  DInv ps (withRoutine c s' i kc t') (l ++ l').
Proof.
  intros [H1 H2 H3 H4 H5 H6 H7 H8 H9 H10 H11] Hi Hs Hcap Hby Hmu Ht Ht' Hsig Hl.
  assert (Hret : forall j k, returns (withRoutine c s' i kc t') j k <-> returns c j k).
  { intros j k. unfold returns. destruct (decide (i = j)) as [->|Hne]; [|by rewrite withRoutine_other].
    rewrite Hi. erewrite withRoutine_here by done. split; intros [= -> E]; [by destruct (Ht' k)|by destruct (Ht k)]. }
  split; simpl.
  - intros k x Hk. rewrite arrivals_app, Hl, app_nil_r. apply H1. by rewrite <- Hs.
  - intros k Hk. rewrite arrivals_app, Hl, app_nil_r. apply H2. by rewrite <- Hs.
  - by rewrite Hs.
  - intros p Hp. rewrite Hs. by apply H4.
  - intros m x k Hm. rewrite Hs. apply H5. destruct Hby as [Hby|[Hby _]]; congruence.
  - done.
  - intros j k0 t0 [(<- & [= -> ->] & _)|[Hne Hj]]%insert_cases2 Hh.
    + destruct Hmu as [[-> Hm]|[(-> & _ & -> & Hb)|(_ & _ & Hm)]]; [|done|congruence].
      destruct (H7 _ _ _ Hi (Hm Hh)) as (? & ? & ?). split_and!; [done|done|]. destruct Hby as [->|[_ ?]]; congruence.
    + destruct (H7 _ _ _ Hj Hh) as (-> & Hr & Hb).
      destruct Hmu as [[-> _]|[(_ & Hm & _)|(_ & Hm & _)]]; [|congruence|].
      * split_and!; [done|done|]. destruct Hby as [->|[_ ?]]; congruence.
      * destruct (H7 _ _ _ Hi Hm) as (_ & ? & _). congruence.
  - intros j k n w [(<- & [= <- E] & _)|[_ Hj]]%insert_cases2; [by eapply Hsig|by eapply H8].
  - intros k Hk. rewrite Hs in Hk. destruct (H9 k Hk) as [j Hj]. exists j. by apply Hret.
  - intros j k Hj. rewrite Hs. eapply H10. by apply Hret.
  - intros j1 j2 k Hj1 Hj2. eapply H11; by apply Hret.
Qed.

Lemma ssrcs_set s k r r' :
  streams s !! k = Some r -> ssrc r' = ssrc r -> ssrcs (setStream s k r') = ssrcs s.
Proof.
  intros Hk Hr. unfold ssrcs, setStream. simpl. rewrite list_fmap_insert, Hr.
  apply list_insert_id. by rewrite list_lookup_fmap, Hk.
Qed.

Lemma capped_set s k r' : capped s -> (length (recv r') <= recvCap)%nat -> capped (setStream s k r').
Proof. intros Hc Hr. unfold capped. simpl. by apply Forall_insert. Qed.

Lemma capped_lookup s k r : capped s -> streams s !! k = Some r -> (length (recv r) <= recvCap)%nat.
Proof. unfold capped. rewrite Forall_lookup. intros H Hk. by apply (H k). Qed.

Lemma set_shrinks s k r r' :
  streams s !! k = Some r -> ssrc r' = ssrc r -> (length (recv r') <= length (recv r))%nat ->
  ssrcs (setStream s k r') = ssrcs s /\ (capped s -> capped (setStream s k r')).
Proof.
  intros Hk E Hl. split; [by eapply ssrcs_set|]. intros Hc. apply capped_set; [done|].
  pose proof (capped_lookup _ _ _ Hc Hk). lia.
Qed.

(** The parts of the invariant that every step but the arrival of a packet
    keeps, gathered. *)
Record quiet (s s' : session) (i : nat) (kc : call) t t' l' : Prop := {
  q_ssrcs : ssrcs s' = ssrcs s;
  q_cap : capped s -> capped s';
  q_by : bySSRC s' = bySSRC s \/ (bySSRC s' = None /\ rmu s = None);
  q_mu : (rmu s' = rmu s /\ (holding t' = true -> holding t = true)) \/
         (rmu s' = Some i /\ rmu s = None /\ kc = AcceptStream /\ bySSRC s' <> None) \/
         (rmu s' = None /\ holding t = true /\ holding t' = false);
  q_from k : t <> AcReturn (inl k);
  q_to k : t' <> AcReturn (inl k);
  q_new k n w : t' = AcSignal k n w -> w = false;
  q_log k : arrivals k l' = [];
}.

Lemma quiet_DInv ps c l i kc t s' t' l' :
  DInv ps c l -> routines c !! i = Some (kc, t) -> quiet (shared c) s' i kc t t' l' ->
  DInv ps (withRoutine c s' i kc t') (l ++ l').
Proof. intros HI Hi []. eapply DInv_one; eauto. apply q_cap0, HI. Qed.

(** A read leaves the SSRCs, the map and the mutex alone. *)
Lemma quiet_read s s' i k h b t t' l' :
  ssrcs s' = ssrcs s -> (capped s -> capped s') -> bySSRC s' = bySSRC s -> rmu s' = rmu s ->
  reading t = true -> (forall k n w, t' <> AcSignal k n w) -> (forall k, t' <> AcReturn (inl k)) ->
  (holding t' = false) -> (forall k, arrivals k l' = []) ->
  quiet s s' i (ReadRTP k h b) t t' l'.
Proof.
  intros H1 H2 H3 H4 H5 H6 H7 H8 H9. split; auto.
  - left. split; [done|]. congruence.
  - intros k0 ->. done.
  - intros k0 n w E. by destruct (H6 k0 n w).
Qed.

Lemma arrivals_report s k h b n err k0 : arrivals k0 [report s k h b n err] = [].
Proof. by destruct err. Qed.

Lemma ssrcs_same s s' : streams s' = streams s -> ssrcs s' = ssrcs s /\ (capped s -> capped s').
Proof. intros H. unfold ssrcs, capped. by rewrite H. Qed.

Lemma advance_quiet s i kc t s' t' l' : advance s i kc t = Some (s', t', l') -> quiet s s' i kc t t' l'.
Proof.
  destruct kc as [|k h b|], t; cbn [advance]; intros Ha; try discriminate Ha.
  - destruct (rmu s) eqn:Hm; [done|]. destruct (bySSRC s) eqn:Hb; injection Ha as <- <- <-; split; simpl; auto; try done.
    right; left. by rewrite Hb.
  - unfold readStart in Ha. destruct (streams s !! k) as [r|] eqn:Hk; simpl in Ha; [|done].
    destruct (recv r) as [|p0 ps0] eqn:Hr, (offer r); simpl in Ha; injection Ha as <- <- <-;
      [by apply quiet_read| | |]; apply quiet_read; try done;
      (eapply (set_shrinks _ _ r); [done|done|rewrite Hr; simpl; lia]).
  - destruct (streams s !! k) as [r|] eqn:Hk; simpl in Ha; [|done].
    destruct (recv r) as [|p0 ps0] eqn:Hr; [done|]. injection Ha as <- <- <-. apply quiet_read; try done;
      (eapply (set_shrinks _ _ r); [done|done|rewrite Hr; simpl; lia]).
  - destruct (copyPacket s h b p) as [s1 n] eqn:Hc. injection Ha as <- <- <-.
    apply copyPacket_spec in Hc as (_ & Hs & Hmu & _ & Hb & _). apply ssrcs_same in Hs as [Hs1 Hs2].
    apply quiet_read; try done; by destruct offered.
  - unfold readDefer in Ha. destruct (streams s !! k) as [r|] eqn:Hk; simpl in Ha; [|done]. injection Ha as <- <- <-.
    destruct (set_shrinks s k r (mkReadStream (ssrc r) (recv r) None) Hk) as [Hs1 Hs2]; [done|done|].
    apply quiet_read; repeat case_match; try done; intros; apply arrivals_report.
  - destruct (rmu s) eqn:Hm; [done|]. injection Ha as <- <- <-. split; simpl; auto; done.
Qed.

Lemma accepted_quiet s i k n s' t' :
  accepted s k false = (s', t') -> quiet s s' i AcceptStream (AcSignal k n false) t' [].
Proof. intros [= <- <-]. split; auto; done. Qed.

Lemma MoveClosed_quiet s i kc t s' t' l' :
  (forall k n w, t = AcSignal k n w -> w = false) ->
  advanceClosed s kc t = Some (s', t', l') -> quiet s s' i kc t t' l'.
Proof.
  intros Hn. unfold advanceClosed. destruct (closed s); [|done].
  destruct kc as [|k h b|], t; try done.
  - rewrite (Hn _ _ _ eq_refl). destruct (accepted s k false) as [s1 t1] eqn:Ha. intros [= <- <- <-].
    by apply accepted_quiet.
  - intros [= <- <- <-]. apply quiet_read; try done; by destruct notify.
Qed.

(** ** The arrival of a packet *)

Lemma ofSSRC_snoc x ps p : ofSSRC x (ps ++ [p]) = ofSSRC x ps ++ (if decide (SSRC (header p) = x) then [p] else []).
Proof. unfold ofSSRC. rewrite filter_app, filter_cons. by case_decide. Qed.

Lemma ofSSRC_none x ps : (forall p, p ∈ ps -> SSRC (header p) <> x) -> ofSSRC x ps = [].
Proof.
  intros H. unfold ofSSRC. induction ps as [|p ps IH]; [done|].
  rewrite filter_cons_False by (apply H; set_solver). apply IH. set_solver.
Qed.

Lemma arrivals_one k k0 p rt : arrivals k0 [Arrived k p rt] = if decide (k = k0) then [p] else [].
Proof. unfold arrivals. simpl. by case_decide. Qed.

(** A packet of a stream that exists. *)
Lemma DInv_known ps c l i k p rt s' t' :
  DInv ps c l -> routines c !! i = Some (AcceptStream, AcRead) ->
  ssrcs (shared c) !! k = Some (SSRC (header p)) ->
  quiet (shared c) s' i AcceptStream AcRead t' [] ->
  DInv (ps ++ [p]) (withRoutine c s' i AcceptStream t') (l ++ [Arrived k p rt]).
Proof.
  intros HI Hi Hk Hq. pose proof (q_ssrcs _ _ _ _ _ _ _ Hq) as Hs.
  destruct (quiet_DInv _ _ _ _ _ _ _ _ _ HI Hi Hq) as [H1 H2 H3 H4 H5 H6 H7 H8 H9 H10 H11].
  rewrite app_nil_r in *. simpl in *. split; try done; simpl.
  - intros k0 x Hx. rewrite arrivals_app, arrivals_one, ofSSRC_snoc, (H1 k0 x Hx). f_equal.
    rewrite Hs in Hx. destruct (decide (k = k0)) as [->|Hne]; case_decide as Hd; try done.
    + congruence.
    + subst x. destruct Hne. by eapply NoDup_lookup; [apply HI| |].
  - intros k0 Hk0. rewrite arrivals_app, arrivals_one, H2, decide_False by (try done; apply lookup_lt_Some in Hk; rewrite Hs in Hk0; lia).
    done.
  - intros p0 [Hp|Hp%list_elem_of_singleton]%elem_of_app; [by apply H4|]. subst p0. rewrite Hs.
    by eapply list_elem_of_lookup_2.
Qed.

(** The first packet of an SSRC. *)
Lemma DInv_new ps c l i m p rt s' :
  DInv ps c l -> routines c !! i = Some (AcceptStream, AcRead) ->
  bySSRC (shared c) = Some m -> m !! SSRC (header p) = None ->
  let k := length (ssrcs (shared c)) in
  ssrcs s' = ssrcs (shared c) ++ [SSRC (header p)] -> capped s' ->
  bySSRC s' = Some (<[SSRC (header p) := k]> m) -> rmu s' = None ->
  DInv (ps ++ [p]) (withRoutine c s' i AcceptStream (AcReturn (inl k))) (l ++ [Arrived k p rt]).
Proof.
  intros [H1 H2 H3 H4 H5 H6 H7 H8 H9 H10 H11] Hi Hm Hnone k Hs Hcap Hb Hmu.
  assert (Hfresh : SSRC (header p) ∉ ssrcs (shared c)).
  { intros [j Hj]%list_elem_of_lookup. apply (H5 _ _ _ Hm) in Hj. congruence. }
  assert (Hret : forall j k0, returns (withRoutine c s' i AcceptStream (AcReturn (inl k))) j k0 <->
    (j = i /\ k0 = k) \/ (j <> i /\ returns c j k0)).
  { intros j k0. unfold returns. destruct (decide (i = j)) as [->|Hne].
    - erewrite withRoutine_here by done. naive_solver.
    - rewrite withRoutine_other by done. naive_solver. }
  assert (Hreti : forall k0, ~ returns c i k0) by (intros k0; unfold returns; by rewrite Hi).
  split; simpl.
  - intros k0 x. rewrite Hs, arrivals_app, arrivals_one, ofSSRC_snoc. intros [Hx|[Hx Hk]]%lookup_app_Some.
    + rewrite (H1 k0 x Hx). f_equal. apply lookup_lt_Some in Hx as Hlt. rewrite decide_False by lia.
      rewrite decide_False; [done|]. intros <-. by apply Hfresh, (list_elem_of_lookup_2 _ k0).
    + apply list_lookup_singleton_Some in Hk as [Hk <-]. rewrite !decide_True by lia.
      rewrite H2 by lia. rewrite ofSSRC_none; [done|]. intros p0 Hp0 E. apply Hfresh. rewrite <- E. by apply H4.
  - intros k0. rewrite Hs, length_app. simpl. intros Hk0.
    rewrite arrivals_app, arrivals_one, H2, decide_False by lia. done.
  - rewrite Hs. apply NoDup_app. split_and!; [done|set_solver|apply NoDup_singleton].
  - rewrite Hs. intros p0 [Hp|Hp%list_elem_of_singleton]%elem_of_app; [set_solver|]. subst p0. set_solver.
  - intros m' x k0. rewrite Hb, Hs. intros [= <-]. destruct (decide (SSRC (header p) = x)) as [<-|Hne].
    + rewrite lookup_insert_eq. split.
      * intros [= <-]. rewrite lookup_app_r, Nat.sub_diag by done. done.
      * intros [Hx|[Hx Hk]]%lookup_app_Some; [destruct Hfresh; by eapply list_elem_of_lookup_2|].
        apply list_lookup_singleton_Some in Hk as [Hk _]. f_equal. lia.
    + rewrite lookup_insert_ne, (H5 _ _ _ Hm) by done. split.
      * intros Hx. by apply lookup_app_l_Some.
      * intros [Hx|[Hx Hk]]%lookup_app_Some; [done|]. apply list_lookup_singleton_Some in Hk as [_ Hk]. done.
  - done.
  - intros j k0 t0 [(<- & [= -> ->] & _)|[Hne Hj]]%insert_cases2 Hh; [done|].
    destruct (H7 _ _ _ Hj Hh) as (_ & ? & _). destruct (H7 _ _ _ Hi eq_refl) as (_ & ? & _). congruence.
  - intros j k0 n w [(<- & [=] & _)|[_ Hj]]%insert_cases2. by eapply H8.
  - intros k0. rewrite Hs, length_app. simpl. intros Hk0. destruct (decide (k0 = k)) as [->|Hne].
    + exists i. apply Hret. by left.
    + destruct (H9 k0) as [j Hj]; [lia|]. exists j. apply Hret. right. split; [|done]. intros ->. by eapply Hreti.
  - intros j k0 [[_ ->]|[_ Hj]]%Hret; rewrite Hs, length_app; simpl; [lia|]. apply H10 in Hj. lia.
  - intros j1 j2 k0 [[-> ->]|[_ Hj1]]%Hret [[-> E]|[_ Hj2]]%Hret; try done.
    + apply H10 in Hj2. lia.
    + subst k0. apply H10 in Hj1. lia.
    + by eapply H11.
Qed.

Lemma write_known s i k r p s2 sig rt :
  streams s !! k = Some r -> write s k r p = (s2, sig, rt) ->
  match sig with
  | Some n => quiet s s2 i AcceptStream AcRead (AcSignal k n false) []
  | None => quiet s s2 i AcceptStream AcRead AcRead []
  end.
Proof.
  intros Hk Hw. apply write_spec in Hw. destruct (offer r) as [[h b]|].
  - destruct Hw as (s1 & n & Hcp & _ & -> & ->).
    apply copyPacket_spec in Hcp as (_ & Hs & Hmu & _ & Hb & _). apply ssrcs_same in Hs as H1. destruct H1 as [Hs1 Hs2].
    rewrite <- Hs in Hk. destruct (set_shrinks s1 k r (mkReadStream (ssrc r) (recv r) None) Hk) as [H1 H2]; [done|done|].
    split; simpl; try done; [congruence|tauto|by left|by left|]. by intros ? ? ? [= _ _ <-].
  - destruct Hw as (-> & r' & _ & Hss & _ & _ & Hcap & _ & _ & Hs2).
    assert (Hid : quiet s s i AcceptStream AcRead AcRead []) by (split; try done; by left).
    destruct Hs2 as [->|[_ ->]]; [|done]. split; simpl; try done; [by eapply ssrcs_set| |by left|by left].
    intros Hc. apply capped_set; [done|]. apply Hcap. by eapply capped_lookup.
Qed.

Lemma Net_DInv ps c l i (x : netRead) s' t' l' :
  DInv ps c l -> routines c !! i = Some (AcceptStream, AcRead) -> acceptOne (shared c) x = Some (s', t', l') ->
  DInv (ps ++ packets [Net i x]) (withRoutine c s' i AcceptStream t') (l ++ l').
Proof.
  intros HI Hi Ha. unfold packets. simpl. unfold acceptOne in Ha.
  assert (Hid : DInv (ps ++ []) (withRoutine c (shared c) i AcceptStream AcRead) (l ++ [])).
  { rewrite !app_nil_r. rewrite <- (app_nil_r l). eapply quiet_DInv; [done|done|]. split; try done; by left. }
  destruct x as [bs|err]; simpl.
  2: { injection Ha as <- <- <-. rewrite app_nil_r. eapply quiet_DInv; [done|done|].
       split; simpl; try done; [by left|]. by right; right. }
  destruct (MTUSize <? _); [by injection Ha as <- <- <-|].
  destruct (Unmarshal bs) as [p|]; [|by injection Ha as <- <- <-].
  destruct (bySSRC (shared c)) as [m|] eqn:Hm; simpl in Ha; [|done].
  unfold streamOf in Ha. destruct (m !! SSRC (header p)) as [k|] eqn:Hmk.
  - destruct (streams (shared c) !! k) as [r|] eqn:Hk; simpl in Ha; [|done].
    apply (d_map _ _ _ HI _ _ _ Hm) in Hmk.
    destruct (write (shared c) k r p) as [[s2 sig] rt] eqn:Hw. apply (write_known _ i _ _ _ _ _ _ Hk) in Hw.
    destruct sig as [n|]; injection Ha as <- <- <-; by eapply DInv_known.
  - simpl in Ha. rewrite lookup_app_r, Nat.sub_diag in Ha by done. simpl in Ha. injection Ha as <- <- <-.
    assert (Hlen : length (streams (shared c)) = length (ssrcs (shared c))) by (unfold ssrcs; by rewrite length_fmap).
    rewrite Hlen. eapply DInv_new; try done; unfold ssrcs, capped; simpl; rewrite length_fmap.
    + rewrite insert_app_r_alt, Nat.sub_diag by lia. simpl. by rewrite fmap_app.
    + rewrite insert_app_r_alt, Nat.sub_diag by lia. simpl. apply Forall_app. split; [apply HI|].
      repeat constructor.
Qed.

Lemma DInv_call ps c l kc : DInv ps c l -> DInv ps (withCall c kc) l.
Proof.
  intros [H1 H2 H3 H4 H5 H6 H7 H8 H9 H10 H11].
  assert (Hret : forall i k, returns (withCall c kc) i k <-> returns c i k).
  { intros i k. split; [|apply withCall_old]. intros [H|[_ He]]%snoc_cases; [done|]. by destruct kc. }
  split; try done.
  - intros i k t [Hi|[_ [= -> ->]]]%snoc_cases Ht; [by eapply H7|]. by destruct kc.
  - intros i k n w Hs. apply entry_no_signal in Hs. by eapply H8.
  - intros k Hk. destruct (H9 k Hk) as [i Hi]. exists i. by apply Hret.
  - intros i k Hi. eapply H10. by apply Hret.
  - intros i j k Hi Hj. eapply H11; by apply Hret.
Qed.

Lemma step_DInv ps x c c' l l' :
  DInv ps c l -> step x c = Some (c', l') -> DInv (ps ++ packets [x]) c' (l ++ l').
Proof.
  intros HI Hx. destruct x as [k|i|i|i r|i j|]; simpl in Hx.
  - destruct (callable (shared c) k); [|done]. injection Hx as <- <-. rewrite !app_nil_r. by apply DInv_call.
  - destruct (routines c !! i) as [[k t]|] eqn:Hi; simpl in Hx; [|done].
    destruct (advance (shared c) i k t) as [[[s' t'] l1]|] eqn:Ha; simpl in Hx; [|done].
    injection Hx as <- <-. rewrite app_nil_r. eapply quiet_DInv; [done|done|by apply advance_quiet].
  - destruct (routines c !! i) as [[k t]|] eqn:Hi; simpl in Hx; [|done].
    destruct (advanceClosed (shared c) k t) as [[[s' t'] l1]|] eqn:Ha; simpl in Hx; [|done].
    injection Hx as <- <-. rewrite app_nil_r. eapply quiet_DInv; [done|done|].
    apply MoveClosed_quiet; [|done]. intros k0 n w ->.
    destruct k; try done; [|unfold advanceClosed in Ha; by destruct (closed (shared c))..].
    by eapply (d_signal _ _ _ HI).
  - destruct (routines c !! i) as [[[] []]|] eqn:Hi; try done.
    destruct (acceptOne (shared c) r) as [[[s' t'] l1]|] eqn:Ha; simpl in Hx; [|done].
    injection Hx as <- <-. by apply (Net_DInv _ _ _ _ _ _ _ _ HI Hi Ha).
  - destruct (routines c !! i) as [[[] []]|] eqn:Hi; try done.
    destruct (routines c !! j) as [[[] []]|] eqn:Hj; try done.
    destruct notify; [|done]. destruct (decide _) as [->|]; [|done].
    pose proof (d_signal _ _ _ HI _ _ _ _ Hi) as ->. injection Hx as <- <-. rewrite !app_nil_r.
    assert (i <> j) as Hij by (intros ->; simplify_eq).
    pose proof (quiet_DInv _ _ _ _ _ _ _ _ _ HI Hi (accepted_quiet (shared c) i k n _ _ eq_refl)) as HI1.
    rewrite <- (app_nil_r l), <- (app_nil_r (l ++ [])).
    eapply (quiet_DInv _ _ _ j _ (RdWait true) (shared c) (RdDefer n None)) in HI1; [exact HI1| |by apply quiet_read].
    by rewrite withRoutine_other.
  - injection Hx as <- <-. rewrite !app_nil_r. by destruct HI.
Qed.

Lemma packets_cons x xs : packets (x :: xs) = packets [x] ++ packets xs.
Proof. unfold packets. simpl. by destruct (packetOf x). Qed.

Lemma run_DInv ps xs c c' l l' :
  DInv ps c l -> run xs c = Some (c', l') -> DInv (ps ++ packets xs) c' (l ++ l').
Proof.
  revert ps c l l'. induction xs as [|x xs IH]; intros ps c l l' HI Hr; simpl in Hr.
  - injection Hr as <- <-. by rewrite !app_nil_r.
  - destruct (step x c) as [[c1 l1]|] eqn:Hx; simpl in Hr; [|done].
    destruct (run xs c1) as [[c2 l2]|] eqn:Hr1; simpl in Hr; [|done]. injection Hr as <- <-.
    rewrite packets_cons, !app_assoc. eapply IH; [|done]. by eapply step_DInv.
Qed.

Lemma run_SInv xs c c' l l' :
  SInv c l -> politeRun Unmarshal xs c = true -> closed (shared c') = false -> run xs c = Some (c', l') -> SInv c' (l ++ l').
Proof.
  revert c l l'. induction xs as [|x xs IH]; intros c l l' HI Hpo Hcl Hr; simpl in Hr.
  - injection Hr as <- <-. by rewrite app_nil_r.
  - apply andb_true_iff in Hpo as [Hp Hpo].
    destruct (step x c) as [[c1 l1]|] eqn:Hx; simpl in Hr; [|done].
    destruct (run xs c1) as [[c2 l2]|] eqn:Hr1; simpl in Hr; [|done]. injection Hr as <- <-.
    assert (closed (shared c1) = false) as Hcl1.
    { destruct (closed (shared c1)) eqn:E; [|done]. exfalso. revert Hcl.
      enough (closed (shared c2) = true) by congruence. clear -Hr1 E. revert c1 l2 Hr1 E.
      induction xs as [|y ys IH]; intros c1 l2 Hr E; simpl in Hr; [by injection Hr as <- <-|].
      destruct (step y c1) as [[c3 l3]|] eqn:Hy; simpl in Hr; [|done].
      destruct (run ys c3) as [[c4 l4]|] eqn:Hr4; simpl in Hr; [|done]. injection Hr as <- <-.
      eapply IH; [done|]. by eapply step_closed. }
    rewrite app_assoc. eapply IH; [|done|done|done]. by eapply step_SInv.
Qed.

(** ** The theorems *)

Lemma Net_enabled ps c l i x :
  DInv ps c l -> routines c !! i = Some (AcceptStream, AcRead) ->
  exists c' l', step (Net i x) c = Some (c', l') /\
    forall k p, Arrived k p Dropped ∈ l' ->
      exists r, streams (shared c) !! k = Some r /\ length (recv r) = recvCap.
Proof.
  intros HI Hi. simpl. rewrite Hi.
  destruct (d_mutex _ _ _ HI _ _ _ Hi eq_refl) as (_ & _ & Hm).
  enough (exists y, acceptOne (shared c) x = Some y /\
    forall k p, Arrived k p Dropped ∈ y.2 -> exists r, streams (shared c) !! k = Some r /\ length (recv r) = recvCap)
    as ([[s t] l1] & -> & H) by (do 2 eexists; split; [done|exact H]).
  assert (Hnil : forall k p, Arrived k p Dropped ∈ ([] : list event) ->
    exists r, streams (shared c) !! k = Some r /\ length (recv r) = recvCap) by (intros k p Hp; by apply elem_of_nil in Hp).
  unfold acceptOne. destruct x as [bs|err]; [|by eexists]. destruct (MTUSize <? _); [by eexists|].
  destruct (Unmarshal bs) as [p|]; [|by eexists].
  destruct (bySSRC (shared c)) as [m|] eqn:Hb; [|done]. simpl. unfold streamOf.
  destruct (m !! SSRC (header p)) as [k|] eqn:Hmk.
  - apply (d_map _ _ _ HI _ _ _ Hb) in Hmk. unfold ssrcs in Hmk.
    rewrite list_lookup_fmap in Hmk. apply fmap_Some in Hmk as (r & Hk & _). rewrite Hk. simpl.
    destruct (write (shared c) k r p) as [[s2 sig] rt] eqn:Hw. apply write_spec in Hw.
    assert (Hd : forall k0 p0, Arrived k0 p0 Dropped ∈ [Arrived k p rt] ->
      exists r, streams (shared c) !! k0 = Some r /\ length (recv r) = recvCap).
    { intros k0 p0 [= -> -> <-]%list_elem_of_singleton. exists r. split; [done|].
      pose proof (capped_lookup _ _ _ (d_cap _ _ _ HI) Hk).
      destruct (offer r) as [[h b]|].
      - by destruct Hw as (_ & _ & _ & [=] & _).
      - destruct Hw as (_ & r' & _ & _ & _ & _ & _ & Hfull & _). specialize (Hfull eq_refl). lia. }
    destruct sig as [n|]; eexists; (split; [reflexivity|exact Hd]).
  - cbn [streams]. rewrite lookup_app_r, Nat.sub_diag by done. simpl. eexists. split; [reflexivity|].
    intros k0 p0 [=]%list_elem_of_singleton.
Qed.

(** C17: whatever the interleaving of accepting, reading and closing, and
    whatever the connection delivers, each stream receives exactly the packets of
    its SSRC, in their order, from the datagrams that are no longer than the MTU
    and parse; every SSRC seen has one stream, which exactly one call of
    AcceptStream returned; a queue never holds more than ten packets, and a
    packet is dropped only when its stream's queue is full. *)
Theorem accept_demux (h0 : nat -> Header) (b0 : nat -> list Z) (xs : list choice) (c : config) (l : list event)
    (Hr : run xs (start h0 b0) = Some (c, l)) :
  (forall k r, streams (shared c) !! k = Some r -> arrivals k l = ofSSRC (ssrc r) (packets xs)) /\
  NoDup (ssrcs (shared c)) /\
  (forall p, p ∈ packets xs -> SSRC (header p) ∈ ssrcs (shared c)) /\
  (forall k, (k < length (ssrcs (shared c)))%nat -> exists i, returns c i k /\ forall j, returns c j k -> i = j) /\
  capped (shared c) /\
  (forall i x, routines c !! i = Some (AcceptStream, AcRead) ->
    exists c' l', step (Net i x) c = Some (c', l') /\
      forall k p, Arrived k p Dropped ∈ l' ->
        exists r, streams (shared c) !! k = Some r /\ length (recv r) = recvCap).
Proof.
  pose proof (run_DInv [] xs _ _ [] _ (start_DInv h0 b0) Hr) as HI. simpl in HI.
  split; [|split; [|split; [|split; [|split]]]].
  - intros k r Hk. apply (d_arrivals _ _ _ HI). unfold ssrcs. by rewrite list_lookup_fmap, Hk.
  - apply HI.
  - apply HI.
  - intros k Hk. destruct (d_returned _ _ _ HI k Hk) as [i Hi]. exists i. split; [done|].
    intros j Hj. by eapply (d_once _ _ _ HI).
  - apply HI.
  - intros i x Hi. by eapply Net_enabled.
Qed.

Lemma taken_sublist k l : sublist (taken k l) (arrivals k l).
Proof.
  induction l as [|e l IH]; [done|]. unfold taken, arrivals in *. simpl.
  destruct e as [k' p []| |]; simpl; try case_decide; simpl; auto using sublist_skip, sublist_cons.
Qed.

Lemma phase_pending c k r pend :
  phase c k r pend -> (length pend <= 1)%nat /\
  ((forall j h b t, routines c !! j = Some (ReadRTP k h b, t) -> reading t = false) -> pend = []).
Proof.
  intros [Hn|j h b Hj|j h b Hj|j h b i p n w Hj|j h b p Hj|j h b p n Hj]; simpl; (split; [lia|]); intros Hno; try done;
    by apply Hno in Hj.
Qed.

(** C16: when the reads of a stream do not overlap, nor share a buffer with one
    under way, and the session is open, what they return is in order the packets
    that the stream took, with their headers and as much of the payload as there
    was room: none is lost, repeated or mixed up, whether it was copied through
    the queue or straight into the buffers of the waiting read.  At most one
    packet is in the hands of a read that has not returned, and the rest is in
    the queue. *)
Theorem reads_in_order (h0 : nat -> Header) (b0 : nat -> list Z) (xs : list choice) (c : config) (l : list event)
    (k : nat) (r : readStream)
    (Hr : run xs (start h0 b0) = Some (c, l)) (Hpolite : politeRun Unmarshal xs (start h0 b0) = true)
    (Hopen : closed (shared c) = false) (Hk : streams (shared c) !! k = Some r) :
  exists front pend, taken k l = front ++ pend ++ recv r /\ Forall2 shows (got k l) front /\
    sublist (taken k l) (arrivals k l) /\ (length pend <= 1)%nat /\
    ((forall j h b t, routines c !! j = Some (ReadRTP k h b, t) -> reading t = false) -> pend = []).
Proof.
  pose proof (run_SInv xs _ _ [] _ (start_SInv h0 b0) Hpolite Hopen Hr) as HI. simpl in HI.
  destruct (si_conserved _ _ HI _ _ Hk) as (front & pend & Hta & Hg & Hp).
  exists front, pend. apply phase_pending in Hp as [H1 H2].
  split_and!; [done|done|apply taken_sublist|done|done].
Qed.

End session.

(** ** A concrete connection

    A datagram is the payload of a packet of SSRC 7. *)
Definition hd7 : Header := mkHeader 2 false false 0 1 0 7.
Definition noHeader : Header := mkHeader 0 false false 0 0 0 0.
Definition parse7 (bs : list Z) : option Packet := Some (mkPacket hd7 bs).
Definition blank : config := start (fun _ => noHeader) (fun _ => [0; 0; 0]).

(** A stream is accepted; its first packet is read from the queue; the second
    goes straight to a waiting read. *)
Definition oneReader : list choice :=
  [Call AcceptStream; Move 0; Net 0 (Datagram [9]); Call (ReadRTP 0 0 0); Move 1; Move 1;
   Call AcceptStream; Move 2; Call (ReadRTP 0 0 0); Move 3; Net 2 (Datagram [5; 6]); Signal 2 3; Move 3].

Definition endOf (xs : list choice) : config :=
  match run parse7 xs blank with Some (c, _) => c | None => blank end.
Definition logOf (xs : list choice) : list event :=
  match run parse7 xs blank with Some (_, l) => l | None => [] end.

Lemma run_endOf xs : (if run parse7 xs blank then true else false) = true -> run parse7 xs blank = Some (endOf xs, logOf xs).
Proof. unfold endOf, logOf. by destruct (run parse7 xs blank) as [[c l]|]. Qed.

Lemma oneReader_run : run parse7 oneReader blank = Some (endOf oneReader, logOf oneReader).
Proof. apply run_endOf. vm_compute. reflexivity. Qed.

Lemma oneReader_log :
  logOf oneReader = [Arrived 0 (mkPacket hd7 [9]) Queued; Got 0 hd7 [9] 3;
                     Arrived 0 (mkPacket hd7 [5; 6]) Copied; Got 0 hd7 [5; 6] 3].
Proof. vm_compute. reflexivity. Qed.

Lemma oneReader_streams : streams (shared (endOf oneReader)) = [mkReadStream 7 [] None].
Proof. vm_compute. reflexivity. Qed.

Lemma accept_demux_witness :
  arrivals 0 (logOf oneReader) = ofSSRC 7 (packets parse7 oneReader) /\
  length (packets parse7 oneReader) = 2%nat.
Proof.
  split; [|reflexivity].
  destruct (accept_demux parse7 _ _ oneReader _ _ oneReader_run) as [H _].
  apply (H 0%nat (mkReadStream 7 [] None)). rewrite oneReader_streams. reflexivity.
Defined.

Lemma reads_in_order_witness :
  got 0 (logOf oneReader) = [(hd7, [9], 3%nat); (hd7, [5; 6], 3%nat)] /\
  exists front pend, taken 0 (logOf oneReader) = front ++ pend ++ [] /\
    Forall2 shows (got 0 (logOf oneReader)) front.
Proof.
  split; [rewrite oneReader_log; reflexivity|].
  destruct (reads_in_order parse7 _ _ oneReader _ _ 0 (mkReadStream 7 [] None) oneReader_run)
    as (front & pend & H1 & H2 & _).
  - vm_compute. reflexivity.
  - vm_compute. reflexivity.
  - rewrite oneReader_streams. reflexivity.
  - exists front, pend. split; [exact H1|exact H2].
Defined.

(** ** Reads that overlap

    The schedule of the comment in [ReadRTP]: goroutine A (3) has offered its
    buffers, the writer (2) copies a packet into them, goroutine B (4) offers its
    own, and receives the signal meant for A. *)
Definition twoReaders : list choice :=
  [Call AcceptStream; Move 0; Net 0 (Datagram [9]); Call (ReadRTP 0 0 0); Move 1; Move 1;
   Call AcceptStream; Move 2; Call (ReadRTP 0 1 1); Move 3; Net 2 (Datagram [5; 6]);
   Call (ReadRTP 0 2 2); Move 4; Signal 2 4; Move 4; Net 2 (Datagram [8]); Move 3; Move 3; Move 3].

(** With two reads of a stream at a time one may return without a packet:
    in this schedule goroutine B returns 2 and no error although neither its
    header nor its buffer was written, and the packet that arrived is lost: the
    next one overwrites it in the buffers of A, which never reported it. *)
Theorem overlapping_reads_race :
  let c := endOf twoReaders in
  routines c !! 4%nat = Some (ReadRTP 0 2 2, RdReturn 2 None) /\
  hdrs (shared c) 2%nat = noHeader /\ bufs (shared c) 2%nat = [0; 0; 0] /\
  taken 0 (logOf twoReaders) = [mkPacket hd7 [9]; mkPacket hd7 [5; 6]; mkPacket hd7 [8]] /\
  got 0 (logOf twoReaders) = [(hd7, [9], 3%nat); (noHeader, [0; 0], 3%nat); (hd7, [8], 3%nat)].
Proof. vm_compute. repeat split. Qed.

(** ** Writing *)

Section writing.
Context (MarshalSize : Header -> Z).
Context (MarshalTo : Header -> list Z + error).

(** pion: a header that encodes fills exactly the size it announced. *)
Hypothesis MarshalTo_size : forall h bs, MarshalTo h = inl bs -> zlen bs = MarshalSize h.
Hypothesis MarshalSize_pos : forall h, 0 <= MarshalSize h.

(** Packets written one after the other through the same buffer: what the
    connection is given. *)
Fixpoint writeAll (buf : list Z) (ps : list Packet) : outcome (list (list Z + error)) :=
  match ps with
  | [] => Ok []
  | p :: ps =>
      let! r := WriteRTP MarshalSize MarshalTo buf (header p) (Payload p) in
      let! rs := writeAll r.1 ps in
      Ok (r.2 :: rs)
  end.

Definition datagram (p : Packet) : list Z + error :=
  match MarshalTo (header p) with inl bs => inl (bs ++ Payload p) | inr e => inr e end.

Lemma WriteRTP_Ok buf p : exists buf', WriteRTP MarshalSize MarshalTo buf (header p) (Payload p) = Ok (buf', datagram p).
Proof.
  unfold WriteRTP, datagram. remember (MarshalSize (header p) + zlen (Payload p)) as sz eqn:Hsz.
  pose proof (MarshalSize_pos (header p)). pose proof (zlen_nonneg (Payload p)).
  assert (Hw : sz <= zlen (growTo buf sz)).
  { unfold growTo. case_if; [|done]. unfold zlen. rewrite length_replicate. lia. }
  rewrite go_slice_Ok by lia. simpl. destruct (MarshalTo (header p)) as [bs|e] eqn:Hm; [|by eexists].
  apply MarshalTo_size in Hm. rewrite go_copy_at_fits by lia. cbn [obind fst].
  set (w := take (Z.to_nat 0) _ ++ bs ++ _).
  assert (Hl : zlen w = zlen (growTo buf sz)).
  { unfold w. rewrite take_0. rewrite !zlen_app, zlen_drop by (unfold zlen in *; lia). change (zlen []) with 0. lia. }
  rewrite go_slice_Ok by lia. cbn [obind].
  set (x := take (Z.to_nat (sz - 0)) (drop (Z.to_nat 0) w)).
  assert (Hz : zlen x = sz) by (unfold x; rewrite drop_0; unfold zlen in *; rewrite length_take; lia).
  assert (Hx : take (Z.to_nat (zlen bs)) x = bs).
  { unfold x, w. rewrite drop_0, take_0, app_nil_l, take_take, take_app_le by (unfold zlen in *; lia).
    apply take_ge. unfold zlen in *. lia. }
  rewrite go_copy_at_fits by lia. cbn [obind fst snd]. eexists.
  rewrite Hx, (drop_ge x) by (unfold zlen in *; lia). by rewrite app_nil_r.
Qed.

(** What [WriteRTP] gives the connection is the encoded header followed by
    the payload, whatever the reused buffer held from earlier packets, longer or
    shorter; and nothing at all when the header does not encode. *)
Theorem written_datagrams (buf : list Z) (ps : list Packet) :
  writeAll buf ps = Ok (datagram <$> ps).
Proof.
  revert buf. induction ps as [|p ps IH]; intros buf; [done|]. cbn [writeAll].
  destruct (WriteRTP_Ok buf p) as [buf' ->]. cbn [obind fst snd]. by rewrite IH.
Qed.

End writing.

Lemma written_datagrams_witness :
  writeAll (fun _ => 2) (fun h => inl [SSRC h; SequenceNumber h]) []
    [mkPacket hd7 [4; 5; 6]; mkPacket hd7 [8]] =
  Ok [inl [7; 1; 4; 5; 6]; inl [7; 1; 8]].
Proof.
  apply (written_datagrams (fun _ => 2) (fun h => inl [SSRC h; SequenceNumber h])).
  - intros h bs H. injection H as <-. reflexivity.
  - intros h. lia.
Defined.
