(* ===== verification/Beep.v ===== *)
(** * Beep: the predictable resampler, [src/resampler_beep.go], [src/resample_beep.go]

    Which source samples each output sample is computed from, how the two
    buffers follow the source, and the positions and the interpolation in
    [float64]. *)

From Stdlib Require Import SpecFloat.
From stdpp Require Import base tactics numbers list.
From S2P Require Import Prelude GoFloat.

#[local] Open Scope go_scope.

(** ** [NewPCM16BufferReader] of [src/pcm.go]

    The writer of [src/resample_beep.go] reads from its own input in the same
    way: the state is what has not been read. *)
Definition ReadSample (data buf : list Z) : list Z * list Z * Z :=
  let '(data, n) := go_copy data buf in
  (data, drop (Z.to_nat n) buf, n).

(** ** The resampler *)

Record beepResampler : Type := mkBeep {
  quality : Z;          (* len(pts)/2 *)
  ratio : float;
  src : list Z;         (* what the reader still has *)
  first : bool;
  buf1 : list Z;
  buf2 : list Z;
  off : Z;
  pos : Z;
}.

Definition bufLen : Z := 512.

(** [make(PCM16Sample, 512)] *)
Definition freshBuf : list Z := replicate (Z.to_nat bufLen) 0.

Definition beepResampleRatio (q : Z) (rat : float) (s : list Z) : outcome beepResampler :=
  if (q <? 1) || (64 <? q) then Panic
  else if isInf rat || isNaN rat then Panic
  else Ok (mkBeep q rat s true freshBuf freshBuf 0 0).

Definition beepResample (q old new : Z) (s : list Z) : outcome beepResampler :=
  beepResampleRatio q (fdiv (ofInt old) (ofInt new)) s.

(** ** The interpolation *)

(** One basis polynomial at [x]: the loop over [m], where the points have the
    indices from [m] on and [pj] is the one of index [j]. *)
Fixpoint basis (pts : list (float * float)) (m j : nat) (pj : float * float) (x l : float) : float :=
  match pts with
  | [] => l
  | pm :: pts =>
      basis pts (S m) j pj x (if decide (j = m) then l else fmul l (fdiv (fsub x (fst pm)) (fsub (fst pj) (fst pm))))
  end.

(** [lagrange]: the loop over [j], of which the points [rest] are left. *)
Fixpoint lagrangeFrom (pts rest : list (float * float)) (j : nat) (x y : float) : float :=
  match rest with
  | [] => y
  | pj :: rest => lagrangeFrom pts rest (S j) x (fadd y (fmul (snd pj) (basis pts 0 j pj x (ofInt 1))))
  end.

Definition lagrange (pts : list (float * float)) (x : float) : float := lagrangeFrom pts pts 0 x (S754_zero false).

(** [point{float64(k), float64(y) / 0x7fff}] *)
Definition pointOf (p : Z * Z) : float * float := (ofInt (fst p), fdiv (ofInt (snd p)) (ofInt 32767)).

(** One pass of the loop over [r.pts] ends in one of three ways. *)
Inductive pass : Type :=
| Points (r : beepResampler) (pts : list (Z * Z))
| Again (r : beepResampler)      (* new data was loaded: [goto again] *)
| Drained (r : beepResampler).

(** [r.s.ReadSample(r.buf1)] *)
Definition load (r : beepResampler) : beepResampler * Z :=
  let '(b, s, sn) := ReadSample (buf1 r) (src r) in
  (mkBeep (quality r) (ratio r) s (first r) b (buf2 r) (off r) (pos r), sn).

(** The loop over [pi], of which [n] values are left; [j] is [int(j)]. *)
Fixpoint collect (n : nat) (pi j : Z) (r : beepResampler) (pts : list (Z * Z)) : outcome pass :=
  match n with
  | O => Ok (Points r pts)
  | S n =>
      let k := j + pi - quality r + 1 in
      if k <? off r then
        let! y := go_index (buf1 r) (zlen (buf1 r) + k - off r) in
        collect n (pi + 1) j r (pts ++ [(k, y)])
      else if k <? off r + zlen (buf2 r) then
        let! y := go_index (buf2 r) (k - off r) in
        collect n (pi + 1) j r (pts ++ [(k, y)])
      else
        let '(r, sn) := load r in
        if off r + zlen (buf2 r) + sn <=? j then Ok (Drained r)
        else if off r + zlen (buf2 r) + sn <=? k then
          collect n (pi + 1) j r (pts ++ [(k, 0)])
        else
          let! b := go_slice (buf1 r) 0 sn in
          Ok (Again (mkBeep (quality r) (ratio r) (src r) (first r) (buf2 r) b (off r + zlen (buf2 r)) (pos r)))
  end.

Section beep.
Context `{Conversions}.

(** [j := float64(r.pos) * r.ratio] *)
Definition position (r : beepResampler) : float := fmul (ofInt (pos r)) (ratio r).

(** [int16(lagrange(r.pts, j) * 0x7fff)] *)
Definition interp (pts : list (Z * Z)) (j : float) : Z := toInt16 (fmul (lagrange (pointOf <$> pts) j) (ofInt 32767)).

Definition SetRatio (rat : float) (r : beepResampler) : outcome beepResampler :=
  if isInf rat || isNaN rat then Panic
  else Ok (mkBeep (quality r) rat (src r) (first r) (buf1 r) (buf2 r) (off r) (toInt (fdiv (position r) rat))).

(** The passes for one output sample.  Each one that ends in [Again] takes
    samples from the source, so their number bounds the passes. *)
Fixpoint passes (fuel : nat) (r : beepResampler) : outcome pass :=
  match fuel with
  | O => Ok (Again r)
  | S fuel =>
      let! p := collect (Z.to_nat (2 * quality r)) 0 (toInt (position r)) r [] in
      match p with
      | Again r => passes fuel r
      | p => Ok p
      end
  end.

(** The loop over the [n] samples left; [None] stands for passes without end. *)
Fixpoint streamLoop (n : nat) (r : beepResampler) (out : list Z)
    : option (outcome (beepResampler * list Z * bool)) :=
  match n with
  | O => Some (Ok (r, out, true))
  | S n =>
      match passes (S (length (src r))) r with
      | Panic => Some Panic
      | Ok (Again _) => None
      | Ok (Drained r) => Some (Ok (r, out, 0 <? zlen out))
      | Ok (Points r pts) =>
          let y := interp pts (position r) in
          streamLoop n (mkBeep (quality r) (ratio r) (src r) (first r) (buf1 r) (buf2 r) (off r) (pos r + 1)) (out ++ [y])
      end
  end.

Definition firstFill (r : beepResampler) : outcome beepResampler :=
  if first r then
    let '(b, s, sn) := ReadSample (buf2 r) (src r) in
    let! b := go_slice b 0 sn in
    Ok (mkBeep (quality r) (ratio r) s false (buf1 r) b (off r) (pos r))
  else Ok r.

Definition Stream (n : nat) (r : beepResampler) : option (outcome (beepResampler * list Z * bool)) :=
  match firstFill r with
  | Panic => Some Panic
  | Ok r => streamLoop n r []
  end.

(** ** The whole buffer: [resampleBufferBeep] *)

Definition beepQuality : Z := 3.

(** The size of the output, also of [resampleWriterBeep.WriteSample]. *)
Definition outSize (srcRate dstRate len : Z) : outcome Z :=
  if dstRate <? srcRate then
    let! div := go_quot srcRate dstRate in
    go_quot len div
  else
    let! mul := go_quot dstRate srcRate in
    Ok (len * mul).

Definition resampleBufferBeep (dst : list Z) (dstSampleRate : Z) (s : list Z) (srcSampleRate : Z)
    : option (outcome (list Z)) :=
  match beepResample beepQuality srcSampleRate dstSampleRate s, outSize srcSampleRate dstSampleRate (zlen s) with
  | Ok r, Ok sz =>
      match Stream (Z.to_nat sz) r with
      | Some (Ok (_, out, _)) => Some (Ok (dst ++ out))
      | Some Panic => Some Panic
      | None => None
      end
  | _, _ => Some Panic
  end.

(** ** The streaming writer: [resampleWriterBeep]

    Its state is the resampler, whose reader is the writer's own [inbuf]. *)
Record resampleWriterBeep : Type := mkBeepWriter {
  inner : beepResampler;
  srcRate : Z;
  dstRate : Z;
}.

Definition newResampleWriterBeep (wRate sampleRate : Z) : outcome resampleWriterBeep :=
  let! r := beepResample beepQuality sampleRate wRate [] in
  Ok (mkBeepWriter r sampleRate wRate).

(** The writer and the frame that goes to the underlying writer. *)
Definition beepWriteSample (data : list Z) (w : resampleWriterBeep) : option (outcome (resampleWriterBeep * list Z)) :=
  let r := inner w in
  let r := mkBeep (quality r) (ratio r) (src r ++ data) (first r) (buf1 r) (buf2 r) (off r) (pos r) in
  match outSize (srcRate w) (dstRate w) (zlen data) with
  | Panic => Some Panic
  | Ok sz =>
      match Stream (Z.to_nat sz) r with
      | Some (Ok (r, out, _)) => Some (Ok (mkBeepWriter r (srcRate w) (dstRate w), out))
      | Some Panic => Some Panic
      | None => None
      end
  end.

(** Frames written one after the other. *)
Fixpoint beepWriteAll (frames : list (list Z)) (w : resampleWriterBeep) : option (outcome (list (list Z))) :=
  match frames with
  | [] => Some (Ok [])
  | f :: frames =>
      match beepWriteSample f w with
      | Some (Ok (w, out)) =>
          match beepWriteAll frames w with
          | Some (Ok outs) => Some (Ok (out :: outs))
          | e => e
          end
      | Some Panic => Some Panic
      | None => None
      end
  end.

End beep.
