(* ===== verification/BeepProps.v ===== *)
(** * BeepProps: what the predictable resampler computes, and when it panics *)

From stdpp Require Import base tactics numbers list.
From S2P Require Import Prelude GoFloat Beep.

#[local] Open Scope go_scope.

(** ** The reference: a source that is all there *)

(** The source sample at an index, zero before the start and after the end. *)
Definition sampleAt (s : list Z) (k : Z) : Z := if k <? 0 then 0 else default 0 (s !! Z.to_nat k).

(** The points around source position [j]. *)
Definition refPoints (q : Z) (s : list Z) (j : Z) : list (Z * Z) :=
  (fun pi => (j + pi - q + 1, sampleAt s (j + pi - q + 1))) <$> seqZ 0 (2 * q).

Section reference.
Context `{Conversions} (rat : float).

(** The position in the source of output sample [p], and its integer part. *)
Definition place (p : Z) : float := fmul (ofInt p) rat.
Definition intJ (p : Z) : Z := toInt (place p).

(** At most [n] output samples from [p] on, as long as the position is within
    the source. *)
Fixpoint reference (q : Z) (s : list Z) (n : nat) (p : Z) : list Z :=
  match n with
  | O => []
  | S n => if zlen s <=? intJ p then [] else interp (refPoints q s (intJ p)) (place p) :: reference q s n (p + 1)
  end.

(** ** The buffers follow the source *)

Context (q D P : Z) (s : list Z).

(** [D] bounds how far the source position moves per output sample, over the
    first [P] of them. *)
Definition minLen : Z := Z.max (2 * q - 1) D.

Hypothesis q_pos : 1 <= q.
Hypothesis minLen_buf : minLen <= bufLen.
Hypothesis D_pos : 1 <= D.
Hypothesis intJ_0 : intJ 0 = 0.
Hypothesis intJ_step : forall p, 0 <= p < P -> 0 <= intJ (p + 1) - intJ p <= D.

Definition loaded (r : beepResampler) : Z := off r + zlen (buf2 r).

(** [b] holds the samples from index [from] on. *)
Definition holds (b : list Z) (from : Z) : Prop :=
  forall i, (i < length b)%nat -> b !! i = Some (sampleAt s (from + Z.of_nat i)).

Record follows (r : beepResampler) : Prop := {
  fo_quality : quality r = q;
  fo_ratio : ratio r = rat;
  fo_off : 0 <= off r;
  fo_pos : 0 <= pos r;
  fo_src : src r = drop (Z.to_nat (loaded r)) s;
  fo_loaded : loaded r <= zlen s;
  fo_buf1 : holds (buf1 r) (off r - zlen (buf1 r));
  fo_buf2 : holds (buf2 r) (off r);
  fo_sizes : src r <> [] -> minLen <= zlen (buf1 r) /\ minLen <= zlen (buf2 r);
  fo_window : off r - zlen (buf1 r) <= intJ (pos r) - q + 1;
  fo_near : src r = [] \/ intJ (pos r) < loaded r + D;
}.

Lemma follows_place r : follows r -> position r = place (pos r).
Proof. intros Hf. unfold position, place. by rewrite (fo_ratio _ Hf). Qed.

Lemma follows_index1 r k :
  follows r -> off r - zlen (buf1 r) <= k < off r ->
  go_index (buf1 r) (zlen (buf1 r) + k - off r) = Ok (sampleAt s k).
Proof.
  intros Hf Hk. apply go_index_Ok; [lia|]. rewrite (fo_buf1 _ Hf) by (unfold zlen in *; lia).
  do 2 f_equal. lia.
Qed.

Lemma follows_index2 r k :
  follows r -> off r <= k < loaded r -> go_index (buf2 r) (k - off r) = Ok (sampleAt s k).
Proof.
  unfold loaded. intros Hf Hk. apply go_index_Ok; [lia|]. rewrite (fo_buf2 _ Hf) by (unfold zlen in *; lia).
  do 2 f_equal. lia.
Qed.

(** A read from a reader that is empty changes nothing. *)
Lemma load_empty r : src r = [] -> load r = (r, 0).
Proof.
  intros Hs. unfold load, ReadSample, go_copy. rewrite Hs. simpl. rewrite Nat.min_0_r. simpl.
  rewrite drop_0. destruct r. simpl in *. by subst.
Qed.

Lemma ReadSample_spec (data buf : list Z) :
  let n := Z.of_nat (Nat.min (length data) (length buf)) in
  exists b, ReadSample data buf = (b, drop (Z.to_nat n) buf, n) /\ go_slice b 0 n = Ok (take (Z.to_nat n) buf).
Proof.
  intros n. unfold ReadSample, go_copy. eexists. split; [reflexivity|].
  unfold n. rewrite go_slice_Ok.
  - rewrite Z.sub_0_r, Nat2Z.id, drop_0, take_app_le by (rewrite length_take; lia).
    by rewrite take_take, Nat.min_id.
  - lia.
  - rewrite zlen_app. unfold zlen. rewrite length_take, length_drop. lia.
Qed.

Lemma load_spec r :
  let sn := Z.of_nat (Nat.min (length (buf1 r)) (length (src r))) in
  exists b, load r = (mkBeep (quality r) (ratio r) (drop (Z.to_nat sn) (src r)) (first r) b (buf2 r) (off r) (pos r), sn) /\
    go_slice b 0 sn = Ok (take (Z.to_nat sn) (src r)).
Proof.
  intros sn. unfold load. destruct (ReadSample_spec (buf1 r) (src r)) as (b & -> & Hb). eauto.
Qed.

Lemma length_drop_s r : follows r -> Z.of_nat (length (src r)) = zlen s - loaded r.
Proof.
  intros Hf. rewrite (fo_src _ Hf), length_drop. pose proof (fo_loaded _ Hf). pose proof (fo_off _ Hf).
  unfold loaded, zlen in *. lia.
Qed.

Lemma holds_take n from : 0 <= from -> holds (take n (drop (Z.to_nat from) s)) from.
Proof.
  intros Hf i Hi. rewrite length_take, length_drop in Hi. rewrite lookup_take_lt, lookup_drop by lia.
  unfold sampleAt. case_if; [lia|].
  destruct (lookup_lt_is_Some_2 s (Z.to_nat from + i)) as [x Hx]; [lia|].
  rewrite Hx. replace (Z.to_nat (from + Z.of_nat i)) with (Z.to_nat from + i)%nat by lia. by rewrite Hx.
Qed.

(** New data is loaded and the buffers are swapped. *)
Lemma follows_swap r k :
  follows r -> src r <> [] -> loaded r <= k <= intJ (pos r) + q ->
  let sn := Z.of_nat (Nat.min (length (buf1 r)) (length (src r))) in
  follows (mkBeep (quality r) (ratio r) (drop (Z.to_nat sn) (src r)) (first r) (buf2 r)
             (take (Z.to_nat sn) (src r)) (loaded r) (pos r)) /\
  (length (drop (Z.to_nat sn) (src r)) < length (src r))%nat.
Proof.
  intros Hf Hs Hk sn. pose proof (length_drop_s _ Hf) as Hlen.
  destruct (fo_sizes _ Hf Hs) as [H1 H2].
  assert (Hl : loaded r = off r + zlen (buf2 r)) by done.
  pose proof (zlen_nonneg (buf2 r)). pose proof (fo_off _ Hf).
  assert (Hpos : (0 < length (src r))%nat) by (destruct (src r); [done|simpl; lia]).
  assert (Hmin : 2 * q - 1 <= minLen /\ D <= minLen) by (unfold minLen; lia).
  assert (Htk : zlen (take (Z.to_nat sn) (src r)) = sn) by (unfold zlen; rewrite length_take; lia).
  split; [|rewrite length_drop; unfold zlen in *; lia].
  split; simpl; unfold loaded; simpl; rewrite ?Htk, <- ?Hl.
  - apply Hf.
  - apply Hf.
  - lia.
  - apply Hf.
  - rewrite (fo_src _ Hf), drop_drop. f_equal. lia.
  - unfold sn. lia.
  - replace (loaded r - zlen (buf2 r)) with (off r) by lia. apply Hf.
  - rewrite (fo_src _ Hf). apply holds_take. lia.
  - intros Hne. split; [done|].
    assert (~ (length (src r) <= Z.to_nat sn)%nat) by (intros Hge; by rewrite drop_ge in Hne).
    unfold sn, zlen in *. lia.
  - lia.
  - right. destruct (fo_near _ Hf); [done|]. lia.
Qed.

(** ** One pass *)

Definition pointsFrom (pi j : Z) (n : nat) : list (Z * Z) :=
  (fun pi => (j + pi - q + 1, sampleAt s (j + pi - q + 1))) <$> seqZ pi (Z.of_nat n).

Lemma pointsFrom_S pi j n :
  pointsFrom pi j (S n) = (j + pi - q + 1, sampleAt s (j + pi - q + 1)) :: pointsFrom (pi + 1) j n.
Proof. unfold pointsFrom. rewrite seqZ_cons by lia. simpl. do 3 f_equal; lia. Qed.

Lemma sampleAt_beyond k : zlen s <= k -> sampleAt s k = 0.
Proof.
  intros Hk. unfold sampleAt. case_if; [done|].
  rewrite lookup_ge_None_2; [done|]. unfold zlen in Hk. lia.
Qed.

Definition passOk (r : beepResampler) (pts : list (Z * Z)) (p : pass) : Prop :=
  match p with
  | Points r' pts' => follows r' /\ pos r' = pos r /\ pts' = pts /\ intJ (pos r) < loaded r'
  | Again r' => follows r' /\ pos r' = pos r /\ (length (src r') < length (src r))%nat
  | Drained _ => zlen s <= intJ (pos r)
  end.

Lemma collect_spec n pi r pts :
  follows r -> 0 <= pi -> pi + Z.of_nat n = 2 * q ->
  (src r = [] \/ intJ (pos r) + pi - q + 1 <= loaded r \/ pi = 0) ->
  (q - 1 < pi -> intJ (pos r) < loaded r) ->
  exists p, collect n pi (intJ (pos r)) r pts = Ok p /\
    passOk r (pts ++ pointsFrom pi (intJ (pos r)) n) p.
Proof.
  revert pi pts. induction n as [|n IH]; intros pi pts Hf Hpi Hn Hk Hj; cbn [collect].
  - eexists. split; [done|]. unfold pointsFrom, seqZ. simpl. rewrite app_nil_r. split_and!; try done. apply Hj. lia.
  - set (j := intJ (pos r)) in *. rewrite pointsFrom_S.
    rewrite (fo_quality _ Hf). set (k := j + pi - q + 1) in *.
    replace (pts ++ (k, sampleAt s k) :: pointsFrom (pi + 1) j n)
      with ((pts ++ [(k, sampleAt s k)]) ++ pointsFrom (pi + 1) j n) by (by rewrite <- app_assoc).
    assert (Hke : k = j + pi - q + 1) by done.
    pose proof (fo_window _ Hf) as Hwin. fold j in Hwin. pose proof (zlen_nonneg (buf2 r)).
    assert (Hld : loaded r = off r + zlen (buf2 r)) by done.
    destruct (k <? off r) eqn:E1; bool_cases.
    { rewrite (follows_index1 _ _ Hf) by lia. cbn [obind]. apply IH; [done|lia|lia|right; left; lia|lia]. }
    rewrite <- Hld. destruct (k <? loaded r) eqn:E2; bool_cases.
    { rewrite (follows_index2 _ _ Hf) by lia. cbn [obind]. apply IH; [done|lia|lia|right; left; lia|lia]. }
    pose proof (length_drop_s _ Hf) as Hlen.
    destruct (decide (src r = [])) as [Hs|Hs].
    + rewrite load_empty by done. rewrite <- Hld. rewrite Hs in Hlen. simpl in Hlen. rewrite Z.add_0_r.
      case_if; [eexists; split; [done|]; simpl; fold j; lia|]. case_if; [|lia].
      rewrite (sampleAt_beyond k) by lia. apply IH; [done|lia|lia|by left|lia].
    + destruct (load_spec r) as (b & -> & Hsl).
      set (sn := Z.of_nat (Nat.min (length (buf1 r)) (length (src r)))) in *. cbn [off buf2 buf1]. rewrite <- Hld.
      destruct (fo_sizes _ Hf Hs) as [H1 H2].
      assert (Hmin : 1 <= minLen /\ D <= minLen) by (unfold minLen; lia).
      assert (0 < sn) by (unfold sn; destruct (src r); [done|]; unfold zlen in *; simpl; lia).
      case_if.
      { eexists. split; [done|]. simpl. fold j. destruct (fo_near _ Hf) as [?|Hnear]; [done|]. fold j in Hnear.
        unfold sn, zlen in *. lia. }
      destruct Hk as [?|Hk]; [done|].
      case_if; [lia|]. cbn [buf1]. rewrite Hsl. cbn [obind]. eexists. split; [done|]. simpl.
      destruct (follows_swap r k Hf Hs) as [Hf' Hl']; [fold j; lia|]. fold sn in Hf', Hl'.
      split_and!; [exact Hf'|done|exact Hl'].
Qed.

Lemma passes_spec fuel r :
  follows r -> (length (src r) < fuel)%nat ->
  exists p, passes fuel r = Ok p /\
    match p with
    | Points r' pts => follows r' /\ pos r' = pos r /\ pts = refPoints q s (intJ (pos r)) /\ intJ (pos r) < loaded r'
    | Again _ => False
    | Drained _ => zlen s <= intJ (pos r)
    end.
Proof.
  revert r. induction fuel as [|fuel IH]; intros r Hf Hl; [lia|]. cbn [passes].
  rewrite (follows_place r Hf). fold (intJ (pos r)).
  destruct (collect_spec (Z.to_nat (2 * quality r)) 0 r [] Hf) as (p & -> & Hp).
  - done.
  - rewrite (fo_quality _ Hf). lia.
  - by right; right.
  - lia.
  - cbn [obind]. destruct p as [r' pts|r'|r'].
    + eexists. split; [done|]. destruct Hp as (H1 & H2 & -> & H3). split_and!; try done.
      unfold refPoints, pointsFrom. simpl. rewrite (fo_quality _ Hf). do 2 f_equal. lia.
    + destruct Hp as (H1 & H2 & H3). destruct (IH r' H1) as (p & -> & Hp); [lia|].
      exists p. split; [done|]. by rewrite H2 in Hp.
    + eexists. split; [done|]. done.
Qed.

Lemma follows_next r :
  follows r -> pos r < P -> intJ (pos r) < loaded r ->
  follows (mkBeep (quality r) (ratio r) (src r) (first r) (buf1 r) (buf2 r) (off r) (pos r + 1)).
Proof.
  intros [] HP Hj. pose proof (intJ_step (pos r) (conj fo_pos0 HP)). split; simpl; try done; [lia|lia|].
  right. unfold loaded in *. simpl. lia.
Qed.

Lemma streamLoop_spec n r out :
  follows r -> pos r + Z.of_nat n <= P ->
  exists r' ok, streamLoop n r out = Some (Ok (r', out ++ reference q s n (pos r), ok)).
Proof.
  revert r out. induction n as [|n IH]; intros r out Hf HP; cbn [streamLoop reference].
  - rewrite app_nil_r. eauto.
  - destruct (passes_spec (S (length (src r))) r Hf) as (p & -> & Hp); [lia|].
    destruct p as [r' pts|r'|r']; [|done|].
    + destruct Hp as (Hf' & Hpos & -> & Hj). rewrite (follows_place r' Hf'). replace (place (pos r')) with (place (pos r)) by (by rewrite Hpos). pose proof (fo_loaded _ Hf'). case_if; [lia|].
      destruct (IH (mkBeep (quality r') (ratio r') (src r') (first r') (buf1 r') (buf2 r') (off r') (pos r' + 1))
        (out ++ [interp (refPoints q s (intJ (pos r))) (place (pos r))])) as (r2 & ok & ->).
      { apply follows_next; [done| |]; rewrite Hpos; [lia|done]. }
      { simpl. lia. }
      rewrite <- app_assoc. cbn [pos]. rewrite Hpos. eauto.
    + case_if; [|lia]. rewrite app_nil_r. eauto.
Qed.

Lemma firstFill_follows r :
  beepResampleRatio q rat s = Ok r -> exists r', firstFill r = Ok r' /\ follows r' /\ pos r' = 0.
Proof.
  unfold beepResampleRatio. destruct (_ || _); [done|]. destruct (_ || _); [done|]. intros [= <-]. unfold firstFill. cbn [first src buf2].
  destruct (ReadSample_spec freshBuf s) as (b & -> & Hsl).
  rewrite Hsl. cbn [obind quality off pos buf1]. eexists. split; [done|]. split; [|done].
  set (n := Nat.min (length freshBuf) (length s)). rewrite Nat2Z.id.
  assert (Hz : zlen freshBuf = 512) by done.
  assert (Hn : Z.of_nat n = Z.min 512 (zlen s)) by (unfold n; unfold zlen in *; lia).
  assert (Htk : zlen (take n s) = Z.of_nat n) by (unfold zlen; rewrite length_take; lia).
  assert (Hmin : 2 * q - 1 <= minLen) by (unfold minLen; lia).
  assert (bufLen = 512) as Hb by done. rewrite Hb in minLen_buf.
  split; simpl; unfold loaded; simpl; rewrite ?Htk, ?intJ_0; try lia; try done.
  - by rewrite Z.add_0_l, Nat2Z.id.
  - rewrite Hz. intros i Hi. unfold freshBuf in *. rewrite length_replicate in Hi. rewrite lookup_replicate_2 by done.
    unfold sampleAt. case_if; [done|]. rewrite Hb in Hi. lia.
  - apply (holds_take n 0). done.
  - intros Hne. rewrite Hz. split; [done|].
    assert (~ (length s <= n)%nat) by (intros Hge; by rewrite drop_ge in Hne). unfold zlen in Hn. lia.
Qed.

Lemma Stream_spec n r :
  Z.of_nat n <= P ->
  beepResampleRatio q rat s = Ok r ->
  exists r' ok, Stream n r = Some (Ok (r', reference q s n 0, ok)).
Proof.
  intros HP Hr. destruct (firstFill_follows r Hr) as (r1 & H1 & Hf & Hp). unfold Stream. rewrite H1, <- Hp.
  apply (streamLoop_spec n r1 []); [done|lia].
Qed.

End reference.


(** ** The positions between two rates *)

Lemma outSize_spec s d len : 0 < s -> 0 < d -> 0 <= len ->
  exists sz, outSize s d len = Ok sz /\ 0 <= sz /\ sz * s <= 2 * len * d.
Proof.
  intros Hs Hd Hlen. unfold outSize, go_quot. case_if; (case_if; [lia|]); cbn [obind].
  - assert (1 <= s / d /\ s < (s / d + 1) * d) as [H1 H2].
    { split; [apply Z.div_le_lower_bound; lia|]. pose proof (Z.mod_pos_bound s d). pose proof (Z.div_mod s d). nia. }
    rewrite !Z.quot_div_nonneg by lia. case_if; [lia|]. eexists. split; [done|]. generalize dependent (s / d). intros D _ H1 H2.
    pose proof (Z.mul_div_le len D). pose proof (Z.div_pos len D). split; [lia|]. nia.
  - rewrite Z.quot_div_nonneg by lia. eexists. split; [done|]. pose proof (Z.mul_div_le d s). pose proof (Z.div_pos d s). nia.
Qed.

Lemma ratio_below s d R W : 1 <= s <= 2 ^ 18 -> 1 <= d <= 2 ^ 18 -> 0 < W ->
  2 ^ 53 * Z.abs (R * d - s * W) <= s * W -> 2 ^ 19 * R <= 2 ^ 19 * (s / d + 1) * W - W.
Proof.
  intros Hs Hd HW HR. assert (s + 1 <= (s / d + 1) * d) as HQ.
  { pose proof (Z.mod_pos_bound s d). pose proof (Z.div_mod s d). nia. }
  generalize dependent (s / d). intros Q HQ.
  assert (2 ^ 53 * (R * d) <= (2 ^ 53 + 1) * (s * W)) as H1 by lia. clear HR.
  assert ((s + 1) * W <= (Q + 1) * d * W) as H2 by (apply Z.mul_le_mono_nonneg_r; lia).
  assert (s * W <= 2 ^ 18 * W) as H3 by (apply Z.mul_le_mono_nonneg_r; lia).
  assert (d * W <= 2 ^ 18 * W) as H4 by (apply Z.mul_le_mono_nonneg_r; lia).
  apply (Z.mul_le_mono_pos_r _ _ (2 ^ 34 * d)); [lia|].
  replace (2 ^ 19 * R * (2 ^ 34 * d)) with (2 ^ 53 * (R * d)) by ring.
  replace ((2 ^ 19 * (Q + 1) * W - W) * (2 ^ 34 * d)) with (2 ^ 53 * ((Q + 1) * d * W) - 2 ^ 34 * (d * W)) by ring.
  rewrite Z.mul_add_distr_r in H2.
  generalize dependent (R * d). generalize dependent ((Q + 1) * d * W). generalize dependent (s * W). generalize dependent (d * W).
  clear - HW. lia.
Qed.

Section places.
Context `{Conversions} (srcRate dstRate : Z).
Hypothesis src_range : 1 <= srcRate <= 2 ^ 18.
Hypothesis dst_range : 1 <= dstRate <= 2 ^ 18.

Let rat : float := fdiv (ofInt srcRate) (ofInt dstRate).

Lemma ratio_units : exists m e, normal rat m e /\ -110 <= e <= 110 /\
  2 ^ 53 * Z.abs (units m e * dstRate - srcRate * one) <= srcRate * one.
Proof.
  destruct (ofInt_units srcRate) as (m1 & e1 & Hs & He1 & Hu1); [lia|].
  destruct (ofInt_units dstRate) as (m2 & e2 & Hd & He2 & Hu2); [lia|].
  destruct (fdiv_units _ _ _ _ _ _ Hs Hd) as (m & e & Hf & He & Herr); [lia..|].
  exists m, e. split_and!; [done|lia..|]. rewrite Hu1, Hu2 in Herr. pose proof one_pos.
  replace (units m e * (dstRate * one) - srcRate * one * one) with ((units m e * dstRate - srcRate * one) * one) in Herr by ring.
  rewrite Z.abs_mul, (Z.abs_eq one), Z.mul_assoc in Herr by lia. by apply Z.mul_le_mono_pos_r in Herr.
Qed.

(** The position of an output sample, in units, for a ratio of [R] units. *)
Lemma place_units R p : (exists m e, normal rat m e /\ -110 <= e <= 110 /\ units m e = R) -> 0 <= p < 2 ^ 53 ->
  exists V, truncated (place rat p) = Some (V / one) /\ 0 <= V /\ 2 ^ 53 * Z.abs (V - p * R) <= p * R.
Proof.
  intros (m & e & Hr & He & HR) Hp. destruct (decide (p = 0)) as [->|Hne].
  - destruct Hr as (q & Hq & _). exists 0. unfold place. rewrite Hq. by split_and!.
  - destruct (ofInt_units p) as (m1 & e1 & Hs & He1 & Hu1); [lia|].
    destruct (fmul_units _ _ _ _ _ _ Hs Hr) as (m2 & e2 & Hf & He2 & Herr); [lia..|].
    destruct (truncated_units _ _ _ Hf) as [Ht Hpos]; [lia|]. exists (units m2 e2). split_and!; [done|lia|].
    rewrite Hu1, HR in Herr. pose proof one_pos.
    replace (units m2 e2 * one - p * one * R) with ((units m2 e2 - p * R) * one) in Herr by ring.
    rewrite Z.abs_mul, (Z.abs_eq one), Z.mul_assoc in Herr by lia.
    replace (p * one * R) with (p * R * one) in Herr by ring. by apply Z.mul_le_mono_pos_r in Herr.
Qed.

Lemma intJ_units p V : truncated (place rat p) = Some (V / one) -> 0 <= V <= 2 ^ 34 * one -> intJ rat p = V / one.
Proof.
  intros Ht HV. pose proof one_pos. apply convert_fits; [done|].
  assert (V / one <= 2 ^ 34) by (apply Z.div_le_upper_bound; lia). pose proof (Z.div_pos V one). lia.
Qed.

(** In a source of less than [2^31] samples the positions never go back, and
    advance by at most one more than the whole part of the ratio. *)
Lemma places_advance p len : 0 <= p -> 0 <= len < 2 ^ 31 -> (p + 1) * srcRate <= 2 * len * dstRate ->
  0 <= intJ rat (p + 1) - intJ rat p <= srcRate / dstRate + 1.
Proof.
  intros Hp Hlen Hn. pose proof one_pos as Hone. destruct ratio_units as (m & e & Hr & He & HR).
  set (R := units m e) in *. assert (exists m e, normal rat m e /\ -110 <= e <= 110 /\ units m e = R) as HRe by (by exists m, e).
  assert (p + 1 <= 2 ^ 50) as Hp50 by nia.
  destruct (place_units R p HRe) as (V & Ht & HV & Herr); [lia|].
  destruct (place_units R (p + 1) HRe) as (V' & Ht' & HV' & Herr'); [lia|].
  assert (2 ^ 19 * R >= one) as Hlow by nia.
  assert ((p + 1) * R <= 2 ^ 33 * one) as Hup.
  { apply (Z.mul_le_mono_pos_r _ _ dstRate); [lia|]. transitivity (2 * one * ((p + 1) * srcRate)); [|nia]. nia. }
  pose proof (ratio_below srcRate dstRate R one src_range dst_range Hone HR) as Hhigh.
  assert (p * R <= (p + 1) * R) as Hmono by nia.
  assert (V' <= V + (srcRate / dstRate + 1) * one /\ V <= V' /\ V' <= 2 ^ 34 * one) as (H1 & H2 & H3) by lia.
  rewrite (intJ_units _ V'), (intJ_units _ V) by (done || lia).
  apply (Z.div_le_mono _ _ one) in H1; [|done]. apply (Z.div_le_mono _ _ one) in H2; [|done].
  rewrite Z.div_add in H1 by done. lia.
Qed.

End places.

(** C36: resampling a whole buffer with the predictable resampler, between rates
    up to 262144 Hz of which the source is at most 511 times the destination, never
    panics and never loops, and appends to the destination what a resampler with
    the whole source at hand computes: for each position up to the wanted size the
    interpolation, in float64, of the six source samples around it, zeros standing
    for the samples before the start and after the end, until the position leaves
    the source.  The two buffers of 512 samples that are filled and swapped along
    the way do not show. *)
Theorem beep_buffer_is_reference `{Conversions} (dst s : list Z) (dstRate srcRate : Z)
    (Hsrc : 1 <= srcRate <= 2 ^ 18) (Hdst : 1 <= dstRate <= 2 ^ 18) (Hratio : srcRate / dstRate <= 511)
    (Hlen : zlen s < 2 ^ 31) :
  exists sz, outSize srcRate dstRate (zlen s) = Ok sz /\
    resampleBufferBeep dst dstRate s srcRate =
    Some (Ok (dst ++ reference (fdiv (ofInt srcRate) (ofInt dstRate)) 3 s (Z.to_nat sz) 0)).
Proof.
  destruct (outSize_spec srcRate dstRate (zlen s)) as (sz & Hsz & Hbound); [lia|lia|apply zlen_nonneg|].
  exists sz. split; [done|]. unfold resampleBufferBeep, beepResample. rewrite Hsz.
  destruct (ratio_units srcRate dstRate Hsrc Hdst) as (m & e & (p & Hr & _) & _ & _).
  destruct (beepResampleRatio beepQuality (fdiv (ofInt srcRate) (ofInt dstRate)) s) as [r|] eqn:Hb; [|by rewrite Hr in Hb].
  destruct (Stream_spec (fdiv (ofInt srcRate) (ofInt dstRate)) 3 (srcRate / dstRate + 1) sz s) with (n := Z.to_nat sz) (r := r)
    as (r' & ok & ->); [lia| | | | |lia|done|done].
  - pose proof (Z.div_pos srcRate dstRate). unfold minLen, bufLen. lia.
  - pose proof (Z.div_pos srcRate dstRate). lia.
  - unfold intJ, place. by rewrite Hr.
  - intros p' Hp. apply (places_advance srcRate dstRate Hsrc Hdst p' (zlen s)); [lia|pose proof (zlen_nonneg s); lia|nia].
Qed.

Lemma beep_buffer_is_reference_witness :
  @resampleBufferBeep lowest [7] 16000 [1000; 2000; -3000] 8000 = Some (Ok [7; 1000; 2050; 2000; -683; -3000; -1941]).
Proof.
  destruct (@beep_buffer_is_reference lowest [7] [1000; 2000; -3000] 16000 8000) as (sz & Hsz & ->).
  - lia.
  - lia.
  - done.
  - done.
  - assert (outSize 8000 16000 (zlen [1000; 2000; -3000]) = Ok 6) as Hs by reflexivity.
    rewrite Hs in Hsz. injection Hsz as <-. vm_compute. reflexivity.
Defined.

(** The interpolation of samples that are all in range may leave the range of an
    [int16], as it does next to the edge of a square wave: no clamp is applied,
    and the conversion is left to the implementation of the language. *)
Theorem beep_overshoots `{Conversions} :
  exists f, truncated f = Some 35156 /\
    option_map (fun o => match o with Ok out => out !! 5%nat | Panic => None end)
      (resampleBufferBeep [] 16000 [30000; 30000; 30000; 30000; -30000; -30000; -30000; -30000] 8000) = Some (Some (beyond (-32768) 32767 f)).
Proof. eexists. split; [|vm_compute; reflexivity]. vm_compute. reflexivity. Qed.

(** ** The streaming writer on short frames *)

(** Frames written one after the other to a new writer. *)
Definition writeFrames (srcRate dstRate : Z) (frames : list (list Z)) : option (outcome (list (list Z))) :=
  match @newResampleWriterBeep dstRate srcRate with
  | Ok w => @beepWriteAll lowest frames w
  | Panic => Some Panic
  end.

(** As a streaming writer from 8000 to 16000 Hz the same resampler works on
    frames of eight samples, but panics with an index out of range when an empty
    frame comes first, and when frames of two, eight and eight samples follow
    each other: a short read shortens a buffer for good, and then the samples
    before the position are no longer in it. *)
Theorem beep_short_frames_panic :
  let frame := [100; 200; 300; 400; 500; 600; 700; 800] in
  (exists outs, writeFrames 8000 16000 [frame; frame; frame] = Some (Ok outs) /\ (length <$> outs) = [16; 16; 16]%nat) /\
  writeFrames 8000 16000 [[]; frame] = Some Panic /\
  writeFrames 8000 16000 [[100; 200]; frame; frame] = Some Panic.
Proof. split; [eexists; split|]; vm_compute; [reflexivity..|]. repeat split. Qed.

(** Frames do not resample as the samples that they are made of: next to the end
    of a frame zeros stand for the samples of the next one.  A constant signal of
    1000 becomes 499 at the end of every frame, and stays at 999 and 1000 there
    when it is resampled as a whole. *)
Theorem beep_frame_edges :
  let frame := [1000; 1000; 1000; 1000; 1000; 1000; 1000; 1000] in
  writeFrames 8000 16000 [frame; frame] =
    Some (Ok [[1000; 1085; 1000; 988; 1000; 999; 1000; 999; 1000; 999; 1000; 988; 1000; 1085; 1000; 499];
              [1000; 999; 1000; 999; 1000; 999; 1000; 999; 1000; 999; 1000; 988; 1000; 1085; 1000; 499]]) /\
  option_map (fun o => match o with Ok out => take 4 (drop 12 out) | Panic => [] end)
    (@resampleBufferBeep lowest [] 16000 (frame ++ frame) 8000) = Some [1000; 999; 1000; 999].
Proof. vm_compute. repeat split. Qed.
