(* ===== verification/Soxr.v ===== *)
(** * Soxr: the resampling writer, [src/resample_soxr.go]

    The C library is an argument: [process st in room] is [soxr_process] on a
    resampler in state [st], with input [in] and room for [room] samples; it
    gives the new state, how many input samples it read, the samples it wrote,
    and an error.  The writer below is what it received and the outcomes of its
    calls, as in [Media]. *)

From Stdlib Require Import Ascii.
From stdpp Require Import base tactics numbers strings list.
From S2P Require Import Prelude GoStr Media.

#[local] Open Scope go_scope.

(** [resampleSize]: the size of the frame that [srcSize] samples become. *)
Definition resampleSize (dstSampleRate srcSampleRate srcSize : Z) : outcome Z :=
  if dstSampleRate <? srcSampleRate then
    let! div := go_quot srcSampleRate dstSampleRate in
    go_quot srcSize div
  else
    let! mul := go_quot dstSampleRate srcSampleRate in
    Ok (srcSize * mul).

(** [soxrErr]: a null pointer, the empty string and "0" are no error. *)
Definition soxrErr (e : option str) : option error :=
  match e with
  | None => None
  | Some estr =>
      if bool_decide (estr = []) || bool_decide (estr = lit "0") then None
      else Some (Errorf (String.string_of_list_ascii estr))
  end.

Definition errClosed : error := Errorf "resampler is closed".

Section soxr.
Context {ST : Type}.
Context (process : ST -> list Z -> Z -> ST * Z * list Z * option error).

(** [type soxrResampler struct]; [ptrOpen] is that [ptr] is not nil. *)
Record soxrResampler : Type := mkSoxr {
  lib : ST;
  ptrOpen : bool;
  rSrc : Z;
  rDst : Z;
  maxIn : Z;
}.

(** The loop of [Resample] over the room left; it ends when the room or the
    input does.  [None]: no end within the fuel.  The samples written so far
    are returned. *)
Fixpoint processLoop (fuel : nat) (st : ST) (inp : list Z) (room : Z) (done : list Z)
    : option (outcome (ST * list Z * option error)) :=
  if room <=? 0 then Some (Ok (st, done, None))
  else
    match fuel with
    | O => None
    | S fuel =>
        let '(st, n, out, err) := process st inp room in
        let n := if (zlen inp =? 0) then 0 else n in
        match err with
        | Some e => Some (Ok (st, [], Some e))
        | None =>
            if (room <? zlen out) || (n <? 0) || (zlen inp <? n) then Some Panic
            else
              let inp := drop (Z.to_nat n) inp in
              let room := room - zlen out in
              if zlen inp =? 0 then Some (Ok (st, done ++ out, None))
              else processLoop fuel st inp room (done ++ out)
        end
    end.

(** [Resample]: the samples appended to [out], whose spare capacity is [spare];
    none when there is an error.  Each iteration reads or writes a sample, so
    their number is at most that of the input and the room. *)
Definition Resample (inp : list Z) (spare : Z) (r : soxrResampler)
    : option (outcome (soxrResampler * list Z * option error)) :=
  if negb (ptrOpen r) then Some (Ok (r, [], Some errClosed))
  else
    let m := Z.max (maxIn r) (zlen inp) in
    match go_quot (zlen inp * rDst r) (rSrc r), go_quot (m * rDst r) (rSrc r) with
    | Ok dstN, Ok flushN =>
        let dstN := if dstN =? 0 then Z.max flushN (Z.max spare 1024) else dstN in
        match processLoop (S (length inp + Z.to_nat dstN)) (lib r) inp dstN [] with
        | None => None
        | Some Panic => Some Panic
        | Some (Ok (st, out, err)) => Some (Ok (mkSoxr st true (rSrc r) (rDst r) m, out, err))
        end
    | _, _ => Some Panic
    end.

(** [type resampleWriter struct]; [passed] are the frames given to [w]. *)
Record resampleWriter : Type := mkResampleWriter {
  res : soxrResampler;
  dstFrame : Z;
  buffer : Z;
  buf : list Z;
  passed : list (list Z);
}.

Definition newResampleWriter (st : ST) (dstRate srcRate : Z) : resampleWriter :=
  mkResampleWriter (mkSoxr st true srcRate dstRate 0) 0 0 [] [].

(** The loop of [flush]: what is left in the buffer, the frames passed on and
    the last error. *)
Fixpoint flushLoop (fuel : nat) (frame minSize : Z) (b : list Z) (out : list (list Z))
    (errs : list (option error)) (last : option error) : list Z * list (list Z) * option error :=
  match fuel with
  | O => (b, out, last)
  | S fuel =>
      if (0 <? zlen b) && (minSize <=? zlen b) then
        let sz := if zlen b <? frame then zlen b else frame in
        let last := match nextErr errs with Some e => Some e | None => last end in
        flushLoop fuel frame minSize (drop (Z.to_nat sz) b) (out ++ [take (Z.to_nat sz) b]) (tail errs) last
      else (b, out, last)
  end.

Definition flush (minSize : Z) (errs : list (option error)) (w : resampleWriter) : resampleWriter * option error :=
  if zlen (buf w) =? 0 then (w, None)
  else
    let frame := if dstFrame w =? 0 then zlen (buf w) else dstFrame w in
    let '(b, out, last) := flushLoop (length (buf w)) frame minSize (buf w) (passed w) errs None in
    (mkResampleWriter (res w) (dstFrame w) (buffer w) b out, last).

Definition WriteSample (data : list Z) (spare : Z) (errs : list (option error)) (w : resampleWriter)
    : option (outcome (resampleWriter * option error)) :=
  if zlen data =? 0 then Some (Ok (w, None))
  else
    match Resample data spare (res w) with
    | None => None
    | Some Panic => Some Panic
    | Some (Ok (r, out, Some e)) =>
        Some (Ok (mkResampleWriter r (dstFrame w) (buffer w) (buf w ++ out) (passed w), Some e))
    | Some (Ok (r, out, None)) =>
        match resampleSize (rDst r) (rSrc r) (zlen data) with
        | Panic => Some Panic
        | Ok n =>
            let f := Z.max (dstFrame w) n in
            Some (Ok (flush (f * (1 + buffer w)) errs (mkResampleWriter r f (buffer w) (buf w ++ out) (passed w))))
        end
    end.

Definition Close (spare : Z) (errs : list (option error)) (closeErr : option error) (w : resampleWriter)
    : option (outcome (resampleWriter * option error)) :=
  match Resample [] spare (res w) with
  | None => None
  | Some Panic => Some Panic
  | Some (Ok (r, out, Some e)) =>
      Some (Ok (mkResampleWriter r (dstFrame w) (buffer w) (buf w ++ out) (passed w), Some e))
  | Some (Ok (r, out, None)) =>
      let r := mkSoxr (lib r) false (rSrc r) (rDst r) (maxIn r) in
      let w := (flush 0 errs (mkResampleWriter r (dstFrame w) (buffer w) (buf w ++ out) (passed w))).1 in
      Some (Ok (w, closeErr))
  end.

(** A sequence of writes, each with the spare capacity it finds and the outcomes
    of the calls it makes. *)
Fixpoint writeAll (ws : list (list Z * Z * list (option error))) (w : resampleWriter)
    : option (outcome (resampleWriter * list (option error))) :=
  match ws with
  | [] => Some (Ok (w, []))
  | (data, spare, errs) :: ws =>
      match WriteSample data spare errs w with
      | None => None
      | Some Panic => Some Panic
      | Some (Ok (w, e)) =>
          match writeAll ws w with
          | Some (Ok (w, es)) => Some (Ok (w, e :: es))
          | x => x
          end
      end
  end.

End soxr.
Arguments soxrResampler : clear implicits.
Arguments resampleWriter : clear implicits.
