(* ===== verification/SoxrProps.v ===== *)
(** * SoxrProps: what the resampling writer passes on

    The reference is [served]: the calls of the library that one input takes,
    and the chunks that the library writes.  The writer passes on these chunks, in
    order, less those of inputs on which the library failed. *)

From stdpp Require Import base tactics numbers strings list.
From S2P Require Import Prelude Media Soxr.

#[local] Open Scope go_scope.

Section soxr.
Context {ST : Type}.
Context (process : ST -> list Z -> Z -> ST * Z * list Z * option error).

(** What the library documents of [soxr_process]: it reads and writes no more
    than it was given, and with input and room it does something. *)
Definition processOk : Prop :=
  forall st inp room st' n out err, 0 < room -> process st inp room = (st', n, out, err) ->
    0 <= n <= zlen inp /\ zlen out <= room /\ (inp <> [] -> err = None -> 0 < n + zlen out).

(** ** What the library gives for an input

    The reference for [Resample]: the library is called with what it has not
    read yet and the room that is left, until one of them is used up or it
    fails.  [served st inp room st' outs rest err]: from state [st] it goes to
    [st'], writes the chunks [outs], leaves [rest] unread and ends with [err]. *)
Inductive served : ST -> list Z -> Z -> ST -> list (list Z) -> list Z -> option error -> Prop :=
| served_full st inp room :
    room <= 0 -> served st inp room st [] inp None
| served_failed st inp room st' n out e :
    0 < room -> process st inp room = (st', n, out, Some e) -> served st inp room st' [] inp (Some e)
| served_last st inp room st' n out :
    0 < room -> process st inp room = (st', n, out, None) -> drop (Z.to_nat n) inp = [] ->
    served st inp room st' [out] [] None
| served_more st inp room st' n out st'' outs rest err :
    0 < room -> process st inp room = (st', n, out, None) -> drop (Z.to_nat n) inp <> [] ->
    served st' (drop (Z.to_nat n) inp) (room - zlen out) st'' outs rest err ->
    served st inp room st'' (out :: outs) rest err.

(** What is used of the chunks: nothing once the library has failed. *)
Definition kept (g : list (list Z) * option error) : list Z :=
  match g.2 with None => concat g.1 | Some _ => [] end.

(** The room for the samples that [n] samples become; without input, for those
    of the largest input so far. *)
Definition roomFor (dst src maxIn n spare : Z) : Z :=
  if n * dst <? src then Z.max (Z.max maxIn n * dst / src) (Z.max spare 1024) else n * dst / src.

(** The calls for a sequence of writes, one group of chunks for each; a write of
    nothing makes no call.  [m] is the largest input so far. *)
Inductive calls (dst src : Z) : Z -> ST -> list (list Z * Z * list (option error)) ->
    Z -> ST -> list (list (list Z) * option error) -> Prop :=
| calls_nil m st : calls dst src m st [] m st []
| calls_empty m st spare errs ws m' st' gs :
    calls dst src m st ws m' st' gs -> calls dst src m st (([], spare, errs) :: ws) m' st' (([], None) :: gs)
| calls_write m st data spare errs ws st1 outs rest err m' st' gs :
    data <> [] -> served st data (roomFor dst src m (zlen data) spare) st1 outs rest err ->
    calls dst src (Z.max m (zlen data)) st1 ws m' st' gs ->
    calls dst src m st ((data, spare, errs) :: ws) m' st' ((outs, err) :: gs).

Hypothesis Hprocess : processOk.

Implicit Types (w : resampleWriter ST) (r : soxrResampler ST).

(** ** [Resample] *)

Lemma processLoop_served fuel st inp room done :
  (length inp + Z.to_nat room < fuel)%nat ->
  exists st' outs rest err, served st inp room st' outs rest err /\
    processLoop process fuel st inp room done =
      Some (Ok (st', match err with None => done ++ concat outs | Some _ => [] end, err)).
Proof.
  revert st inp room done. induction fuel as [|fuel IH]; intros st inp room done Hf; [lia|]. cbn [processLoop].
  case_if. { do 4 eexists. split; [by apply served_full|]. by rewrite app_nil_r. }
  destruct (process st inp room) as [[[st' n] out] err] eqn:Hp.
  destruct (Hprocess _ _ _ _ _ _ _ Heqb Hp) as (Hn & Ho & Hprog).
  destruct err as [e|]. { do 4 eexists. split; [by eapply served_failed|done]. }
  pose proof (zlen_nonneg out). pose proof (zlen_nonneg inp).
  assert ((if zlen inp =? 0 then 0 else n) = n) as -> by (case_if; lia).
  assert ((room <? zlen out) || (n <? 0) || (zlen inp <? n) = false) as ->.
  { rewrite !orb_false_iff. split_and!; lia. }
  destruct (zlen (drop (Z.to_nat n) inp) =? 0) eqn:E; bool_cases.
  - do 4 eexists. split; [eapply served_last; [done|done|by apply zlen_0]|]. simpl. by rewrite app_nil_r.
  - assert (drop (Z.to_nat n) inp <> []) as Hne by (intros Hd; by rewrite Hd in E).
    assert (0 < n + zlen out) by (apply Hprog; [intros ->; by rewrite drop_nil in Hne|done]).
    destruct (IH st' (drop (Z.to_nat n) inp) (room - zlen out) (done ++ out)) as (st2 & outs & rest & err & Hs & ->).
    { rewrite length_drop. unfold zlen in *. lia. }
    do 4 eexists. split; [by eapply served_more|]. simpl. by rewrite app_assoc.
Qed.

Lemma Resample_served inp spare r :
  ptrOpen r = true -> 0 < rSrc r -> 0 < rDst r -> 0 <= maxIn r ->
  exists st' outs rest err,
    served (lib r) inp (roomFor (rDst r) (rSrc r) (maxIn r) (zlen inp) spare) st' outs rest err /\
    Resample process inp spare r =
      Some (Ok (mkSoxr st' true (rSrc r) (rDst r) (Z.max (maxIn r) (zlen inp)), kept (outs, err), err)).
Proof.
  intros Hp Hs Hd Hm. unfold Resample. rewrite Hp. cbn [negb]. unfold go_quot.
  assert (rSrc r =? 0 = false) as -> by lia. pose proof (zlen_nonneg inp).
  rewrite !Z.quot_div_nonneg by lia. set (room := if _ =? 0 then _ else _).
  assert (room = roomFor (rDst r) (rSrc r) (maxIn r) (zlen inp) spare) as <-.
  { unfold room, roomFor. destruct (zlen inp * rDst r <? rSrc r) eqn:E; bool_cases.
    - rewrite Z.div_small by lia. done.
    - assert (0 < zlen inp * rDst r / rSrc r) by (apply Z.div_str_pos; lia). case_if; [lia|done]. }
  destruct (processLoop_served (S (length inp + Z.to_nat room)) (lib r) inp room []) as (st & outs & rest & err & Hsv & ->); [lia|].
  do 4 eexists. split; [exact Hsv|]. by destruct err.
Qed.

Lemma Resample_total inp spare r :
  0 < rSrc r -> exists r' out err, Resample process inp spare r = Some (Ok (r', out, err)) /\
    rSrc r' = rSrc r /\ rDst r' = rDst r.
Proof.
  intros Hr. unfold Resample. destruct (ptrOpen r); cbn [negb]; [|eauto 10]. unfold go_quot. case_if; [lia|].
  match goal with |- context [processLoop process (S (length inp + Z.to_nat ?d)) _ _ _ _] =>
    destruct (processLoop_served (S (length inp + Z.to_nat d)) (lib r) inp d []) as (st & outs & rest & err & _ & ->); [lia|] end.
  do 3 eexists. split; [done|]. done.
Qed.

(** ** [flush] *)

Lemma flushLoop_concat fuel frame minSize b out errs last :
  let '(b', out', _) := flushLoop fuel frame minSize b out errs last in concat out' ++ b' = concat out ++ b.
Proof.
  revert b out errs last. induction fuel as [|fuel IH]; intros b out errs last; cbn [flushLoop]; [done|].
  case_if; [|done].
  match goal with |- context [flushLoop fuel frame minSize ?b1 ?o1 ?e1 ?l1] =>
    pose proof (IH b1 o1 e1 l1) as Hi; destruct (flushLoop fuel frame minSize b1 o1 e1 l1) as [[b' out'] last'] end.
  rewrite Hi, concat_app. simpl. rewrite app_nil_r, <- app_assoc. f_equal. apply take_drop.
Qed.

Lemma flushLoop_rest fuel frame minSize b out errs last :
  0 < frame -> (length b <= fuel)%nat ->
  let '(b', _, _) := flushLoop fuel frame minSize b out errs last in b' = [] \/ zlen b' < minSize.
Proof.
  intros Hfr. revert b out errs last. induction fuel as [|fuel IH]; intros b out errs last Hf; cbn [flushLoop].
  - left. by destruct b; [|simpl in Hf; lia].
  - case_if; [|]. 2: { apply andb_false_iff in Heqb0 as [H|H]; bool_cases; [left; apply zlen_0; pose proof (zlen_nonneg b); lia|by right]. }
    apply IH. rewrite length_drop. unfold zlen in *. case_if; lia.
Qed.

Lemma flush_concat minSize errs w :
  concat (passed (flush minSize errs w).1) ++ buf (flush minSize errs w).1 = concat (passed w) ++ buf w /\
  res (flush minSize errs w).1 = res w /\ dstFrame (flush minSize errs w).1 = dstFrame w /\
  buffer (flush minSize errs w).1 = buffer w.
Proof.
  unfold flush. case_if; [done|].
  match goal with |- context [flushLoop ?f ?fr ?m ?b ?o ?e ?l] =>
    pose proof (flushLoop_concat f fr m b o e l) as Hcat; destruct (flushLoop f fr m b o e l) as [[b' out'] last'] end.
  done.
Qed.

Lemma flush_all errs w : 0 <= dstFrame w -> buf (flush 0 errs w).1 = [].
Proof.
  intros Hd. unfold flush. case_if; [by apply zlen_0|]. pose proof (zlen_nonneg (buf w)).
  match goal with |- context [flushLoop ?f ?fr ?m ?b ?o ?e ?l] =>
    pose proof (flushLoop_rest f fr m b o e l) as Hr; destruct (flushLoop f fr m b o e l) as [[b' out'] last'] end.
  simpl. destruct Hr as [?|?]; [case_if; lia|done|done|]. pose proof (zlen_nonneg b'). lia.
Qed.

Lemma flushLoop_extends fuel frame mins b out errs last :
  let '(_, out', _) := flushLoop fuel frame mins b out errs last in out `prefix_of` out'.
Proof.
  revert b out errs last. induction fuel as [|fuel IH]; intros b out errs last; cbn [flushLoop]; [done|].
  case_if; [|done]. match goal with |- context [flushLoop fuel ?fr ?m ?b1 ?o1 ?e1 ?l1] =>
    pose proof (IH b1 o1 e1 l1) as Hi; destruct (flushLoop fuel fr m b1 o1 e1 l1) as [[b' out'] last'] end.
  etrans; [|exact Hi]. by apply prefix_app_r.
Qed.

Lemma flush_extends mins errs w : passed w `prefix_of` passed (flush mins errs w).1.
Proof.
  unfold flush. case_if; [done|].
  match goal with |- context [flushLoop ?f ?fr ?m ?b ?o ?e ?l] =>
    pose proof (flushLoop_extends f fr m b o e l) as Hl; destruct (flushLoop f fr m b o e l) as [[b' out'] last'] end.
  done.
Qed.

Lemma flushLoop_quiet fuel frame mins b out : (flushLoop fuel frame mins b out [] None).2 = None.
Proof. revert b out. induction fuel as [|fuel IH]; intros b out; cbn [flushLoop]; [done|]. case_if; [apply IH|done]. Qed.

Lemma flush_quiet mins w : (flush mins [] w).2 = None.
Proof.
  unfold flush. case_if; [done|]. pose proof (flushLoop_quiet (length (buf w))
    (if dstFrame w =? 0 then zlen (buf w) else dstFrame w) mins (buf w) (passed w)) as Hq.
  destruct (flushLoop _ _ _ _ _ _ _) as [[b out] last]. exact Hq.
Qed.

Lemma flush_rest minSize errs w :
  0 <= dstFrame w -> buf (flush minSize errs w).1 = [] \/ zlen (buf (flush minSize errs w).1) < minSize.
Proof.
  intros Hd. unfold flush. case_if; [left; by apply zlen_0|]. pose proof (zlen_nonneg (buf w)).
  match goal with |- context [flushLoop ?f ?fr ?m ?b ?o ?e ?l] =>
    pose proof (flushLoop_rest f fr m b o e l) as Hr; destruct (flushLoop f fr m b o e l) as [[b' out'] last'] end.
  apply Hr; [|done]. case_if; lia.
Qed.

(** ** A sequence of writes *)

Lemma resampleSize_Ok dst srcR n : 0 < dst -> 0 < srcR -> 0 <= n -> exists m, resampleSize dst srcR n = Ok m /\ 0 <= m.
Proof.
  intros Hd Hs Hn. unfold resampleSize, go_quot. case_if.
  - case_if; [lia|]. cbn [obind]. assert (1 <= Z.quot srcR dst) as Hq.
    { rewrite Z.quot_div_nonneg by lia. apply Z.div_le_lower_bound; lia. }
    case_if; [lia|]. eexists. split; [done|]. apply Z.quot_pos; lia.
  - case_if; [lia|]. cbn [obind]. eexists. split; [done|]. apply Z.mul_nonneg_nonneg; [lia|]. apply Z.quot_pos; lia.
Qed.

(** A resampler in use. *)
Definition ready w : Prop :=
  ptrOpen (res w) = true /\ 0 < rSrc (res w) /\ 0 < rDst (res w) /\ 0 <= maxIn (res w) /\ 0 <= dstFrame w.

Lemma calls_cons dst src m st x m1 st1 g ws m2 st2 gs :
  calls dst src m st [x] m1 st1 [g] -> calls dst src m1 st1 ws m2 st2 gs ->
  calls dst src m st (x :: ws) m2 st2 (g :: gs).
Proof.
  intros Hx Hws. inversion Hx as [|? ? ? ? ? ? ? ? Hn|? ? ? ? ? ? ? ? ? ? ? ? ? Hd Hs Hn]; subst; inversion Hn; subst.
  - by apply calls_empty.
  - by eapply calls_write.
Qed.

(** One write: the library is called for it; what is kept of its chunks goes
    behind the buffer, and an error of the library is the error of the write. *)
Lemma write_served data spare errs w :
  ready w ->
  exists w' e g fs, WriteSample process data spare errs w = Some (Ok (w', e)) /\
    calls (rDst (res w)) (rSrc (res w)) (maxIn (res w)) (lib (res w)) [(data, spare, errs)]
      (maxIn (res w')) (lib (res w')) [g] /\
    ready w' /\ (rDst (res w') = rDst (res w) /\ rSrc (res w') = rSrc (res w)) /\
    passed w' = passed w ++ fs /\ concat (passed w') ++ buf w' = concat (passed w) ++ buf w ++ kept g /\
    (g.2 <> None -> e = g.2) /\ (errs = [] -> e = g.2) /\
    (g.2 = None -> buf w = [] -> buf w' = [] \/
       exists f, resampleSize (rDst (res w)) (rSrc (res w)) (zlen data) = Ok f /\
         zlen (buf w') < Z.max (dstFrame w) f * (1 + buffer w)).
Proof.
  intros (Hp & Hs & Hd & Hm & Hf). unfold WriteSample. destruct (decide (data = [])) as [->|Hdata].
  { simpl. exists w, None, ([], None), []. rewrite !app_nil_r. split_and!; try done; [by apply calls_empty, calls_nil|by left]. }
  case_if; [by apply zlen_0 in Heqb|].
  destruct (Resample_served data spare (res w) Hp Hs Hd Hm) as (st' & outs & rest & err & Hsv & ->).
  destruct err as [e|].
  { exists (mkResampleWriter (mkSoxr st' true (rSrc (res w)) (rDst (res w)) (Z.max (maxIn (res w)) (zlen data)))
      (dstFrame w) (buffer w) (buf w ++ []) (passed w)), (Some e), (outs, Some e), [].
    rewrite !app_nil_r. unfold ready. split_and!; simpl; try (done || lia).
    eapply calls_write; [done|done|apply calls_nil]. }
  cbn [rDst rSrc]. destruct (resampleSize_Ok (rDst (res w)) (rSrc (res w)) (zlen data)) as (m & Hm1 & Hm0); [done|done|apply zlen_nonneg|].
  rewrite Hm1. set (w1 := mkResampleWriter _ _ _ _ _). set (mins := _ * _).
  destruct (flush_concat mins errs w1) as (Hc & Hres & Hdf & _). destruct (flush_extends mins errs w1) as [fs Hfs].
  pose proof (flush_rest mins errs w1) as Hrest. pose proof (flush_quiet mins w1) as Hq.
  destruct (flush mins errs w1) as [w2 e2] eqn:Hfl. simpl in *.
  exists w2, e2, (outs, None), fs. unfold ready. rewrite Hres, Hdf. simpl. split_and!; try (done || lia).
  - eapply calls_write; [done|done|apply calls_nil].
  - intros ->. rewrite Hfl in Hq. exact Hq.
  - intros _ _. destruct Hrest as [?|?]; [lia|by left|right; by exists m].
Qed.

Lemma writeAll_served ws w :
  ready w ->
  exists w' es gs, writeAll process ws w = Some (Ok (w', es)) /\
    calls (rDst (res w)) (rSrc (res w)) (maxIn (res w)) (lib (res w)) ws (maxIn (res w')) (lib (res w')) gs /\
    rDst (res w') = rDst (res w) /\ rSrc (res w') = rSrc (res w) /\ ready w' /\
    concat (passed w') ++ buf w' = concat (passed w) ++ buf w ++ concat (kept <$> gs) /\
    forall k outs e, gs !! k = Some (outs, Some e) -> es !! k = Some (Some e).
Proof.
  revert w. induction ws as [|[[data spare] errs] ws IH]; intros w Hr; cbn [writeAll].
  { exists w, [], []. rewrite app_nil_r. split_and!; try done. apply calls_nil. }
  destruct (write_served data spare errs w Hr) as (w1 & e1 & g & fs & -> & Hc1 & Hr1 & [Hd1 Hs1] & _ & Hcat1 & He1 & _).
  destruct (IH w1 Hr1) as (w' & es & gs & -> & Hc & Hd & Hs & Hr' & Hcat & Hes). rewrite Hd1, Hs1 in *.
  exists w', (e1 :: es), (g :: gs). split_and!; try done.
  - by eapply calls_cons.
  - rewrite Hcat, app_assoc, Hcat1. by rewrite <- !app_assoc.
  - intros [|k] outs' e; [|apply Hes]. intros [= ->]. by rewrite He1.
Qed.

(** [Close]: one more call, without input. *)
Lemma close_served spare errs closeErr w :
  ready w ->
  exists w' e st' g rest fs, Close process spare errs closeErr w = Some (Ok (w', e)) /\
    served (lib (res w)) [] (roomFor (rDst (res w)) (rSrc (res w)) (maxIn (res w)) 0 spare) st' g.1 rest g.2 /\
    passed w' = passed w ++ fs /\
    match g.2 with
    | None => concat (passed w') = concat (passed w) ++ buf w ++ concat g.1 /\ buf w' = [] /\ e = closeErr
    | Some _ => fs = [] /\ e = g.2
    end.
Proof.
  intros (Hp & Hs & Hd & Hm & Hf). unfold Close.
  destruct (Resample_served [] spare (res w) Hp Hs Hd Hm) as (st' & outs & rest & err & Hsv & ->). destruct err as [e|].
  { do 2 eexists. exists st', (outs, Some e), rest, []. split; [reflexivity|].
    split; [done|]. split; [symmetry; apply app_nil_r|by split]. }
  set (w1 := mkResampleWriter _ _ _ _ _). destruct (flush_concat 0 errs w1) as (Hc1 & _).
  destruct (flush_extends 0 errs w1) as [fs Hfs]. pose proof (flush_all errs w1 Hf) as Hb. rewrite Hb, app_nil_r in Hc1.
  do 2 eexists. exists st', (outs, None), rest, fs. split; [reflexivity|]. split_and!; done.
Qed.

(** C40: whatever is written, and whatever calls of the writer below fail, the
    resampling writer never panics nor loops, when the library reads and writes
    no more than it is given and makes progress.  The library is called for every
    write until it has read it all, there is no room, or it fails; the frames
    passed on followed by what is kept back are all the chunks that it wrote,
    once and in order, less those of the writes on which it failed, which report
    its error.  Closing calls it once more without input and passes on the rest
    and what it writes then; when that fails, Close reports it and passes on
    nothing. *)
Theorem soxr_writer_conserves (st : ST) (dstRate srcRate : Z) (ws : list (list Z * Z * list (option error)))
    (Hrates : 0 < dstRate /\ 0 < srcRate) :
  exists w es m st' gs,
    writeAll process ws (newResampleWriter st dstRate srcRate) = Some (Ok (w, es)) /\
    calls dstRate srcRate 0 st ws m st' gs /\
    concat (passed w) ++ buf w = concat (kept <$> gs) /\
    (forall k outs e, gs !! k = Some (outs, Some e) -> es !! k = Some (Some e)) /\
    forall spare errs closeErr, exists w' e st'' outs rest err,
      Close process spare errs closeErr w = Some (Ok (w', e)) /\
      served st' [] (roomFor dstRate srcRate m 0 spare) st'' outs rest err /\
      match err with
      | None => concat (passed w') = concat (kept <$> gs) ++ concat outs /\ buf w' = [] /\ e = closeErr
      | Some _ => passed w' = passed w /\ e = err
      end.
Proof.
  destruct (writeAll_served ws (newResampleWriter st dstRate srcRate)) as (w & es & gs & Hw & Hc & Hd & Hs & Hr & Hcat & Hes).
  { split_and!; simpl; (done || lia). }
  exists w, es, (maxIn (res w)), (lib (res w)), gs. split_and!; [done|done|done|done|].
  intros spare errs closeErr. destruct (close_served spare errs closeErr w Hr) as (w' & e & st' & g & rest & fs & Hcl & Hsv & Hp & Hg).
  rewrite Hd, Hs in Hsv. exists w', e, st', g.1, rest, g.2. split; [done|]. split; [done|].
  destruct g.2; [destruct Hg as [-> ->]; by rewrite app_nil_r in Hp|]. by rewrite (app_assoc (concat (passed w))), Hcat in Hg.
Qed.

(** ** The size of the frames *)

Lemma flushLoop_sizes fuel frame b out errs last :
  0 < frame -> Forall (fun f => zlen f = frame) out ->
  let '(_, out', _) := flushLoop fuel frame frame b out errs last in Forall (fun f => zlen f = frame) out'.
Proof.
  intros Hfr. revert b out errs last. induction fuel as [|fuel IH]; intros b out errs last Ho; cbn [flushLoop]; [done|].
  case_if; [|done]. case_if; [lia|]. apply IH.
  apply Forall_app. split; [done|]. repeat constructor. unfold zlen in *. rewrite length_take. lia.
Qed.

Definition framesOf (n : Z) (w : resampleWriter ST) : Prop :=
  Forall (fun f => zlen f = n) (passed w) /\ zlen (buf w) < n.

Lemma flush_frames n errs w :
  0 < n -> dstFrame w = n -> Forall (fun f => zlen f = n) (passed w) -> framesOf n (flush n errs w).1.
Proof.
  intros Hn Hd Hp. unfold flush. case_if; [by split; [|simpl; lia]|]. rewrite Hd. case_if; [lia|].
  pose proof (flushLoop_sizes (length (buf w)) n (buf w) (passed w) errs None Hn Hp) as H1.
  pose proof (flushLoop_rest (length (buf w)) n n (buf w) (passed w) errs None Hn) as H2.
  destruct (flushLoop _ _ _ _ _ _ _) as [[b' out'] last']. split; [done|]. simpl.
  destruct H2 as [->|?]; [done|exact Hn|done].
Qed.

Lemma writeAll_frames L n ws w :
  0 < L -> 0 < n -> resampleSize (rDst (res w)) (rSrc (res w)) L = Ok n -> 0 < rSrc (res w) ->
  (dstFrame w = 0 \/ dstFrame w = n) -> buffer w = 0 -> framesOf n w ->
  Forall (fun x => zlen x.1.1 = L) ws ->
  forall w' es, writeAll process ws w = Some (Ok (w', es)) -> Forall (fun e => e = None) es -> framesOf n w'.
Proof.
  intros HL Hn. revert w. induction ws as [|[[data spare] errs] ws IH]; intros w Hsz Hs Hd Hb Hfr Hws w' es; cbn [writeAll].
  - by intros [= <- <-] _.
  - apply Forall_cons in Hws as [Hdata Hws]. simpl in Hdata. unfold WriteSample. rewrite Hdata. case_if; [lia|].
    destruct (Resample_total data spare (res w) Hs) as (r & out & err & -> & Hr1 & Hr2).
    destruct err as [e|].
    { destruct (writeAll process ws _) as [[[w2 es2]|]|]; try done. intros [= <- <-] [? _]%Forall_cons. done. }
    rewrite Hr1, Hr2, Hsz. set (w1 := mkResampleWriter r _ _ _ _).
    assert (Z.max (dstFrame w) n = n) as Hmax by lia. rewrite Hmax in *. rewrite Hb, Z.add_0_r, Z.mul_1_r.
    destruct (flush_frames n errs w1 Hn) as [Hf1 Hf2]; [done|apply Hfr|].
    destruct (flush_concat n errs w1) as (_ & Hres & Hdf & Hbf).
    destruct (flush n errs w1) as [w2 e2] eqn:Hfl. simpl in *.
    destruct (writeAll process ws w2) as [[[w3 es3]|]|] eqn:Hw; try done.
    intros [= <- <-] [_ Hes]%Forall_cons.
    eapply (IH w2); rewrite ?Hres, ?Hr1, ?Hr2; try done; [right; congruence|congruence].
Qed.

(** Frames of one size in give frames of one size out: as long as no write
    reports an error, every frame passed on has exactly the size that
    [resampleSize] computes, and less than one frame is kept back. *)
Theorem soxr_frame_size (st : ST) (dstRate srcRate L n : Z) (ws : list (list Z * Z * list (option error)))
    (w : resampleWriter ST) (es : list (option error))
    (Hrates : 0 < dstRate /\ 0 < srcRate) (HL : 0 < L) (Hn : 0 < n)
    (Hsize : resampleSize dstRate srcRate L = Ok n) (Hws : Forall (fun x => zlen x.1.1 = L) ws)
    (Hw : writeAll process ws (newResampleWriter st dstRate srcRate) = Some (Ok (w, es)))
    (Hes : Forall (fun e => e = None) es) :
  Forall (fun f => zlen f = n) (passed w) /\ zlen (buf w) < n.
Proof.
  eapply (writeAll_frames L n ws (newResampleWriter st dstRate srcRate)); try done; simpl; [apply Hrates|by left].
Qed.

End soxr.

(** A library that doubles the rate by repeating every sample, one input sample
    per call as long as there is room. *)
Definition doubling (st : unit) (inp : list Z) (room : Z) : unit * Z * list Z * option error :=
  match inp with
  | x :: _ => if 2 <=? room then (st, 1, [x; x], None) else (st, 1, [], None)
  | [] => (st, 0, [], None)
  end.

Lemma doubling_ok : processOk doubling.
Proof.
  intros st inp room st' n out err Hr. unfold doubling. destruct inp as [|x inp].
  - intros [= <- <- <- <-]. unfold zlen. simpl. split_and!; [lia|lia|lia|done].
  - case_if; intros [= <- <- <- <-]; unfold zlen; simpl; split_and!; lia.
Qed.

(** The same, but it fails on a 9. *)
Definition failing (st : unit) (inp : list Z) (room : Z) : unit * Z * list Z * option error :=
  if bool_decide (head inp = Some 9) then (st, 0, [], Some ErrClosedPipe) else doubling st inp room.

Lemma failing_ok : processOk failing.
Proof.
  intros st inp room st' n out err Hr. unfold failing. case_if; [|by apply doubling_ok].
  intros [= <- <- <- <-]. pose proof (zlen_nonneg inp). split_and!; [lia|lia|unfold zlen; simpl; lia|done].
Qed.

Definition threeFrames : list (list Z * Z * list (option error)) :=
  [([1; 2; 3], 0, []); ([4; 9; 6], 0, []); ([5; 6; 7], 0, [Some EOF])].

Lemma soxr_writer_conserves_witness :
  exists w es m gs, writeAll failing threeFrames (newResampleWriter tt 16000 8000) = Some (Ok (w, es)) /\
    calls failing 16000 8000 0 tt threeFrames m tt gs /\ concat (passed w) ++ buf w = concat (kept <$> gs) /\
    concat (passed w) ++ buf w = [1; 1; 2; 2; 3; 3; 5; 5; 6; 6; 7; 7] /\ es = [None; Some ErrClosedPipe; Some EOF].
Proof.
  destruct (soxr_writer_conserves failing failing_ok tt 16000 8000 threeFrames)
    as (w & es & m & [] & gs & Hw & Hc & Hcat & _); [lia|].
  exists w, es, m, gs. split; [exact Hw|]. split; [exact Hc|]. split; [exact Hcat|].
  clear Hcat. revert Hw. vm_compute. intros [= <- <-]. by split.
Defined.

Lemma soxr_frame_size_witness :
  Forall (fun f => zlen f = 6) [[1; 1; 2; 2; 3; 3]].
Proof.
  apply (soxr_frame_size doubling doubling_ok tt 16000 8000 3 6 [([1; 2; 3], 0, [])]
    (mkResampleWriter (mkSoxr tt true 8000 16000 3) 6 0 [] [[1; 1; 2; 2; 3; 3]]) [None]).
  - lia.
  - lia.
  - lia.
  - reflexivity.
  - repeat constructor.
  - vm_compute. reflexivity.
  - repeat constructor.
Defined.
