(* ===== verification/SoxrLife.v ===== *)
(** * SoxrLife: the life of the C resampler, [src/resample_soxr.go]

    Who may call the library on the pointer of a [soxrResampler], and who
    deletes it: the goroutines that call [WriteSample] and [Close] of the
    [resampleWriter] around it, under its mutex, and the cleanup that
    [runtime.AddCleanup] registers.  What the samples are is in [Soxr]. *)

From Stdlib Require Import Ascii.
From stdpp Require Import base tactics numbers strings list.
From S2P Require Import Prelude GoStr Media Soxr.

#[local] Open Scope go_scope.

(** ** The state *)

(** A call on the library with the pointer. *)
Inductive libCall : Type := Process | Delete.

(** [ptr] is that the field is not nil, [done] the cell that the resampler and
    the cleanup share, [mu] the goroutine that holds the mutex of the writer. *)
Record shared : Type := mkShared { ptr : bool; done : bool; mu : option nat; lib : list libCall }.

Inductive call : Type := CallWrite (data : list Z) | CallClose.

(** Where a goroutine is. *)
Inductive pc : Type :=
| Locking (k : call)                   (* before [w.mu.Lock()] *)
| Guarding (k : call)                  (* [r.ptr == nil] of [Resample] *)
| Loading (k : call)                   (* [r.done.Load()] *)
| Processing (k : call)                (* [soxr_process] *)
| Releasing                            (* [r.ptr == nil] of [soxrResampler.Close] *)
| Swapping                             (* [done.CompareAndSwap] of [soxrCleanup] *)
| Deleting                             (* [soxr_delete] *)
| Clearing                             (* [r.ptr = nil] *)
| Unlocking (err : option error)       (* the deferred [w.mu.Unlock()] *)
| Returned (err : option error).

(** Where the cleanup is. *)
Inductive cleanup : Type := Registered | CleanSwapping | CleanDeleting | Cleaned.

(** [held]: the program still has the writer. *)
Record config : Type := mkConfig { state : shared; routines : list pc; held : bool; gc : cleanup }.

(** [newSoxr], of the error that [soxr_create] gave. *)
Definition newSoxr (e : option str) : config + error :=
  match soxrErr e with
  | Some err => inr err
  | None => inl (mkConfig (mkShared true false None []) [] true Registered)
  end.

(** ** The steps *)

(** [soxrCleanup]: [CompareAndSwap(false, true)]; whether it deletes. *)
Definition soxrCleanup (p : shared) : shared * bool :=
  if done p then (p, false) else (mkShared (ptr p) true (mu p) (lib p), true).

Definition soxr_delete (p : shared) : shared := mkShared (ptr p) (done p) (mu p) (lib p ++ [Delete]).

(** What the world answers at a step: the string of [soxr_process], whether the
    loop around it goes on, and the error of the writer below. *)
Record answer : Type := mkAnswer { processErr : option str; more : bool; below : option error }.

(** One step of goroutine [i]. *)
Definition advance (a : answer) (i : nat) (p : shared) (s : pc) : option (shared * pc) :=
  match s with
  | Locking k =>
      match mu p with
      | None => Some (mkShared (ptr p) (done p) (Some i) (lib p), Guarding k)
      | Some _ => None
      end
  | Guarding k => Some (p, if ptr p then Loading k else Unlocking (Some errClosed))
  | Loading k => Some (p, if done p then Unlocking (Some errClosed) else Processing k)
  | Processing k =>
      let p := mkShared (ptr p) (done p) (mu p) (lib p ++ [Process]) in
      Some (p, match soxrErr (processErr a) with
               | Some err => Unlocking (Some err)
               | None =>
                   if more a then Processing k
                   else match k with CallWrite _ => Unlocking (below a) | CallClose => Releasing end
               end)
  | Releasing => Some (p, if ptr p then Swapping else Unlocking (below a))
  | Swapping => let '(p, deletes) := soxrCleanup p in Some (p, if deletes then Deleting else Clearing)
  | Deleting => Some (soxr_delete p, Clearing)
  | Clearing => Some (mkShared false (done p) (mu p) (lib p), Unlocking (below a))
  | Unlocking err => Some (mkShared (ptr p) (done p) None (lib p), Returned err)
  | Returned _ => None
  end.

(** One step of the cleanup, which starts when nothing can reach the writer: a
    call on it has it until its deferred [Unlock]. *)
Definition collect (c : config) : option config :=
  match gc c with
  | Registered =>
      if negb (held c) && forallb (fun s => match s with Returned _ => true | _ => false end) (routines c)
      then Some (mkConfig (state c) (routines c) (held c) CleanSwapping) else None
  | CleanSwapping =>
      let '(p, deletes) := soxrCleanup (state c) in
      Some (mkConfig p (routines c) (held c) (if deletes then CleanDeleting else Cleaned))
  | CleanDeleting => Some (mkConfig (soxr_delete (state c)) (routines c) (held c) Cleaned)
  | Cleaned => None
  end.

Inductive choice : Type :=
| Call (k : call)            (* the program calls a method *)
| Run (i : nat) (a : answer)
| Drop                       (* the program forgets the writer *)
| Collect.                   (* the garbage collector, then the cleanup *)

(** An empty frame is not written. *)
Definition entry (k : call) : pc :=
  match k with CallWrite [] => Returned None | _ => Locking k end.

Definition step (x : choice) (c : config) : option config :=
  match x with
  | Call k => if held c then Some (mkConfig (state c) (routines c ++ [entry k]) (held c) (gc c)) else None
  | Run i a =>
      s ← routines c !! i;
      '(p, s') ← advance a i (state c) s;
      Some (mkConfig p (<[i := s']> (routines c)) (held c) (gc c))
  | Drop => Some (mkConfig (state c) (routines c) false (gc c))
  | Collect => collect c
  end.

Fixpoint run (xs : list choice) (c : config) : option config :=
  match xs with [] => Some c | x :: xs => c ← step x c; run xs c end.

(** ** What holds between the steps *)

Definition live (n : nat) (p : shared) : Prop := done p = false /\ ptr p = true /\ lib p = replicate n Process.
Definition dying (n : nat) (p : shared) : Prop := done p = true /\ ptr p = true /\ lib p = replicate n Process.
Definition gone (n : nat) (p : shared) : Prop := done p = true /\ lib p = replicate n Process ++ [Delete].

Definition isReturned (s : pc) : bool := match s with Returned _ => true | _ => false end.
Definition outside (s : pc) : bool := match s with Locking _ | Returned _ => true | _ => false end.

(** The shared state, while the goroutine that has the mutex is at [s]. *)
Definition inside (n : nat) (p : shared) (s : pc) : Prop :=
  match s with
  | Processing _ | Releasing | Swapping => live n p
  | Deleting => dying n p
  | Clearing => gone n p
  | Guarding _ | Loading _ | Unlocking _ => live n p \/ gone n p
  | Locking _ | Returned _ => False
  end.

Definition cleaning (n : nat) (p : shared) (g : cleanup) : Prop :=
  match g with
  | Registered => False
  | CleanSwapping => live n p \/ gone n p
  | CleanDeleting => dying n p
  | Cleaned => gone n p
  end.

Inductive invariant (n : nat) (c : config) : Prop :=
| Free : gc c = Registered -> mu (state c) = None -> live n (state c) \/ gone n (state c) ->
    (forall i s, routines c !! i = Some s -> outside s) -> invariant n c
| Locked i s : gc c = Registered -> mu (state c) = Some i -> routines c !! i = Some s -> inside n (state c) s ->
    (forall j t, j <> i -> routines c !! j = Some t -> outside t) -> invariant n c
| Unreachable : held c = false -> (forall i s, routines c !! i = Some s -> isReturned s) -> mu (state c) = None ->
    cleaning n (state c) (gc c) -> invariant n c.

Lemma entry_outside k : outside (entry k).
Proof. by destruct k as [[]|]. Qed.

Lemma lookup_call (l : list pc) k i s :
  (l ++ [entry k]) !! i = Some s -> l !! i = Some s \/ s = entry k.
Proof. rewrite lookup_app_Some. intros [?|[_ H]]; [by left|right]. by apply list_lookup_singleton_Some in H as [_ <-]. Qed.

(** The goroutine that has the mutex goes on, or gives it back. *)
Lemma advance_inside n a i p s p' s' :
  mu p = Some i -> inside n p s -> advance a i p s = Some (p', s') ->
  exists n', (mu p' = Some i /\ inside n' p' s') \/ (mu p' = None /\ (live n' p' \/ gone n' p') /\ outside s').
Proof.
  intros Hm Hi Ha. destruct p as [pt dn m l], s; simpl in *; try done; unfold soxrCleanup in Ha; simpl in Ha.
  - exists n. destruct pt; simplify_eq; left; auto.
  - exists n. destruct dn; simplify_eq; left; split; auto; unfold live, gone in *; simpl in *; naive_solver.
  - exists (S n). destruct Hi as (Hd & Hp & Hl). simpl in *. subst. left.
    assert (live (S n) (mkShared true false (Some i) (replicate n Process ++ [Process]))) as Hlive.
    { split_and!; [done..|]. simpl. by rewrite <- replicate_cons_app. }
    destruct (soxrErr (processErr a)); [|destruct (more a); [|destruct k]]; simplify_eq; simpl; auto.
  - exists n. destruct Hi as (Hd & Hp & Hl). simpl in *. simplify_eq. left. split; [done|]. by split_and!.
  - exists n. destruct Hi as (Hd & Hp & Hl). simpl in *. simplify_eq. left. split; [done|]. by split_and!.
  - exists n. destruct Hi as (Hd & Hp & Hl). simpl in *. simplify_eq. left. split; [done|]. by split.
  - exists n. destruct Hi as (Hd & Hl). simpl in *. simplify_eq. left. split; [done|]. right. by split.
  - exists n. simplify_eq. right. split; [done|]. by split.
Qed.

(** A goroutine that has not the mutex takes it, if it is free. *)
Lemma advance_outside a i p s p' s' :
  outside s -> advance a i p s = Some (p', s') ->
  exists k, mu p = None /\ s' = Guarding k /\ p' = mkShared (ptr p) (done p) (Some i) (lib p).
Proof. destruct s; simpl; try done. destruct (mu p); naive_solver. Qed.

Lemma run_preserved n c i s a p' s' :
  invariant n c -> routines c !! i = Some s -> advance a i (state c) s = Some (p', s') ->
  exists n', invariant n' (mkConfig p' (<[i := s']> (routines c)) (held c) (gc c)).
Proof.
  intros Hinv Hs Ha. assert (i < length (routines c))%nat as Hlen by (by eapply lookup_lt_Some).
  destruct Hinv as [Hg Hm Hp Hout|i0 s0 Hg Hm Hi Hin Hout|Hh Hret _ _].
  - destruct (advance_outside _ _ _ _ _ _ (Hout _ _ Hs) Ha) as (k & _ & -> & ->). exists n.
    apply (Locked _ _ i (Guarding k)); simpl; [done..|by apply list_lookup_insert_eq|done|].
    intros j t Hj. rewrite list_lookup_insert_ne by done. apply Hout.
  - destruct (decide (i0 = i)) as [->|Hne].
    + simplify_eq. destruct (advance_inside _ _ _ _ _ _ _ Hm Hin Ha) as (n' & [(Hm' & Hin')|(Hm' & Hp' & Ho')]); exists n'.
      * apply (Locked _ _ i s'); simpl; [done..|by apply list_lookup_insert_eq|done|].
        intros j t Hj. rewrite list_lookup_insert_ne by done. by apply Hout.
      * apply Free; simpl; [done..|]. intros j t. destruct (decide (i = j)) as [<-|Hj].
        -- rewrite list_lookup_insert_eq by done. by intros [= <-].
        -- rewrite list_lookup_insert_ne by done. by apply Hout.
    + destruct (advance_outside _ _ _ _ _ _ (Hout _ _ (not_eq_sym Hne) Hs) Ha) as (k & Hk & _). congruence.
  - specialize (Hret _ _ Hs). by destruct s.
Qed.

Lemma collect_preserved n c c' : invariant n c -> collect c = Some c' -> invariant n c'.
Proof.
  intros Hinv Hc. unfold collect in Hc. destruct (gc c) eqn:Hg; simpl in Hc; [| | |done].
  - destruct (negb (held c)) eqn:Hh; simpl in Hc; [|done]. case_match eqn:Hf; [|done]. simplify_eq.
    apply negb_true_iff in Hh. rewrite forallb_forall in Hf.
    assert (forall i s, routines c !! i = Some s -> isReturned s) as Hret.
    { intros i s Hs. apply Is_true_true, Hf, list_elem_of_In. by eapply list_elem_of_lookup_2. }
    destruct Hinv as [_ Hm Hp _|i s _ _ Hi Hin _|_ _ _ Hcl]; [by apply Unreachable| |by rewrite Hg in Hcl].
    specialize (Hret _ _ Hi). by destruct s.
  - destruct Hinv as [Hg' _ _ _|? ? Hg' _ _ _ _|Hh Hret Hm Hcl]; [congruence..|]. rewrite Hg in Hcl.
    unfold soxrCleanup in Hc. simpl in Hcl.
    destruct (done (state c)) eqn:Hd; injection Hc as <-; apply Unreachable; simpl; try done.
    + destruct Hcl as [(Hd' & _)|]; [congruence|done].
    + destruct Hcl as [(_ & Hl)|(Hd' & _)]; [by split|congruence].
  - destruct Hinv as [Hg' _ _ _|? ? Hg' _ _ _ _|Hh Hret Hm Hcl]; [congruence..|]. rewrite Hg in Hcl.
    destruct Hcl as (Hd & Hp & Hl). injection Hc as <-. apply Unreachable; simpl; [done..|]. split; [done|]. simpl. by rewrite Hl.
Qed.

Lemma step_preserved n x c c' : invariant n c -> step x c = Some c' -> exists n', invariant n' c'.
Proof.
  intros Hinv Hx. destruct x as [k|i a| |]; simpl in Hx.
  - destruct (held c) eqn:Hh; [|done]. simplify_eq. exists n.
    destruct Hinv as [Hg Hm Hp Hout|i s Hg Hm Hi Hin Hout|Hh' _ _ _]; [..|congruence].
    + apply Free; simpl; [done..|]. intros j t Hj. apply lookup_call in Hj as [Hj| ->]; [by eapply Hout|apply entry_outside].
    + apply (Locked _ _ i s); simpl; [done..|by apply lookup_app_l_Some|done|]. intros j t Hne Hj.
      apply lookup_call in Hj as [Hj| ->]; [by eapply Hout|apply entry_outside].
  - destruct (routines c !! i) as [s|] eqn:Hs; simpl in Hx; [|done].
    destruct (advance a i (state c) s) as [[p' s']|] eqn:Ha; simpl in Hx; [|done]. simplify_eq.
    by eapply run_preserved.
  - simplify_eq. exists n. destruct Hinv; [by apply Free|by eapply Locked|by apply Unreachable].
  - exists n. by eapply collect_preserved.
Qed.

Lemma life_invariant xs n c c' : invariant n c -> run xs c = Some c' -> exists n', invariant n' c'.
Proof.
  revert n c. induction xs as [|x xs IH]; intros n c Hinv Hr; simpl in Hr; [simplify_eq; eauto|].
  destruct (step x c) as [c1|] eqn:Hx; simpl in Hr; [|done].
  destruct (step_preserved _ _ _ _ Hinv Hx) as [n1 Hinv1]. by eapply IH.
Qed.

Lemma newSoxr_invariant e c : newSoxr e = inl c -> invariant 0 c.
Proof.
  unfold newSoxr. destruct (soxrErr e); [done|]. intros [= <-].
  apply Free; simpl; [done..|left; by split_and!|]. by intros i s Hs; rewrite lookup_nil in Hs.
Qed.

(** ** What follows *)

Lemma invariant_lib n c : invariant n c ->
  lib (state c) = replicate n Process \/ lib (state c) = replicate n Process ++ [Delete].
Proof.
  assert (live n (state c) \/ dying n (state c) \/ gone n (state c) ->
    lib (state c) = replicate n Process \/ lib (state c) = replicate n Process ++ [Delete]) as Hlib.
  { unfold live, dying, gone. naive_solver. }
  intros [_ _ Hp _|i s _ _ _ Hin _|_ _ _ Hcl]; apply Hlib; [naive_solver| |].
  - destruct s; simpl in Hin; naive_solver.
  - destruct (gc c); simpl in Hcl; naive_solver.
Qed.

Lemma invariant_closed n c : invariant n c -> ptr (state c) = false \/ gc c = Cleaned ->
  lib (state c) = replicate n Process ++ [Delete].
Proof.
  intros [Hg _ Hp _|i s Hg _ _ Hin _|_ _ _ Hcl] [Hc|Hc]; try congruence; unfold live, gone, dying in *.
  - naive_solver congruence.
  - destruct s; simpl in Hin; unfold live, gone, dying in *; naive_solver congruence.
  - destruct (gc c); simpl in Hcl; unfold live, gone, dying in *; naive_solver congruence.
  - rewrite Hc in Hcl. apply Hcl.
Qed.

(** What the cleanup has left to do. *)
Definition cleanupLeft (g : cleanup) : nat :=
  match g with Registered => 3 | CleanSwapping => 2 | CleanDeleting => 1 | Cleaned => 0 end.

Definition allReturned (c : config) : Prop := forall i s, routines c !! i = Some s -> isReturned s.

Lemma collect_progress c : held c = false -> allReturned c -> gc c <> Cleaned ->
  exists c', collect c = Some c' /\ held c' = false /\ allReturned c' /\ (cleanupLeft (gc c') < cleanupLeft (gc c))%nat.
Proof.
  intros Hh Hret Hg. unfold collect. destruct (gc c); [| | |done].
  - rewrite Hh. simpl. replace (forallb _ _) with true.
    { eexists. split_and!; try done. simpl. lia. }
    symmetry. apply forallb_forall. intros s Hs. apply list_elem_of_In, list_elem_of_lookup in Hs as [i Hi].
    specialize (Hret _ _ Hi). by destruct s.
  - destruct (soxrCleanup (state c)) as [p []]; eexists; split_and!; try done; simpl; lia.
  - eexists. split_and!; try done. simpl. lia.
Qed.

(** An unreachable writer is collected, and its resampler is deleted by then. *)
Lemma collected n c : held c = false -> allReturned c -> invariant n c ->
  exists ys c', Forall (eq Collect) ys /\ run ys c = Some c' /\ lib (state c') = replicate n Process ++ [Delete].
Proof.
  remember (cleanupLeft (gc c)) as m eqn:Hm. revert c Hm. induction m as [m IH] using lt_wf_ind. intros c -> Hh Hret Hinv.
  destruct (decide (cleanupLeft (gc c) = 0%nat)) as [H0|H0].
  - exists [], c. split_and!; [constructor|done|]. assert (gc c = Cleaned) as Hg by (by destruct (gc c)).
    destruct Hinv as [Hg' _ _ _|? ? Hg' _ _ _ _|_ _ _ Hcl]; [congruence..|]. rewrite Hg in Hcl. apply Hcl.
  - destruct (collect_progress c Hh Hret) as (c1 & Hc & Hh1 & Hret1 & Hlt); [by intros Hg; rewrite Hg in H0|].
    destruct (IH _ Hlt c1 eq_refl Hh1 Hret1) as (ys & c' & Hy & Hr & Hl); [by eapply collect_preserved|].
    exists (Collect :: ys), c'. split_and!; [by constructor| |done]. simpl. by rewrite Hc.
Qed.

(** The goroutine that has the mutex, or any other when none has, can go on. *)
Lemma calls_progress n c : invariant n c ->
  allReturned c \/ exists i, forall a, exists c', step (Run i a) c = Some c'.
Proof.
  intros [Hg Hm Hp Hout|i s Hg Hm Hi Hin Hout|_ Hret _ _]; [| |by left].
  - destruct (decide (Forall isReturned (routines c))) as [Hf|Hf].
    + left. intros i s Hs. by eapply Forall_lookup_1 in Hf.
    + right. apply not_Forall_Exists, Exists_exists in Hf as (s & Hs & Hn); [|apply _].
      apply list_elem_of_lookup in Hs as [i Hi]. exists i. intros a. simpl. rewrite Hi. simpl.
      pose proof (Hout _ _ Hi) as Ho. destruct s; simpl in *; try done. rewrite Hm. simpl. eauto.
  - right. exists i. intros a. simpl. rewrite Hi. simpl.
    destruct s; simpl in *; try done; try (destruct (soxrCleanup (state c)) as [? []]); simpl; eauto.
Qed.

(** C26: Over any interleaving of writes and closes of a resampling writer, of the
    program forgetting it and of the garbage collector, [soxr_delete] is called
    at most once and nothing is called on the pointer after it; once the
    resampler is closed it has been called, and once the writer is forgotten and
    its calls returned the cleanup calls it if [Close] did not, however a call
    ended.  While a call has not returned, some call can take a step. *)
Theorem soxr_deleted_once (e : option str) (c0 c : config) (xs : list choice)
    (Hnew : newSoxr e = inl c0) (Hrun : run xs c0 = Some c) :
  exists n,
    (lib (state c) = replicate n Process \/ lib (state c) = replicate n Process ++ [Delete]) /\
    (ptr (state c) = false \/ gc c = Cleaned -> lib (state c) = replicate n Process ++ [Delete]) /\
    (held c = false -> allReturned c ->
      exists ys c', Forall (eq Collect) ys /\ run ys c = Some c' /\ lib (state c') = replicate n Process ++ [Delete]) /\
    (allReturned c \/ exists i, forall a, exists c', step (Run i a) c = Some c').
Proof.
  destruct (life_invariant xs 0 c0 c) as [n Hinv]; [by eapply newSoxr_invariant|done|]. exists n. split_and!.
  - by apply invariant_lib.
  - by apply invariant_closed.
  - intros Hh Hret. by apply collected.
  - by eapply calls_progress.
Qed.

(** Goroutine 0 writes, 1 closes, 0 of a second write finds the resampler
    closed; the cleanup then has nothing to delete. *)
Definition quiet : answer := mkAnswer None false None.
Definition closing : list choice :=
  [Call (CallWrite [1]); Call CallClose] ++ replicate 5 (Run 0 quiet) ++ replicate 9 (Run 1 quiet) ++
  [Call (CallWrite [2])] ++ replicate 3 (Run 2 quiet) ++ [Drop; Collect; Collect].

Lemma soxr_deleted_once_witness :
  exists c0 c, newSoxr (Some (lit "0")) = inl c0 /\ run closing c0 = Some c /\
    routines c = [Returned None; Returned None; Returned (Some errClosed)] /\ gc c = Cleaned /\
    lib (state c) = [Process; Process; Delete].
Proof.
  destruct (newSoxr (Some (lit "0"))) as [c0|] eqn:H0; [|discriminate].
  destruct (run closing c0) as [c|] eqn:Hr; [|vm_compute in H0; injection H0 as <-; vm_compute in Hr; discriminate].
  exists c0, c. destruct (soxr_deleted_once _ _ _ _ H0 Hr) as (n & Hl & _).
  vm_compute in H0. injection H0 as <-. vm_compute in Hr. injection Hr as <-. repeat split.
Defined.
