(* ===== verification/Tones.v ===== *)
(** * Tones: call progress tones, [src/tones/tones.go]

    A frame records the time and the frequencies that it is generated from; its
    samples are in [Generate].  The ticks
    of the timer, the state of the context at each and the outcome of each write
    are arguments. *)

From Stdlib Require Import Ascii.
From stdpp Require Import base tactics numbers strings list.
From S2P Require Import Prelude GoStr.

#[local] Open Scope go_scope.

Record Tone : Type := mkTone {
  Freq : list Z;
  Dur : duration;
  Silence : duration;
}.

Definition ETSIDial : list Tone := [mkTone [425] 0 0].
Definition ETSIRinging : list Tone := [mkTone [425] Second (4 * Second)].
Definition ETSIBusy : list Tone := [mkTone [425] (Second / 2) (Second / 2)].
Definition USRinging : list Tone := [mkTone [440; 480] (2 * Second) (4 * Second)].
Definition UKRinging : list Tone :=
  [mkTone [400; 450] (400 * Millisecond) (200 * Millisecond); mkTone [400; 450] (400 * Millisecond) (2 * Second)].
Definition JPRinging : list Tone := [mkTone [400] Second (2 * Second)].
Definition AURinging : list Tone :=
  [mkTone [400; 450] (400 * Millisecond) (200 * Millisecond); mkTone [400; 450] (400 * Millisecond) (2 * Second)].

(** [strings.ToUpper], of ASCII text *)
Definition upperByte (c : ascii) : ascii :=
  let b := byteOf c in if (97 <=? b) && (b <=? 122) then chr (b - 32) else c.
Definition ToUpper (s : str) : str := map upperByte s.

Definition RingingByRegion (code : str) : list Tone :=
  let c := ToUpper (TrimSpace code) in
  if decide (c = lit "US") then USRinging
  else if decide (c = lit "CA") then USRinging
  else if decide (c = lit "GB") then UKRinging
  else if decide (c = lit "UK") then UKRinging
  else if decide (c = lit "JP") then JPRinging
  else if decide (c = lit "AU") then AURinging
  else ETSIRinging.

(** ** [Play] *)

Definition frameDur : duration := DefFrameDur.

(** The variables of [Play]. *)
Record player : Type := mkPlayer {
  ts : duration;
  freq : list Z;
  remaining : duration;
  ind : Z;
}.

Definition newPlayer : player := mkPlayer 0 [] 0 (-1).

(** The closure [next]: the index, the tone and whether it is its silence. *)
Definition next (tones : list Tone) (i : Z) : outcome (Z * Tone * bool) :=
  let! i := go_rem (i + 1) (zlen tones * 2) in
  let! t := go_index tones (Z.quot i 2) in
  Ok (i, t, negb (Z.rem i 2 =? 0)).

(** The choice of the next tone or silence. *)
Definition pick (tones : list Tone) (p : player) : outcome player :=
  if remaining p <=? 0 then
    let! (i, t, silence) := next tones (ind p) in
    let! (i, t, silence) := (if silence && (Silence t =? 0) then next tones i else Ok (i, t, silence)) in
    Ok (if silence then mkPlayer (ts p) [] (Silence t) i else mkPlayer (ts p) (Freq t) (Dur t) i)
  else Ok p.

(** A frame: silence, or generated from a time and frequencies. *)
Inductive frame : Type :=
| Silent
| Generated (ts : duration) (freq : list Z).

Definition frameAt (t : duration) (f : list Z) : frame :=
  match f with [] => Silent | _ => Generated t f end.

Definition frameOf (p : player) : frame := frameAt (ts p) (freq p).

Definition elapse (p : player) : player :=
  mkPlayer (i64 (ts p + frameDur)) (freq p) (i64 (remaining p - frameDur)) (ind p).

(** The frames given to the writer and, when [Play] returns, its error. *)
Fixpoint playLoop (tones : list Tone) (ticks : list (option error * option error)) (p : player) (written : list frame)
    : outcome (list frame * option error) :=
  match ticks with
  | [] => Ok (written, None)
  | (cancelled, werr) :: ticks =>
      match cancelled with
      | Some e => Ok (written, Some e)
      | None =>
          let! p := pick tones p in
          match werr with
          | Some e => Ok (written ++ [frameOf p], Some e)
          | None => playLoop tones ticks (elapse p) (written ++ [frameOf p])
          end
      end
  end.

Definition Play (tones : list Tone) (ticks : list (option error * option error)) : outcome (list frame * option error) :=
  playLoop tones ticks newPlayer [].

(** ** The reference: the cadence as a list of frames *)

(** The frames of a tone or silence of a duration: at least one. *)
Definition framesFor (d : duration) : nat := Z.to_nat (Z.max 1 ((d + frameDur - 1) / frameDur)).

(** The frequencies of the frames of a tone and of its silence, if any. *)
Definition toneFrames (t : Tone) : list (list Z) :=
  replicate (framesFor (Dur t)) (Freq t) ++
  (if Silence t =? 0 then [] else replicate (framesFor (Silence t)) []).

Definition cadence (tones : list Tone) : list (list Z) := concat (toneFrames <$> tones).

(** The cadence over and over again: its first [n] frames, with their times. *)
Definition loop (tones : list Tone) (n : nat) : list frame :=
  zip_with (fun i f => frameAt (i64 (i * frameDur)) f)
    (seqZ 0 (Z.of_nat n)) (concat (replicate n (cadence tones))).

(** No tick finds the context cancelled or the writer failing. *)
Definition quietTicks (n : nat) : list (option error * option error) := replicate n (None, None).

(** Tones whose durations are 64-bit and not negative. *)
Definition toneOk (t : Tone) : Prop := 0 <= Dur t <= maxDuration /\ 0 <= Silence t <= maxDuration.

(** A tone or silence that lasts a whole number of frames. *)
Definition exact (t : Tone) : Prop := Dur t mod frameDur = 0 /\ Silence t mod frameDur = 0.

(** ** [Play] follows the cadence *)

Section play.
Context (tones : list Tone).
Hypothesis tones_some : tones <> [].
Hypothesis tones_ok : Forall toneOk tones.

Definition segments : nat := 2 * length tones.

(** The frames of segment [i]: tones at even places, silences at odd ones. *)
Definition segment (i : nat) : list (list Z) :=
  match tones !! (i / 2)%nat with
  | None => []
  | Some t =>
      if (i mod 2 =? 0)%nat then replicate (framesFor (Dur t)) (Freq t)
      else if Silence t =? 0 then [] else replicate (framesFor (Silence t)) []
  end.

Definition upcoming (i m : nat) : list (list Z) :=
  concat (segment <$> seq i (segments - i)) ++ concat (replicate m (cadence tones)).

Lemma cadence_segments : concat (segment <$> seq 0 segments) = cadence tones.
Proof.
  unfold segments, cadence. assert (H : forall (l : list Tone) k, (forall i, l !! i = tones !! (k + i)%nat) ->
    concat (segment <$> seq (2 * k) (2 * length l)) = concat (toneFrames <$> l)).
  { induction l as [|t l IH]; intros k Hl; [done|].
    replace (2 * length (t :: l))%nat with (S (S (2 * length l))) by (simpl; lia). rewrite <- !cons_seq, !fmap_cons. cbn [concat].
    rewrite <- (IH (S k)).
    - replace (2 * S k)%nat with (S (S (2 * k))) by lia. rewrite app_assoc. f_equal.
      assert (Hk : tones !! k = Some t) by (rewrite <- (Nat.add_0_r k), <- Hl; done).
      unfold segment, toneFrames.
      replace (S (2 * k)) with (1 + k * 2)%nat by lia. replace (2 * k)%nat with (0 + k * 2)%nat by lia.
      rewrite !Nat.div_add, !Nat.Div0.mod_add by lia. simpl. rewrite Hk. done.
    - intros i. replace (S k + i)%nat with (k + S i)%nat by lia. apply (Hl (S i)). }
  apply (H tones 0%nat). done.
Qed.

Lemma upcoming_cons i m : (i < segments)%nat -> upcoming i m = segment i ++ upcoming (S i) m.
Proof.
  intros Hi. unfold upcoming. replace (segments - i)%nat with (S (segments - S i)) by lia.
  rewrite <- cons_seq. simpl. by rewrite app_assoc.
Qed.

Lemma upcoming_wrap m : upcoming segments (S m) = upcoming 0 m.
Proof.
  unfold upcoming. rewrite Nat.sub_diag, Nat.sub_0_r, cadence_segments. done.
Qed.

Lemma segments_pos : (0 < segments)%nat.
Proof. unfold segments. destruct tones; [done|simpl; lia]. Qed.

(** The index after [i], and what is upcoming from it. *)
Definition after (i : nat) : nat := (i mod segments)%nat.

Lemma upcoming_after i m :
  (i <= segments)%nat -> upcoming i m <> [] ->
  exists m', upcoming i m = segment (after i) ++ upcoming (S (after i)) m' /\ (S (after i) <= segments)%nat.
Proof.
  intros Hi Hne. pose proof segments_pos as Hpos. unfold after. destruct (decide (i = segments)) as [->|Hlt].
  - rewrite Nat.Div0.mod_same by lia. destruct m as [|m].
    + unfold upcoming in Hne. by rewrite Nat.sub_diag in Hne.
    + exists m. rewrite upcoming_wrap, upcoming_cons by done. split; [done|lia].
  - rewrite Nat.mod_small by lia. exists m. rewrite upcoming_cons by lia. split; [done|lia].
Qed.

Lemma next_spec k :
  (k <= segments)%nat ->
  exists t, next tones (Z.of_nat k - 1) = Ok (Z.of_nat (after k), t, negb (after k mod 2 =? 0)%nat) /\
    tones !! (after k / 2)%nat = Some t.
Proof.
  intros Hk. pose proof segments_pos as Hpos. unfold next, segments in *.
  assert (Ha : (after k < 2 * length tones)%nat) by (apply Nat.mod_upper_bound; lia).
  destruct (lookup_lt_is_Some_2 tones (after k / 2)) as [t Ht]; [apply Nat.Div0.div_lt_upper_bound; lia|].
  exists t. split; [|done]. rewrite go_rem_Ok by (unfold zlen; lia). cbn [obind].
  assert (((Z.of_nat k - 1 + 1) mod (zlen tones * 2)) = Z.of_nat (after k)) as ->.
  { unfold after, segments, zlen. rewrite Nat2Z.inj_mod. f_equal; lia. }
  rewrite (go_index_Ok _ _ t); [|apply Z.quot_pos; lia|].
  2: { rewrite Z.quot_div_nonneg by lia. change 2 with (Z.of_nat 2). by rewrite <- Nat2Z.inj_div, Nat2Z.id. }
  cbn [obind]. do 3 f_equal. rewrite Z.rem_mod_nonneg by lia. change 2 with (Z.of_nat 2). rewrite <- Nat2Z.inj_mod.
  destruct (Nat.eqb_spec (after k mod 2) 0) as [->|Hne]; [done|]. apply Z.eqb_neq. lia.
Qed.

(** Frames left of a tone of which [r] remains. *)
Definition framesLeft (r : duration) : nat := Z.to_nat ((r + frameDur - 1) / frameDur).

Lemma framesFor_S d : 0 <= d -> framesFor d = S (framesLeft (d - frameDur)).
Proof. intros Hd. unfold framesFor, framesLeft. change frameDur with 20000000. lia. Qed.

Lemma framesLeft_S r : 0 < r -> framesLeft r = S (framesLeft (r - frameDur)).
Proof. intros Hr. unfold framesLeft. change frameDur with 20000000. lia. Qed.

Lemma framesLeft_0 r : r <= 0 -> framesLeft r = 0%nat.
Proof. intros Hr. unfold framesLeft. change frameDur with 20000000. lia. Qed.

Lemma tone_ok i t : tones !! i = Some t -> toneOk t.
Proof. intros Hi. rewrite Forall_lookup in tones_ok. by eapply tones_ok. Qed.

Lemma after_even k : (k <= segments)%nat -> (k mod 2 = 0)%nat -> (after k mod 2 = 0)%nat.
Proof.
  intros Hk H2. unfold after. destruct (decide (k = segments)) as [->|Hne].
  - by rewrite Nat.Div0.mod_same.
  - rewrite (Nat.mod_small k segments); [done|lia].
Qed.

(** Where [pick] leaves the player, and what is upcoming from there. *)
Definition picked (p : player) (stream : list (list Z)) (p' : player) : Prop :=
  exists k m, ts p' = ts p /\ ind p' = Z.of_nat k - 1 /\ (k <= segments)%nat /\
    0 <= remaining p' <= maxDuration /\
    stream = freq p' :: replicate (framesLeft (remaining p' - frameDur)) (freq p') ++ upcoming k m.

Lemma picked_segment p i m d f t0 :
  (S i <= segments)%nat -> 0 <= d <= maxDuration -> segment i = replicate (framesFor d) f -> t0 = ts p ->
  picked p (segment i ++ upcoming (S i) m) (mkPlayer t0 f d (Z.of_nat i)).
Proof.
  intros Hi Hd Hs ->. exists (S i), m. simpl. split_and!; try done; [lia|lia|lia|].
  rewrite Hs, framesFor_S by lia. done.
Qed.

Lemma next_tone_spec p k m :
  ind p = Z.of_nat k - 1 -> (k <= segments)%nat -> remaining p <= maxDuration ->
  replicate (framesLeft (remaining p)) (freq p) ++ upcoming k m <> [] ->
  exists p', pick tones p = Ok p' /\ picked p (replicate (framesLeft (remaining p)) (freq p) ++ upcoming k m) p'.
Proof.
  intros Hi Hk Hr Hne. unfold pick. case_if.
  2: { exists p. split; [done|]. exists k, m. rewrite framesLeft_S by lia. split_and!; try done; lia. }
  rewrite framesLeft_0 in * by done. simpl in Hne |- *. rewrite Hi.
  destruct (next_spec k Hk) as (t & -> & Ht). cbn [obind].
  destruct (upcoming_after k m Hk Hne) as (m1 & Hup & Hk1). rewrite Hup in *.
  pose proof (tone_ok _ _ Ht) as [Hd Hsi]. unfold segment in Hup, Hne at 1. rewrite Ht in *.
  destruct (after k mod 2 =? 0)%nat eqn:E1; cbn [negb andb].
  - cbn [obind]. eexists. split; [done|]. apply picked_segment; try done. unfold segment. by rewrite Ht, E1.
  - destruct (Silence t =? 0) eqn:E2; cbn [andb].
    + assert (Hseg : segment (after k) = []) by (unfold segment; by rewrite Ht, E1, E2). rewrite Hseg. simpl in Hne |- *.
      destruct (upcoming_after _ _ Hk1 Hne) as (m2 & Hup2 & Hk2). rewrite Hup2.
      replace (Z.of_nat (after k)) with (Z.of_nat (S (after k)) - 1) by lia.
      destruct (next_spec _ Hk1) as (t2 & -> & Ht2). cbn [obind].
      pose proof (tone_ok _ _ Ht2) as [Hd2 _]. apply Nat.eqb_neq in E1.
      assert (Hev : (after (S (after k)) mod 2 = 0)%nat).
      { apply after_even; [done|]. pose proof (Nat.mod_upper_bound (after k) 2).
        replace (S (after k)) with (after k + 1)%nat by lia. rewrite Nat.Div0.add_mod.
        replace (after k mod 2)%nat with 1%nat by lia. done. }
      rewrite Hev. cbn [Nat.eqb negb]. eexists. split; [done|].
      apply picked_segment; try done. unfold segment. by rewrite Ht2, Hev.
    + cbn [obind]. eexists. split; [done|]. apply picked_segment; try done. unfold segment. by rewrite Ht, E1, E2.
Qed.

(** Frames with their times. *)
Fixpoint stamp (t : duration) (fs : list (list Z)) : list frame :=
  match fs with
  | [] => []
  | f :: fs => frameAt t f :: stamp (i64 (t + frameDur)) fs
  end.

Lemma playLoop_spec n p k m written :
  ind p = Z.of_nat k - 1 -> (k <= segments)%nat -> - frameDur <= remaining p <= maxDuration ->
  (n <= length (replicate (framesLeft (remaining p)) (freq p) ++ upcoming k m))%nat ->
  playLoop tones (quietTicks n) p written =
  Ok (written ++ stamp (ts p) (take n (replicate (framesLeft (remaining p)) (freq p) ++ upcoming k m)), None).
Proof.
  revert p k m written. induction n as [|n IH]; intros p k m written Hi Hk Hr Hn; [by rewrite app_nil_r|].
  destruct (next_tone_spec p k m Hi Hk) as (p' & Hp & k' & m' & Hts & Hi' & Hk' & Hr' & Hst).
  - lia.
  - intros H. rewrite H in Hn. simpl in Hn. lia.
  - rewrite Hst in *. cbn [quietTicks replicate playLoop]. rewrite Hp. cbn [obind].
    assert (Hrem : remaining (elapse p') = remaining p' - frameDur).
    { simpl. unfold i64, maxDuration in *. change frameDur with 20000000 in *. lia. }
    rewrite <- Hrem in *. change (freq p') with (freq (elapse p')) in *.
    fold (quietTicks n). rewrite (IH (elapse p') k' m').
    + rewrite <- (app_assoc written). simpl. unfold frameOf. by rewrite Hts.
    + done.
    + done.
    + rewrite Hrem. change frameDur with 20000000 in *. lia.
    + simpl in Hn |- *. lia.
Qed.

End play.

Lemma stamp_zip n t fs :
  stamp (i64 (t * frameDur)) (take n fs) =
  zip_with (fun i f => frameAt (i64 (i * frameDur)) f) (seqZ t (Z.of_nat n)) fs.
Proof.
  revert t fs. induction n as [|n IH]; intros t fs; [done|]. rewrite seqZ_cons by lia.
  destruct fs as [|f fs]; [done|]. simpl. f_equal.
  replace (Z.pred (Z.of_nat (S n))) with (Z.of_nat n) by lia. rewrite <- IH. f_equal.
  unfold Z.succ, i64. change frameDur with 20000000. lia.
Qed.

Lemma toneFrames_length t : (1 <= length (toneFrames t))%nat.
Proof. unfold toneFrames. rewrite length_app, length_replicate. unfold framesFor. lia. Qed.

Lemma loop_long tones n : tones <> [] -> (n <= length (concat (replicate n (cadence tones))))%nat.
Proof.
  intros Hne. assert (1 <= length (cadence tones))%nat.
  { destruct tones as [|t tones]; [done|]. unfold cadence. simpl. rewrite length_app. pose proof (toneFrames_length t). lia. }
  induction n as [|n IH]; [simpl; lia|]. simpl. rewrite length_app. lia.
Qed.

(** ** The ringback tone of a region *)

Lemma isSpace_lower c : isSpace (lowerByte c) = isSpace c.
Proof. destruct c as [[] [] [] [] [] [] [] []]; reflexivity. Qed.

Lemma upper_lower c : upperByte (lowerByte c) = upperByte c.
Proof. destruct c as [[] [] [] [] [] [] [] []]; reflexivity. Qed.

Lemma trimLeft_lower s : trimLeft (ToLower s) = ToLower (trimLeft s).
Proof.
  induction s as [|c s IH]; [done|]. unfold ToLower in *. simpl. rewrite isSpace_lower. by destruct (isSpace c).
Qed.

Lemma ToLower_reverse s : ToLower (reverse s) = reverse (ToLower s).
Proof. unfold ToLower. by rewrite <- fmap_reverse. Qed.

Lemma upper_trim_lower s : ToUpper (TrimSpace (ToLower s)) = ToUpper (TrimSpace s).
Proof.
  unfold TrimSpace. rewrite trimLeft_lower, <- ToLower_reverse, trimLeft_lower, <- ToLower_reverse.
  unfold ToUpper, ToLower. rewrite map_map. apply map_ext. apply upper_lower.
Qed.

Definition regionTones : list (list Tone) := [USRinging; UKRinging; JPRinging; AURinging; ETSIRinging].

Lemma RingingByRegion_in code : RingingByRegion code ∈ regionTones.
Proof. unfold RingingByRegion, regionTones. repeat case_decide; repeat constructor. Qed.

Definition goodTones (l : list Tone) : Prop := l <> [] /\ Forall toneOk l /\ Forall exact l.

Lemma regionTones_good : Forall goodTones regionTones.
Proof.
  repeat constructor; try discriminate; unfold maxDuration; simpl; unfold Second, Millisecond; lia.
Qed.

(** C39: [Play] repeats the cadence of its tones for as long as it runs: each tone
    and each silence takes its duration rounded up to whole frames of 20 ms, at
    least one (so a tone without a duration, the dial tone, never stops), a
    silence of no duration is skipped, and frame [i] is generated at time
    [20 ms * i].  The ringback tone of every region can be played, lasts whole
    frames, so that its cadence is exact, and does not depend on the case of the
    code. *)
Theorem play_repeats_cadence (tones : list Tone) (n : nat) (code : str)
    (Hsome : tones <> []) (Hok : Forall toneOk tones) :
  Play tones (quietTicks n) = Ok (loop tones n, None) /\
  goodTones (RingingByRegion code) /\ RingingByRegion (ToLower code) = RingingByRegion code.
Proof.
  split; [|split].
  - unfold Play. pose proof (loop_long tones n Hsome) as Hlen.
    assert (Hup : upcoming tones 0 n = concat (segment tones <$> seq 0 (segments tones)) ++ concat (replicate n (cadence tones)))
      by (unfold upcoming; by rewrite Nat.sub_0_r).
    rewrite (playLoop_spec tones Hsome Hok n newPlayer 0 n []); simpl; [| done | lia | | ].
    + rewrite Hup, cadence_segments. unfold loop. rewrite <- (stamp_zip n 0). simpl.
      do 3 f_equal. change (cadence tones ++ concat (replicate n (cadence tones))) with (concat (replicate (S n) (cadence tones))).
      rewrite replicate_S_end, concat_app, take_app_le by done. done.
    + unfold maxDuration. change frameDur with 20000000. lia.
    + rewrite Hup, length_app. lia.
  - pose proof regionTones_good as H. rewrite Forall_forall in H. apply H, RingingByRegion_in.
  - unfold RingingByRegion. by rewrite upper_trim_lower.
Qed.

Lemma play_repeats_cadence_witness :
  Play [mkTone [425] (60 * Millisecond) (30 * Millisecond)] (quietTicks 6) =
    Ok ([Generated 0 [425]; Generated 20000000 [425]; Generated 40000000 [425]; Silent; Silent;
         Generated 100000000 [425]], None) /\
  RingingByRegion (lit " gb ") = UKRinging.
Proof.
  split; [|reflexivity].
  destruct (play_repeats_cadence [mkTone [425] (60 * Millisecond) (30 * Millisecond)] 6 []) as [H _].
  - discriminate.
  - repeat constructor; unfold maxDuration; simpl; unfold Millisecond; lia.
  - rewrite H. reflexivity.
Defined.

(** Without tones the first tick panics. *)
Lemma play_nothing n : Play [] (quietTicks (S n)) = Panic.
Proof. reflexivity. Qed.
