(* ===== verification/SdpFormats.v ===== *)
(** * SdpFormats: payload types without a name

    [ParseMediaWith] looks up a format that has no rtpmap in the table
    [codecByType] of [src/rtp/codecs.go], an array of [0xff] entries, by
    [byte(ci.Type)]. *)

From Stdlib Require Import Ascii.
From stdpp Require Import base tactics numbers strings list sets gmap.
From S2P Require Import Prelude GoStr Codecs CodecList Srtp Sdp SdpParse SdpProps.

#[local] Open Scope go_scope.

Section formats.
Context `{SrtpLib} `{SdpLib} `{Constants}.

Lemma codecByTypeFrom_length t cs t' : codecByTypeFrom t cs = Ok t' -> length t' = length t.
Proof.
  revert t. induction cs as [|c cs IH]; intros t; simpl; [by intros [= ->]|].
  unfold setByType. destruct (RTPIsStatic (info c)); simpl; [|by apply IH].
  unfold go_set. destruct (_ || _); simpl; [done|]. intros Ht%IH. by rewrite Ht, length_insert.
Qed.

Lemma CodecByPayloadType_panics w t typ :
  codecByType w = Ok t -> 0 <= typ < 256 -> CodecByPayloadType w typ = Panic <-> typ = 255.
Proof.
  intros Ht Hr. unfold CodecByPayloadType. rewrite Ht. simpl.
  apply codecByTypeFrom_length in Ht. rewrite length_replicate in Ht. unfold go_index. case_if; [lia|].
  destruct (t !! Z.to_nat typ) as [c|] eqn:E.
  - apply lookup_lt_Some in E. split; [done|lia].
  - apply lookup_ge_None in E. split; [lia|done].
Qed.

(** A parsed codec whose lookup is out of the table. *)
Definition beyondTable (ci : parsedCodec) : Prop := pName ci = [] /\ u8 (pType ci) = 255.

Lemma lookupCodec_panics w s t ci : codecByType w = Ok t -> lookupCodec w s ci = Panic <-> beyondTable ci.
Proof.
  intros Ht. unfold lookupCodec, beyondTable. pose proof (CodecByPayloadType_panics w t (u8 (pType ci)) Ht (u8_range _)) as Hp.
  assert (Hrest : forall o, match o with
      | None => Ok (mkCodec (u8 (pType ci)) None noInfo)
      | Some c => let '(i, ok) := Supports c (pConfig ci) in Ok (mkCodec (u8 (pType ci)) (if ok then Some c else None) i)
      end <> Panic) by (intros [c|]; [destruct (Supports c (pConfig ci))|]; done).
  case_decide as Hn.
  - simpl. split; [intros E; by destruct (Hrest _ E)|]. intros [? _]. done.
  - destruct (CodecByPayloadType w (u8 (pType ci))) as [o|] eqn:E; simpl.
    + split; [intros E'; by destruct (Hrest _ E')|]. intros [_ H255]. apply Hp in H255. done.
    + split; [|done]. intros _. split; [by destruct (pName ci)|]. by apply Hp.
Qed.

Lemma lookupCodecs_panics w s t cs :
  codecByType w = Ok t -> lookupCodecs w s cs = Panic <-> Exists beyondTable cs.
Proof.
  intros Ht. induction cs as [|ci cs IH]; simpl.
  - split; [done|]. by intros ?%Exists_nil.
  - rewrite Exists_cons, <- IH, <- (lookupCodec_panics w s t ci Ht).
    destruct (lookupCodec w s ci) as [c|]; simpl; [|naive_solver].
    destruct (lookupCodecs w s cs); simpl; naive_solver.
Qed.

(** Parsing a media description panics exactly when it lists a format that
    no rtpmap names and whose number is 255 modulo 256: the table of static types
    has 255 entries, so the last byte is out of range, in every set and with every
    registry. *)
Theorem nameless_format_panics (w : world) (s : option nat) (d : MediaDescription)
    (t : list (option CodecType)) (st : parseState)
    (Ht : codecByType w = Ok t)
    (Hst : parseAttributes (Attributes d) (mkParse [] [] 0) = Ok (inl st)) :
  ParseMediaWith w s d = Panic <-> Exists beyondTable (addFormats (Formats d) (pCodecs st)).
Proof.
  unfold ParseMediaWith. rewrite Hst. simpl. rewrite <- (lookupCodecs_panics w s t _ Ht).
  destruct (lookupCodecs w s _); simpl; done.
Qed.

(** A nil codec set stands for the global one when a codec is looked up by name,
    but not when it is looked up by its payload type: it then enables none. *)
Lemma nil_set_names w ci : pName ci <> [] -> lookupCodec w None ci = lookupCodec w (Some globalSet) ci.
Proof. intros Hn. unfold lookupCodec. by rewrite !decide_True by done. Qed.

Lemma nil_set_types w ci c : pName ci = [] -> lookupCodec w None ci = Ok c -> c = mkCodec (u8 (pType ci)) None noInfo.
Proof.
  intros Hn. unfold lookupCodec. rewrite decide_False by auto.
  destruct (CodecByPayloadType w _) as [o|]; simpl; [|done]. by intros [= <-].
Qed.

End formats.

Import Example.

(** "m=audio 5004 RTP/AVP 0": PCMU for the global set, an unknown codec for nil. *)
Lemma nil_set_pcmu :
  let m := mkMedia (lit "audio") 5004 [lit "RTP"; lit "AVP"] [lit "0"] [] None in
  (match ParseMedia offering m with Ok (inl md) => Name <$> (typeInfo <$> (Info <$> AudioCodecs md)) | _ => [] end)
    = [lit "PCMU"] /\
  ParseMediaWith offering None m = Ok (inl (mkDesc [] [] [mkCodec 0 None noInfo] [] 0)).
Proof. split; vm_compute; reflexivity. Qed.

(** "m=audio 5004 RTP/AVP 0 255", as a remote side may send it. *)
Definition remoteMedia : MediaDescription :=
  mkMedia (lit "audio") 5004 [lit "RTP"; lit "AVP"] [lit "0"; lit "255"] [] None.

Lemma remote_beyond : Exists beyondTable (addFormats (Formats remoteMedia) []).
Proof. apply Exists_cons_tl, Exists_cons_hd. vm_compute. split; reflexivity. Qed.

Lemma nameless_format_panics_witness :
  ParseMediaWith Example.offering None remoteMedia = Panic.
Proof.
  destruct (codecByType Example.offering) as [t|] eqn:Ht.
  - apply (nameless_format_panics Example.offering None remoteMedia t (mkParse [] [] 0) Ht).
    + reflexivity.
    + exact remote_beyond.
  - exfalso. vm_compute in Ht. discriminate Ht.
Defined.
