(* ===== verification/Generate.v ===== *)
(** * Generate: the samples of a tone, [Generate] of [src/tones/tones.go]

    The sine is that of Go's [math] package. *)

From Stdlib Require Import SpecFloat.
From stdpp Require Import base tactics numbers list.
From S2P Require Import Prelude GoFloat FloatBounds Tones.

#[local] Open Scope go_scope.

(** [math.Pi] as a [float64] *)
Definition Pi : float := S754_finite false 7074237752028440 (-51).

(** [Duration.Seconds] *)
Definition Seconds (d : duration) : float :=
  fadd (ofInt (Z.quot d Second)) (fdiv (ofInt (Z.rem d Second)) (ofInt 1000000000)).

Section generate.
Context `{Conversions} (sin : float -> float).

Definition phase (phi : duration) (hz : Z) : float := fmul (Seconds (i64 (i64 (phi * hz) * 2))) Pi.

Definition sines (phi : duration) (freq : list Z) : float :=
  fold_left (fun sum hz => fadd sum (sin (phase phi hz))) freq (S754_zero false).

Definition sampleOf (phi : duration) (amp : Z) (freq : list Z) : Z :=
  match freq with
  | [] => 0
  | _ => toInt16 (fdiv (fmul (ofInt amp) (sines phi freq)) (ofInt (zlen freq)))
  end.

(** The samples of a buffer of [n], and the time after it. *)
Definition Generate (n : nat) (ts dur : duration) (amp : Z) (freq : list Z) : list Z * duration :=
  ((fun i => sampleOf (i64 (ts + Z.quot (i64 (dur * i)) (Z.of_nat n))) amp freq) <$> seqZ 0 (Z.of_nat n), i64 (ts + dur)).

(** The buffer that [Play] writes for a frame. *)
Definition render (n : nat) (vol : Z) (f : frame) : list Z :=
  match f with
  | Silent => replicate n 0
  | Generated ts freq => fst (Generate n ts frameDur vol freq)
  end.

(** ** No sample is louder than the amplitude *)

Hypothesis sin_bounded : forall x, within top x -> within 1 (sin x).

Lemma phase_within phi hz : within top (phase phi hz).
Proof.
  unfold phase, Seconds. set (d := i64 (i64 (phi * hz) * 2)).
  assert (-9223372036854775808 <= d <= 9223372036854775807) as Hd by (unfold d; word_lia).
  clearbody d. apply within_le with ((2 ^ 34 + 1) * 4); [done|].
  apply fmul_within; [|by vm_compute|done]. apply fadd_within; [| |done].
  - apply ofInt_within. unfold Second. split; [lia|done].
  - apply fdiv_within; [|done|done]. apply ofInt_within. unfold Second. split; [lia|done].
Qed.

Lemma sines_within phi freq : zlen freq <= top -> within (zlen freq) (sines phi freq).
Proof.
  unfold sines. intros Hlen.
  assert (forall b y, 0 <= b -> b + zlen freq <= top -> within b y ->
    within (b + zlen freq) (fold_left (fun sum hz => fadd sum (sin (phase phi hz))) freq y)) as Hfold.
  { clear Hlen. induction freq as [|hz freq IH]; intros b y Hb Htop Hy; [by rewrite Z.add_0_r|].
    assert (zlen (hz :: freq) = 1 + zlen freq) as Hz by (unfold zlen; simpl; lia). rewrite Hz in *. simpl.
    pose proof (zlen_nonneg freq). rewrite Z.add_assoc. apply IH; [lia|lia|].
    apply fadd_within; [done|apply sin_bounded, phase_within|lia]. }
  apply (Hfold 0); [done|lia|done].
Qed.

Lemma sampleOf_bounded phi amp freq : -32768 < amp <= 32767 -> zlen freq <= 2 ^ 30 -> Z.abs (sampleOf phi amp freq) <= Z.abs amp.
Proof.
  intros Ha Hf. unfold sampleOf. destruct freq as [|hz freq]; [lia|]. set (fs := hz :: freq) in *.
  assert (1 <= zlen fs) by (unfold fs, zlen; simpl; lia). clearbody fs. clear hz freq. unfold top in *.
  assert (within (Z.abs amp) (fdiv (fmul (ofInt amp) (sines phi fs)) (ofInt (zlen fs)))) as Hw.
  { apply fdiv_within; [|unfold top; lia|unfold top; nia].
    apply fmul_within; [apply ofInt_within; unfold top; lia|apply sines_within; unfold top; lia|unfold top; nia]. }
  apply within_truncated in Hw as (t & Ht & Hb). unfold toInt16. rewrite (convert_fits _ _ _ t Ht); lia.
Qed.

(** C38: The buffer is filled; no sample exceeds the amplitude, so none is left to
    the conversion of a number that does not fit; without frequencies all are
    zero; the time advances by the duration. *)
Theorem generate_bounds (n : nat) (ts dur : duration) (amp : Z) (freq : list Z)
    (Hamp : -32768 < amp <= 32767) (Hfreq : zlen freq <= 2 ^ 30) :
  let '(buf, t) := Generate n ts dur amp freq in
  length buf = n /\ Forall (fun v => Z.abs v <= Z.abs amp) buf /\ (freq = [] -> buf = replicate n 0) /\ t = i64 (ts + dur).
Proof.
  simpl. split_and!; [by rewrite length_fmap, length_seqZ, Nat2Z.id| | |done].
  - apply Forall_fmap, Forall_true. intros i. simpl. by apply sampleOf_bounded.
  - intros ->. simpl. apply list_eq_same_length with (n := n);
      [by rewrite length_replicate|by rewrite length_fmap, length_seqZ, Nat2Z.id|].
    intros i x y Hi H1 H2. apply lookup_replicate in H2 as [-> _]. apply list_lookup_fmap_Some in H1 as (z & -> & _). done.
Qed.

(** Every frame that is rendered is a frame of samples within the volume. *)
Corollary render_bounds (n : nat) (vol : Z) (f : frame) :
  -32768 < vol <= 32767 -> (match f with Silent => 0 | Generated _ freq => zlen freq end) <= 2 ^ 30 ->
  length (render n vol f) = n /\ Forall (fun v => Z.abs v <= Z.abs vol) (render n vol f).
Proof.
  intros Hv Hf. destruct f as [|ts freq]; simpl; [split; [by rewrite length_replicate|apply Forall_replicate; lia]|].
  destruct (generate_bounds n ts frameDur vol freq Hv Hf) as (H1 & H2 & _). by split.
Qed.

End generate.

(** A square wave instead of a sine. *)
Definition square (x : float) : float := if SFltb x (S754_zero false) then ofInt (-1) else ofInt 1.

Lemma square_bounded x : within top x -> within 1 (square x).
Proof. intros _. unfold square. destruct (SFltb _ _); by vm_compute. Qed.

Lemma generate_bounds_witness :
  let '(buf, t) := @Generate lowest square 4 0 frameDur 1000 [440; 480] in
  length buf = 4%nat /\ Forall (fun v => Z.abs v <= 1000) buf /\ buf = [1000; 1000; 1000; 1000] /\ t = frameDur.
Proof.
  destruct (@generate_bounds lowest square square_bounded 4 0 frameDur 1000 [440; 480]) as (H1 & H2 & _ & H4); [lia|done|].
  split_and!; [exact H1|exact H2|vm_compute; reflexivity|done].
Defined.
