(* ===== verification/Writers.v ===== *)
(** * Writers: the interface of frame writers, and the writers that pass on

    [Writer] and [WriteCloser] of [src/media.go], [BytesWriter] of
    [src/bytes.go], and the writers of [src/media.go], [src/pcm.go],
    [src/buffers.go], [src/gain.go] and [src/bytes.go] that put no logic between
    their input and the writer below.  A component is parameterised by the type
    [W] of the writer below; a chain of writers is a state within a state, and
    its operations are found by instance resolution. *)

From stdpp Require Import base tactics numbers strings list.
From S2P Require Import Prelude Media.

#[local] Open Scope go_scope.

(** ** The interfaces *)

(** [WriteSample] (or [WriteRaw]) and [Close]: the new state and the error. *)
Class WriterOps (F W : Type) : Type := {
  wput : F -> W -> outcome (W * option error);
  wclose : W -> outcome (W * option error);
}.

(** [SampleRate] *)
Class RateOps (W : Type) : Type := { wrate : W -> outcome Z }.

(** What a writer promises to the one that writes to it: in a state that is
    [good] it takes every frame that is [ok] without a panic, and so on; it
    may always be closed. *)
Class Serves {F W : Type} `{WriterOps F W} (ok : F -> Prop) (good : W -> Prop) : Prop := {
  serves_put f w : good w -> ok f -> exists w' e, wput f w = Ok (w', e) /\ good w';
  serves_close w : good w -> exists w' e, wclose w = Ok (w', e) /\ good w';
}.

(** The sample rate is part of a writer's type: it stays what it is. *)
Class HasRate {W : Type} `{RateOps W} (r : Z) (good : W -> Prop) : Prop := {
  has_rate w : good w -> wrate w = Ok r;
}.

Definition sampleOk (v : Z) : Prop := -32768 <= v <= 32767.
Definition byteOk (b : Z) : Prop := 0 <= b < 256.

(** A frame of PCM samples, a frame of bytes. *)
Definition pcm (s : list Z) : Prop := Forall sampleOk s.
Definition raw (s : list Z) : Prop := Forall byteOk s.

Section putAll.
Context {F W : Type} `{WriterOps F W}.

(** Frames written one after the other. *)
Fixpoint putAll (fs : list F) (w : W) : outcome (W * list (option error)) :=
  match fs with
  | [] => Ok (w, [])
  | f :: fs =>
      let! (w, e) := wput f w in
      let! (w, es) := putAll fs w in
      Ok (w, e :: es)
  end.

Lemma putAll_app fs gs w :
  putAll (fs ++ gs) w =
    let! (w, es) := putAll fs w in
    let! (w, es') := putAll gs w in
    Ok (w, es ++ es').
Proof.
  revert w. induction fs as [|f fs IH]; intros w; simpl; [by destruct (putAll gs w) as [[? ?]|]|].
  destruct (wput f w) as [[w1 e]|]; [|done]. simpl. rewrite IH.
  destruct (putAll fs w1) as [[w2 es]|]; [|done]. simpl. by destruct (putAll gs w2) as [[? ?]|].
Qed.

Lemma serves_putAll (ok : F -> Prop) (good : W -> Prop) `{!Serves ok good} fs w :
  good w -> Forall ok fs -> exists w' es, putAll fs w = Ok (w', es) /\ good w'.
Proof.
  intros Hg Hfs. revert w Hg. induction Hfs as [|f fs Hf _ IH]; intros w Hg; simpl; [eauto|].
  destruct (serves_put f w Hg Hf) as (w1 & e & -> & Hg1). simpl.
  destruct (IH w1 Hg1) as (w2 & es & -> & Hg2). simpl. eauto.
Qed.

(** The last error of several calls. *)
Definition lastError (es : list (option error)) : option error := multiLast es None.

End putAll.

(** ** A writer outside: what it has received, and what it answers

    [frameWriter] of [src/buffers.go] is the one whose calls all succeed, and
    [NewFuncWriteCloser] of [src/media.go] the one whose function is arbitrary. *)

Record sink (F : Type) : Type := mkSink {
  sinkRate : Z;
  got : list F;
  closings : nat;
  putErr : nat -> option error;   (* of the k-th call *)
  closeErr : option error;
}.
Arguments mkSink {F}.
Arguments sinkRate {F}.
Arguments got {F}.
Arguments closings {F}.
Arguments putErr {F}.
Arguments closeErr {F}.

#[export] Instance sink_ops F : WriterOps F (sink F) := {|
  wput f s := Ok (mkSink (sinkRate s) (got s ++ [f]) (closings s) (putErr s) (closeErr s), putErr s (length (got s)));
  wclose s := Ok (mkSink (sinkRate s) (got s) (S (closings s)) (putErr s) (closeErr s), closeErr s);
|}.
#[export] Instance sink_rate F : RateOps (sink F) := {| wrate s := Ok (sinkRate s) |}.

(** [NewFrameWriter], [NewPCM16FrameWriter]: appends a copy of every frame. *)
Definition NewFrameWriter {F : Type} (buf : list F) (rate : Z) : sink F := mkSink rate buf 0 (fun _ => None) None.

(** [NewFuncWriteCloser] *)
Definition NewFuncWriteCloser {F : Type} (rate : Z) (fn : nat -> option error) : sink F := mkSink rate [] 0 fn None.

(** [bufferWriterPCM16] of [src/pcm.go]: nothing is written after [Close]. *)
Record bufferWriter : Type := mkBufferWriter { bufOf : list Z; bufOpen : bool; bufRate : Z }.

Definition NewPCM16BufferWriter (buf : list Z) (rate : Z) : bufferWriter := mkBufferWriter buf true rate.

#[export] Instance bufferWriter_ops : WriterOps (list Z) bufferWriter := {|
  wput data b := Ok (mkBufferWriter (if bufOpen b then bufOf b ++ data else bufOf b) (bufOpen b) (bufRate b), None);
  wclose b := Ok (mkBufferWriter (bufOf b) false (bufRate b), None);
|}.
#[export] Instance bufferWriter_rate : RateOps bufferWriter := {| wrate b := Ok (bufRate b) |}.

(** ** Writers over another writer *)

(** [NopCloser]: [Close] does not reach the writer below. *)
Record nopCloser (W : Type) : Type := NopCloser { nopped : W }.
Arguments NopCloser {W}.
Arguments nopped {W}.

#[export] Instance nopCloser_ops F W `{WriterOps F W} : WriterOps F (nopCloser W) := {|
  wput f n := let! (w, e) := wput f (nopped n) in Ok (NopCloser w, e);
  wclose n := Ok (n, None);
|}.
#[export] Instance nopCloser_rate W `{RateOps W} : RateOps (nopCloser W) := {| wrate n := wrate (nopped n) |}.

(** [PCM16GainWriter] of [src/gain.go] at its current gain. *)
Record gainWriter (W : Type) : Type := mkGain { gained : W; gain : Z }.
Arguments mkGain {W}.
Arguments gained {W}.
Arguments gain {W}.

Definition NewPCM16GainWriter {W : Type} (w : W) : gainWriter W := mkGain w unityGain.

#[export] Instance gainWriter_ops W `{WriterOps (list Z) W} : WriterOps (list Z) (gainWriter W) := {|
  wput f g := let! (w, e) := wput (gainWriteSample (gain g) f) (gained g) in Ok (mkGain w (gain g), e);
  wclose g := let! (w, e) := wclose (gained g) in Ok (mkGain w (gain g), e);
|}.
#[export] Instance gainWriter_rate W `{RateOps W} : RateOps (gainWriter W) := {| wrate g := wrate (gained g) |}.

(** [MultiWriter] of [src/media.go]. *)
Record multiWriter (W : Type) : Type := MultiWriter { multi : list W }.
Arguments MultiWriter {W}.
Arguments multi {W}.

(** A call of every writer in turn, whatever the others answer. *)
Fixpoint eachWriter {W : Type} (call : W -> outcome (W * option error)) (ws : list W)
    : outcome (list W * list (option error)) :=
  match ws with
  | [] => Ok ([], [])
  | w :: ws =>
      let! (w, e) := call w in
      let! (ws, es) := eachWriter call ws in
      Ok (w :: ws, e :: es)
  end.

#[export] Instance multiWriter_ops F W `{WriterOps F W} : WriterOps F (multiWriter W) := {|
  wput f m := let! (ws, es) := eachWriter (wput f) (multi m) in Ok (MultiWriter ws, multiWriteSample es);
  wclose m := let! (ws, es) := eachWriter wclose (multi m) in Ok (MultiWriter ws, Media.multiClose es);
|}.
#[export] Instance multiWriter_rate W `{RateOps W} : RateOps (multiWriter W) := {|
  wrate m := match multi m with [] => Ok 0 | w :: _ => wrate w end;
|}.

(** ** Frames as bytes ([src/bytes.go]) *)

(** The methods of [Frame]: [Size] and [CopyTo]. *)
Record frameOps : Type := mkFrameOps {
  frameSizeOf : list Z -> Z;
  frameCopyTo : list Z -> list Z -> list Z * (Z + error);
}.

Definition pcmFrame : frameOps := mkFrameOps Media.Size Media.CopyTo.

(** The methods of the [Sample] types of [src/opus], [src/amrwb], [src/g722] and
    [src/g711], which are all the same. *)
Definition rawSize (s : list Z) : Z := zlen s.
Definition rawCopyTo (s dst : list Z) : list Z * (Z + error) :=
  if zlen dst <? zlen s then (dst, inr ErrShortBuffer)
  else let '(dst, n) := go_copy dst s in (dst, inl n).
Definition rawFrame : frameOps := mkFrameOps rawSize rawCopyTo.

Section bytes.
Context (ops : frameOps).

(** [byteEncoder.WriteSample] and [writer.WriteSample] of [src/webm], up to the
    write: the buffer, its capacity, and the bytes or the error. *)
Definition encodeFrame (buf : list Z) (cap_ : Z) (sample : list Z) : outcome (list Z * Z * (list Z + error)) :=
  let sz := frameSizeOf ops sample in
  let '(b, c) := if cap_ <? sz then (replicate (Z.to_nat sz) 0, sz)
                 else (take (Z.to_nat sz) (buf ++ replicate (Z.to_nat sz) 0), cap_) in
  match frameCopyTo ops sample b with
  | (b, inr err) => Ok (b, c, inr err)
  | (b, inl n) => let! bs := go_slice b 0 n in Ok (b, c, inl bs)
  end.

End bytes.

Record byteEncoder (W : Type) : Type := mkByteEncoder {
  encOps : frameOps;
  encoded_ : W;
  encRate : Z;
  encBuf : list Z;
  encCap : Z;
}.
Arguments mkByteEncoder {W}.
Arguments encOps {W}.
Arguments encoded_ {W}.
Arguments encRate {W}.
Arguments encBuf {W}.
Arguments encCap {W}.

Definition EncodeBytes {W : Type} (ops : frameOps) (w : W) (rate : Z) : byteEncoder W := mkByteEncoder ops w rate [] 0.

#[export] Instance byteEncoder_ops W `{WriterOps (list Z) W} : WriterOps (list Z) (byteEncoder W) := {|
  wput sample b :=
    let! (buf, c, r) := encodeFrame (encOps b) (encBuf b) (encCap b) sample in
    match r with
    | inr err => Ok (mkByteEncoder (encOps b) (encoded_ b) (encRate b) buf c, Some err)
    | inl bs =>
        let! (w, e) := wput bs (encoded_ b) in
        Ok (mkByteEncoder (encOps b) w (encRate b) buf c, e)
    end;
  wclose b :=
    let! (w, e) := wclose (encoded_ b) in
    Ok (mkByteEncoder (encOps b) w (encRate b) (encBuf b) (encCap b), e);
|}.
#[export] Instance byteEncoder_rate W : RateOps (byteEncoder W) := {| wrate b := Ok (encRate b) |}.

(** [byteDecoder]: the conversion of a slice of bytes to a frame is free.  The
    writer may be a nil interface, on which every call panics. *)
Record byteDecoder (W : Type) : Type := DecodeBytes { decoded_ : option W }.
Arguments DecodeBytes {W}.
Arguments decoded_ {W}.

#[export] Instance byteDecoder_ops W `{WriterOps (list Z) W} : WriterOps (list Z) (byteDecoder W) := {|
  wput bs d :=
    match decoded_ d with
    | None => Panic
    | Some w => let! (w, e) := wput bs w in Ok (DecodeBytes (Some w), e)
    end;
  wclose d :=
    match decoded_ d with
    | None => Panic
    | Some w => let! (w, e) := wclose w in Ok (DecodeBytes (Some w), e)
    end;
|}.
#[export] Instance byteDecoder_rate W `{RateOps W} : RateOps (byteDecoder W) := {|
  wrate d := match decoded_ d with None => Panic | Some w => wrate w end;
|}.

(** [FromSampleWriter] of [src/pcm.go]: every frame is copied and gets the
    duration of the writer. *)
Record sampleWriter (W : Type) : Type := FromSampleWriter { sampled : W; sampleRate_ : Z; sampleDur : duration }.
Arguments FromSampleWriter {W}.
Arguments sampled {W}.
Arguments sampleRate_ {W}.
Arguments sampleDur {W}.

Definition copyOf (s : list Z) : list Z := fst (go_copy (replicate (length s) 0) s).

#[export] Instance sampleWriter_ops W `{WriterOps (list Z * duration) W} : WriterOps (list Z) (sampleWriter W) := {|
  wput s w :=
    let! (x, e) := wput (copyOf s, sampleDur w) (sampled w) in
    Ok (FromSampleWriter x (sampleRate_ w) (sampleDur w), e);
  wclose w := Ok (w, None);
|}.
#[export] Instance sampleWriter_rate W : RateOps (sampleWriter W) := {| wrate w := Ok (sampleRate_ w) |}.
