(* ===== verification/FileWriter.v ===== *)
(** * FileWriter: frames into files, [src/bytes.go], [src/dump.go], [src/webm/writer.go]

    An [io.WriteCloser] is a state [X] with the operations of the class
    [FileOps]; [bufio.Writer] is the one of Go's standard library.  A call that
    does not return, because a file takes nothing and reports no error, is
    [None]. *)

From Stdlib Require Import Ascii.
From stdpp Require Import base tactics numbers strings list.
From S2P Require Import Prelude GoStr Media Writers.

#[local] Open Scope go_scope.

(** [io.WriteCloser]: the count and the error of [Write], the error of [Close]. *)
Class FileOps (X : Type) : Type := {
  fwrite : list Z -> X -> X * Z * option error;
  fclose : X -> X * option error;
}.

Definition ErrShortWrite : error := Errorf "short write".
Definition defaultBufSize : Z := 4096.

Section file.
Context {X : Type} `{FileOps X}.

(** ** [bufio.Writer]: [pending] are the [n] bytes of its buffer in use *)

Record bufWriter : Type := mkBufWriter { below : X; pending : list Z; bufErr : option error }.

Definition newBufWriter (x : X) : bufWriter := mkBufWriter x [] None.

Definition available (b : bufWriter) : Z := defaultBufSize - zlen (pending b).

Definition bufFlush (b : bufWriter) : bufWriter * option error :=
  match bufErr b with
  | Some e => (b, Some e)
  | None =>
      if zlen (pending b) =? 0 then (b, None)
      else
        let '(x, n, err) := fwrite (pending b) (below b) in
        let err := match err with None => if n <? zlen (pending b) then Some ErrShortWrite else None | _ => err end in
        match err with
        | Some e => (mkBufWriter x (drop (Z.to_nat n) (pending b)) (Some e), Some e)
        | None => (mkBufWriter x [] None, None)
        end
  end.

(** The loop of [Write]: what is left of [p] when the rest fits. *)
Fixpoint bufLoop (fuel : nat) (p : list Z) (b : bufWriter) : option (list Z * bufWriter) :=
  if (available b <? zlen p) && bool_decide (bufErr b = None) then
    match fuel with
    | O => None
    | S fuel =>
        if zlen (pending b) =? 0 then
          let '(x, n, err) := fwrite p (below b) in
          bufLoop fuel (drop (Z.to_nat n) p) (mkBufWriter x [] err)
        else
          let n := Z.to_nat (available b) in
          let b := fst (bufFlush (mkBufWriter (below b) (pending b ++ take n p) None)) in
          bufLoop fuel (drop n p) b
    end
  else Some (p, b).

Definition bufWrite (p : list Z) (b : bufWriter) : option (bufWriter * option error) :=
  match bufLoop (S (S (length p))) p b with
  | None => None
  | Some (p, b) =>
      match bufErr b with
      | Some e => Some (b, Some e)
      | None => Some (mkBufWriter (below b) (pending b ++ p) None, None)
      end
  end.

(** ** [fileWriter] ([bytes.go]) *)

Definition fileWriter : Type := bufWriter.

Definition NewBytesWriter (x : X) : fileWriter := newBufWriter x.

Definition WriteRaw (data : list Z) (w : fileWriter) : option (fileWriter * option error) := bufWrite data w.

Definition fileClose (w : fileWriter) : fileWriter * option error :=
  let '(b, err) := bufFlush w in
  let '(x, cerr) := fclose (below b) in
  (mkBufWriter x (pending b) (bufErr b), match err with Some e => Some e | None => cerr end).

(** As a [BytesWriter]; a write that does not return is a [Panic]: the caller
    does not continue either. *)
#[export] Instance fileWriter_ops : WriterOps (list Z) fileWriter := {|
  wput data w := match WriteRaw data w with Some r => Ok r | None => Panic end;
  wclose w := Ok (fileClose w);
|}.

(** [NewFileWriter] *)
Definition NewFileWriter (ops : frameOps) (x : X) (rate : Z) : byteEncoder fileWriter :=
  EncodeBytes ops (NewBytesWriter x) rate.

(** ** [dump.go] *)

(** The loop of [DumpFramesPCM16], up to the first error. *)
Fixpoint writeFrames (frames : list (list Z)) (fw : byteEncoder fileWriter)
    : outcome (byteEncoder fileWriter * option error) :=
  match frames with
  | [] => Ok (fw, None)
  | f :: frames =>
      let! (fw, e) := wput f fw in
      match e with Some err => Ok (fw, Some err) | None => writeFrames frames fw end
  end.

(** [DumpFramesPCM16]; [isErrClosed] is [errors.Is(err, fs.ErrClosed)].  The two
    deferred calls run at the end of every path. *)
Definition DumpFramesPCM16 (isErrClosed : error -> bool) (x : X) (rate : Z) (frames : list (list Z))
    : outcome (X * option error) :=
  let deferred (fw : byteEncoder fileWriter) (err : option error) :=
    let '(b, _) := fileClose (encoded_ fw) in
    let '(x, _) := fclose (below b) in
    Ok (x, err) in
  let! (fw, e) := writeFrames frames (NewFileWriter pcmFrame x rate) in
  match e with
  | Some err => deferred fw (Some err)
  | None =>
      let! (fw, e) := wclose fw in
      match e with
      | Some err => deferred fw (Some err)
      | None =>
          let '(x, e) := fclose (below (encoded_ fw)) in
          let fw := mkByteEncoder (encOps fw) (mkBufWriter x (pending (encoded_ fw)) (bufErr (encoded_ fw)))
                      (encRate fw) (encBuf fw) (encCap fw) in
          deferred fw (match e with Some err => if isErrClosed err then None else Some err | None => None end)
      end
  end.

(** [DumpFile]: [create] is [os.Create]. *)
Definition dumpName (name ext : str) (rate : Z) : str := name ++ lit "_ar" ++ Itoa rate ++ lit "." ++ ext.

Definition DumpFile (create : str -> X + error) (ops : frameOps) (name ext : str) (rate : Z)
    : outcome (byteEncoder fileWriter) :=
  match create (dumpName name ext rate) with
  | inl x => Ok (NewFileWriter ops x rate)
  | inr _ => Panic
  end.

End file.
Arguments bufWriter : clear implicits.
Arguments fileWriter : clear implicits.

(** ** Two kinds of writers in one [MultiWriter] *)

#[export] Instance sum_ops F W V `{WriterOps F W} `{WriterOps F V} : WriterOps F (W + V) := {|
  wput f x :=
    match x with
    | inl w => let! (w, e) := wput f w in Ok (inl w, e)
    | inr v => let! (v, e) := wput f v in Ok (inr v, e)
    end;
  wclose x :=
    match x with
    | inl w => let! (w, e) := wclose w in Ok (inl w, e)
    | inr v => let! (v, e) := wclose v in Ok (inr v, e)
    end;
|}.
#[export] Instance sum_rate W V `{RateOps W} `{RateOps V} : RateOps (W + V) := {|
  wrate x := match x with inl w => wrate w | inr v => wrate v end;
|}.

(** [DumpWriter]: the writer and a file of what it is given. *)
Definition DumpWriter {X W : Type} `{FileOps X} `{RateOps W} (create : str -> X + error) (ops : frameOps)
    (ext name : str) (w : W) : outcome (multiWriter (W + byteEncoder (fileWriter X))) :=
  let! rate := wrate w in
  let! f := DumpFile create ops name ext rate in
  Ok (MultiWriter [inl w; inr f]).

(** [DumpFilePCM16], [DumpWriterPCM16] *)
Definition DumpFilePCM16 {X : Type} `{FileOps X} (create : str -> X + error) (name : str) (rate : Z)
    : outcome (byteEncoder (fileWriter X)) :=
  DumpFile create pcmFrame name (lit "s16le") rate.

Definition DumpWriterPCM16 {X W : Type} `{FileOps X} `{RateOps W} (create : str -> X + error) (name : str) (w : W)
    : outcome (multiWriter (W + byteEncoder (fileWriter X))) :=
  DumpWriter create pcmFrame (lit "s16le") name w.

(** ** [writer] ([webm/writer.go])

    The block writer below is [W]; a block is its timestamp and its bytes. *)
Record webmWriter (W : Type) : Type := mkWebm {
  webmOps : frameOps;
  blocks : W;
  webmRate : Z;
  webmDur : duration;
  webmTs : Z;
  webmBuf : list Z;
  webmCap : Z;
}.
Arguments mkWebm {W}.
Arguments webmOps {W}.
Arguments blocks {W}.
Arguments webmRate {W}.
Arguments webmDur {W}.
Arguments webmTs {W}.
Arguments webmBuf {W}.
Arguments webmCap {W}.

(** [NewWriter], when the library accepts the track. *)
Definition NewWebmWriter {W : Type} (ops : frameOps) (w : W) (rate : Z) (dur : duration) : webmWriter W :=
  mkWebm ops w rate dur 0 [] 0.

(** [NewPCM16Writer] of [src/webm/writer.go], [NewWebmWriter] of [src/opus/opus.go];
    [w] is the block writer of the container for the codec and the channels. *)
Definition NewPCM16WebmWriter {W : Type} (w : W) (rate : Z) (dur : duration) : webmWriter W := NewWebmWriter pcmFrame w rate dur.
Definition NewOpusWebmWriter {W : Type} (w : W) (rate : Z) (dur : duration) : webmWriter W := NewWebmWriter rawFrame w rate dur.

(** [Duration.Milliseconds] *)
Definition Milliseconds (d : duration) : Z := Z.quot d Millisecond.

#[export] Instance webmWriter_ops W `{WriterOps (Z * list Z) W} : WriterOps (list Z) (webmWriter W) := {|
  wput sample w :=
    let! (buf, c, r) := encodeFrame (webmOps w) (webmBuf w) (webmCap w) sample in
    match r with
    | inr err => Ok (mkWebm (webmOps w) (blocks w) (webmRate w) (webmDur w) (webmTs w) buf c, Some err)
    | inl bs =>
        let! (x, e) := wput (webmTs w, bs) (blocks w) in
        Ok (mkWebm (webmOps w) x (webmRate w) (webmDur w) (i64 (webmTs w + Milliseconds (webmDur w))) buf c, e)
    end;
  wclose w :=
    let! (x, e) := wclose (blocks w) in
    Ok (mkWebm (webmOps w) x (webmRate w) (webmDur w) (webmTs w) (webmBuf w) (webmCap w), e);
|}.
#[export] Instance webmWriter_rate W : RateOps (webmWriter W) := {| wrate w := Ok (webmRate w) |}.
