(* ===== verification/Resample.v ===== *)
(** * Resample: the choice of a resampler, [src/resample.go]

    [Resample] and [ResampleWriter] with their options, over the two resamplers
    of [Soxr] and [Beep] as writers, and [resampleBuffer] of
    [src/resample_soxr.go].  A call that never returns, which the library and
    the ratio may cause, is a [Panic] here: the caller does not continue. *)

From Stdlib Require Import Ascii.
From stdpp Require Import base tactics numbers strings list.
From S2P Require Import Prelude GoFloat GoStr Media Soxr Beep Writers FileWriter.

#[local] Open Scope go_scope.

(** ** Options *)

Record resampleOptions : Type := mkResampleOptions { Predictable : bool; DumpInput : str; DumpOutput : str }.

Inductive ResampleOption : Type :=
| WithPredictableResample (enable : bool)
| WithResampleDump (inputName outputName : str).

Definition applyOption (o : resampleOptions) (opt : ResampleOption) : resampleOptions :=
  match opt with
  | WithPredictableResample enable => mkResampleOptions enable (DumpInput o) (DumpOutput o)
  | WithResampleDump i out => mkResampleOptions (Predictable o) i out
  end.

(** The options in force: [defaults] is [DefaultResampleOptions]. *)
Definition optionsOf (defaults opts : list ResampleOption) : resampleOptions :=
  fold_left applyOption (match opts with [] => defaults | _ => opts end) (mkResampleOptions false [] []).

Definition returned {A : Type} (r : option (outcome A)) : outcome A :=
  match r with Some r => r | None => Panic end.

(** Frames that are all passed on, whatever the writer below answers: the last
    error wins. *)
Definition passAll {W : Type} `{WriterOps (list Z) W} (fs : list (list Z)) (w : W) : outcome (W * option error) :=
  let! (w, es) := putAll fs w in Ok (w, lastError es).

(** What the resamplers use: [soxr_process]; [soxr_create] of a source and a
    destination rate, each with the string that it gives as its error; and, for
    the predictable one, the conversions of floats. *)
Class ResampleLib (ST : Type) : Type := {
  soxr_process : ST -> list Z -> Z -> ST * Z * list Z * option str;
  soxr_create : Z -> Z -> ST * option str;
  conversions :: Conversions;
}.

Definition soxrProcess {ST : Type} `{ResampleLib ST} (st : ST) (inp : list Z) (room : Z)
    : ST * Z * list Z * option error :=
  let '(st, n, out, e) := soxr_process st inp room in (st, n, out, soxrErr e).

Definition newSoxr {ST : Type} `{ResampleLib ST} (dstRate srcRate : Z) : ST + error :=
  let '(p, e) := soxr_create srcRate dstRate in
  match soxrErr e with Some err => inr err | None => inl p end.

Section resamplers.
Context {ST : Type} `{ResampleLib ST}.

(** ** [resampleWriter] over the writer below

    What a call passes on does not depend on the answers of the writer below:
    its frames are those of [Soxr], given to the writer one after the other.
    [spares] is the capacity that [append] leaves in the buffer at each call. *)
Record soxrWriter (W : Type) : Type := mkSoxrWriter {
  soxrCore : resampleWriter ST;
  soxrBelow : W;
  spares : nat -> Z;
  calls : nat;
}.
Arguments mkSoxrWriter {W}.
Arguments soxrCore {W}.
Arguments soxrBelow {W}.
Arguments spares {W}.
Arguments calls {W}.

Definition newFrames (c c' : resampleWriter ST) : list (list Z) := drop (length (passed c)) (passed c').

#[export] Instance soxrWriter_ops W `{WriterOps (list Z) W} : WriterOps (list Z) (soxrWriter W) := {|
  wput data s :=
    let! (c, e) := returned (Soxr.WriteSample soxrProcess data (spares s (calls s)) [] (soxrCore s)) in
    let! (w, last) := passAll (newFrames (soxrCore s) c) (soxrBelow s) in
    Ok (mkSoxrWriter c w (spares s) (S (calls s)), match e with Some e => Some e | None => last end);
  wclose s :=
    let! (c, e) := returned (Soxr.Close soxrProcess (spares s (calls s)) [] None (soxrCore s)) in
    let s' w := mkSoxrWriter c w (spares s) (S (calls s)) in
    match e with
    | Some e => Ok (s' (soxrBelow s), Some e)
    | None =>
        let! (w, _) := passAll (newFrames (soxrCore s) c) (soxrBelow s) in
        let! (w, e) := wclose w in
        Ok (s' w, e)
    end;
|}.
#[export] Instance soxrWriter_rate W : RateOps (soxrWriter W) := {| wrate s := Ok (rSrc (res (soxrCore s))) |}.

(** [newResampleWriter] of [resample_soxr.go] *)
Definition newSoxrWriter {W : Type} `{RateOps W} (spares : nat -> Z) (w : W) (sampleRate : Z) : outcome (soxrWriter W) :=
  let! dstRate := wrate w in
  match newSoxr dstRate sampleRate with
  | inr _ => Panic
  | inl st => Ok (mkSoxrWriter (newResampleWriter st dstRate sampleRate) w spares 0)
  end.

(** ** [resampleWriterBeep] over the writer below *)

Record beepWriter (W : Type) : Type := mkBeepStage { beepCore : resampleWriterBeep; beepBelow : W }.
Arguments mkBeepStage {W}.
Arguments beepCore {W}.
Arguments beepBelow {W}.

#[export] Instance beepWriter_ops W `{WriterOps (list Z) W} : WriterOps (list Z) (beepWriter W) := {|
  wput data s :=
    let c := beepCore s in
    let! (c, out) := returned (beepWriteSample data c) in
    let! (w, e) := wput out (beepBelow s) in
    Ok (mkBeepStage c w, e);
  wclose s := let! (w, e) := wclose (beepBelow s) in Ok (mkBeepStage (beepCore s) w, e);
|}.
#[export] Instance beepWriter_rate W : RateOps (beepWriter W) := {| wrate s := Ok (srcRate (beepCore s)) |}.

(** [newResampleWriterBeep], and [newResampleWriter] of [resample_nocgo.go] *)
Definition newBeepWriter {W : Type} `{RateOps W} (w : W) (sampleRate : Z) : outcome (beepWriter W) :=
  let! dstRate := wrate w in
  let! c := newResampleWriterBeep dstRate sampleRate in
  Ok (mkBeepStage c w).

(** ** [ResampleWriter] *)

(** A writer, or the [MultiWriter] that [DumpWriterPCM16] makes of it. *)
Definition dumpable (X W : Type) : Type := (W + multiWriter (W + byteEncoder (fileWriter X)))%type.

(** The writer itself, or a resampler before it. *)
Inductive resampled (X W : Type) : Type :=
| Direct (w : W)
| BySoxr (w : dumpable X (soxrWriter (dumpable X W)))
| ByBeep (w : dumpable X (beepWriter (dumpable X W))).
Arguments Direct {X W}.
Arguments BySoxr {X W}.
Arguments ByBeep {X W}.

#[export] Instance resampled_ops X W `{FileOps X} `{WriterOps (list Z) W} : WriterOps (list Z) (resampled X W) := {|
  wput f r :=
    match r with
    | Direct w => let! (w, e) := wput f w in Ok (Direct w, e)
    | BySoxr w => let! (w, e) := wput f w in Ok (BySoxr w, e)
    | ByBeep w => let! (w, e) := wput f w in Ok (ByBeep w, e)
    end;
  wclose r :=
    match r with
    | Direct w => let! (w, e) := wclose w in Ok (Direct w, e)
    | BySoxr w => let! (w, e) := wclose w in Ok (BySoxr w, e)
    | ByBeep w => let! (w, e) := wclose w in Ok (ByBeep w, e)
    end;
|}.
#[export] Instance resampled_rate X W `{RateOps W} : RateOps (resampled X W) := {|
  wrate r := match r with Direct w => wrate w | BySoxr w => wrate w | ByBeep w => wrate w end;
|}.

Section resampleWriter.
Context {X : Type} `{FileOps X}.
Context (createFile : str -> X + error).
Context (defaults : list ResampleOption).
(** [resampleDumpToFile] with the [id] it takes. *)
Context (dumpToFile : option Z).

(** [if file != "" { w = DumpWriterPCM16(file, w) }] *)
Definition dumped {W : Type} `{RateOps W} (file : str) (w : W) : outcome (dumpable X W) :=
  if bool_decide (file = []) then Ok (inl w)
  else let! m := DumpWriterPCM16 createFile file w in Ok (inr m).

Definition dumpOptions (o : resampleOptions) : resampleOptions :=
  match dumpToFile with
  | None => o
  | Some id =>
      let pref := lit "sip_resample_" ++ Itoa id in
      mkResampleOptions (Predictable o) (pref ++ lit "_in") (pref ++ lit "_out")
  end.

(** [cgo] says which of [resample_soxr.go] and [resample_nocgo.go] is built. *)
Definition ResampleWriter {W : Type} `{RateOps W} (cgo : bool) (spares : nat -> Z) (w : W) (sampleRate : Z)
    (opts : list ResampleOption) : outcome (resampled X W) :=
  let! dstRate := wrate w in
  if dstRate =? sampleRate then Ok (Direct w)
  else
    let opt := dumpOptions (optionsOf defaults opts) in
    let! w := dumped (DumpOutput opt) w in
    if Predictable opt || negb cgo then
      let! s := newBeepWriter w sampleRate in
      let! s := dumped (DumpInput opt) s in
      Ok (ByBeep s)
    else
      let! s := newSoxrWriter spares w sampleRate in
      let! s := dumped (DumpInput opt) s in
      Ok (BySoxr s).

End resampleWriter.

(** ** [Resample]: a whole buffer *)

(** [resampleBuffer] of [resample_soxr.go], over a [bufferWriterPCM16]. *)
Definition resampleBuffer (spares : nat -> Z) (dst : list Z) (dstSampleRate : Z) (src : list Z) (srcSampleRate : Z)
    : outcome (list Z) :=
  let! w := newSoxrWriter spares (NewPCM16BufferWriter dst dstSampleRate) srcSampleRate in
  let! (w, err) := wput src w in
  let! (w, _) := wclose w in
  match err with
  | Some _ => Panic
  | None => Ok (bufOf (soxrBelow w))
  end.

Definition Resample (defaults : list ResampleOption) (cgo : bool) (spares : nat -> Z) (dst : list Z) (dstSampleRate : Z)
    (src : list Z) (srcSampleRate : Z) (opts : list ResampleOption) : outcome (list Z) :=
  if dstSampleRate =? srcSampleRate then Ok (dst ++ src)
  else
    let opt := optionsOf defaults opts in
    if Predictable opt || negb cgo then
      returned (resampleBufferBeep dst dstSampleRate src srcSampleRate)
    else resampleBuffer spares dst dstSampleRate src srcSampleRate.

End resamplers.
Arguments soxrWriter : clear implicits.
Arguments beepWriter : clear implicits.
Arguments resampled : clear implicits.
Arguments mkSoxrWriter {ST W}.
Arguments soxrCore {ST W}.
Arguments soxrBelow {ST W}.
Arguments spares {ST W}.
Arguments calls {ST W}.
Arguments mkBeepStage {W}.
Arguments beepCore {W}.
Arguments beepBelow {W}.
Arguments Direct {ST X W}.
Arguments BySoxr {ST X W}.
Arguments ByBeep {ST X W}.
