(* ===== verification/Opus.v ===== *)
(** * Opus: the Opus writers, [src/opus/opus.go]

    libopus is a parameter: a decoder and an encoder are states of the types
    [OD] and [OE].  A call is given the whole buffer and returns its new
    contents and a count. *)

From stdpp Require Import base tactics numbers strings list.
From S2P Require Import Prelude Writers.

#[local] Open Scope go_scope.

(** [opus.Bandwidth] and the settings of an encoder. *)
Inductive Bandwidth : Type := Narrowband | Mediumband | Wideband | SuperWideband | Fullband.

Inductive setting : Type :=
| SetBitrate (bitrate : Z)
| SetComplexity (complexity : Z)
| SetInBandFEC (enable : bool)
| SetPacketLossPerc (percent : Z)
| SetMaxBandwidth (bw : Bandwidth).

(** The library, and what the writers use of it. *)
Class OpusLib (OD OE : Type) : Type := {
  newDecoder : Z -> Z -> OD + error;
  newEncoder : Z -> Z -> OE + error;
  opusDecode : OD -> list Z -> list Z -> OD * (list Z * Z + error);   (* packet, buffer: buffer, samples per channel *)
  opusEncode : OE -> list Z -> list Z -> OE * (list Z * Z + error);   (* samples, buffer: buffer, bytes *)
  opusSet : setting -> OE -> OE + error;
  isInvalidPacket : error -> bool;                                    (* errors.Is(err, opus.ErrInvalidPacket) *)
}.

Section opus.
Context {OD OE : Type} `{OpusLib OD OE}.

Definition maxPacketDuration : duration := 120 * Millisecond.

(** ** The decoder *)

Record decoder (W : Type) : Type := mkDecoder {
  dw : W;
  dec : OD;
  dbuf : list Z;
  channels : Z;
  successiveErrorCount : Z;
}.
Arguments mkDecoder {W}.
Arguments dw {W}.
Arguments dec {W}.
Arguments dbuf {W}.
Arguments channels {W}.
Arguments successiveErrorCount {W}.

Definition errChannels : error := Errorf "opus decoder only supports mono or stereo output".

Definition Decode {W : Type} `{RateOps W} (w : W) (chans : Z) : outcome (decoder W + error) :=
  if negb (chans =? 1) && negb (chans =? 2) then Ok (inr errChannels)
  else
    let! rate := wrate w in
    match newDecoder rate chans with
    | inr err => Ok (inr err)
    | inl d =>
        let n := Z.quot (i64 (rate * maxPacketDuration)) Second * chans in
        if n <? 0 then Panic else Ok (inl (mkDecoder w d (replicate (Z.to_nat n) 0) chans 0))
    end.

#[export] Instance decoder_ops W `{WriterOps (list Z) W} : WriterOps (list Z) (decoder W) := {|
  wput packet d :=
    if zlen packet =? 0 then Ok (d, None)
    else
      let '(l, r) := opusDecode (dec d) packet (dbuf d) in
      match r with
      | inr err =>
          if negb (isInvalidPacket err) || (5 <=? successiveErrorCount d)
          then Ok (mkDecoder (dw d) l (dbuf d) (channels d) (successiveErrorCount d), Some err)
          else Ok (mkDecoder (dw d) l (dbuf d) (channels d) (successiveErrorCount d + 1), None)
      | inl (b, n) =>
          let! frame := go_slice b 0 (n * channels d) in
          let! (w, e) := wput frame (dw d) in
          Ok (mkDecoder w l b (channels d) 0, e)
      end;
  wclose d :=
    let! (w, e) := wclose (dw d) in
    Ok (mkDecoder w (dec d) (dbuf d) (channels d) (successiveErrorCount d), e);
|}.
#[export] Instance decoder_rate W `{RateOps W} : RateOps (decoder W) := {| wrate d := wrate (dw d) |}.

(** ** The encoder *)

Record EncodeOptions : Type := mkEncodeOptions {
  Bitrate : Z;
  Complexity : Z;
  FEC : bool;
  PacketLossPercent : Z;
  MaxPlaybackRate : Z;
}.

Definition noOptions : EncodeOptions := mkEncodeOptions 0 0 false 0 0.

Definition maxBandwidth (playbackRate : Z) : Bandwidth :=
  if playbackRate <=? 8000 then Narrowband
  else if playbackRate <=? 12000 then Mediumband
  else if playbackRate <=? 16000 then Wideband
  else if playbackRate <=? 24000 then SuperWideband
  else Fullband.

Record encoder (W : Type) : Type := mkEncoder { ew : W; enc : OE; ebuf : list Z }.
Arguments mkEncoder {W}.
Arguments ew {W}.
Arguments enc {W}.
Arguments ebuf {W}.

(** The settings that the options ask for, with the text of the error. *)
Definition settingsOf (o : EncodeOptions) : list (setting * string) :=
  (if 0 <? Bitrate o then [(SetBitrate (Bitrate o), "opus set bitrate"%string)] else []) ++
  (if 0 <? Complexity o then [(SetComplexity (Complexity o), "opus set complexity"%string)] else []) ++
  (if FEC o then
     (SetInBandFEC true, "opus set fec"%string) ::
     (if 0 <? PacketLossPercent o then [(SetPacketLossPerc (PacketLossPercent o), "opus set packet loss"%string)] else [])
   else []) ++
  (if 0 <? MaxPlaybackRate o then [(SetMaxBandwidth (maxBandwidth (MaxPlaybackRate o)), "opus set max bandwidth"%string)]
   else []).

(** Each setting in turn, up to the first one that is refused. *)
Fixpoint applySettings (ss : list (setting * string)) (e : OE) : OE + error :=
  match ss with
  | [] => inl e
  | (s, what) :: ss =>
      match opusSet s e with
      | inl e => applySettings ss e
      | inr _ => inr (Errorf what)
      end
  end.

Definition EncodeWith {W : Type} `{RateOps W} (w : W) (chans : Z) (o : EncodeOptions) : outcome (encoder W + error) :=
  let! rate := wrate w in
  match newEncoder rate chans with
  | inr err => Ok (inr err)
  | inl e =>
      match applySettings (settingsOf o) e with
      | inr err => Ok (inr err)
      | inl e =>
          let n := Z.quot rate DefFramesPerSec * chans in
          if n <? 0 then Panic else Ok (inl (mkEncoder w e (replicate (Z.to_nat n) 0)))
      end
  end.

Definition Encode {W : Type} `{RateOps W} (w : W) (chans : Z) : outcome (encoder W + error) := EncodeWith w chans noOptions.

#[export] Instance encoder_ops W `{WriterOps (list Z) W} : WriterOps (list Z) (encoder W) := {|
  wput frame e :=
    let '(l, r) := opusEncode (enc e) frame (ebuf e) in
    match r with
    | inr err => Ok (mkEncoder (ew e) l (ebuf e), Some err)
    | inl (b, n) =>
        let! packet := go_slice b 0 n in
        let! (w, err) := wput packet (ew e) in
        Ok (mkEncoder w l b, err)
    end;
  wclose e := let! (w, err) := wclose (ew e) in Ok (mkEncoder w (enc e) (ebuf e), err);
|}.
#[export] Instance encoder_rate W `{RateOps W} : RateOps (encoder W) := {| wrate e := wrate (ew e) |}.

End opus.
Arguments decoder : clear implicits.
Arguments encoder : clear implicits.
Arguments mkDecoder {OD W}.
Arguments dw {OD W}.
Arguments dec {OD W}.
Arguments dbuf {OD W}.
Arguments channels {OD W}.
Arguments successiveErrorCount {OD W}.
Arguments mkEncoder {OE W}.
Arguments ew {OE W}.
Arguments enc {OE W}.
Arguments ebuf {OE W}.
