(* ===== verification/Amrwb.v ===== *)
(** * Amrwb: the AMR-WB writers, [src/amrwb/amrwb.go]

    The codec library is a parameter.  Its frames are arrays of [frameSize]
    samples; decoding reads one block from the front of its input. *)

From stdpp Require Import base tactics numbers strings list.
From S2P Require Import Prelude GoStr Writers Resample.

#[local] Open Scope go_scope.

Definition amrwbSampleRate : Z := 16000.

Class AmrwbLib (AD AE : Type) : Type := {
  frameSize : Z;                                            (* amrwb.PCMFrameSize *)
  newAmrDecoder : AD;                                       (* at the format of the program *)
  newAmrEncoder : Z -> AE;                                  (* at a mode *)
  amrDecode : AD -> list Z -> AD * (Z * list Z + error);    (* bytes read and the frame *)
  amrEncode : AE -> list Z -> AE * list Z;                  (* the bytes appended *)
  amrCloseDecoder : AD -> AD;
}.

Section amrwb.
Context {AD AE : Type} `{AmrwbLib AD AE}.

(** ** The decoder *)

Record Decoder (W : Type) : Type := mkAmrDecoder { adw : W; ad : AD }.
Arguments mkAmrDecoder {W}.
Arguments adw {W}.
Arguments ad {W}.

(** The loop of [WriteSample]: the samples decoded and the error that ended it.
    Every turn reads a byte, unless the library reads nothing; [None] is a loop
    without end. *)
Fixpoint decodeLoop (fuel : nat) (d : AD) (inp buf : list Z) : option (outcome (AD * list Z * option error)) :=
  if zlen inp <=? 0 then Some (Ok (d, buf, None))
  else
    match fuel with
    | O => None
    | S fuel =>
        let '(d, r) := amrDecode d inp in
        match r with
        | inr err => Some (Ok (d, buf, Some err))
        | inl (n, frame) =>
            match go_slice inp n (zlen inp) with
            | Panic => Some Panic
            | Ok inp => decodeLoop fuel d inp (buf ++ frame)
            end
        end
    end.

#[export] Instance amrDecoder_ops W `{WriterOps (list Z) W} : WriterOps (list Z) (Decoder W) := {|
  wput inp x :=
    let! (d, buf, blockErr) := returned (decodeLoop (length inp) (ad x) inp []) in
    if zlen buf =? 0 then Ok (mkAmrDecoder (adw x) d, blockErr)
    else
      let! (w, e) := wput buf (adw x) in
      Ok (mkAmrDecoder w d, match e with Some err => Some err | None => blockErr end);
  wclose x := let! (w, e) := wclose (adw x) in Ok (mkAmrDecoder w (amrCloseDecoder (ad x)), e);
|}.
#[export] Instance amrDecoder_rate W : RateOps (Decoder W) := {| wrate _ := Ok amrwbSampleRate |}.

(** [Decode]; [resample] is [ResampleWriter] at the rate of the codec. *)
Definition Decode {W R : Type} `{RateOps W} (direct : W -> R) (resample : W -> Z -> outcome R) (w : W)
    : outcome (Decoder R) :=
  let! rate := wrate w in
  let! r := (if negb (rate =? amrwbSampleRate) then resample w amrwbSampleRate else Ok (direct w)) in
  Ok (mkAmrDecoder r newAmrDecoder).

(** ** The encoder *)

Record Encoder (W : Type) : Type := mkAmrEncoder { aew : W; ae : AE; short : bool }.
Arguments mkAmrEncoder {W}.
Arguments aew {W}.
Arguments ae {W}.
Arguments short {W}.

Definition errShortFrame : error := Errorf "amrwb: writing frame after a short previous frame".

(** The loop of [WriteSample]: a frame that is too short is padded with zeros,
    and [done] is set.  Every turn takes a frame. *)
Fixpoint encodeLoop (fuel : nat) (e : AE) (done : bool) (inp buf : list Z) : option (outcome (AE * bool * list Z)) :=
  if zlen inp <=? 0 then Some (Ok (e, done, buf))
  else
    match fuel with
    | O => None
    | S fuel =>
        let '(done, inp) :=
          if zlen inp <? frameSize
          then (true, fst (go_copy (replicate (Z.to_nat frameSize) 0) inp))
          else (done, inp) in
        match go_slice inp 0 frameSize, go_slice inp frameSize (zlen inp) with
        | Ok frame, Ok inp =>
            let '(e, bs) := amrEncode e frame in
            encodeLoop fuel e done inp (buf ++ bs)
        | _, _ => Some Panic
        end
    end.

#[export] Instance amrEncoder_ops W `{WriterOps (list Z) W} : WriterOps (list Z) (Encoder W) := {|
  wput inp x :=
    if zlen inp =? 0 then Ok (x, None)
    else
      let blockErr := if short x then Some errShortFrame else None in
      let! (e, done, buf) := returned (encodeLoop (length inp) (ae x) (short x) inp []) in
      if zlen buf =? 0 then Ok (mkAmrEncoder (aew x) e done, blockErr)
      else
        let! (w, err) := wput buf (aew x) in
        Ok (mkAmrEncoder w e done, match err with Some err => Some err | None => blockErr end);
  wclose x := let! (w, e) := wclose (aew x) in Ok (mkAmrEncoder w (ae x) (short x), e);
|}.
#[export] Instance amrEncoder_rate W : RateOps (Encoder W) := {| wrate _ := Ok amrwbSampleRate |}.

Definition EncodeWith {W : Type} `{RateOps W} (w : W) (mode : Z) : outcome (Encoder W) :=
  let! rate := wrate w in
  if negb (rate =? amrwbSampleRate) then Panic else Ok (mkAmrEncoder w (newAmrEncoder mode) false).

(** [Encode]; [best] is the mode [amrwb.Best]. *)
Definition Encode {W : Type} `{RateOps W} (best : Z) (w : W) : outcome (Encoder W) := EncodeWith w best.

End amrwb.
Arguments Decoder : clear implicits.
Arguments Encoder : clear implicits.
Arguments mkAmrDecoder {AD W}.
Arguments adw {AD W}.
Arguments ad {AD W}.
Arguments mkAmrEncoder {AE W}.
Arguments aew {AE W}.
Arguments ae {AE W}.
Arguments short {AE W}.
