(* ===== verification/G722.v ===== *)
(** * G722: the G.722 writers, [src/g722/g722.go]

    The codec library is a parameter: it is given the size of the buffer and
    gives what it puts at its front.  [low] is [FlagSampleRate8000]. *)

From Stdlib Require Import Ascii.
From stdpp Require Import base tactics numbers strings list.
From S2P Require Import Prelude GoStr Writers FileWriter.

#[local] Open Scope go_scope.

Class G722Lib (GD GE : Type) : Type := {
  newG722Decoder : bool -> GD;
  newG722Encoder : bool -> GE;
  g722Decode : GD -> Z -> list Z -> GD * list Z;
  g722Encode : GE -> Z -> list Z -> GE * list Z;
}.

Definition decodeSize (low : bool) (g722Len : Z) : Z := g722Len * (if low then 1 else 2).

Definition encodeSize (low : bool) (pcmLen : Z) : Z :=
  let div := if low then 1 else 2 in
  let n := Z.quot pcmLen div in
  if negb (Z.rem pcmLen div =? 0) then n + 1 else n.

Section g722.
Context {GD GE : Type} `{G722Lib GD GE}.

(** [buf] is its capacity; [d.buf[:n]] panics beyond it. *)
Definition bufFor (cap_ sz : Z) : Z := if cap_ <? sz then sz else cap_.

Record Decoder (W : Type) : Type := mkG722Decoder { gdLow : bool; gd : GD; gdCap : Z; gdw : W }.
Arguments mkG722Decoder {W}.
Arguments gdLow {W}.
Arguments gd {W}.
Arguments gdCap {W}.
Arguments gdw {W}.

#[export] Instance g722Decoder_ops W `{WriterOps (list Z) W} : WriterOps (list Z) (Decoder W) := {|
  wput inp d :=
    let cap_ := bufFor (gdCap d) (decodeSize (gdLow d) (zlen inp)) in
    let '(l, out) := g722Decode (gd d) cap_ inp in
    if cap_ <? zlen out then Panic
    else
      let! (w, e) := wput out (gdw d) in
      Ok (mkG722Decoder (gdLow d) l cap_ w, e);
  wclose d := let! (w, e) := wclose (gdw d) in Ok (mkG722Decoder (gdLow d) (gd d) (gdCap d) w, e);
|}.
#[export] Instance g722Decoder_rate W `{RateOps W} : RateOps (Decoder W) := {| wrate d := wrate (gdw d) |}.

Record Encoder (W : Type) : Type := mkG722Encoder { geLow : bool; ge : GE; geCap : Z; gew : W }.
Arguments mkG722Encoder {W}.
Arguments geLow {W}.
Arguments ge {W}.
Arguments geCap {W}.
Arguments gew {W}.

#[export] Instance g722Encoder_ops W `{WriterOps (list Z) W} : WriterOps (list Z) (Encoder W) := {|
  wput inp x :=
    let cap_ := bufFor (geCap x) (encodeSize (geLow x) (zlen inp)) in
    let '(l, out) := g722Encode (ge x) cap_ inp in
    if cap_ <? zlen out then Panic
    else
      let! (w, e) := wput out (gew x) in
      Ok (mkG722Encoder (geLow x) l cap_ w, e);
  wclose x := let! (w, e) := wclose (gew x) in Ok (mkG722Encoder (geLow x) (ge x) (geCap x) w, e);
|}.
#[export] Instance g722Encoder_rate W `{RateOps W} : RateOps (Encoder W) := {| wrate x := wrate (gew x) |}.

(** [Decode] without dumps; [resample] is [ResampleWriter] at 16 kHz. *)
Definition Decode {W R : Type} `{RateOps W} (direct : W -> R) (resample : W -> Z -> outcome R) (w : W)
    : outcome (Decoder R) :=
  let! rate := wrate w in
  if rate =? 8000 then Ok (mkG722Decoder true (newG722Decoder true) 0 (direct w))
  else
    let! r := (if rate =? 16000 then Ok (direct w) else resample w 16000) in
    Ok (mkG722Decoder false (newG722Decoder false) 0 r).

Definition Encode {W : Type} `{RateOps W} (w : W) : outcome (Encoder W) :=
  let! rate := wrate w in
  if rate =? 8000 then Ok (mkG722Encoder true (newG722Encoder true) 0 w)
  else if rate =? 16000 then Ok (mkG722Encoder false (newG722Encoder false) 0 w)
  else Panic.

End g722.
Arguments Decoder : clear implicits.
Arguments Encoder : clear implicits.
Arguments mkG722Decoder {GD W}.
Arguments gdLow {GD W}.
Arguments gd {GD W}.
Arguments gdCap {GD W}.
Arguments gdw {GD W}.
Arguments mkG722Encoder {GE W}.
Arguments geLow {GE W}.
Arguments ge {GE W}.
Arguments geCap {GE W}.
Arguments gew {GE W}.

(** ** Dumps

    [LK_DUMP_G722] puts a file beside both ends of a codec: [DumpWriterPCM16]
    at the side of the samples, [DumpWriter] at the side of the bytes. *)
Definition g722Name (dir : str) (id : Z) (side : str) : str :=
  lit "sip_g722_" ++ dir ++ lit "_" ++ Itoa id ++ side.

Section dumps.
Context {GD GE : Type} `{G722Lib GD GE}.
Context {X : Type} `{FileOps X} (create : str -> X + error).

(** [Decode] with [id] from the counter. *)
Definition DecodeDumped {W R : Type} `{RateOps W} `{RateOps R} (id : Z) (direct : W -> R) (resample : W -> Z -> outcome R)
    (w : W) : outcome (multiWriter (Decoder GD (multiWriter (R + byteEncoder (fileWriter X))) + byteEncoder (fileWriter X))) :=
  let! d := Decode direct resample w in
  let! m := DumpWriterPCM16 create (g722Name (lit "dec") id (lit "_out")) (gdw d) in
  DumpWriter create rawFrame (lit "g722") (g722Name (lit "dec") id (lit "_in")) (mkG722Decoder (gdLow d) (gd d) (gdCap d) m).

(** [Encode] with [id] from the counter. *)
Definition EncodeDumped {W : Type} `{RateOps W} (id : Z) (w : W)
    : outcome (multiWriter (Encoder GE (multiWriter (W + byteEncoder (fileWriter X))) + byteEncoder (fileWriter X))) :=
  let! e := Encode w in
  let! m := DumpWriter create rawFrame (lit "g722") (g722Name (lit "enc") id (lit "_out")) w in
  DumpWriterPCM16 create (g722Name (lit "enc") id (lit "_in")) (mkG722Encoder (geLow e) (ge e) (geCap e) m).

End dumps.
