(* ===== verification/AudioCodec.v ===== *)
(** * AudioCodec: codecs as chains of writers, [src/audio.go]

    [NewAudioCodecFunc] with the constructors that the codecs register in
    [src/g711], [src/g722], [src/opus/codec.go] and [src/amrwb], and the writers
    of [src/g711].  The libraries are those of [Resample], [Opus], [Amrwb] and
    [G722]. *)

From Stdlib Require Import Ascii.
From stdpp Require Import base tactics numbers strings list.
From S2P Require Import Prelude GoStr Codecs CodecList G711 Soxr Writers FileWriter Resample.
From S2P Require Opus Amrwb G722.

#[local] Open Scope go_scope.
#[export] Existing Instances Opus.decoder_ops Opus.decoder_rate Opus.encoder_ops Opus.encoder_rate.
#[export] Existing Instances Amrwb.amrDecoder_ops Amrwb.amrDecoder_rate Amrwb.amrEncoder_ops Amrwb.amrEncoder_rate.
#[export] Existing Instances G722.g722Decoder_ops G722.g722Decoder_rate G722.g722Encoder_ops G722.g722Encoder_rate.

(** ** The writers of [src/g711] *)

Record lawDecoder (W : Type) : Type := mkLawDecoder { ldLaw : law; ldBuf : list Z; ldCap : Z; ldw : W }.
Arguments mkLawDecoder {W}.
Arguments ldLaw {W}.
Arguments ldBuf {W}.
Arguments ldCap {W}.
Arguments ldw {W}.

#[export] Instance lawDecoder_ops W `{WriterOps (list Z) W} : WriterOps (list Z) (lawDecoder W) := {|
  wput inp d :=
    let! (b, c) := writeDecoded (ldLaw d) (ldBuf d) (ldCap d) inp in
    let! (w, e) := wput b (ldw d) in
    Ok (mkLawDecoder (ldLaw d) b c w, e);
  wclose d := let! (w, e) := wclose (ldw d) in Ok (mkLawDecoder (ldLaw d) (ldBuf d) (ldCap d) w, e);
|}.
#[export] Instance lawDecoder_rate W `{RateOps W} : RateOps (lawDecoder W) := {| wrate d := wrate (ldw d) |}.

Record lawEncoder (W : Type) : Type := mkLawEncoder { leLaw : law; leBuf : list Z; leCap : Z; lew : W }.
Arguments mkLawEncoder {W}.
Arguments leLaw {W}.
Arguments leBuf {W}.
Arguments leCap {W}.
Arguments lew {W}.

#[export] Instance lawEncoder_ops W `{WriterOps (list Z) W} : WriterOps (list Z) (lawEncoder W) := {|
  wput inp x :=
    let! (b, c) := writeEncoded (leLaw x) (leBuf x) (leCap x) inp in
    let! (w, e) := wput b (lew x) in
    Ok (mkLawEncoder (leLaw x) b c w, e);
  wclose x := let! (w, e) := wclose (lew x) in Ok (mkLawEncoder (leLaw x) (leBuf x) (leCap x) w, e);
|}.
#[export] Instance lawEncoder_rate W `{RateOps W} : RateOps (lawEncoder W) := {| wrate x := wrate (lew x) |}.

Section laws.
Context {W R : Type} `{RateOps W} (direct : W -> R) (resample : W -> Z -> outcome R).

Definition DecodeALaw (w : W) : outcome (lawDecoder R) :=
  let! rate := wrate w in
  let! r := (if rate =? 8000 then Ok (direct w) else resample w 8000) in
  Ok (mkLawDecoder ALaw [] 0 r).

Definition DecodeULaw (w : W) : outcome (lawDecoder R) :=
  let! rate := wrate w in
  let! r := (if rate =? 8000 then Ok (direct w) else resample w 8000) in
  Ok (mkLawDecoder ULaw [] 0 r).

Definition EncodeALaw (w : W) : outcome (lawEncoder W) :=
  let! rate := wrate w in
  if rate =? 8000 then Ok (mkLawEncoder ALaw [] 0 w) else Panic.

Definition EncodeULaw (w : W) : outcome (lawEncoder W) :=
  let! rate := wrate w in
  if rate =? 8000 then Ok (mkLawEncoder ULaw [] 0 w) else Panic.

(** The function that each law gives to [NewAudioCodecFunc]. *)
Definition lawDecode (l : law) : W -> outcome (lawDecoder R) := match l with ALaw => DecodeALaw | ULaw => DecodeULaw end.
Definition lawEncode (l : law) : W -> outcome (lawEncoder W) := match l with ALaw => EncodeALaw | ULaw => EncodeULaw end.

Lemma lawDecode_eq l w :
  lawDecode l w =
    let! rate := wrate w in
    let! r := (if rate =? 8000 then Ok (direct w) else resample w 8000) in
    Ok (mkLawDecoder l [] 0 r).
Proof. by destruct l. Qed.

Lemma lawEncode_eq l w :
  lawEncode l w = let! rate := wrate w in if rate =? 8000 then Ok (mkLawEncoder l [] 0 w) else Panic.
Proof. by destruct l. Qed.

End laws.

(** ** The constructors *)

(** What the [CreateFunc] of a codec makes: the mode is that of AMR-WB. *)
Inductive create : Type :=
| CreateLaw (l : law)
| CreateG722
| CreateOpus
| CreateAMRWB (mode : Z).

(** [type audioCodec struct] *)
Record audioCodec : Type := mkAudioCodec { codecInfo : CodecInfo; made : create }.

(** [NewAudioCodecFunc] *)
Definition NewAudioCodecFunc (i : CodecInfo) (c : create) : audioCodec :=
  mkAudioCodec
    (if RTPClockRate i =? 0 then mkInfo (typeInfo i) (config i) (SampleRate (config i)) else i) c.

Section codecs.
Context `{Constants}.

(** The mode that the AMR-WB codec encodes with. *)
Definition amrMode (c : CodecConfig) : Z :=
  match match Get (Params c) paramModeSet with Some v => maxModeOf (split "," v) (-1) | None => Some (-1) end with
  | Some m => if 0 <=? m then m else amrwbBest
  | None => amrwbBest
  end.

(** What each [SupportsFunc] returns beside the information: a call of
    [NewAudioCodecFunc] with the constructors of the codec. *)
Definition createALaw : create := CreateLaw ALaw.
Definition createULaw : create := CreateLaw ULaw.
Definition createG722 : create := CreateG722.
Definition createOpus : create := CreateOpus.
Definition createAMRWB (c : CodecConfig) : create := CreateAMRWB (amrMode c).

Definition createOf (t : CodecType) (c : CodecConfig) : option create :=
  if decide (Name (info t) = Name ALawInfo) then Some createALaw
  else if decide (Name (info t) = Name ULawInfo) then Some createULaw
  else if decide (Name (info t) = Name G722Info) then Some createG722
  else if decide (Name (info t) = Name OpusInfo) then Some createOpus
  else if decide (Name (info t) = Name AMRWBInfo) then Some (createAMRWB c)
  else None.

(** The codec that the [CreateFunc] of a supported configuration makes. *)
Definition audioCodecFor (t : CodecType) (c : CodecConfig) : option audioCodec :=
  let '(i, ok) := support t c in
  if ok then NewAudioCodecFunc i <$> createOf t c else None.

End codecs.

(** ** [EncodeBytes] and [DecodeBytes] of a codec *)

Section chains.
Context {ST X OD OE AD AE GD GE : Type}.
Context `{FileOps X} `{Opus.OpusLib OD OE} `{Amrwb.AmrwbLib AD AE} `{G722.G722Lib GD GE}.
Context `{ResampleLib ST}.
(** What [ResampleWriter] of no options finds: [os.Create], the default
    options, [resampleDumpToFile], the build, and the capacities that [append]
    leaves. *)
Context (createFile : str -> X + error) (defaults : list ResampleOption) (dumpToFile : option Z) (cgo : bool)
  (spares : nat -> Z).

Definition resample {W : Type} `{RateOps W} (w : W) (sampleRate : Z) : outcome (resampled ST X W) :=
  ResampleWriter createFile defaults dumpToFile cgo spares w sampleRate [].

(** [LK_DUMP_G722]: the number of the next dump. *)
Context (g722Dump : option Z).

Inductive decoding (W : Type) : Type :=
| DecLaw (d : lawDecoder (resampled ST X W))
| DecG722 (d : G722.Decoder GD (resampled ST X W))
| DecG722Dumped (d : multiWriter
    (G722.Decoder GD (multiWriter (resampled ST X W + byteEncoder (fileWriter X))) + byteEncoder (fileWriter X)))
| DecOpus (d : Opus.decoder OD W)
| DecAMRWB (d : Amrwb.Decoder AD (resampled ST X W)).
Arguments DecLaw {W}.
Arguments DecG722 {W}.
Arguments DecG722Dumped {W}.
Arguments DecOpus {W}.
Arguments DecAMRWB {W}.

#[export] Instance decoding_ops W `{WriterOps (list Z) W} : WriterOps (list Z) (decoding W) := {|
  wput f d :=
    match d with
    | DecLaw d => let! (d, e) := wput f d in Ok (DecLaw d, e)
    | DecG722 d => let! (d, e) := wput f d in Ok (DecG722 d, e)
    | DecG722Dumped d => let! (d, e) := wput f d in Ok (DecG722Dumped d, e)
    | DecOpus d => let! (d, e) := wput f d in Ok (DecOpus d, e)
    | DecAMRWB d => let! (d, e) := wput f d in Ok (DecAMRWB d, e)
    end;
  wclose d :=
    match d with
    | DecLaw d => let! (d, e) := wclose d in Ok (DecLaw d, e)
    | DecG722 d => let! (d, e) := wclose d in Ok (DecG722 d, e)
    | DecG722Dumped d => let! (d, e) := wclose d in Ok (DecG722Dumped d, e)
    | DecOpus d => let! (d, e) := wclose d in Ok (DecOpus d, e)
    | DecAMRWB d => let! (d, e) := wclose d in Ok (DecAMRWB d, e)
    end;
|}.

#[export] Instance decoding_rate W `{RateOps W} : RateOps (decoding W) := {|
  wrate d :=
    match d with
    | DecLaw d => wrate d
    | DecG722 d => wrate d
    | DecG722Dumped d => wrate d
    | DecOpus d => wrate d
    | DecAMRWB d => wrate d
    end;
|}.

Inductive encoding (W : Type) : Type :=
| EncLaw (x : lawEncoder W)
| EncG722 (x : G722.Encoder GE W)
| EncG722Dumped (x : multiWriter
    (G722.Encoder GE (multiWriter (W + byteEncoder (fileWriter X))) + byteEncoder (fileWriter X)))
| EncOpus (x : Opus.encoder OE W)
| EncAMRWB (x : Amrwb.Encoder AE W).
Arguments EncLaw {W}.
Arguments EncG722 {W}.
Arguments EncG722Dumped {W}.
Arguments EncOpus {W}.
Arguments EncAMRWB {W}.

#[export] Instance encoding_ops W `{WriterOps (list Z) W} : WriterOps (list Z) (encoding W) := {|
  wput f x :=
    match x with
    | EncLaw x => let! (x, e) := wput f x in Ok (EncLaw x, e)
    | EncG722 x => let! (x, e) := wput f x in Ok (EncG722 x, e)
    | EncG722Dumped x => let! (x, e) := wput f x in Ok (EncG722Dumped x, e)
    | EncOpus x => let! (x, e) := wput f x in Ok (EncOpus x, e)
    | EncAMRWB x => let! (x, e) := wput f x in Ok (EncAMRWB x, e)
    end;
  wclose x :=
    match x with
    | EncLaw x => let! (x, e) := wclose x in Ok (EncLaw x, e)
    | EncG722 x => let! (x, e) := wclose x in Ok (EncG722 x, e)
    | EncG722Dumped x => let! (x, e) := wclose x in Ok (EncG722Dumped x, e)
    | EncOpus x => let! (x, e) := wclose x in Ok (EncOpus x, e)
    | EncAMRWB x => let! (x, e) := wclose x in Ok (EncAMRWB x, e)
    end;
|}.
#[export] Instance encoding_rate W `{RateOps W} : RateOps (encoding W) := {|
  wrate x :=
    match x with
    | EncLaw x => wrate x
    | EncG722 x => wrate x
    | EncG722Dumped x => wrate x
    | EncOpus x => wrate x
    | EncAMRWB x => wrate x
    end;
|}.

(** [c.decode(w)]: nil when the Opus decoder cannot be made. *)
Definition decode {W : Type} `{RateOps W} (c : create) (w : W) : outcome (option (decoding W)) :=
  match c with
  | CreateLaw l => let! d := lawDecode Direct resample l w in Ok (Some (DecLaw d))
  | CreateG722 =>
      match g722Dump with
      | None => let! d := G722.Decode Direct resample w in Ok (Some (DecG722 d))
      | Some id => let! d := G722.DecodeDumped createFile id Direct resample w in Ok (Some (DecG722Dumped d))
      end
  | CreateOpus =>
      let! r := Opus.Decode w 1 in
      Ok (match r with inl d => Some (DecOpus d) | inr _ => None end)
  | CreateAMRWB _ => let! d := Amrwb.Decode Direct resample w in Ok (Some (DecAMRWB d))
  end.

(** [c.encode(w)]: nil when the Opus encoder cannot be made. *)
Definition encode {W : Type} `{RateOps W} (c : create) (w : W) : outcome (option (encoding W)) :=
  match c with
  | CreateLaw l => let! x := lawEncode l w in Ok (Some (EncLaw x))
  | CreateG722 =>
      match g722Dump with
      | None => let! x := G722.Encode w in Ok (Some (EncG722 x))
      | Some id => let! x := G722.EncodeDumped createFile id w in Ok (Some (EncG722Dumped x))
      end
  | CreateOpus =>
      let! r := Opus.Encode w 1 in
      Ok (match r with inl x => Some (EncOpus x) | inr _ => None end)
  | CreateAMRWB mode => let! x := Amrwb.EncodeWith w mode in Ok (Some (EncAMRWB x))
  end.

(** [EncodeBytes], [DecodeBytes] of [audioCodec] *)
Definition codecEncodeBytes {B : Type} (c : audioCodec) (w : B) : outcome (option (encoding (byteEncoder B))) :=
  encode (made c) (EncodeBytes rawFrame w (SampleRate (config (codecInfo c)))).

Definition codecDecodeBytes {W : Type} `{RateOps W} (c : audioCodec) (w : W) : outcome (byteDecoder (decoding W)) :=
  let! d := decode (made c) w in Ok (DecodeBytes d).

End chains.
Arguments decoding : clear implicits.
Arguments encoding : clear implicits.
Arguments DecLaw {ST X OD AD GD W}.
Arguments DecG722 {ST X OD AD GD W}.
Arguments DecG722Dumped {ST X OD AD GD W}.
Arguments DecOpus {ST X OD AD GD W}.
Arguments DecAMRWB {ST X OD AD GD W}.
Arguments EncLaw {X OE AE GE W}.
Arguments EncG722 {X OE AE GE W}.
Arguments EncG722Dumped {X OE AE GE W}.
Arguments EncOpus {X OE AE GE W}.
Arguments EncAMRWB {X OE AE GE W}.
