(* ===== verification/RtpCodecs.v ===== *)
(** * RtpCodecs: codecs over RTP, [src/rtp/codecs.go]

    The handler that gives payloads to a writer of bytes, the automatic stream
    of a [SeqWriter] as a writer of bytes, and the functions that put a codec
    between them and PCM. *)

From Stdlib Require Import Ascii.
From stdpp Require Import base tactics numbers strings list.
From S2P Require Import Prelude RtpTypes SeqWriter GoStr Codecs CodecList G711 Writers FileWriter Resample AudioCodec.
From S2P Require Opus Amrwb G722.

#[local] Open Scope go_scope.

(** ** Handlers *)

(** [Handler], [HandlerCloser] *)
Class HandlerOps (H : Type) : Type := {
  handleRTP : Header -> list Z -> H -> outcome (H * option error);
  hclose : H -> outcome H;
}.

(** [rawHandler]: the error of [Close] is dropped. *)
Record rawHandler (W : Type) : Type := HandlePayload { rw : W; rtyp : Z }.
Arguments HandlePayload {W}.
Arguments rw {W}.
Arguments rtyp {W}.

#[export] Instance rawHandler_ops W `{WriterOps (list Z) W} : HandlerOps (rawHandler W) := {|
  handleRTP h payload d := let! (w, e) := wput payload (rw d) in Ok (HandlePayload w (rtyp d), e);
  hclose d := let! (w, _) := wclose (rw d) in Ok (HandlePayload w (rtyp d));
|}.

(** [MediaStreamIn] over a writer, with the [nopCloser] of [NewNopCloser]. *)
Record nopHandler (W : Type) : Type := NewNopCloser { nw : W }.
Arguments NewNopCloser {W}.
Arguments nw {W}.

#[export] Instance nopHandler_ops W `{WriterOps (list Z) W} : HandlerOps (nopHandler W) := {|
  handleRTP h payload d := let! (w, e) := wput payload (nw d) in Ok (NewNopCloser w, e);
  hclose d := Ok d;
|}.

(** A handler given packets one after the other. *)
Fixpoint handleAll {H : Type} `{HandlerOps H} (ps : list Packet) (x : H) : outcome (H * list (option error)) :=
  match ps with
  | [] => Ok (x, [])
  | p :: ps =>
      let! (x, e) := handleRTP (header p) (Payload p) x in
      let! (x, es) := handleAll ps x in
      Ok (x, e :: es)
  end.

(** [Buffer.WriteRTP]: the new slice and the count. *)
Definition bufferWriteRTP (b : list Packet) (h : Header) (payload : list Z) : list Packet * Z :=
  (b ++ [mkPacket h (copyOf payload)], zlen payload).

(** ** The automatic stream of a [SeqWriter] as a writer of bytes

    [clock] and [werr] are the readings of the clock and the outcomes of the
    packet writer below, in the order of the calls; [wire] are the packets that
    it accepted, a [Buffer]. *)
Record rtpStream : Type := mkRtpStream {
  seqw : SeqWriter;
  stream : Stream;
  clock : nat -> time;
  werr : nat -> option error;
  writes : nat;
  wire : list Packet;
}.

(** [NewStream] of a [SeqWriter] over that writer. *)
Definition newRtpStream (t rate : Z) (s : SeqWriter) (clock : nat -> time) (werr : nat -> option error) : outcome rtpStream :=
  let! (st, s) := NewStream t rate s in
  Ok (mkRtpStream s st clock werr 0 []).

#[export] Instance rtpStream_ops : WriterOps (list Z) rtpStream := {|
  wput data r :=
    let k := writes r in
    let '(p, s, st, e) := SeqWriter.WriteRaw (stream r) data (clock r (2 * k)) (clock r (2 * k + 1)) (werr r k) (seqw r) in
    match p with
    | None => Ok (mkRtpStream s st (clock r) (werr r) k (wire r), e)
    | Some p =>
        let wire' := match e with None => fst (bufferWriteRTP (wire r) (header p) (Payload p)) | Some _ => wire r end in
        Ok (mkRtpStream s st (clock r) (werr r) (S k) wire', e)
    end;
  wclose r := Ok (r, None);
|}.

(** ** [MediaStreamOut] over the stream of a [SeqWriter] *)

Record MediaStreamOut : Type := NewMediaStreamOut { outStream : rtpStream; outRate : Z }.

(** [WriteSample] is [WritePayload] without the marker, as [WriteRaw] is;
    [Close] leaves the stream open. *)
#[export] Instance mediaStreamOut_ops : WriterOps (list Z) MediaStreamOut := {|
  wput sample s := let! (r, e) := wput sample (outStream s) in Ok (NewMediaStreamOut r (outRate s), e);
  wclose s := Ok (s, None);
|}.
#[export] Instance mediaStreamOut_rate : RateOps MediaStreamOut := {| wrate s := Ok (outRate s) |}.

(** [HandlerFunc]: a nil one does nothing. *)
Definition HandlerFunc (A : Type) : Type := option (Header -> list Z -> A -> outcome (A * option error)).
Definition handlerFuncRTP {A : Type} (fnc : HandlerFunc A) (h : Header) (payload : list Z) (a : A)
    : outcome (A * option error) :=
  match fnc with None => Ok (a, None) | Some fnc => fnc h payload a end.

(** ** [initCodec] and its callers *)

Section codecs.
Context `{Constants}.

(** A codec without a [CreateFunc] has a nil one, whose call panics. *)
Definition initCodec (t : CodecType) (cc : CodecConfig) : outcome (audioCodec + error) :=
  let '(i, ok) := support t cc in
  if negb ok then Ok (inr (Errorf "no support for PCM codec"))
  else match createOf t cc with
       | Some c => Ok (inl (NewAudioCodecFunc i c))
       | None => Panic
       end.

Context {ST X OD OE AD AE GD GE : Type}.
Context `{FileOps X} `{Opus.OpusLib OD OE} `{Amrwb.AmrwbLib AD AE} `{G722.G722Lib GD GE} `{ResampleLib ST}.
Context (createFile : str -> X + error) (defaults : list ResampleOption) (dumpToFile : option Z) (cgo : bool)
  (spares : nat -> Z) (g722Dump : option Z).

Definition DecodePCM {W : Type} `{RateOps W} (w : W) (c : audioCodec) (typ : Z)
    : outcome (rawHandler (byteDecoder (decoding ST X OD AD GD W))) :=
  let! d := codecDecodeBytes createFile defaults dumpToFile cgo spares g722Dump c w in
  Ok (HandlePayload d typ).

Definition EncodePCM {B : Type} (w : B) (c : audioCodec) : outcome (option (encoding X OE AE GE (byteEncoder B))) :=
  codecEncodeBytes createFile g722Dump c w.

Definition DecodePCMWithCodec {W : Type} `{RateOps W} (w : W) (t : CodecType) (cc : CodecConfig) (typ : Z)
    : outcome (rawHandler (byteDecoder (decoding ST X OD AD GD W)) + error) :=
  let! r := initCodec t cc in
  match r with
  | inr err => Ok (inr err)
  | inl ac => let! h := DecodePCM w ac typ in Ok (inl h)
  end.

Definition EncodePCMWithCodec {B : Type} (w : B) (t : CodecType) (cc : CodecConfig)
    : outcome (option (encoding X OE AE GE (byteEncoder B)) + error) :=
  let! r := initCodec t cc in
  match r with
  | inr err => Ok (inr err)
  | inl ac => let! x := EncodePCM w ac in Ok (inl x)
  end.

(** [HandleAudio], [WriteAudio]: the frames of a codec without decoding. *)
Definition HandleAudio {W : Type} (w : W) (typ : Z) : rawHandler (byteDecoder W) := HandlePayload (DecodeBytes (Some w)) typ.

Definition WriteAudio {B : Type} (w : B) (i : CodecInfo) : byteEncoder B := EncodeBytes rawFrame w (SampleRate (config i)).

End codecs.
