(* ===== verification/WritersProps.v ===== *)
(** * WritersProps: writers that serve, over writers that serve

    For every writer of [Writers] and [FileWriter], an instance of [Serves] and
    [HasRate]: over a writer that takes its frames without a panic, it takes its
    own frames without a panic, and keeps the sample rate.  The predicates
    [...Good] say of the state of a writer that the writers below it are good. *)

From stdpp Require Import base tactics numbers strings list.
From S2P Require Import Prelude Media MediaProps GoStr Writers FileWriter.

#[local] Open Scope go_scope.

(** Use the promise of the writer below at its next call. *)
Ltac below_put f w Hg :=
  let w' := fresh "w" in let e := fresh "e" in
  destruct (serves_put f w Hg) as (w' & e & -> & ?); [try done|cbn [obind]].
Ltac below_close w Hg :=
  let w' := fresh "w" in let e := fresh "e" in
  destruct (serves_close w Hg) as (w' & e & -> & ?); cbn [obind].

(** ** Writers outside *)

Definition anySink {F : Type} (r : Z) (s : sink F) : Prop := sinkRate s = r.

#[export] Instance sink_serves F r (ok : F -> Prop) : Serves ok (anySink r).
Proof. split; intros; simpl; eauto. Qed.
#[export] Instance sink_hasRate F r : HasRate r (anySink (F := F) r).
Proof. split. intros w <-. done. Qed.

#[export] Instance bufferWriter_serves ok : Serves ok (fun _ : bufferWriter => True).
Proof. split; intros; simpl; eauto. Qed.

(** ** Writers over one writer *)

Section one.
Context {F W : Type} `{WriterOps F W} `{RateOps W} {ok : F -> Prop} {good : W -> Prop} {r : Z}.
Context `{!Serves ok good} `{!HasRate r good}.

#[export] Instance nopCloser_serves : Serves ok (fun n => good (nopped n)).
Proof.
  split; simpl.
  - intros f n Hn Hf. below_put f (nopped n) Hn. eauto.
  - eauto.
Qed.
#[export] Instance nopCloser_hasRate : HasRate r (fun n => good (nopped n)).
Proof. split. intros n Hn. by apply (has_rate (good := good)). Qed.

Definition multiGood (m : multiWriter W) : Prop := multi m <> [] /\ Forall good (multi m).

Lemma eachWriter_serves call ws :
  (forall w, good w -> exists w' e, call w = Ok (w', e) /\ good w') -> Forall good ws ->
  exists ws' es, eachWriter call ws = Ok (ws', es) /\ Forall good ws' /\ length ws' = length ws.
Proof.
  intros Hcall. induction 1 as [|w ws Hw _ IH]; simpl; [by repeat esplit|].
  destruct (Hcall w Hw) as (w' & e & -> & ?). destruct IH as (ws' & es & -> & ? & ?). simpl.
  do 2 eexists. split; [done|]. simpl. split; [by constructor|]. congruence.
Qed.

Lemma multiGood_each m ws : multiGood m -> Forall good ws -> length ws = length (multi m) -> multiGood (MultiWriter ws).
Proof. intros [Hne _] Hg Hl. split; [|done]. simpl. by destruct ws, (multi m). Qed.

#[export] Instance multiWriter_serves : Serves ok multiGood.
Proof.
  split; simpl; [intros f m Hm Hf|intros m Hm].
  - destruct (eachWriter_serves (wput f) (multi m)) as (ws & es & -> & ? & ?); [intros w Hw; by apply serves_put|apply Hm|].
    simpl. do 2 eexists. split; [done|]. by eapply multiGood_each.
  - destruct (eachWriter_serves wclose (multi m)) as (ws & es & -> & ? & ?); [intros w Hw; by apply (serves_close (ok := ok))|apply Hm|].
    simpl. do 2 eexists. split; [done|]. by eapply multiGood_each.
Qed.
#[export] Instance multiWriter_hasRate : HasRate r multiGood.
Proof. split. intros [[|w ws]] [Hne Hg]; [done|]. simpl in *. apply (has_rate (good := good)). by inversion Hg. Qed.

End one.
Arguments multiGood {W} good m.

(** ** Two kinds of writers in one *)

Section two.
Context {F W V : Type} `{WriterOps F W} `{RateOps W} `{WriterOps F V} `{RateOps V}.
Context {ok : F -> Prop} {good : W -> Prop} {good' : V -> Prop} {r : Z}.
Context `{!Serves ok good} `{!HasRate r good} `{!Serves ok good'} `{!HasRate r good'}.

Definition sumGood (x : W + V) : Prop := match x with inl w => good w | inr v => good' v end.

#[export] Instance sum_serves : Serves ok sumGood.
Proof.
  split; simpl; [intros f [w|v] Hx Hf|intros [w|v] Hx]; simpl in *.
  - below_put f w Hx. eauto.
  - below_put f v Hx. eauto.
  - below_close w Hx. eauto.
  - below_close v Hx. eauto.
Qed.
#[export] Instance sum_hasRate : HasRate r sumGood.
Proof. split. intros [w|v]; simpl; [apply (has_rate (good := good))|apply (has_rate (good := good'))]. Qed.

End two.
Arguments sumGood {W V} good good' x.

(** ** PCM frames *)

Lemma pcm_app s s' : pcm s -> pcm s' -> pcm (s ++ s').
Proof. apply Forall_app_2. Qed.
Lemma pcm_take n s : pcm s -> pcm (take n s).
Proof. apply Forall_take. Qed.
Lemma pcm_drop n s : pcm s -> pcm (drop n s).
Proof. apply Forall_drop. Qed.
Lemma pcm_zeros n : pcm (replicate n 0).
Proof. apply Forall_replicate. unfold sampleOk. lia. Qed.
Lemma raw_zeros n : raw (replicate n 0).
Proof. apply Forall_replicate. unfold byteOk. lia. Qed.
#[export] Hint Resolve pcm_app pcm_take pcm_drop pcm_zeros raw_zeros : go.

Lemma gain_pcm g s : pcm s -> pcm (gainWriteSample g s).
Proof.
  intros Hs. unfold gainWriteSample. case_if; [done|]. case_if; [apply pcm_zeros|].
  apply Forall_fmap, Forall_true. intros v. apply i16_range.
Qed.

Section gain.
Context {W : Type} `{WriterOps (list Z) W} `{RateOps W} {good : W -> Prop} {r : Z}.
Context `{!Serves pcm good} `{!HasRate r good}.

#[export] Instance gainWriter_serves : Serves pcm (fun g => good (gained g)).
Proof.
  split; simpl.
  - intros f g Hg Hf. below_put (gainWriteSample (gain g) f) (gained g) Hg; [by apply gain_pcm|]. eauto.
  - intros g Hg. below_close (gained g) Hg. eauto.
Qed.
#[export] Instance gainWriter_hasRate : HasRate r (fun g => good (gained g)).
Proof. split. intros g Hg. by apply (has_rate (good := good)). Qed.

End gain.

(** ** Frames as bytes *)

(** The buffer that [encodeFrame] copies to has the size of the frame. *)
Lemma encodeFrame_into ops buf c s bs :
  0 <= frameSizeOf ops s ->
  (forall b, zlen b = frameSizeOf ops s -> frameCopyTo ops s b = (bs, inl (zlen bs))) ->
  exists c', encodeFrame ops buf c s = Ok (bs, c', inl bs).
Proof.
  intros Hsz Hcopy. unfold encodeFrame.
  set (p := if c <? frameSizeOf ops s then _ else _). assert (zlen p.1 = frameSizeOf ops s) as Hp.
  { subst p. unfold zlen. case_if; simpl; rewrite ?length_take, ?length_app, ?length_replicate; lia. }
  destruct p as [b c']. simpl in Hp. rewrite (Hcopy b Hp), go_slice_Ok by (unfold zlen; lia). simpl.
  exists c'. rewrite take_ge by (rewrite length_drop; unfold zlen; lia). by rewrite drop_0.
Qed.

Lemma encodeFrame_pcm buf c s : pcm s ->
  exists c', encodeFrame pcmFrame buf c s = Ok (concat (putLE <$> s), c', inl (concat (putLE <$> s))).
Proof.
  intros Hs. destruct (putLE_spec s Hs) as (_ & _ & Hl).
  apply encodeFrame_into; simpl; unfold Size; [pose proof (zlen_nonneg s); lia|].
  intros b Hb. unfold Media.CopyTo. case_if; [lia|]. rewrite drop_ge by (unfold zlen in *; lia).
  rewrite app_nil_r. unfold zlen in *. rewrite Hl. do 3 f_equal. lia.
Qed.

Lemma encodeFrame_raw buf c s : exists c', encodeFrame rawFrame buf c s = Ok (s, c', inl s).
Proof.
  apply encodeFrame_into; simpl; unfold rawSize; [apply zlen_nonneg|].
  intros b Hb. unfold rawCopyTo. case_if; [lia|]. unfold go_copy, zlen in *.
  rewrite Nat.min_l, take_ge, drop_ge, app_nil_r by lia. do 2 f_equal. lia.
Qed.

(** The frames that a kind of frame encodes to bytes. *)
Class Encodes (ops : frameOps) (ok : list Z -> Prop) : Prop :=
  encodes buf c s : ok s -> exists b c' bs, encodeFrame ops buf c s = Ok (b, c', inl bs) /\ raw bs.

#[export] Instance pcmFrame_encodes : Encodes pcmFrame pcm.
Proof.
  intros buf c s Hs. destruct (encodeFrame_pcm buf c s Hs) as [c' ->]. do 3 eexists. split; [done|].
  apply (putLE_spec s Hs).
Qed.
#[export] Instance rawFrame_encodes : Encodes rawFrame raw.
Proof. intros buf c s Hs. destruct (encodeFrame_raw buf c s) as [c' ->]. eauto. Qed.

Section bytes.
Context {W : Type} `{WriterOps (list Z) W} {good : W -> Prop} (ops : frameOps) (r : Z).
Context `{!Serves raw good} {ok : list Z -> Prop} `{!Encodes ops ok}.

Definition encoderGood (b : byteEncoder W) : Prop := good (encoded_ b) /\ encOps b = ops /\ encRate b = r.

#[export] Instance byteEncoder_serves : Serves ok encoderGood.
Proof.
  split; simpl.
  - intros s b (Hg & Ho & Hr) Hs. rewrite Ho.
    destruct (encodes (encBuf b) (encCap b) s Hs) as (b' & c' & bs & -> & Hraw). cbn [obind].
    below_put bs (encoded_ b) Hg. by repeat esplit.
  - intros b (Hg & Ho & Hr). below_close (encoded_ b) Hg. by repeat esplit.
Qed.
#[export] Instance byteEncoder_hasRate : HasRate r encoderGood.
Proof. split. by intros b (_ & _ & <-). Qed.

End bytes.
Arguments encoderGood {W} good ops r b.

Section bytes'.
Context {W : Type} `{WriterOps (list Z) W} `{RateOps W} {good : W -> Prop} {ok : list Z -> Prop} {r : Z}.
Context `{!Serves ok good} `{!HasRate r good}.

Definition decoderGood (d : byteDecoder W) : Prop := exists w, decoded_ d = Some w /\ good w.

#[export] Instance byteDecoder_serves : Serves ok decoderGood.
Proof.
  split; simpl.
  - intros s d (w & -> & Hg) Hs. below_put s w Hg. do 2 eexists. split; [done|]. by eexists.
  - intros d (w & -> & Hg). below_close w Hg. do 2 eexists. split; [done|]. by eexists.
Qed.
#[export] Instance byteDecoder_hasRate : HasRate r decoderGood.
Proof. split. intros d (w & Hd & Hg). simpl. rewrite Hd. by apply (has_rate (good := good)). Qed.

End bytes'.
Arguments decoderGood {W} good d.
