(* ===== verification/FileWriterProps.v ===== *)
(** * FileWriterProps: what reaches a file

    The contract of [io.Writer] is the class [FileLaws]: a write takes a prefix
    of its bytes, and reports an error when it does not take them all. *)

From Stdlib Require Import Ascii.
From stdpp Require Import base tactics numbers strings list.
From S2P Require Import Prelude GoStr Media MediaProps Writers FileWriter WritersProps.

#[local] Open Scope go_scope.

Class FileLaws (X : Type) `{FileOps X} (content : X -> list Z) (closes : X -> nat) : Prop := {
  fwrite_law p x x' n e : fwrite p x = (x', n, e) ->
    0 <= n <= zlen p /\ (n < zlen p -> e <> None) /\ content x' = content x ++ take (Z.to_nat n) p /\ closes x' = closes x;
  fclose_law x x' e : fclose x = (x', e) -> content x' = content x /\ closes x' = S (closes x);
}.

Section file.
Context {X : Type} `{FileLaws X content closes}.

Definition bufOk (b : bufWriter X) : Prop := zlen (pending b) <= defaultBufSize.

(** The bytes taken so far are those of the file and those of the buffer, unless
    a write failed: then the file has a prefix of them. *)
Definition taken (l : list Z) (b : bufWriter X) : Prop :=
  bufOk b /\ (exists rest, l = content (below b) ++ rest /\ (bufErr b = None -> rest = pending b)).

(** Only writes happened between two states of the file. *)
Definition onlyWrites (x x' : X) : Prop := closes x' = closes x /\ content x `prefix_of` content x'.

#[local] Instance onlyWrites_preorder : PreOrder onlyWrites.
Proof. split; [done|]. intros x y z [? ?] [? ?]. split; [congruence|by etrans]. Qed.
Lemma fwrite_onlyWrites p x x' n e : fwrite p x = (x', n, e) -> onlyWrites x x'.
Proof. intros Hw. destruct (fwrite_law _ _ _ _ _ Hw) as (_ & _ & Hc & ?). split; [done|]. rewrite Hc. by apply prefix_app_r. Qed.
#[local] Hint Resolve fwrite_onlyWrites : core.

Lemma taken_more l p b : taken l b -> bufErr b <> None -> taken (l ++ p) b.
Proof.
  intros [Hb (rest & -> & _)] He. split; [done|]. exists (rest ++ p). by rewrite app_assoc.
Qed.

(** What the file did not get of [p] is lost, or stays in the buffer. *)
Lemma fwrite_taken p x x' n e q : fwrite p x = (x', n, e) -> zlen q <= defaultBufSize -> (e = None -> q = drop (Z.to_nat n) p) ->
  taken (content x ++ p) (mkBufWriter x' q e).
Proof.
  intros Hw Hq Hd. destruct (fwrite_law _ _ _ _ _ Hw) as (_ & _ & Hc & _). split; [done|].
  exists (drop (Z.to_nat n) p). simpl. rewrite Hc, <- app_assoc, take_drop. split; [done|]. intros He. by rewrite Hd.
Qed.

Lemma bufFlush_spec l b b' e : taken l b -> bufFlush b = (b', e) ->
  taken l b' /\ onlyWrites (below b) (below b') /\ bufErr b' = e /\ (e = None -> pending b' = []).
Proof.
  intros Ht. unfold bufFlush. destruct (bufErr b) as [e0|] eqn:He; [by intros [= <- <-]|].
  case_if; [intros [= <- <-]; by split_and!; [| | |intros; apply zlen_0]|].
  destruct (fwrite (pending b) (below b)) as [[x n] err] eqn:Hw.
  destruct (fwrite_law _ _ _ _ _ Hw) as (Hn & Hs & _ & Hcl).
  destruct Ht as [Hb (rest & -> & Hrest)]. rewrite (Hrest He) in *.
  assert (zlen (drop (Z.to_nat n) (pending b)) <= defaultBufSize) as Hd.
  { unfold bufOk, zlen in *. rewrite length_drop. lia. }
  destruct err as [e1|]; [|case_if].
  - intros [= <- <-]. split_and!; [by eapply fwrite_taken|eauto|done..].
  - by destruct (Hs ltac:(done)).
  - intros [= <- <-]. split_and!; [|eauto|done..]. eapply fwrite_taken; [done|done|].
    intros _. symmetry. apply drop_ge. unfold zlen in *. lia.
Qed.

Lemma bufLoop_stop fuel p b : bufErr b <> None \/ zlen p <= available b -> bufLoop fuel p b = Some (p, b).
Proof. intros Hs. destruct fuel; cbn [bufLoop]; case_if; try done; bool_cases; case_bool_decide; naive_solver lia. Qed.

(** A turn of the loop of [Write], if one is needed. *)
Lemma bufLoop_spec fuel p b l : taken l b -> (2 <= fuel \/ 1 <= fuel /\ pending b = [])%nat ->
  exists q p' b', bufLoop fuel p b = Some (p', b') /\ p = q ++ p' /\ taken (l ++ q) b' /\ onlyWrites (below b) (below b') /\
    (bufErr b' = None -> zlen p' <= available b').
Proof.
  revert p b l. induction fuel as [|fuel IH]; intros p b l Ht Hf; [lia|].
  destruct (decide (bufErr b = None)) as [He|He].
  2: { rewrite bufLoop_stop by auto. exists [], p, b. rewrite app_nil_r. by split_and!. }
  destruct (decide (zlen p <= available b)) as [Hp|Hp].
  { rewrite bufLoop_stop by auto. exists [], p, b. rewrite app_nil_r. by split_and!. }
  cbn [bufLoop]. rewrite He, bool_decide_eq_true_2, andb_true_r by done. case_if; [|lia].
  pose proof Ht as [Hb (rest & -> & Hrest)]. rewrite (Hrest He) in *. case_if.
  - apply zlen_0 in Heqb1 as Hpend. rewrite Hpend, app_nil_r.
    destruct (fwrite p (below b)) as [[x n] err] eqn:Hw. destruct (fwrite_law _ _ _ _ _ Hw) as (Hn & Hs & Hc & Hcl).
    assert (bufErr (mkBufWriter x [] err) <> None \/ zlen (drop (Z.to_nat n) p) <= available (mkBufWriter x [] err)) as Hstop.
    { destruct err; [by left|right]. destruct (decide (n < zlen p)) as [Hlt|?]; [by destruct (Hs Hlt)|].
      rewrite drop_ge by (unfold zlen in *; lia). done. }
    rewrite bufLoop_stop by done. exists (take (Z.to_nat n) p), (drop (Z.to_nat n) p), (mkBufWriter x [] err).
    rewrite take_drop. split_and!; [done|done| |eauto|naive_solver].
    split; [done|]. exists []. simpl. by rewrite app_nil_r, Hc.
  - destruct Hf as [Hf|[_ Hnil]]; [|by rewrite Hnil in Heqb1].
    set (n := Z.to_nat (available b)). set (b1 := mkBufWriter _ _ _).
    destruct (bufFlush b1) as [b2 e2] eqn:Hfl. simpl.
    assert (taken ((content (below b) ++ pending b) ++ take n p) b1) as Ht1.
    { split; [unfold bufOk, b1, available in *; simpl; rewrite zlen_app; unfold zlen in *; rewrite length_take; lia|].
      exists (pending b ++ take n p). by rewrite app_assoc. }
    destruct (bufFlush_spec _ _ _ _ Ht1 Hfl) as (Ht2 & Hsc & He2 & Hnil).
    destruct e2 as [e2|].
    + rewrite bufLoop_stop by (left; by rewrite He2). exists (take n p), (drop n p), b2. rewrite take_drop.
      split_and!; [done..|by rewrite He2].
    + destruct (IH (drop n p) b2 _ Ht2) as (q & p' & b' & -> & Hq & Ht' & Hsc' & Hfit); [right; split; [lia|auto]|].
      exists (take n p ++ q), p', b'. rewrite <- (app_assoc (take n p)), <- Hq, take_drop.
      split_and!; [done|done|by rewrite app_assoc| |done]. by etrans.
Qed.

Lemma bufWrite_spec l p b : taken l b ->
  exists b' e, bufWrite p b = Some (b', e) /\ taken (l ++ p) b' /\ onlyWrites (below b) (below b') /\ bufErr b' = e.
Proof.
  intros Ht. unfold bufWrite.
  destruct (bufLoop_spec (S (S (length p))) p b l Ht) as (q & p' & b' & -> & -> & Ht' & Hsc & Hfit); [lia|].
  destruct (bufErr b') as [e|] eqn:He; do 2 eexists; (split; [done|]).
  - split_and!; [|done|done]. rewrite app_assoc. apply taken_more; [done|congruence].
  - split_and!; [|done|done]. destruct Ht' as [Hb (rest & Hl & Hrest)]. specialize (Hfit eq_refl). split.
    + unfold bufOk, available in *. simpl. rewrite zlen_app. lia.
    + exists (rest ++ p'). rewrite app_assoc, Hl, <- app_assoc. split; [done|]. intros _. by rewrite Hrest.
Qed.

Lemma fileClose_spec l w w' e : taken l w -> fileClose w = (w', e) ->
  taken l w' /\ closes (below w') = S (closes (below w)) /\ content (below w) `prefix_of` content (below w') /\
  (e = None -> content (below w') = l).
Proof.
  intros Ht. unfold fileClose. destruct (bufFlush w) as [b e1] eqn:Hf.
  destruct (bufFlush_spec _ _ _ _ Ht Hf) as ([Hb (rest & -> & Hrest)] & Hsc & He & Hnil).
  destruct (fclose (below b)) as [x e2] eqn:Hc. destruct (fclose_law _ _ _ Hc) as [Hx Hcl]. intros [= <- <-]. simpl.
  assert (taken (content (below b) ++ rest) (mkBufWriter x (pending b) (bufErr b))) as Ht'.
  { split; [done|]. exists rest. simpl. by rewrite Hx. }
  rewrite Hx, Hcl, (proj1 Hsc). split_and!; [done|done|apply Hsc|]. destruct e1; [done|]. intros _.
  rewrite Hrest, Hnil by done. by rewrite app_nil_r.
Qed.

#[export] Instance fileWriter_serves ok : Serves ok bufOk.
Proof.
  split; simpl.
  - intros p w Hw _. assert (exists l, taken l w) as [l Ht].
    { exists (content (below w) ++ pending w). split; [done|]. by eexists. }
    unfold WriteRaw. destruct (bufWrite_spec l p w Ht) as (b' & e & -> & [? _] & _ & _). eauto.
  - intros w Hw. assert (exists l, taken l w) as [l Ht].
    { exists (content (below w) ++ pending w). split; [done|]. by eexists. }
    destruct (fileClose w) as [w' e] eqn:Hc. do 2 eexists. split; [done|]. by destruct (fileClose_spec l w w' e Ht Hc) as [[? _] _].
Qed.

Lemma taken_prefix l b : taken l b -> content (below b) `prefix_of` l.
Proof. intros [_ (rest & -> & _)]. by apply prefix_app_r. Qed.

(** ** [DumpFramesPCM16] *)

Lemma writeFrames_spec frames (fw : byteEncoder (fileWriter X)) l : Forall pcm frames -> taken l (encoded_ fw) -> encOps fw = pcmFrame ->
  exists fw' e, writeFrames frames fw = Ok (fw', e) /\ encOps fw' = pcmFrame /\
    onlyWrites (below (encoded_ fw)) (below (encoded_ fw')) /\
    taken (l ++ concat (putLE <$> concat frames)) (encoded_ fw').
Proof.
  intros Hf. revert fw l. induction Hf as [|f frames Hp _ IH]; intros fw l Ht Ho; simpl.
  { rewrite app_nil_r. by do 2 eexists. }
  rewrite Ho. destruct (encodeFrame_pcm (encBuf fw) (encCap fw) f Hp) as [c' ->]. simpl. unfold WriteRaw.
  destruct (bufWrite_spec l (concat (putLE <$> f)) (encoded_ fw) Ht) as (b & e & -> & Ht' & Hsc & He). simpl.
  rewrite fmap_app, concat_app, app_assoc. destruct e as [e|].
  - do 2 eexists. split; [done|]. simpl. split_and!; [done|done|]. apply taken_more; [done|congruence].
  - destruct (IH (mkByteEncoder (W := fileWriter X) pcmFrame b (encRate fw) (concat (putLE <$> f)) c') _ Ht' eq_refl)
      as (fw' & e' & Hw & ? & Hsc' & ?). rewrite Hw.
    do 2 eexists. split; [done|]. split_and!; [done| |done]. by etrans.
Qed.

(** The two deferred calls, after whatever was written of [l]. *)
Lemma deferred_spec l (w w' : fileWriter X) x' e e' : taken l w -> fileClose w = (w', e) -> fclose (below w') = (x', e') ->
  content x' `prefix_of` l /\ closes x' = (2 + closes (below w))%nat /\ content (below w) `prefix_of` content x'.
Proof.
  intros Ht Hc Hx. destruct (fileClose_spec _ _ _ _ Ht Hc) as (Ht' & Hcl & Hp & _).
  destruct (fclose_law _ _ _ Hx) as [-> ->]. rewrite Hcl. by split_and!; [apply taken_prefix| |].
Qed.

Lemma DumpFrames_spec isErrClosed x rate frames : Forall pcm frames ->
  let bs := concat (putLE <$> concat frames) in
  exists x' e, DumpFramesPCM16 isErrClosed x rate frames = Ok (x', e) /\
    content x `prefix_of` content x' /\ content x' `prefix_of` content x ++ bs /\
    (e = None -> content x' = content x ++ bs) /\ (closes x + 2 <= closes x')%nat.
Proof.
  intros Hf bs. unfold DumpFramesPCM16.
  destruct (writeFrames_spec frames (NewFileWriter pcmFrame x rate) (content x) Hf) as (fw & e & -> & _ & [Hcl Hpre] & Ht).
  { split; [done|]. exists []. by rewrite app_nil_r. }
  { done. }
  cbn [obind]. simpl in Hcl, Hpre. destruct e as [e|].
  - destruct (fileClose (encoded_ fw)) as [w1 e1] eqn:Hc1. destruct (fclose (below w1)) as [x2 e2] eqn:Hc2.
    destruct (deferred_spec _ _ _ _ _ _ Ht Hc1 Hc2) as (H1 & H2 & H3).
    do 2 eexists. split; [done|]. split_and!; [by etrans|done|done|unfold fileWriter in *; lia].
  - simpl. destruct (fileClose (encoded_ fw)) as [w1 e1] eqn:Hc1.
    destruct (fileClose_spec _ _ _ _ Ht Hc1) as (Ht1 & Hcl1 & Hpre1 & Hall). simpl. destruct e1 as [e1|]; simpl.
    + destruct (fileClose w1) as [w2 e2] eqn:Hc2. destruct (fclose (below w2)) as [x3 e3] eqn:Hc3.
      destruct (deferred_spec _ _ _ _ _ _ Ht1 Hc2 Hc3) as (H1 & H2 & H3).
      do 2 eexists. split; [done|]. split_and!; [by do 2 etrans|done|done|unfold fileWriter in *; lia].
    + destruct (fclose (below w1)) as [x2 e2] eqn:Hc2. destruct (fclose_law _ _ _ Hc2) as [Hx2 Hcl2].
      assert (taken (content x ++ bs) (mkBufWriter x2 (pending w1) (bufErr w1))) as Ht2.
      { destruct Ht1 as [Hb (rest & Hl & Hrest)]. split; [done|]. exists rest. by rewrite <- Hx2 in Hl. }
      destruct (fileClose (mkBufWriter x2 (pending w1) (bufErr w1))) as [w3 e3] eqn:Hc3. destruct (fclose (below w3)) as [x4 e4] eqn:Hc4.
      destruct (deferred_spec _ _ _ _ _ _ Ht2 Hc3 Hc4) as (H1 & H2 & H3). simpl in *.
      do 2 eexists. split; [done|]. rewrite Hx2, (Hall eq_refl) in H3.
      split_and!; [etrans; [apply prefix_app_r; reflexivity|done]|done| |unfold fileWriter in *; lia].
      intros _. by apply (anti_symm prefix).
Qed.

(** C27: [DumpFramesPCM16] never panics and always closes the file.  The file gets
    a prefix of the bytes of the frames, in order; when the function reports no
    error it has them all, and they read back as the samples. *)
Theorem dump_frames_file (isErrClosed : error -> bool) (x : X) (rate : Z) (frames : list (list Z))
    (Hframes : Forall pcm frames) :
  exists x' e p bs, DumpFramesPCM16 isErrClosed x rate frames = Ok (x', e) /\
    raw bs /\ getLE bs = concat frames /\
    content x' = content x ++ p /\ p `prefix_of` bs /\ (e = None -> p = bs) /\
    (closes x + 2 <= closes x')%nat.
Proof.
  destruct (DumpFrames_spec isErrClosed x rate frames Hframes) as (x' & e & Hd & [p Hp] & Hpre & Hall & Hcl).
  destruct (putLE_spec (concat frames)) as (Hget & Hraw & _); [by apply Forall_concat|].
  rewrite Hp in Hpre, Hall. exists x', e, p, (concat (putLE <$> concat frames)).
  split_and!; [done..|by apply prefix_app_inv in Hpre| |done]. intros He. by apply (app_inv_head (content x)), Hall.
Qed.

End file.

(** A disk with room for some bytes. *)
Record diskFile : Type := mkDisk { stored : list Z; room : nat; timesClosed : nat }.

Definition errNoSpace : error := Errorf "no space left on device".

#[export] Instance diskFile_ops : FileOps diskFile := {|
  fwrite p d :=
    let n := Nat.min (length p) (room d) in
    (mkDisk (stored d ++ take n p) (room d - n) (timesClosed d), Z.of_nat n,
     if (room d <? length p)%nat then Some errNoSpace else None);
  fclose d := (mkDisk (stored d) (room d) (S (timesClosed d)), None);
|}.

#[export] Instance diskFile_laws : FileLaws diskFile stored timesClosed.
Proof.
  split.
  - intros p x x' n e [= <- <- <-]. unfold zlen. simpl. split_and!; [lia|lia| |by rewrite Nat2Z.id|done].
    destruct (Nat.ltb_spec (room x) (length p)); [done|lia].
  - by intros x x' e [= <- <-].
Qed.

Lemma dump_frames_file_witness :
  exists x' e p bs, DumpFramesPCM16 (fun _ => false) (mkDisk [] 5 0) 8000 [[1; -2]; [258]] = Ok (x', e) /\
    getLE bs = [1; -2; 258] /\ stored x' = p /\ p `prefix_of` bs /\ e <> None /\ p = [1; 0; 254; 255; 2].
Proof.
  destruct (dump_frames_file (fun _ => false) (mkDisk [] 5 0) 8000 [[1; -2]; [258]]) as (x' & e & p & bs & H).
  { repeat constructor; done. }
  assert (DumpFramesPCM16 (fun _ => false) (mkDisk [] 5 0) 8000 [[1; -2]; [258]] =
    Ok (mkDisk [1; 0; 254; 255; 2] 0 3, Some errNoSpace)) as Hd by (vm_compute; reflexivity).
  destruct H as (H1 & _ & H2 & H3 & H4 & H5 & _). rewrite Hd in H1. injection H1 as <- <-. simpl in H3.
  exists (mkDisk [1; 0; 254; 255; 2] 0 3), (Some errNoSpace), p, bs. split; [exact Hd|]. split; [exact H2|].
  split; [exact H3|]. split; [exact H4|]. split; [discriminate|]. symmetry. exact H3.
Defined.

(** ** [webm.NewWriter]: the [k]-th block starts at [k] times the whole
    milliseconds of the duration; the blocks of 2.5 ms frames are 2 ms apart. *)
Lemma webm_run frames (w : webmWriter (sink (Z * list Z))) : Forall pcm frames -> webmOps w = pcmFrame ->
  0 <= Milliseconds (webmDur w) -> 0 <= webmTs w -> webmTs w + Z.of_nat (length frames) * Milliseconds (webmDur w) < 2 ^ 63 ->
  exists w' es, putAll frames w = Ok (w', es) /\
    got (blocks w') = got (blocks w) ++
      imap (fun k f => (webmTs w + Z.of_nat k * Milliseconds (webmDur w), concat (putLE <$> f))) frames.
Proof.
  intros Hf. revert w. induction Hf as [|f frames Hp _ IH]; intros w Ho Hms Hts Hmax.
  { exists w, []. by rewrite app_nil_r. }
  change (length (f :: frames)) with (S (length frames)) in Hmax.
  cbn [putAll wput webmWriter_ops]. rewrite Ho. destruct (encodeFrame_pcm (webmBuf w) (webmCap w) f Hp) as [c ->].
  cbn [obind wput sink_ops].
  assert (i64 (webmTs w + Milliseconds (webmDur w)) = webmTs w + Milliseconds (webmDur w)) as Hi.
  { change (2 ^ 63) with 9223372036854775808 in Hmax. clear IH. unfold i64.
    rewrite Z.mod_small; [lia|]. nia. }
  rewrite Hi.
  match goal with |- context [putAll frames ?w1] => destruct (IH w1) as (w' & es & -> & Hg) end; [done|done|simpl; lia|simpl; lia|].
  cbn [obind]. do 2 eexists. split; [done|]. rewrite Hg. simpl. rewrite <- app_assoc. f_equal. simpl.
  rewrite Z.add_0_r. f_equal. apply imap_ext. intros k x _. simpl. f_equal. lia.
Qed.

Lemma webm_drifts : Milliseconds (2500 * Microsecond) = 2.
Proof. reflexivity. Qed.
