(* ===== verification/ResampleProps.v ===== *)
(** * ResampleProps: a resampler serves over a writer that serves *)

From Stdlib Require Import Ascii.
From stdpp Require Import base tactics numbers strings list.
From S2P Require Import Prelude GoFloat GoStr Media Soxr SoxrProps Writers FileWriter Resample WritersProps FileWriterProps.

#[local] Open Scope go_scope.

(** What the C library documents, and that its samples are [int16]. *)
Class ResampleLaws (ST : Type) `{ResampleLib ST} : Prop := {
  soxr_process_law : processOk soxrProcess;
  soxr_samples_law st inp room st' n out e : soxr_process st inp room = (st', n, out, e) -> pcm out;
  soxr_create_law src dst : 0 < src -> 0 < dst -> soxrErr (soxr_create src dst).2 = None;
}.

Section soxr.
Context {ST : Type} `{ResampleLaws ST}.
Implicit Types (c : resampleWriter ST).

Lemma soxrProcess_pcm st inp room st' n out err : soxrProcess st inp room = (st', n, out, err) -> pcm out.
Proof.
  unfold soxrProcess. destruct (soxr_process st inp room) as [[[st1 n1] o] e] eqn:Hp. intros [= _ _ <- _].
  by apply soxr_samples_law in Hp.
Qed.

Lemma newSoxr_total dst src : 0 < dst -> 0 < src -> exists st, newSoxr dst src = inl st.
Proof.
  intros Hd Hs. pose proof (soxr_create_law src dst Hs Hd) as He. unfold newSoxr.
  destruct (soxr_create src dst) as [p e]. simpl in He. rewrite He. eauto.
Qed.

Lemma processLoop_pcm fuel st inp room done st' out err :
  pcm done -> processLoop soxrProcess fuel st inp room done = Some (Ok (st', out, err)) -> pcm out.
Proof.
  revert st inp room done. induction fuel as [|fuel IH]; intros st inp room done Hd; cbn [processLoop].
  - case_if; [by intros [= _ <- _]|done].
  - case_if; [by intros [= _ <- _]|]. destruct (soxrProcess st inp room) as [[[st1 n] o] e] eqn:Hp.
    apply soxrProcess_pcm in Hp. destruct e; [intros [= _ <- _]; constructor|].
    case_if; [done|]. case_if; [intros [= _ <- _]; by apply pcm_app|]. apply IH. by apply pcm_app.
Qed.

Lemma Resample_pcm inp spare r r' out err :
  Soxr.Resample soxrProcess inp spare r = Some (Ok (r', out, err)) -> pcm out.
Proof.
  unfold Soxr.Resample. case_if; [intros [= _ <- _]; constructor|].
  destruct (go_quot _ _) as [d|]; [|done]. destruct (go_quot _ _) as [d'|]; [|done].
  destruct (processLoop _ _ _ _ _ _) as [[[[st o] e]|]|] eqn:Hl; [|done..].
  intros [= _ <- _]. eapply processLoop_pcm, Hl. constructor.
Qed.

Lemma flushLoop_pcm fuel frame mins b out errs last :
  pcm b -> Forall pcm out -> let '(b', out', _) := flushLoop fuel frame mins b out errs last in pcm b' /\ Forall pcm out'.
Proof.
  revert b out errs last. induction fuel as [|fuel IH]; intros b out errs last Hb Ho; cbn [flushLoop]; [done|].
  case_if; [|done]. apply IH; [by apply pcm_drop|]. apply Forall_app. split; [done|]. constructor; [by apply pcm_take|constructor].
Qed.

(** What stays true of the state of the resampler. *)
Definition coreGood (src : Z) (c : resampleWriter ST) : Prop :=
  rSrc (res c) = src /\ 0 < src /\ 0 < rDst (res c) /\ 0 <= dstFrame c /\ pcm (buf c) /\ Forall pcm (passed c).

Lemma flush_good src mins errs c : coreGood src c -> coreGood src (Soxr.flush mins errs c).1.
Proof.
  intros (Hs & Hp & Hd & Hf & Hb & Hpa). unfold Soxr.flush. case_if; [done|].
  match goal with |- context [flushLoop ?f ?fr ?m ?b ?o ?e ?l] =>
    pose proof (flushLoop_pcm f fr m b o e l Hb Hpa) as Hl; destruct (flushLoop f fr m b o e l) as [[b' out'] last'] end.
  by split_and!; simpl; [..|apply Hl|apply Hl].
Qed.

(** A call of [Resample], and its samples appended to the buffer. *)
Lemma Resample_good src data spare c : coreGood src c ->
  exists r out err, Soxr.Resample soxrProcess data spare (res c) = Some (Ok (r, out, err)) /\ rSrc r = src /\
    forall ptr f, 0 <= f -> coreGood src (mkResampleWriter (mkSoxr (lib r) ptr (rSrc r) (rDst r) (maxIn r)) f (buffer c) (buf c ++ out) (passed c)) /\
      coreGood src (mkResampleWriter r f (buffer c) (buf c ++ out) (passed c)).
Proof.
  intros (Hs & Hp & Hd & Hf & Hb & Hpa).
  destruct (Resample_total soxrProcess soxr_process_law data spare (res c)) as (r & out & err & Hr & Hr1 & Hr2); [lia|].
  exists r, out, err. split; [done|]. split; [congruence|]. intros ptr f Hf0. apply Resample_pcm in Hr.
  split; split_and!; simpl; try done; try congruence; by apply pcm_app.
Qed.

Lemma soxrWriteSample_good src data spare c : coreGood src c ->
  exists c' e, Soxr.WriteSample soxrProcess data spare [] c = Some (Ok (c', e)) /\ coreGood src c'.
Proof.
  intros Hc. unfold Soxr.WriteSample. case_if; [eauto|]. pose proof Hc as (Hs & Hp & Hd & Hf & _).
  destruct (Resample_good src data spare c Hc) as (r & out & err & -> & Hr & Hg).
  destruct err as [e|]; [do 2 eexists; split; [done|]; by apply (Hg true)|].
  destruct (Hg true _ Hf) as [_ (_ & _ & Hd' & _)]. simpl in Hd'.
  destruct (resampleSize_Ok (rDst r) (rSrc r) (zlen data)) as (m & -> & Hm); [done|lia|apply zlen_nonneg|].
  set (w := mkResampleWriter _ _ _ _ _). set (mins := _ * _).
  assert (coreGood src w) as Hw by (apply (Hg true); lia). apply (flush_good _ mins []) in Hw.
  destruct (Soxr.flush mins [] w) as [w' e]. eauto.
Qed.

Lemma Close_good src spare c : coreGood src c ->
  exists c' e, Soxr.Close soxrProcess spare [] None c = Some (Ok (c', e)) /\ coreGood src c'.
Proof.
  intros Hc. unfold Soxr.Close. destruct (Resample_good src [] spare c Hc) as (r & out & err & -> & Hr & Hg).
  destruct err as [e|]; (do 2 eexists; split; [done|]).
  - apply (Hg true), Hc.
  - apply flush_good, (Hg false), Hc.
Qed.

Context {W : Type} `{WriterOps (list Z) W} `{RateOps W} {good : W -> Prop} `{!Serves pcm good} {rate : Z} `{!HasRate rate good}.

Lemma passAll_serves fs w : good w -> Forall pcm fs -> exists w' e, passAll fs w = Ok (w', e) /\ good w'.
Proof. intros Hw Hf. unfold passAll. destruct (serves_putAll pcm good fs w Hw Hf) as (w' & es & -> & ?). simpl. eauto. Qed.

Definition soxrGood (src : Z) (s : soxrWriter ST W) : Prop := coreGood src (soxrCore s) /\ good (soxrBelow s).

#[export] Instance soxrWriter_serves src : Serves pcm (soxrGood src).
Proof.
  split; simpl.
  - intros data s [Hc Hb] _. destruct (soxrWriteSample_good src data (spares s (calls s)) (soxrCore s) Hc) as (c & e & -> & Hc').
    cbn [returned obind]. destruct (passAll_serves (newFrames (soxrCore s) c) (soxrBelow s) Hb) as (w & e' & -> & Hw).
    { apply Forall_drop, Hc'. }
    simpl. do 2 eexists. split; [done|by split].
  - intros s [Hc Hb]. destruct (Close_good src (spares s (calls s)) (soxrCore s) Hc) as (c & e & -> & Hc').
    cbn [returned obind]. destruct e as [e|]; [do 2 eexists; split; [done|by split]|].
    destruct (passAll_serves (newFrames (soxrCore s) c) (soxrBelow s) Hb) as (w & e' & -> & Hw).
    { apply Forall_drop, Hc'. }
    cbn [obind]. below_close w Hw. do 2 eexists. split; [done|by split].
Qed.
#[export] Instance soxrWriter_hasRate src : HasRate src (soxrGood src).
Proof. split. intros s [(<- & _) _]. done. Qed.

Lemma newSoxrWriter_good spares w src : good w -> 0 < rate -> 0 < src ->
  exists s, newSoxrWriter spares w src = Ok s /\ soxrGood src s.
Proof.
  intros Hw Hr Hs. unfold newSoxrWriter. rewrite (has_rate (good := good) w Hw). cbn [obind].
  destruct (newSoxr_total rate src Hr Hs) as [st ->]. eexists. split; [done|]. split; [|done]. split_and!; by repeat constructor.
Qed.

End soxr.
Arguments soxrGood {ST W} good src s.

(** ** Dumps *)

Section dumps.
Context {X : Type} `{FileLaws X content closes}.

(** The dump files can be created. *)
Definition canCreate (createFile : str -> X + error) : Prop := forall name, exists x, createFile name = inl x.

Context (createFile : str -> X + error).

(** The writer of a dump file. *)
Definition dumpGood (ops : frameOps) (rate : Z) : byteEncoder (fileWriter X) -> Prop := encoderGood bufOk ops rate.

Lemma DumpFile_good ops name ext rate : canCreate createFile -> exists f, DumpFile createFile ops name ext rate = Ok f /\ dumpGood ops rate f.
Proof.
  intros Hcreate. unfold DumpFile. destruct (Hcreate (dumpName name ext rate)) as [x ->]. eexists. by repeat split.
Qed.

Section writer.
Context {W : Type} `{WriterOps (list Z) W} `{RateOps W} {good : W -> Prop} {ok : list Z -> Prop} {rate : Z}.
Context `{!Serves ok good} `{!HasRate rate good}.

Lemma DumpWriter_good ops ext name w : canCreate createFile -> good w ->
  exists m, DumpWriter createFile ops ext name w = Ok m /\ multiGood (sumGood good (dumpGood ops rate)) m.
Proof.
  intros Hcreate Hw. unfold DumpWriter. rewrite (has_rate (good := good) w Hw). cbn [obind].
  destruct (DumpFile_good ops name ext rate Hcreate) as (f & -> & Hf). eexists. split; [done|]. split; [done|].
  simpl. auto using Forall_nil, Forall_cons_2.
Qed.

Definition dumpableGood : dumpable X W -> Prop := sumGood good (multiGood (sumGood good (dumpGood pcmFrame rate))).

Lemma dumped_good file w : (file <> [] -> canCreate createFile) -> good w -> exists m, dumped createFile file w = Ok m /\ dumpableGood m.
Proof.
  intros Hcreate Hw. unfold dumped, DumpWriterPCM16. destruct (bool_decide_reflect (file = [])) as [|Hfile]; [by eexists|].
  destruct (DumpWriter_good pcmFrame (lit "s16le") file w (Hcreate Hfile) Hw) as (m & -> & Hm). by eexists.
Qed.

End writer.
End dumps.
Arguments dumpableGood {X W} good rate m.

(** ** [ResampleWriter] *)

Section resampled.
Context {ST X : Type} `{ResampleLaws ST} `{FileLaws X content closes}.
Context {W : Type} `{WriterOps (list Z) W} `{RateOps W} {good : W -> Prop} `{!Serves pcm good} {rate : Z} `{!HasRate rate good}.

Definition resampledGood (src : Z) (r : resampled ST X W) : Prop :=
  match r with
  | Direct w => good w /\ rate = src
  | BySoxr s => dumpableGood (soxrGood (dumpableGood good rate) src) src s
  | ByBeep _ => False
  end.

#[export] Instance resampled_serves src : Serves pcm (resampledGood src).
Proof.
  split; cbn [wput wclose resampled_ops].
  - intros f [w|s|s] Hr Hf; simpl in Hr; [destruct Hr as [Hr ?]; below_put f w Hr|below_put f s Hr|done]; by do 2 eexists.
  - intros [w|s|s] Hr; simpl in Hr; [destruct Hr as [Hr ?]; below_close w Hr|below_close s Hr|done]; by do 2 eexists.
Qed.
#[export] Instance resampled_hasRate src : HasRate src (resampledGood src).
Proof.
  split. intros [w|s|s]; cbn [wrate resampled_rate resampledGood]; [|apply (has_rate (good := dumpableGood (soxrGood (dumpableGood good rate) src) src))|done].
  intros [Hw <-]. by apply (has_rate (good := good)).
Qed.

(** The dumps that a resampler makes with the options in force. *)
Definition dumping (defaults : list ResampleOption) (dumpToFile : option Z) (opts : list ResampleOption) : Prop :=
  let o := dumpOptions dumpToFile (optionsOf defaults opts) in DumpInput o <> [] \/ DumpOutput o <> [].

(** The resampler is that of the C library. *)
Definition bySoxr (cgo : bool) (defaults opts : list ResampleOption) : Prop :=
  cgo = true /\ Predictable (optionsOf defaults opts) = false.

Lemma ResampleWriter_good createFile defaults dumpToFile cgo spares w src opts :
  (dumping defaults dumpToFile opts -> canCreate createFile) -> (rate <> src -> bySoxr cgo defaults opts) ->
  good w -> 0 < rate -> 0 < src ->
  exists s : resampled ST X W, ResampleWriter createFile defaults dumpToFile cgo spares w src opts = Ok s /\ resampledGood src s.
Proof.
  intros Hcr Hpr Hw Hr Hs. unfold ResampleWriter. rewrite (has_rate (good := good) w Hw). cbn [obind].
  case_if; [by eexists|]. destruct Hpr as [-> Hpr]; [done|]. unfold dumping in Hcr.
  set (o := dumpOptions dumpToFile (optionsOf defaults opts)) in *.
  assert (Predictable o = false) as -> by (subst o; unfold dumpOptions; by destruct dumpToFile).
  destruct (dumped_good createFile (DumpOutput o) w (fun Hd => Hcr (or_intror Hd)) Hw) as (m & -> & Hm). cbn [obind orb negb].
  destruct (newSoxrWriter_good (good := dumpableGood good rate) (rate := rate) spares m src Hm Hr Hs) as (s & -> & Hg). cbn [obind].
  destruct (dumped_good (good := soxrGood (dumpableGood good rate) src) createFile (DumpInput o) s (fun Hd => Hcr (or_introl Hd)) Hg) as (s' & -> & Hg').
  by eexists.
Qed.

End resampled.
Arguments resampledGood {ST X W} good rate src r.

(** ** [Resample] *)

Section buffer.
Context {ST : Type} `{ResampleLib ST} (Hprocess : processOk soxrProcess).

Lemma newFrames_passed (c c' : resampleWriter ST) fs : passed c' = passed c ++ fs -> newFrames c c' = fs.
Proof. intros Hp. unfold newFrames. by rewrite Hp, drop_app_length. Qed.

Lemma passAll_buffer fs (w : bufferWriter) : bufOpen w = true ->
  passAll fs w = Ok (mkBufferWriter (bufOf w ++ concat fs) true (bufRate w), None).
Proof.
  intros Ho. unfold passAll.
  assert (putAll fs w = Ok (mkBufferWriter (bufOf w ++ concat fs) true (bufRate w), replicate (length fs) None)) as ->.
  { revert w Ho. induction fs as [|f fs IH]; intros w Ho; cbn [putAll].
    - simpl. rewrite app_nil_r. destruct w. simpl in Ho. by subst.
    - simpl. rewrite Ho, IH by done. simpl. by rewrite app_assoc. }
  cbn [obind]. f_equal. f_equal. unfold lastError. induction fs as [|f fs IH]; [done|]. exact IH.
Qed.

(** C28: [Resample] of one rate appends the source, whatever the build and the
    options.  Between two rates, in a build with cgo and with options that do not
    choose the predictable resampler, and when the library reads and writes no
    more than it is given and makes progress, it panics when the library cannot
    make a resampler or fails on the source; else it appends all the chunks that the
    library writes when it is called until it has read the source or there is no
    room, and then, called once more without input, all that it writes then.  When
    that last call fails, less than one frame of the source's samples is lost
    without an error. *)
Theorem resample_appends (defaults opts : list ResampleOption) (cgo : bool) (spares : nat -> Z) (dst src : list Z)
    (dstRate srcRate : Z) (Hrates : 0 < dstRate /\ 0 < srcRate) :
  let result := Resample.Resample defaults cgo spares dst dstRate src srcRate opts in
  (dstRate = srcRate -> result = Ok (dst ++ src)) /\
  (dstRate <> srcRate -> cgo = true -> Predictable (optionsOf defaults opts) = false ->
   match newSoxr dstRate srcRate with
   | inr _ => result = Panic
   | inl st => exists m st1 g st2 g' rest,
       SoxrProps.calls soxrProcess dstRate srcRate 0 st [(src, spares 0%nat, [])] m st1 [g] /\
       served soxrProcess st1 [] (roomFor dstRate srcRate m 0 (spares 1%nat)) st2 g'.1 rest g'.2 /\
       match g.2, g'.2 with
       | Some _, _ => result = Panic
       | None, None => result = Ok (dst ++ concat g.1 ++ concat g'.1)
       | None, Some _ => exists p lost, concat g.1 = p ++ lost /\ result = Ok (dst ++ p) /\
           (lost = [] \/ exists f, resampleSize dstRate srcRate (zlen src) = Ok f /\ zlen lost < f)
       end
   end).
Proof.
  intros result. unfold result, Resample.Resample. split; [intros ->; by rewrite Z.eqb_refl|].
  intros Hne -> ->. case_if; [done|]. cbn [orb negb]. unfold resampleBuffer, newSoxrWriter. cbn [wrate obind].
  change (wrate (NewPCM16BufferWriter dst dstRate)) with (Ok dstRate). cbn [obind].
  destruct (newSoxr dstRate srcRate) as [st|]; [|done]. cbn [obind].
  assert (ready (newResampleWriter st dstRate srcRate)) as Hr by (split_and!; simpl; done || lia).
  destruct (write_served soxrProcess Hprocess src (spares 0%nat) [] _ Hr)
    as (w1 & e1 & g & fs1 & Hw1 & Hc & Hr1 & [Hd1 Hs1] & Hp1 & Hcat1 & _ & Hq1 & Hrest).
  destruct (close_served soxrProcess Hprocess (spares 1%nat) [] None _ Hr1) as (w2 & e2 & st2 & g' & rest & fs2 & Hw2 & Hsv & Hp2 & Hg').
  exists (maxIn (res w1)), (lib (res w1)), g, st2, g', rest. split; [exact Hc|].
  rewrite Hd1, Hs1 in Hsv. split; [exact Hsv|].
  cbn [wput wclose soxrWriter_ops soxrCore soxrBelow Resample.spares Resample.calls]. rewrite Hw1. cbn [returned obind].
  rewrite (newFrames_passed _ _ fs1 Hp1), passAll_buffer by done. cbn [obind soxrCore soxrBelow Resample.spares Resample.calls].
  rewrite Hw2. cbn [returned obind]. rewrite (Hq1 eq_refl), (newFrames_passed _ _ fs2 Hp2). rewrite Hp2 in Hg'.
  simpl in Hp1. rewrite Hp1 in *. rewrite concat_app in Hg'. simpl in Hcat1.
  destruct g as [outs [err|]], g' as [outs' [err'|]]; cbn [fst snd kept] in *; try (destruct Hg' as [-> ->]);
    try (destruct Hg' as (Hg' & _ & ->)); cbn [returned obind bufOf soxrBelow]; try done.
  - by rewrite passAll_buffer.
  - exists (concat fs1), (buf w1). split; [done|]. split; [done|].
    destruct (Hrest eq_refl eq_refl) as [?|(f & Hf & Hlt)]; [by left|right]. exists f. split; [done|]. simpl in Hlt.
    destruct (resampleSize_Ok dstRate srcRate (zlen src)) as (m & Hm & ?); [lia|lia|apply zlen_nonneg|]. simpl in Hf. rewrite Hm in Hf. injection Hf as <-. lia.
  - rewrite app_assoc, Hcat1 in Hg'. rewrite passAll_buffer by done. cbn [obind wclose bufOf]. simpl. by rewrite <- app_assoc, Hg'.
Qed.

End buffer.

(** A library that repeats every sample, and has one more at the end. *)
#[local] Instance echoing : ResampleLib Z := {|
  soxr_process st inp room :=
    match inp with
    | x :: _ => if 2 <=? room then (x, 1, [x; x], None) else (x, 1, [], None)
    | [] => (st, 0, [st], None)
    end;
  soxr_create _ _ := (0, None);
  conversions := lowest;
|}.

Lemma echoing_ok : processOk soxrProcess.
Proof.
  intros st inp room st' n out err Hr. unfold soxrProcess. destruct inp as [|x inp]; simpl.
  - intros [= <- <- <- <-]. unfold zlen. simpl. split_and!; (lia || done).
  - case_if; intros [= <- <- <- <-]; unfold zlen; simpl; split_and!; lia.
Qed.

Lemma resample_appends_witness :
  Resample.Resample [] true (fun _ => 0) [7] 16000 [1; 2; 3] 8000 [WithResampleDump [] []] = Ok [7; 1; 1; 2; 2; 3; 3; 3] /\
  exists m st1 g st2 g' rest,
    SoxrProps.calls soxrProcess 16000 8000 0 0 [([1; 2; 3], 0, [])] m st1 [g] /\
    served soxrProcess st1 [] (roomFor 16000 8000 m 0 0) st2 g'.1 rest g'.2 /\
    match g.2, g'.2 with None, None => concat g.1 ++ concat g'.1 = [1; 1; 2; 2; 3; 3; 3] | _, _ => True end.
Proof.
  assert (Resample.Resample [] true (fun _ => 0) [7] 16000 [1; 2; 3] 8000 [WithResampleDump [] []] = Ok [7; 1; 1; 2; 2; 3; 3; 3])
    as Hr by (vm_compute; reflexivity).
  split; [exact Hr|].
  destruct (resample_appends echoing_ok [] [WithResampleDump [] []] true (fun _ => 0) [7] [1; 2; 3] 16000 8000) as [_ Hs]; [lia|].
  destruct (Hs ltac:(lia) eq_refl eq_refl) as (m & st1 & g & st2 & g' & rest & Hc & Hsv & Hout).
  exists m, st1, g, st2, g', rest. split; [exact Hc|]. split; [exact Hsv|]. rewrite Hr in Hout.
  destruct g.2, g'.2; [exact I..|]. by injection Hout as [= <-].
Defined.
