(* ===== verification/CodecLaws.v ===== *)
(** * CodecLaws: what the codec libraries promise

    The contracts of libopus, of the AMR-WB and of the G.722 library, as classes
    of laws, and small libraries that keep them. *)

From Stdlib Require Import Ascii.
From stdpp Require Import base tactics numbers strings list.
From S2P Require Import Prelude GoFloat GoStr Soxr SoxrProps Writers FileWriter Resample WritersProps FileWriterProps ResampleProps.
From S2P Require Opus Amrwb G722.

#[local] Open Scope go_scope.

(** The rates that libopus supports. *)
Definition opusRates : list Z := [8000; 12000; 16000; 24000; 48000].

Lemma opusRates_range rate : rate ∈ opusRates -> 8000 <= rate <= 48000.
Proof. revert rate. apply Forall_forall. repeat constructor; lia. Qed.

(** The buffer of an Opus decoder has room for 120 ms. *)
Lemma opus_room rate c : rate ∈ opusRates ->
  Z.quot (i64 (rate * Opus.maxPacketDuration)) Second * c = rate * 120 / 1000 * c.
Proof.
  intros Hr%opusRates_range. f_equal. change Opus.maxPacketDuration with (120 * 1000000). change Second with (1000 * 1000000).
  replace (i64 (rate * (120 * 1000000))) with (rate * 120 * 1000000) by (unfold i64; lia).
  rewrite Z.quot_mul_cancel_r, Z.quot_div_nonneg by lia. done.
Qed.

Class OpusLaws (OD OE : Type) `{Opus.OpusLib OD OE} (chans : OD -> Z) : Prop := {
  newDecoder_law rate c : rate ∈ opusRates -> c = 1 \/ c = 2 ->
    exists d, Opus.newDecoder rate c = inl d /\ chans d = c;
  newEncoder_law rate c : rate ∈ opusRates -> c = 1 \/ c = 2 -> exists e, Opus.newEncoder rate c = inl e;
  opusDecode_law d p buf d' r : Opus.opusDecode d p buf = (d', r) -> chans d' = chans d /\
    match r with inl (b, n) => 0 <= n * chans d <= zlen b /\ pcm b | inr _ => True end;
  opusEncode_law e s buf e' b n : Opus.opusEncode e s buf = (e', inl (b, n)) -> 0 <= n <= zlen b /\ raw b;
}.

Class AmrwbLaws (AD AE : Type) `{Amrwb.AmrwbLib AD AE} : Prop := {
  frameSize_law : 0 < Amrwb.frameSize;
  amrDecode_law d inp d' n f : Amrwb.amrDecode d inp = (d', inl (n, f)) -> 0 < n <= zlen inp /\ pcm f;
  amrEncode_law e s e' bs : Amrwb.amrEncode e s = (e', bs) -> raw bs;
}.

(** With the room that the flags of the codec ask for, the library stays in it. *)
Class G722Laws (GD GE : Type) `{G722.G722Lib GD GE} (decLow : GD -> bool) (encLow : GE -> bool) : Prop := {
  newG722Decoder_law low : decLow (G722.newG722Decoder low) = low;
  newG722Encoder_law low : encLow (G722.newG722Encoder low) = low;
  g722Decode_law d cap_ inp d' out : G722.g722Decode d cap_ inp = (d', out) -> decLow d' = decLow d /\
    pcm out /\ (G722.decodeSize (decLow d) (zlen inp) <= cap_ -> zlen out <= cap_);
  g722Encode_law e cap_ inp e' out : G722.g722Encode e cap_ inp = (e', out) -> encLow e' = encLow e /\
    raw out /\ (G722.encodeSize (encLow e) (zlen inp) <= cap_ -> zlen out <= cap_);
}.

(** ** Small libraries

    Opus with a byte per sample, one per frame of AMR-WB, and one per one or two
    samples of G.722; a resampler that repeats every sample. *)

Module Demo.

#[export] Instance opus : Opus.OpusLib bool unit := {|
  Opus.newDecoder rate c :=
    if bool_decide (rate ∈ opusRates) && bool_decide (c = 1 \/ c = 2) then inl (bool_decide (c = 2)) else inr (Errorf "opus: invalid argument");
  Opus.newEncoder rate c :=
    if bool_decide (rate ∈ opusRates) && bool_decide (c = 1 \/ c = 2) then inl tt else inr (Errorf "opus: invalid argument");
  Opus.opusDecode d p buf :=
    match p with
    | 255 :: _ => (d, inr (Errorf "opus: corrupted stream"))
    | _ =>
        let b := take (length buf) ((i16 <$> p) ++ (i16 <$> buf)) in
        (d, inl (b, Z.min (zlen p) (zlen b `div` (if d then 2 else 1)) `div` (if d then 2 else 1)))
    end;
  Opus.opusEncode e s buf :=
    let b := take (length buf) ((u8 <$> s) ++ (u8 <$> buf)) in (e, inl (b, Z.min (zlen s) (zlen b)));
  Opus.opusSet _ e := inl e;
  Opus.isInvalidPacket e := bool_decide (e = Errorf "opus: corrupted stream");
|}.

Definition chansOf (stereo : bool) : Z := if stereo then 2 else 1.

Lemma i16_pcm l : pcm (i16 <$> l).
Proof. apply Forall_fmap, Forall_true. intros v. apply i16_range. Qed.
Lemma u8_raw l : raw (u8 <$> l).
Proof. apply Forall_fmap, Forall_true. intros v. apply u8_range. Qed.

#[export] Instance opus_laws : OpusLaws bool unit chansOf.
Proof.
  split.
  - intros rate c Hr Hc. exists (bool_decide (c = 2)). simpl. rewrite !bool_decide_eq_true_2 by done.
    split; [done|]. unfold chansOf. by destruct Hc as [-> | ->].
  - intros rate c Hr Hc. exists tt. simpl. by rewrite !bool_decide_eq_true_2 by done.
  - intros d p buf d' r Hd.
    assert (d' = d /\ (r = inr (Errorf "opus: corrupted stream") \/ exists b n, r = inl (b, n) /\ pcm b /\
      n = Z.min (zlen p) (zlen b `div` (if d then 2 else 1)) `div` (if d then 2 else 1))) as [-> Hr].
    { assert (pcm (take (length buf) ((i16 <$> p) ++ (i16 <$> buf)))) as Hb by (apply pcm_take, pcm_app; apply i16_pcm).
      simpl in Hd. repeat case_match; injection Hd as <- <-; (split; [done|]); eauto 10. }
    split; [done|]. destruct Hr as [-> | (b & n & -> & Hb & ->)]; [done|]. split; [|done].
    pose proof (zlen_nonneg b). pose proof (zlen_nonneg p). unfold chansOf. destruct d; lia.
  - intros e s buf e' b n [= <- <- <-]. split.
    + match goal with |- context [zlen (take ?k ?l)] => pose proof (zlen_nonneg (take k l)) end. pose proof (zlen_nonneg s). lia.
    + apply Forall_take, Forall_app. split; apply u8_raw.
Qed.

#[export] Instance amrwb : Amrwb.AmrwbLib unit Z := {|
  Amrwb.frameSize := 320;
  Amrwb.newAmrDecoder := tt;
  Amrwb.newAmrEncoder mode := mode;
  Amrwb.amrDecode d inp :=
    match inp with
    | [] => (d, inr (Errorf "amrwb: short packet"))
    | 255 :: _ => (d, inr (Errorf "amrwb: invalid frame"))
    | x :: _ => (d, inl (1, replicate 320 (i16 x)))
    end;
  Amrwb.amrEncode e s := (e, [u8 (default 0 (head s))]);
  Amrwb.amrCloseDecoder d := d;
|}.

#[export] Instance amrwb_laws : AmrwbLaws unit Z.
Proof.
  split.
  - done.
  - intros d inp d' n f Hd. simpl in Hd. assert (exists x l, inp = x :: l /\ n = 1 /\ f = replicate 320 (i16 x)) as (x & l & -> & -> & ->).
    { repeat case_match; simplify_eq; eauto. }
    split; [unfold zlen; simpl; lia|]. apply Forall_replicate, i16_range.
  - intros e s e' bs [= <- <-]. repeat constructor; apply u8_range.
Qed.

#[export] Instance g722 : G722.G722Lib bool bool := {|
  G722.newG722Decoder low := low;
  G722.newG722Encoder low := low;
  G722.g722Decode d cap_ inp := (d, take (Z.to_nat cap_) (i16 <$> (if d then inp else inp ++ inp)));
  G722.g722Encode e cap_ inp := (e, take (Z.to_nat cap_) (u8 <$> inp));
|}.

#[export] Instance g722_laws : G722Laws bool bool id id.
Proof.
  split; try done.
  - intros d cap_ inp d' out [= <- <-]. split_and!; [done|by apply pcm_take, i16_pcm|].
    unfold G722.decodeSize, zlen. rewrite length_take. destruct (id d); lia.
  - intros e cap_ inp e' out [= <- <-]. split_and!; [done|by apply Forall_take, u8_raw|].
    unfold G722.encodeSize, zlen. rewrite length_take. destruct (id e); case_if; lia.
Qed.

#[export] Instance soxr : ResampleLib unit := {|
  soxr_process st inp room := let '(st, n, out, _) := doubling st inp room in (st, n, i16 <$> out, Some (lit "0"));
  soxr_create src dst := (tt, if (0 <? dst) && (0 <? src) then None else Some (lit "invalid rate"));
  conversions := lowest;
|}.

#[export] Instance soxr_laws : ResampleLaws unit.
Proof.
  split.
  - intros st inp room st' n out err Hr Hp. unfold soxrProcess in Hp. simpl in Hp.
    destruct (doubling st inp room) as [[[st1 n1] out1] err1] eqn:Hd. injection Hp as <- <- <- <-.
    destruct (doubling_ok _ _ _ _ _ _ _ Hr Hd) as (H1 & H2 & H3). unfold zlen in *. rewrite length_fmap.
    split_and!; [lia..|]. intros Hi _. apply H3; [done|]. unfold doubling in Hd. by repeat case_match; simplify_eq.
  - intros st inp room st' n out e Hp. simpl in Hp. destruct (doubling st inp room) as [[[st1 n1] out1] err1].
    injection Hp as <- <- <- <-. apply i16_pcm.
  - intros src dst Hs Hd. simpl. destruct (0 <? dst) eqn:?, (0 <? src) eqn:?; simpl; bool_cases; done || lia.
Qed.

(** A file that takes everything. *)
Definition createFile (name : str) : diskFile + error := inl (mkDisk [] (Z.to_nat 1000000) 0).

End Demo.
