(* ===== verification/AudioCodecProps.v ===== *)
(** * AudioCodecProps: every chain of codecs is well typed

    Every stage of a codec serves over a writer that serves, when the codec
    libraries keep the laws of [CodecLaws]; and the chains that [EncodeBytes] and
    [DecodeBytes] make. *)

From Stdlib Require Import Ascii.
From stdpp Require Import base tactics numbers strings list sets.
From S2P Require Import Prelude GoStr Media Codecs CodecList G711 G711Props Soxr SoxrProps Writers FileWriter Resample.
From S2P Require Opus Amrwb G722.
From S2P Require Import AudioCodec WritersProps FileWriterProps ResampleProps CodecLaws.

#[local] Open Scope go_scope.

(** ** The stages *)

Lemma resize_length n buf c : length (resize n buf c).1 = n.
Proof. unfold resize. case_if; simpl; rewrite ?length_take, ?length_app, ?length_replicate; lia. Qed.

Section stages.
Context {W : Type} `{WriterOps (list Z) W} `{RateOps W} {good : W -> Prop} {rate : Z} `{!HasRate rate good}.

#[export] Instance lawDecoder_serves `{!Serves pcm good} : Serves raw (fun d => good (ldw d)).
Proof.
  split; simpl.
  - intros bs d Hd Hraw. unfold writeDecoded. pose proof (resize_length (length bs) (ldBuf d) (ldCap d)) as Hl.
    destruct (resize _ _ _) as [b c]. rewrite (DecodeTo_spec (ldLaw d) b bs Hraw Hl). cbn [obind].
    below_put (G711Props.decode (ldLaw d) <$> bs) (ldw d) Hd; [|eauto].
    apply Forall_fmap, Forall_true. intros v. apply i16_range.
  - intros d Hd. below_close (ldw d) Hd. eauto.
Qed.

#[export] Instance lawEncoder_serves `{!Serves raw good} : Serves pcm (fun x => good (lew x)).
Proof.
  split; simpl.
  - intros s x Hx Hs. unfold writeEncoded. pose proof (resize_length (length s) (leBuf x) (leCap x)) as Hl.
    destruct (resize _ _ _) as [b c]. rewrite (EncodeTo_spec (leLaw x) b s Hs Hl). cbn [obind].
    below_put (encoded (leLaw x) <$> s) (lew x) Hx; [|eauto]. apply encoded_bytes.
  - intros x Hx. below_close (lew x) Hx. eauto.
Qed.
#[export] Instance lawEncoder_hasRate : HasRate rate (fun x => good (lew x)).
Proof. split. intros x Hx. by apply (has_rate (good := good)). Qed.

Section opus.
Context `{OpusLaws OD OE chans}.

Definition opusDecGood (d : Opus.decoder OD W) : Prop := good (Opus.dw d) /\ chans (Opus.dec d) = Opus.channels d.

#[export] Instance opusDecoder_serves `{!Serves pcm good} : Serves raw opusDecGood.
Proof.
  split; simpl.
  - intros p d [Hd Hch] _. case_if; [by do 2 eexists|].
    destruct (Opus.opusDecode (Opus.dec d) p (Opus.dbuf d)) as [l r] eqn:Hdec.
    destruct (opusDecode_law _ _ _ _ _ Hdec) as [Hl Hr]. rewrite Hch in *. destruct r as [[b n]|err].
    + rewrite go_slice_Ok by lia. cbn [obind]. below_put (take (Z.to_nat (n * Opus.channels d - 0)) (drop (Z.to_nat 0) b)) (Opus.dw d) Hd.
      { apply pcm_take, pcm_drop, Hr. }
      do 2 eexists. split; [done|by split].
    + case_if; do 2 eexists; (split; [done|by split]).
  - intros d [Hd Hch]. below_close (Opus.dw d) Hd. do 2 eexists. split; [done|by split].
Qed.

#[export] Instance opusEncoder_serves `{!Serves raw good} : Serves pcm (fun e : Opus.encoder OE W => good (Opus.ew e)).
Proof.
  split; simpl.
  - intros s e He _. destruct (Opus.opusEncode (Opus.enc e) s (Opus.ebuf e)) as [l [[b n]|err]] eqn:Henc; [|by do 2 eexists].
    destruct (opusEncode_law _ _ _ _ _ _ Henc) as [Hn Hraw]. rewrite go_slice_Ok by lia. cbn [obind].
    below_put (take (Z.to_nat (n - 0)) (drop (Z.to_nat 0) b)) (Opus.ew e) He; [by apply Forall_take, Forall_drop|by do 2 eexists].
  - intros e He. below_close (Opus.ew e) He. by do 2 eexists.
Qed.
#[export] Instance opusEncoder_hasRate : HasRate rate (fun e : Opus.encoder OE W => good (Opus.ew e)).
Proof. split. intros x Hx. by apply (has_rate (good := good)). Qed.

End opus.

Section amrwb.
Context `{AmrwbLaws AD AE}.

Lemma decodeLoop_pcm fuel d inp buf : (length inp <= fuel)%nat -> pcm buf ->
  exists d' buf' err, Amrwb.decodeLoop fuel d inp buf = Some (Ok (d', buf', err)) /\ pcm buf'.
Proof.
  revert d inp buf. induction fuel as [|fuel IH]; intros d inp buf Hl Hb; cbn [Amrwb.decodeLoop].
  - case_if; [by do 3 eexists|]. unfold zlen in *. lia.
  - case_if; [by do 3 eexists|]. destruct (Amrwb.amrDecode d inp) as [d1 [[n f]|err]] eqn:Hd; [|by do 3 eexists].
    destruct (amrDecode_law _ _ _ _ _ Hd) as [Hn Hf]. rewrite go_slice_Ok by lia.
    apply IH; [|by apply pcm_app]. rewrite length_take, length_drop. unfold zlen in *. lia.
Qed.

#[export] Instance amrDecoder_serves `{!Serves pcm good} : Serves raw (fun d : Amrwb.Decoder AD W => good (Amrwb.adw d)).
Proof.
  split; simpl.
  - intros bs d Hd _. destruct (decodeLoop_pcm (length bs) (Amrwb.ad d) bs []) as (d' & b & err & -> & Hb); [lia|constructor|].
    cbn [returned obind]. case_if; [by do 2 eexists|]. below_put b (Amrwb.adw d) Hd. by do 2 eexists.
  - intros d Hd. below_close (Amrwb.adw d) Hd. by do 2 eexists.
Qed.

Lemma encodeLoop_raw fuel e done_ inp buf : (length inp <= fuel)%nat -> raw buf ->
  exists e' done' buf', Amrwb.encodeLoop fuel e done_ inp buf = Some (Ok (e', done', buf')) /\ raw buf'.
Proof.
  pose proof frameSize_law as HF. revert e done_ inp buf.
  induction fuel as [|fuel IH]; intros e done_ inp buf Hl Hb; cbn [Amrwb.encodeLoop].
  - case_if; [by do 3 eexists|]. unfold zlen in *. lia.
  - case_if; [by do 3 eexists|]. set (p := if zlen inp <? Amrwb.frameSize then _ else _).
    assert (Amrwb.frameSize <= zlen p.2 /\ (zlen p.2 = Amrwb.frameSize \/ length p.2 <= length inp)%nat) as Hp.
    { subst p. case_if; simpl; [|by split; [|right]]. unfold zlen in *.
      rewrite length_app, length_take, length_drop, length_replicate. split; [|left]; lia. }
    destruct p as [done1 inp1]. simpl in Hp. rewrite !go_slice_Ok by lia.
    destruct (Amrwb.amrEncode e _) as [e1 bs] eqn:He. apply amrEncode_law in He.
    apply IH; [|by apply Forall_app]. rewrite length_take, length_drop. unfold zlen in *. lia.
Qed.

#[export] Instance amrEncoder_serves `{!Serves raw good} : Serves pcm (fun e : Amrwb.Encoder AE W => good (Amrwb.aew e)).
Proof.
  split; simpl.
  - intros s e He _. case_if; [by do 2 eexists|].
    destruct (encodeLoop_raw (length s) (Amrwb.ae e) (Amrwb.short e) s []) as (e' & d' & b & -> & Hb); [lia|constructor|].
    cbn [returned obind]. case_if; [by do 2 eexists|]. below_put b (Amrwb.aew e) He. by do 2 eexists.
  - intros e He. below_close (Amrwb.aew e) He. by do 2 eexists.
Qed.
#[export] Instance amrEncoder_hasRate : HasRate 16000 (fun e : Amrwb.Encoder AE W => good (Amrwb.aew e)).
Proof. by split. Qed.

End amrwb.

Section g722.
Context `{G722Laws GD GE decLow encLow}.

Definition g722DecGood (d : G722.Decoder GD W) : Prop := good (G722.gdw d) /\ decLow (G722.gd d) = G722.gdLow d.
Definition g722EncGood (e : G722.Encoder GE W) : Prop := good (G722.gew e) /\ encLow (G722.ge e) = G722.geLow e.

Lemma bufFor_enough c sz : sz <= G722.bufFor c sz.
Proof. unfold G722.bufFor. case_if; lia. Qed.

#[export] Instance g722Decoder_serves `{!Serves pcm good} : Serves raw g722DecGood.
Proof.
  split; simpl.
  - intros bs d [Hd Hlow] _. destruct (G722.g722Decode _ _ _) as [l out] eqn:Hdec.
    destruct (g722Decode_law _ _ _ _ _ Hdec) as (Hl & Hout & Hsz). rewrite Hlow in *.
    pose proof (Hsz (bufFor_enough _ _)). case_if; [lia|]. below_put out (G722.gdw d) Hd.
    do 2 eexists. split; [done|by split].
  - intros d [Hd Hlow]. below_close (G722.gdw d) Hd. do 2 eexists. split; [done|by split].
Qed.
#[export] Instance g722Decoder_hasRate : HasRate rate g722DecGood.
Proof. split. intros d [Hd _]. by apply (has_rate (good := good)). Qed.

#[export] Instance g722Encoder_serves `{!Serves raw good} : Serves pcm g722EncGood.
Proof.
  split; simpl.
  - intros s e [He Hlow] _. destruct (G722.g722Encode _ _ _) as [l out] eqn:Henc.
    destruct (g722Encode_law _ _ _ _ _ Henc) as (Hl & Hout & Hsz). rewrite Hlow in *.
    pose proof (Hsz (bufFor_enough _ _)). case_if; [lia|]. below_put out (G722.gew e) He.
    do 2 eexists. split; [done|by split].
  - intros e [He Hlow]. below_close (G722.gew e) He. do 2 eexists. split; [done|by split].
Qed.
#[export] Instance g722Encoder_hasRate : HasRate rate g722EncGood.
Proof. split. intros e [He _]. by apply (has_rate (good := good)). Qed.

End g722.
End stages.
Arguments opusDecGood {W} good {OD} chans d.
Arguments g722DecGood {W} good {GD} decLow d.
Arguments g722EncGood {W} good {GE} encLow e.

(** ** The codecs of the program *)

(** The rates at which a codec can encode. *)
Definition encodable (rate : Z) (c : create) : Prop :=
  match c with
  | CreateLaw _ => rate = 8000
  | CreateG722 => rate = 8000 \/ rate = 16000
  | CreateOpus => rate ∈ opusRates
  | CreateAMRWB _ => rate = 16000
  end.

Section codecs.
Context `{Constants}.

Lemma audioCodecFor_support t c ac : audioCodecFor t c = Some ac ->
  exists i, support t c = (i, true) /\ config (codecInfo ac) = config i /\ createOf t c = Some (made ac).
Proof.
  unfold audioCodecFor. destruct (support t c) as [i [|]]; [|done]. intros Hx. exists i. split; [done|].
  apply fmap_Some in Hx as (m & -> & ->). unfold NewAudioCodecFunc. simpl. by case_if.
Qed.

(** Every codec encodes at the sample rate of its information. *)
Lemma audioCodec_rate t c ac : t ∈ allCodecs -> audioCodecFor t c = Some ac ->
  encodable (SampleRate (config (codecInfo ac))) (made ac).
Proof.
  intros Ht (i & Hs & -> & Hm)%audioCodecFor_support. revert c i ac Hs Hm. revert t Ht. refine (proj1 (Forall_forall _ _) _).
  repeat constructor; intros c i ac Hs Hm; simpl in Hs; try (injection Hm as <-); simpl.
  all: unfold supportALaw, supportULaw, supportG722, supportOpus, supportAMRWB, unsupported in Hs.
  all: repeat case_match; simplify_eq; simpl; bool_cases; auto.
  all: match goal with E : defaultRate _ _ = _ |- _ ∈ _ => rewrite E; unfold opusRates; set_solver end.
Qed.

End codecs.

Section chains.
Context {X OD OE AD AE GD GE : Type} `{FileLaws X content closes}.
Context `{OpusLaws OD OE chans} `{AmrwbLaws AD AE} `{G722Laws GD GE decLow encLow} `{Constants}.
Context (createFile : str -> X + error) (g722Dump : option Z).
(** The files of the G.722 dumps can be created, if there are any. *)
Context (Hcreate : g722Dump <> None -> canCreate createFile).

(** ** Chains that encode *)

#[local] Notation encoding := (encoding X OE AE GE).

Section encode.
Context {W : Type} `{WriterOps (list Z) W} `{RateOps W} {good : W -> Prop} {rate : Z}.
Context `{!Serves raw good} `{!HasRate rate good}.

Definition encodingGood (x : encoding W) : Prop :=
  match x with
  | EncLaw x => good (lew x)
  | EncG722 x => g722EncGood good encLow x
  | EncG722Dumped x =>
      multiGood (sumGood (g722EncGood (multiGood (sumGood good (dumpGood rawFrame rate))) encLow) (dumpGood pcmFrame rate)) x
  | EncOpus x => good (Opus.ew x)
  | EncAMRWB x => good (Amrwb.aew x) /\ rate = 16000
  end.

#[export] Instance encoding_serves : Serves pcm encodingGood.
Proof.
  split; cbn [wput wclose encoding_ops].
  - intros s [x|x|x|x|x] Hx Hs; simpl in Hx.
    + below_put s x Hx. by do 2 eexists.
    + below_put s x Hx. by do 2 eexists.
    + below_put s x Hx. by do 2 eexists.
    + below_put s x Hx. by do 2 eexists.
    + destruct Hx as [Hx ?]. below_put s x Hx. by do 2 eexists.
  - intros [x|x|x|x|x] Hx; simpl in Hx.
    + below_close x Hx. by do 2 eexists.
    + below_close x Hx. by do 2 eexists.
    + below_close x Hx. by do 2 eexists.
    + below_close x Hx. by do 2 eexists.
    + destruct Hx as [Hx ?]. below_close x Hx. by do 2 eexists.
Qed.

#[export] Instance encoding_hasRate : HasRate rate encodingGood.
Proof.
  split. intros [x|x|x|x|x] Hx; cbn [wrate encoding_rate]; simpl in Hx.
  - by apply (has_rate (good := fun x => good (lew x))).
  - by apply (has_rate (good := g722EncGood good encLow)).
  - by apply (has_rate (good := multiGood
      (sumGood (g722EncGood (multiGood (sumGood good (dumpGood rawFrame rate))) encLow) (dumpGood pcmFrame rate)))).
  - by apply (has_rate (good := fun e : Opus.encoder OE W => good (Opus.ew e))).
  - by destruct Hx as [_ ->].
Qed.

Lemma encode_good c w : good w -> encodable rate c ->
  exists x, encode createFile g722Dump c w = Ok (Some x) /\ encodingGood x.
Proof.
  intros Hw Hc. unfold encode. destruct c as [l| | |mode]; simpl in Hc.
  - rewrite lawEncode_eq, (has_rate (good := good) w Hw), Hc. by eexists.
  - assert (exists x : G722.Encoder GE W, G722.Encode w = Ok x /\ g722EncGood good encLow x) as (x & Hx & Hg).
    { unfold G722.Encode. rewrite (has_rate (good := good) w Hw).
      destruct Hc as [-> | ->]; (eexists; split; [done|]; split; [done|apply newG722Encoder_law]). }
    destruct g722Dump as [id|] eqn:Hdump.
    + assert (canCreate createFile) as Hcc by (by apply Hcreate).
      unfold G722.EncodeDumped, DumpWriterPCM16. rewrite Hx. cbn [obind]. destruct Hg as [Hg Hlow].
      match goal with |- context [DumpWriter createFile rawFrame ?ext ?name ?w] =>
        destruct (DumpWriter_good (good := good) createFile rawFrame ext name w Hcc Hw) as (m & -> & Hm) end.
      cbn [obind].
      match goal with |- context [DumpWriter createFile pcmFrame ?ext ?name ?w] =>
        destruct (DumpWriter_good (good := g722EncGood (multiGood (sumGood good (dumpGood rawFrame rate))) encLow)
          (rate := rate) createFile pcmFrame ext name w Hcc) as (m' & -> & Hm'); [by split|] end.
      by eexists.
    + rewrite Hx. by eexists.
  - unfold Opus.Encode, Opus.EncodeWith. rewrite (has_rate (good := good) w Hw). cbn [obind].
    destruct (newEncoder_law rate 1 Hc) as [e ->]; [by left|]. simpl. apply opusRates_range in Hc.
    rewrite Z.quot_div_nonneg by (unfold DefFramesPerSec; lia). unfold DefFramesPerSec. case_if; [lia|]. by eexists.
  - unfold Amrwb.EncodeWith. rewrite (has_rate (good := good) w Hw), Hc. by eexists.
Qed.

End encode.
Arguments encodingGood {W} good rate x.
(** ** [EncodeBytes] of the codecs *)

Section typed.
Context {B : Type} `{WriterOps (list Z) B} {goodB : B -> Prop} `{!Serves raw goodB}.

Lemma codecEncodeBytes_good t c ac (w : B) : goodB w -> t ∈ allCodecs -> audioCodecFor t c = Some ac ->
  let rate := SampleRate (config (codecInfo ac)) in
  exists x, codecEncodeBytes createFile g722Dump ac w = Ok (Some x) /\ encodingGood (encoderGood goodB rawFrame rate) rate x.
Proof.
  intros Hw Ht Hac rate. unfold codecEncodeBytes. apply encode_good; [by split|by eapply audioCodec_rate].
Qed.

(** The encoder of bytes of any codec of the program, for any configuration
    that it supports, is a PCM writer at the sample rate of the codec: over a
    writer that takes bytes it takes any sequence of PCM frames, and may be
    closed, without a panic. *)
Theorem encode_bytes_typed (t : CodecType) (c : CodecConfig) (ac : audioCodec) (w : B) (frames : list (list Z))
    (Hw : goodB w) (Ht : t ∈ allCodecs) (Hac : audioCodecFor t c = Some ac) (Hframes : Forall pcm frames) :
  exists x x' es x'' e, codecEncodeBytes createFile g722Dump ac w = Ok (Some x) /\
    wrate x = Ok (SampleRate (config (codecInfo ac))) /\
    putAll frames x = Ok (x', es) /\ wrate x' = Ok (SampleRate (config (codecInfo ac))) /\
    wclose x' = Ok (x'', e).
Proof.
  destruct (codecEncodeBytes_good t c ac w Hw Ht Hac) as (x & Hx & Hg). exists x.
  destruct (serves_putAll pcm _ frames x Hg Hframes) as (x' & es & Hp & Hg').
  destruct (serves_close x' Hg') as (x'' & e & Hc & _). exists x', es, x'', e.
  split_and!; [done|by apply (has_rate (good := encodingGood _ _))|done|by apply (has_rate (good := encodingGood _ _))|done].
Qed.

End typed.

(** ** Chains that decode *)

Context {ST : Type} `{ResampleLaws ST}.
Context (defaults : list ResampleOption) (dumpToFile : option Z) (cgo : bool) (spares : nat -> Z).
(** Nor do the dumps of a resampler fail, if there are any. *)
Context (Hdumps : dumping defaults dumpToFile [] -> canCreate createFile).

#[local] Notation decoding := (decoding ST X OD AD GD).

Section decode.
Context {W : Type} `{WriterOps (list Z) W} `{RateOps W} {good : W -> Prop} {rate : Z}.
Context `{!Serves pcm good} `{!HasRate rate good}.

Definition decodingGood (d : decoding W) : Prop :=
  match d with
  | DecLaw d => resampledGood good rate 8000 (ldw d)
  | DecG722 d => exists r, g722DecGood (resampledGood good rate r) decLow d
  | DecG722Dumped d => exists r,
      multiGood (sumGood (g722DecGood (multiGood (sumGood (resampledGood good rate r) (dumpGood pcmFrame r))) decLow)
        (dumpGood rawFrame r)) d
  | DecOpus d => opusDecGood good chans d
  | DecAMRWB d => resampledGood good rate 16000 (Amrwb.adw d)
  end.

#[export] Instance decoding_serves : Serves raw decodingGood.
Proof.
  split; cbn [wput wclose decoding_ops].
  - intros bs [d|d|d|d|d] Hd Hbs; simpl in Hd.
    + below_put bs d Hd. by do 2 eexists.
    + destruct Hd as [r Hd]. below_put bs d Hd. do 2 eexists. split; [done|by exists r].
    + destruct Hd as [r Hd]. below_put bs d Hd. do 2 eexists. split; [done|by exists r].
    + below_put bs d Hd. by do 2 eexists.
    + below_put bs d Hd. by do 2 eexists.
  - intros [d|d|d|d|d] Hd; simpl in Hd.
    + below_close d Hd. by do 2 eexists.
    + destruct Hd as [r Hd]. below_close d Hd. do 2 eexists. split; [done|by exists r].
    + destruct Hd as [r Hd]. below_close d Hd. do 2 eexists. split; [done|by exists r].
    + below_close d Hd. by do 2 eexists.
    + below_close d Hd. by do 2 eexists.
Qed.

#[local] Notation resample := (resample (ST := ST) createFile defaults dumpToFile cgo spares).

Lemma resample_good w src : (rate <> src -> bySoxr cgo defaults []) -> good w -> 0 < rate -> 0 < src ->
  exists s, resample w src = Ok s /\ resampledGood good rate src s.
Proof. intros. by apply ResampleWriter_good. Qed.

(** The decoders that need a resampler before a writer at a rate. *)
Definition resamples (c : create) (rate : Z) : bool :=
  match c with
  | CreateLaw _ => negb (rate =? 8000)
  | CreateG722 => negb ((rate =? 8000) || (rate =? 16000))
  | CreateOpus => false
  | CreateAMRWB _ => negb (rate =? 16000)
  end.

(** What is written with the PCM writer [w] in the place of a sample rate. *)
Lemma g722Decode_good w : (resamples CreateG722 rate = true -> bySoxr cgo defaults []) -> good w -> 0 < rate -> exists (d : G722.Decoder GD _) r,
  G722.Decode Direct resample w = Ok d /\ g722DecGood (resampledGood good rate r) decLow d.
Proof.
  intros Hres Hw Hr. unfold G722.Decode. rewrite (has_rate (good := good) w Hw). cbn [obind].
  unfold resamples in Hres. repeat case_if; cbn [obind].
  - exists (G722.mkG722Decoder true (G722.newG722Decoder true) 0 (Direct w)), 8000. split; [done|]. split; [done|apply newG722Decoder_law].
  - exists (G722.mkG722Decoder false (G722.newG722Decoder false) 0 (Direct w)), 16000. split; [done|]. split; [done|apply newG722Decoder_law].
  - destruct (resample_good w 16000 (fun _ => Hres eq_refl) Hw Hr) as (s & -> & Hs); [lia|].
    exists (G722.mkG722Decoder false (G722.newG722Decoder false) 0 s), 16000. split; [done|]. split; [done|apply newG722Decoder_law].
Qed.

(** What a decoder needs of the writer's rate: libopus supports it, if the
    decoder is Opus; and a resampler, if one is needed, is that of the C
    library. *)
Definition decodable (c : create) : Prop :=
  0 < rate /\ (c = CreateOpus -> rate ∈ opusRates) /\ (resamples c rate = true -> bySoxr cgo defaults []).

Lemma decode_good c w : good w -> decodable c ->
  exists d, decode createFile defaults dumpToFile cgo spares g722Dump c w = Ok (Some d) /\ decodingGood d.
Proof.
  intros Hw (Hr & Hopus & Hres). unfold decode. destruct c as [l| | |mode].
  - rewrite lawDecode_eq, (has_rate (good := good) w Hw). cbn [obind]. case_if; cbn [obind].
    + by eexists.
    + destruct (resample_good w 8000) as (s & -> & Hs); [intros _; apply Hres; simpl; lia|done|done|lia|]. by eexists.
  - destruct (g722Decode_good w Hres Hw Hr) as (d & r & Hd & Hg). destruct g722Dump as [id|] eqn:Hdump.
    + assert (canCreate createFile) as Hcc by (by apply Hcreate).
      unfold G722.DecodeDumped, DumpWriterPCM16. rewrite Hd. cbn [obind]. destruct Hg as [Hg Hlow].
      match goal with |- context [DumpWriter createFile pcmFrame ?ext ?name ?w] =>
        destruct (DumpWriter_good (good := resampledGood good rate r) createFile pcmFrame ext name w Hcc Hg) as (m & -> & Hm) end.
      cbn [obind].
      match goal with |- context [DumpWriter createFile rawFrame ?ext ?name ?w] =>
        destruct (DumpWriter_good (good := g722DecGood (multiGood (sumGood (resampledGood good rate r) (dumpGood pcmFrame r))) decLow)
          (rate := r) createFile rawFrame ext name w Hcc) as (m' & -> & Hm'); [by split|] end.
      eexists. split; [done|]. by exists r.
    + rewrite Hd. eexists. split; [done|]. by exists r.
  - unfold Opus.Decode. change (negb (1 =? 1) && negb (1 =? 2)) with false. cbn match. rewrite (has_rate (good := good) w Hw). cbn [obind].
    destruct (newDecoder_law rate 1 (Hopus eq_refl)) as (d & -> & Hc); [by left|].
    rewrite opus_room by auto. case_if; [lia|]. eexists. split; [done|by split].
  - unfold Amrwb.Decode, Amrwb.amrwbSampleRate. rewrite (has_rate (good := good) w Hw). cbn [obind]. case_if; cbn [obind].
    + destruct (resample_good w 16000) as (s & -> & Hs); [intros _; apply Hres; simpl; lia|done|done|lia|]. by eexists.
    + by eexists.
Qed.

End decode.
Arguments decodingGood {W} good rate d.
Arguments decodable rate c : clear implicits.

Lemma encodable_decodable rate m c :
  encodable rate c -> (resamples m rate = true -> bySoxr cgo defaults []) -> decodable rate m.
Proof.
  assert (forall r, r ∈ [8000; 16000; 48000] -> r ∈ opusRates) as Hin by (unfold opusRates; set_solver).
  intros Hc Hres. assert (rate ∈ opusRates) as Hr by (destruct c; simpl in Hc; try done; apply Hin; set_solver).
  split; [apply opusRates_range in Hr; lia|done].
Qed.

Section transcode.
Context {B : Type} `{WriterOps (list Z) B} {goodB : B -> Prop} `{!Serves raw goodB}.

(** C9: A chain that decodes one codec into the encoder of another, over any
    writer that takes bytes, is a writer of bytes: whatever the two codecs of the
    program, the configurations they support and the bytes of the frames,
    invalid ones included, neither a frame nor closing it panics.  It is assumed
    that the libraries of the codecs and of the
    resampler keep their laws, that the files of the dumps can be
    created if a dump is on (its failure is a panic), and that where the rates
    of the codecs differ and a resampler is needed, it is that of the C library:
    the build has cgo and the default options do not choose the predictable
    resampler, which panics on some frames. *)
Theorem transcode_total (t1 t2 : CodecType) (c1 c2 : CodecConfig) (ac1 ac2 : audioCodec) (w : B) (frames : list (list Z))
    (Hw : goodB w) (Ht1 : t1 ∈ allCodecs) (Ht2 : t2 ∈ allCodecs)
    (Hac1 : audioCodecFor t1 c1 = Some ac1) (Hac2 : audioCodecFor t2 c2 = Some ac2) (Hframes : Forall raw frames)
    (Hres : resamples (made ac1) (SampleRate (config (codecInfo ac2))) = true -> bySoxr cgo defaults []) :
  exists x d d' es d'' e, codecEncodeBytes createFile g722Dump ac2 w = Ok (Some x) /\
    codecDecodeBytes createFile defaults dumpToFile cgo spares g722Dump ac1 x = Ok d /\
    putAll frames d = Ok (d', es) /\ wclose d' = Ok (d'', e).
Proof.
  destruct (codecEncodeBytes_good t2 c2 ac2 w Hw Ht2 Hac2) as (x & Hx & Hg).
  pose proof (encodable_decodable _ (made ac1) _ (audioCodec_rate _ _ _ Ht2 Hac2) Hres) as Hdec.
  destruct (decode_good (made ac1) x Hg Hdec) as (d & Hd & Hgd). exists x, (DecodeBytes (Some d)).
  assert (decoderGood (decodingGood (encodingGood (encoderGood goodB rawFrame (SampleRate (config (codecInfo ac2))))
    (SampleRate (config (codecInfo ac2)))) (SampleRate (config (codecInfo ac2)))) (DecodeBytes (Some d))) as Hg' by by eexists.
  destruct (serves_putAll raw _ frames _ Hg' Hframes) as (d' & es & Hp & Hg'').
  destruct (serves_close d' Hg'') as (d'' & e & Hc & _). exists d', es, d'', e. split_and!; [done| |done|done].
  unfold codecDecodeBytes. by rewrite Hd.
Qed.

End transcode.

Section decoded.
Context {W : Type} `{WriterOps (list Z) W} `{RateOps W} {good : W -> Prop} {rate : Z} `{!Serves pcm good} `{!HasRate rate good}.

(** C10: The decoder of bytes of any codec of the program, for any configuration
    that it supports, over a PCM writer at any rate at which it may decode, is a
    writer of bytes: neither a frame of bytes nor closing it panics.  It may
    decode at any positive rate, with two conditions: for Opus, libopus supports
    the rate; and where the rate is not the codec's own and a resampler is needed,
    it is that of the C library (the build has cgo and the default options do not
    choose the predictable resampler, which panics on some frames).  It is
    assumed that the libraries of the codecs and of the
    resampler keep their laws and that the files of the
    dumps can be created, if a dump is on. *)
Theorem decode_bytes_typed (t : CodecType) (c : CodecConfig) (ac : audioCodec) (w : W) (frames : list (list Z))
    (Hw : good w) (Hrate : decodable rate (made ac))
    (Ht : t ∈ allCodecs) (Hac : audioCodecFor t c = Some ac) (Hframes : Forall raw frames) :
  exists d d' es d'' e, codecDecodeBytes createFile defaults dumpToFile cgo spares g722Dump ac w = Ok d /\
    putAll frames d = Ok (d', es) /\ wclose d' = Ok (d'', e).
Proof.
  destruct (decode_good (made ac) w Hw Hrate) as (d & Hd & Hg).
  assert (decoderGood (decodingGood good rate) (DecodeBytes (Some d))) as Hg' by by eexists.
  destruct (serves_putAll raw _ frames _ Hg' Hframes) as (d' & es & Hp & Hg'').
  destruct (serves_close d' Hg'') as (d'' & e & Hc & _). exists (DecodeBytes (Some d)), d', es, d'', e.
  split_and!; [|done|done]. unfold codecDecodeBytes. by rewrite Hd.
Qed.

(** At a rate that libopus refuses, the Opus codec gives a writer over nothing:
    its first call panics. *)
Theorem opus_decoder_nil (c : CodecConfig) (ac : audioCodec) (w : W) (err : error) (packet : list Z)
    (Hrate : wrate w = Ok rate) (Hac : audioCodecFor CodecList.Opus c = Some ac) (Herr : Opus.newDecoder rate 1 = inr err) :
  exists d : byteDecoder (decoding W), codecDecodeBytes createFile defaults dumpToFile cgo spares g722Dump ac w = Ok d /\
    wput packet d = Panic /\ wclose d = Panic /\ wrate d = Panic.
Proof.
  apply audioCodecFor_support in Hac as (i & _ & _ & Hm). injection Hm as Hm.
  exists (DecodeBytes None). split_and!; [|done..]. unfold codecDecodeBytes. rewrite <- Hm. simpl.
  unfold Opus.Decode. change (negb (1 =? 1) && negb (1 =? 2)) with false. cbn match.
  rewrite Hrate. cbn [obind]. by rewrite Herr.
Qed.

End decoded.
End chains.
Arguments decodable defaults cgo rate c : clear implicits.

(** ** Witnesses: the libraries of [Demo] *)

#[local] Instance rtpConstants : Constants := {|
  PayloadTypePCMU := 0; PayloadTypePCMA := 8; PayloadTypeG722 := 9; amrwbBest := 8;
|}.

Import Demo.

(** The codec of a configuration that is supported. *)
Definition codecOf (t : CodecType) (c : CodecConfig) : audioCodec :=
  default (mkAudioCodec noInfo CreateG722) (audioCodecFor t c).

Lemma createFile_ok name : exists x, createFile name = inl x.
Proof. by eexists. Qed.

(** A session of two frames. *)
Definition twoFrames : list (list Z) := [[1; 255]; [0]].

Lemma twoFrames_raw : Forall raw twoFrames.
Proof. repeat constructor; done. Qed.
Lemma twoFrames_pcm : Forall pcm twoFrames.
Proof. repeat constructor; done. Qed.

Lemma AMRWB_in : CodecList.AMRWB ∈ allCodecs.
Proof. unfold allCodecs. set_solver. Qed.
Lemma Opus_in : CodecList.Opus ∈ allCodecs.
Proof. unfold allCodecs. set_solver. Qed.

Lemma encode_bytes_typed_witness :
  exists x x' es x'' e, codecEncodeBytes createFile (Some 1) (codecOf CodecList.AMRWB noConfig) (NewFrameWriter [] 0) = Ok (Some x) /\
    wrate x = Ok 16000 /\ putAll twoFrames x = Ok (x', es) /\ wrate x' = Ok 16000 /\ wclose x' = Ok (x'', e).
Proof.
  apply (encode_bytes_typed createFile (Some 1) (fun _ => createFile_ok) (goodB := anySink 0) CodecList.AMRWB noConfig
    (codecOf CodecList.AMRWB noConfig) (NewFrameWriter [] 0) twoFrames).
  - reflexivity.
  - apply AMRWB_in.
  - vm_compute. reflexivity.
  - apply twoFrames_pcm.
Defined.

Lemma decode_bytes_typed_witness :
  exists d d' es d'' e, codecDecodeBytes createFile [] None true (fun _ => 0) (Some 1) (codecOf CodecList.Opus noConfig)
      (NewFrameWriter [] 24000) = Ok d /\
    putAll twoFrames d = Ok (d', es) /\ wclose d' = Ok (d'', e).
Proof.
  apply (decode_bytes_typed createFile (Some 1) (fun _ => createFile_ok) [] None true (fun _ => 0) (fun _ => createFile_ok) (good := anySink 24000) (rate := 24000)
    CodecList.Opus noConfig (codecOf CodecList.Opus noConfig) (NewFrameWriter [] 24000) twoFrames).
  - reflexivity.
  - split; [lia|split; [intros _; unfold opusRates; set_solver|discriminate]].
  - apply Opus_in.
  - vm_compute. reflexivity.
  - apply twoFrames_raw.
Defined.

Lemma transcode_total_witness :
  exists x d d' es d'' e, codecEncodeBytes createFile None (codecOf CodecList.Opus noConfig) (NewFrameWriter [] 0) = Ok (Some x) /\
    codecDecodeBytes createFile [] (Some 7) true (fun _ => 0) None (codecOf CodecList.AMRWB noConfig) x = Ok d /\
    putAll twoFrames d = Ok (d', es) /\ wclose d' = Ok (d'', e).
Proof.
  apply (transcode_total createFile None (fun _ => createFile_ok) [] (Some 7) true (fun _ => 0) (fun _ => createFile_ok) (goodB := anySink 0)
    CodecList.AMRWB CodecList.Opus noConfig noConfig (codecOf CodecList.AMRWB noConfig) (codecOf CodecList.Opus noConfig)
    (NewFrameWriter [] 0) twoFrames).
  - reflexivity.
  - apply AMRWB_in.
  - apply Opus_in.
  - vm_compute. reflexivity.
  - vm_compute. reflexivity.
  - apply twoFrames_raw.
  - intros _. by split.
Defined.

Lemma opus_decoder_nil_witness :
  exists d, codecDecodeBytes createFile [] None true (fun _ => 0) None (codecOf CodecList.Opus noConfig)
      (NewFrameWriter [] 44100) = Ok d /\
    wput [1] d = Panic /\ wclose d = Panic /\ wrate d = Panic.
Proof.
  apply (opus_decoder_nil createFile None [] None true (fun _ => 0) (rate := 44100) noConfig
    (codecOf CodecList.Opus noConfig) (NewFrameWriter [] 44100) (Errorf "opus: invalid argument") [1]).
  - reflexivity.
  - vm_compute. reflexivity.
  - vm_compute. reflexivity.
Defined.
