(* ===== verification/OpusProps.v ===== *)
(** * OpusProps: which decoding errors are reported *)

From stdpp Require Import base tactics numbers strings list.
From S2P Require Import Prelude Writers Opus WritersProps.

#[local] Open Scope go_scope.

Section opus.
Context {OD OE : Type} `{OpusLib OD OE}.

(** What the library answers to a packet: a frame, or an error.  [None] is an
    empty packet, which the library does not see. *)
Definition answer : Type := option (list Z + error).

Fixpoint answers (chans : Z) (packets : list (list Z)) (l : OD) (buf : list Z) : list answer :=
  match packets with
  | [] => []
  | p :: packets =>
      if zlen p =? 0 then None :: answers chans packets l buf
      else match opusDecode l p buf with
           | (l, inl (b, n)) => Some (inl (take (Z.to_nat (n * chans)) b)) :: answers chans packets l b
           | (l, inr err) => Some (inr err) :: answers chans packets l buf
           end
  end.

(** The invalid packets since the last frame, of a history that is newest
    first. *)
Fixpoint invalidSince (history : list answer) : Z :=
  match history with
  | [] => 0
  | Some (inl _) :: _ => 0
  | Some (inr err) :: history => (if isInvalidPacket err then 1 else 0) + invalidSince history
  | None :: history => invalidSince history
  end.

(** What a write must report: nothing for the first five invalid packets since
    the last frame, and any other error. *)
Definition reported (history : list answer) (a : answer) : option error :=
  match a with
  | Some (inr err) => if isInvalidPacket err && (invalidSince history <? 5) then None else Some err
  | _ => None
  end.

Fixpoint reports (history : list answer) (as_ : list answer) : list (option error) :=
  match as_ with
  | [] => []
  | a :: as_ => reported history a :: reports (a :: history) as_
  end.

Definition framesOf (as_ : list answer) : list (list Z) :=
  omap (fun a => match a with Some (inl f) => Some f | _ => None end) as_.

Lemma invalidSince_nonneg history : 0 <= invalidSince history.
Proof. induction history as [|[[?|?]|] ? ?]; simpl; try case_if; lia. Qed.

(** The library stays within the buffer. *)
Definition inBuffer (chans : Z) : Prop :=
  forall d p buf d' b n, opusDecode d p buf = (d', inl (b, n)) -> 0 <= n * chans <= zlen b.

(** The writer below accepts everything. *)
Definition quietSink (s : sink (list Z)) : Prop := forall k, putErr s k = None.

Lemma decoder_run packets d history :
  inBuffer (channels d) -> quietSink (dw d) -> successiveErrorCount d = Z.min 5 (invalidSince history) ->
  let as_ := answers (channels d) packets (dec d) (dbuf d) in
  exists d', putAll packets d = Ok (d', reports history as_) /\
    got (dw d') = got (dw d) ++ framesOf as_ /\ closings (dw d') = closings (dw d).
Proof.
  revert d history. induction packets as [|p packets IH]; intros d history Hin Hq Hc as_; subst as_.
  { exists d. by rewrite app_nil_r. }
  cbn [putAll answers]. pose proof (invalidSince_nonneg history) as Hn. simpl. case_if.
  { destruct (IH d (None :: history) Hin Hq Hc) as (d' & Hrun & ?). exists d'. cbn [obind]. by rewrite Hrun. }
  destruct (opusDecode (dec d) p (dbuf d)) as [l [[b n]|err]] eqn:Hd.
  - apply Hin in Hd. rewrite go_slice_Ok by lia. rewrite Z.sub_0_r, drop_0. set (f := take _ b). simpl.
    rewrite (Hq (length (got (dw d)))).
    match goal with |- context [putAll packets ?d1] =>
      destruct (IH d1 (Some (inl f) :: history) Hin Hq eq_refl) as (d' & Hrun & Hg & Hcl) end.
    exists d'. simpl in Hrun, Hg, Hcl. rewrite Hrun. simpl. rewrite Hg. split; [done|]. by rewrite <- app_assoc.
  - destruct (negb (isInvalidPacket err) || (5 <=? successiveErrorCount d)) eqn:Hr; cbn [obind];
      match goal with |- context [putAll packets ?d1] =>
        destruct (IH d1 (Some (inr err) :: history) Hin Hq) as (d' & Hrun & Hg & Hcl) end.
    1,3: rewrite Hc in *; simpl; destruct (isInvalidPacket err); simpl in Hr; bool_cases; lia.
    all: exists d'; simpl in Hrun, Hg, Hcl; rewrite Hrun; simpl; rewrite Hg, Hcl; split; [|done]; rewrite Hc in Hr.
    all: destruct (isInvalidPacket err), (invalidSince history <? 5) eqn:E5; simpl in *; bool_cases; done || lia.
Qed.

(** C21: The Opus decoder passes on exactly the frames that the library decodes, in
    order, and reports exactly what the policy of the code says: an invalid
    packet is passed over in silence as long as there were fewer than five since
    the last frame, every other error is reported; empty packets change nothing.
    It never panics. *)
Theorem opus_decoder_errors (s : sink (list Z)) (chans : Z) (d : decoder OD (sink (list Z)))
    (packets : list (list Z)) (Hd : Decode s chans = Ok (inl d)) (Hs : quietSink s) (Hlib : inBuffer chans) :
  let as_ := answers chans packets (dec d) (dbuf d) in
  exists d', putAll packets d = Ok (d', reports [] as_) /\
    got (dw d') = got s ++ framesOf as_ /\ closings (dw d') = closings s.
Proof.
  unfold Decode in Hd. repeat case_match; simplify_eq. simpl in Hd. repeat case_match; simplify_eq.
  match goal with |- context [putAll packets ?d] => apply (decoder_run packets d [] Hlib Hs eq_refl) end.
Qed.

(** ** The narrowest bandwidth *)

(** The audio bandwidth of RFC 6716, table 1, as a sample rate. *)
Definition bandwidthRate (bw : Bandwidth) : Z :=
  match bw with Narrowband => 8000 | Mediumband => 12000 | Wideband => 16000 | SuperWideband => 24000 | Fullband => 48000 end.

Lemma maxBandwidth_narrowest rate bw : rate <= 48000 ->
  rate <= bandwidthRate (maxBandwidth rate) /\
  (rate <= bandwidthRate bw -> bandwidthRate (maxBandwidth rate) <= bandwidthRate bw).
Proof. unfold maxBandwidth. intros Hr. repeat case_if; destruct bw; simpl; lia. Qed.

End opus.

(** A library that gives every packet as its frame, and refuses those that start
    with 255. *)
#[local] Instance echo : OpusLib unit unit := {|
  newDecoder _ _ := inl tt;
  newEncoder _ _ := inl tt;
  opusDecode d p buf :=
    match p with
    | 255 :: _ => (d, inr (Errorf "opus: corrupted stream"))
    | _ => if zlen p <=? zlen buf then (d, inl (p ++ drop (length p) buf, zlen p)) else (d, inr ErrShortBuffer)
    end;
  opusEncode e s buf := (e, inr ErrShortBuffer);
  opusSet _ e := inl e;
  isInvalidPacket e := bool_decide (e = Errorf "opus: corrupted stream");
|}.

Lemma echo_inBuffer : inBuffer 1.
Proof.
  intros d p buf d' b n Hd. simpl in Hd. assert (b = p ++ drop (length p) buf /\ n = zlen p) as [-> ->].
  { repeat case_match; by simplify_eq. }
  rewrite zlen_app. pose proof (zlen_nonneg p). pose proof (zlen_nonneg (drop (length p) buf)). lia.
Qed.

(** Six invalid packets after a frame: the sixth is reported. *)
Lemma opus_decoder_errors_witness :
  exists d d', Decode (NewFrameWriter [] 8000) 1 = Ok (inl d) /\
    putAll [[1; 2]; [255]; [255]; []; [255]; [255]; [255]; [255]; [3]; [255]] d =
      Ok (d', [None; None; None; None; None; None; None; Some (Errorf "opus: corrupted stream"); None; None]) /\
    got (dw d') = [[1; 2]; [3]].
Proof.
  destruct (opus_decoder_errors (NewFrameWriter [] 8000) 1 (mkDecoder (NewFrameWriter [] 8000) tt (replicate 960 0) 1 0)
    [[1; 2]; [255]; [255]; []; [255]; [255]; [255]; [255]; [3]; [255]]) as (d' & Hrun & Hg & _).
  - vm_compute. reflexivity.
  - intros k. reflexivity.
  - apply echo_inBuffer.
  - exists (mkDecoder (NewFrameWriter [] 8000) tt (replicate 960 0) 1 0), d'. split; [vm_compute; reflexivity|].
    split; [rewrite Hrun; vm_compute; reflexivity|rewrite Hg; vm_compute; reflexivity].
Defined.
