(* ===== verification/AmrwbProps.v ===== *)
(** * AmrwbProps: the stream that the AMR-WB encoder makes *)

From stdpp Require Import base tactics numbers strings list.
From S2P Require Import Prelude GoStr Writers Resample Amrwb WritersProps.

#[local] Open Scope go_scope.

Section encoder.
Context {AD AE : Type} `{AmrwbLib AD AE}.
Hypothesis frameSize_pos : 0 < frameSize.

(** A write, as its whole frames and what is left after them. *)
Record block : Type := mkBlock { whole : list (list Z); tail_ : list Z }.

Definition samplesOf (b : block) : list Z := concat (whole b) ++ tail_ b.

Definition blockOk (b : block) : Prop := Forall (fun f => zlen f = frameSize) (whole b) /\ zlen (tail_ b) < frameSize.

(** A short frame, with zeros up to the size of a frame. *)
Definition padded (s : list Z) : list Z := s ++ replicate (Z.to_nat frameSize - length s) 0.

(** The frames to encode of a write. *)
Definition framesOf (b : block) : list (list Z) :=
  whole b ++ (if bool_decide (tail_ b = []) then [] else [padded (tail_ b)]).

(** The frames encoded one after the other. *)
Fixpoint encodeAll (e : AE) (fs : list (list Z)) : AE * list Z :=
  match fs with
  | [] => (e, [])
  | f :: fs => let '(e, bs) := amrEncode e f in let '(e, rest) := encodeAll e fs in (e, bs ++ rest)
  end.

(** What the writes report: data after a frame that was short. *)
Fixpoint reports (short : bool) (bs : list block) : list (option error) :=
  match bs with
  | [] => []
  | b :: bs =>
      if bool_decide (samplesOf b = []) then None :: reports short bs
      else (if short then Some errShortFrame else None) :: reports (short || bool_decide (tail_ b <> [])) bs
  end.

Lemma encodeAll_app e fs gs :
  encodeAll e (fs ++ gs) = ((encodeAll (encodeAll e fs).1 gs).1, (encodeAll e fs).2 ++ (encodeAll (encodeAll e fs).1 gs).2).
Proof.
  revert e. induction fs as [|f fs IH]; intros e; simpl; [by destruct (encodeAll e gs)|].
  destruct (amrEncode e f) as [e1 bs]. rewrite IH. destruct (encodeAll e1 fs) as [e2 rest]. simpl. by rewrite app_assoc.
Qed.

Lemma encodeLoop_S fuel e done_ inp buf :
  zlen inp = frameSize \/ frameSize <= zlen inp ->
  encodeLoop (S fuel) e done_ inp buf =
    let '(e, bs) := amrEncode e (take (Z.to_nat frameSize) inp) in
    encodeLoop fuel e done_ (drop (Z.to_nat frameSize) inp) (buf ++ bs).
Proof.
  intros Hl. cbn [encodeLoop]. case_if; [lia|]. case_if; [lia|]. rewrite !go_slice_Ok by lia.
  rewrite Z.sub_0_r, drop_0. rewrite (take_ge (drop _ _)) by (rewrite length_drop; unfold zlen in *; lia). done.
Qed.

(** The loop takes the whole frames, and the rest with zeros. *)
Lemma encodeLoop_spec fs t fuel e done_ buf :
  Forall (fun f => zlen f = frameSize) fs -> zlen t < frameSize -> (length (concat fs ++ t) <= fuel)%nat ->
  encodeLoop fuel e done_ (concat fs ++ t) buf =
    let '(e, bs) := encodeAll e (framesOf (mkBlock fs t)) in
    Some (Ok (e, done_ || bool_decide (t <> []), buf ++ bs)).
Proof.
  intros Hfs Ht. revert fuel e buf. induction Hfs as [|f fs Hf _ IH]; intros fuel e buf Hl; unfold framesOf; simpl.
  - case_bool_decide as Hnil.
    + rewrite Hnil. rewrite (bool_decide_eq_false_2 ([] <> [])) by (intros Hne; by apply Hne). simpl.
      rewrite orb_false_r, app_nil_r. by destruct fuel.
    + rewrite bool_decide_eq_true_2, orb_true_r by done. simpl in Hl.
      assert (0 < zlen t) by (destruct t; [done|unfold zlen; simpl; lia]). unfold zlen in *.
      destruct fuel as [|fuel]; [lia|]. cbn [encodeLoop]. unfold zlen. case_if; [lia|]. case_if; [|lia].
      assert ((go_copy (replicate (Z.to_nat frameSize) 0) t).1 = padded t) as ->.
      { unfold go_copy, padded. simpl. rewrite length_replicate, Nat.min_r, drop_replicate, take_ge by lia. done. }
      assert (length (padded t) = Z.to_nat frameSize) as Hp.
      { unfold padded. rewrite length_app, length_replicate. lia. }
      rewrite !go_slice_Ok by (unfold zlen; lia). unfold zlen. rewrite Hp, Z.sub_0_r, drop_0.
      rewrite (take_ge (padded t)), (drop_ge (padded t)), take_nil by lia. simpl.
      destruct (amrEncode e (padded t)) as [e1 bs]. rewrite app_nil_r. by destruct fuel.
  - cbn [concat] in *. rewrite <- app_assoc in *. rewrite !length_app in Hl. unfold zlen in Hf.
    destruct fuel as [|fuel]; [lia|].
    rewrite encodeLoop_S by (unfold zlen; rewrite length_app; lia).
    rewrite take_app_length', drop_app_length' by lia. destruct (amrEncode e f) as [e1 bs].
    rewrite IH by (rewrite length_app; lia). unfold framesOf. simpl.
    destruct (encodeAll e1 _) as [e2 rest]. by rewrite app_assoc.
Qed.

(** The writer below accepts everything. *)
Definition quietSink (s : sink (list Z)) : Prop := forall k, putErr s k = None.

(** One write: its frames are encoded and passed on at once. *)
Lemma encoder_put b (x : Encoder AE (sink (list Z))) : blockOk b -> quietSink (aew x) ->
  exists x', wput (samplesOf b) x =
      Ok (x', if bool_decide (samplesOf b = []) then None else if short x then Some errShortFrame else None) /\
    concat (got (aew x')) = concat (got (aew x)) ++ (encodeAll (ae x) (framesOf b)).2 /\
    ae x' = (encodeAll (ae x) (framesOf b)).1 /\ short x' = short x || bool_decide (tail_ b <> []) /\ quietSink (aew x').
Proof.
  intros [Hw Ht] Hq. simpl. case_if.
  - apply zlen_0 in Heqb0 as Hnil. rewrite bool_decide_eq_true_2 by done.
    unfold samplesOf in Hnil. apply app_nil in Hnil as [Hc Htl].
    assert (whole b = []) as Hwh.
    { destruct (whole b) as [|f fs]; [done|]. simpl in Hc. apply app_nil in Hc as [-> _].
      apply Forall_cons in Hw as [Hf _]. change (zlen []) with 0 in Hf. lia. }
    exists x. unfold framesOf. rewrite Hwh, Htl. simpl. rewrite orb_false_r, app_nil_r. by split_and!.
  - rewrite bool_decide_eq_false_2 by (intros Hnil; by rewrite Hnil in Heqb0).
    unfold samplesOf. rewrite encodeLoop_spec by done. fold (samplesOf b).
    replace (mkBlock (whole b) (tail_ b)) with b by (by destruct b).
    destruct (encodeAll (ae x) (framesOf b)) as [e bs]. cbn [returned obind]. simpl. case_if; simpl.
    + apply zlen_0 in Heqb1 as ->. rewrite app_nil_r. eexists. split; [done|]. by split_and!.
    + rewrite Hq. eexists. split; [done|]. simpl. rewrite concat_app. simpl. rewrite app_nil_r. by split_and!.
Qed.

Lemma encoder_run bs (x : Encoder AE (sink (list Z))) : Forall blockOk bs -> quietSink (aew x) ->
  exists x', putAll (samplesOf <$> bs) x = Ok (x', reports (short x) bs) /\
    concat (got (aew x')) = concat (got (aew x)) ++ (encodeAll (ae x) (concat (framesOf <$> bs))).2.
Proof.
  intros Hbs. revert x. induction Hbs as [|b bs Hb _ IH]; intros x Hq; cbn [fmap list_fmap putAll reports concat].
  { exists x. by rewrite app_nil_r. }
  destruct (encoder_put b x Hb Hq) as (x1 & -> & Hg & He & Hs & Hq1). cbn [obind].
  destruct (IH x1 Hq1) as (x2 & -> & Hg2). exists x2. cbn [obind]. rewrite Hg2, Hg, He, encodeAll_app, <- app_assoc.
  split; [|done]. rewrite Hs. destruct (bool_decide (samplesOf b = [])) eqn:Hnil; [|done].
  apply bool_decide_eq_true in Hnil. unfold samplesOf in Hnil. apply app_nil in Hnil as [_ ->]. by rewrite orb_false_r.
Qed.

(** C22: The AMR-WB encoder does not depend on how its input is cut: the bytes that
    reach the writer below are those of all the whole frames, in order, with a
    short rest of a write filled with zeros.  An error is reported exactly by the
    writes of data after a short rest; no panic, no endless loop. *)
Theorem amrwb_encoder_stream (mode : Z) (s : sink (list Z)) (bs : list block)
    (Hrate : sinkRate s = 16000) (Hs : forall k, putErr s k = None) (Hbs : Forall blockOk bs) :
  exists x x', EncodeWith s mode = Ok x /\
    putAll (samplesOf <$> bs) x = Ok (x', reports false bs) /\
    concat (got (aew x')) = concat (got s) ++ (encodeAll (newAmrEncoder mode) (concat (framesOf <$> bs))).2 /\
    (Forall (fun b => tail_ b = []) bs -> reports false bs = replicate (length bs) None).
Proof.
  unfold EncodeWith. simpl. rewrite Hrate. simpl. eexists. 
  destruct (encoder_run bs (mkAmrEncoder s (newAmrEncoder mode) false) Hbs Hs) as (x' & Hrun & Hg).
  exists x'. split; [done|]. split_and!; [done|done|]. clear. induction 1 as [|b bs Ht _ IH]; simpl; [done|].
  rewrite Ht. change (bool_decide ([] <> [])) with false. destruct (bool_decide (samplesOf b = [])); simpl; by rewrite IH.
Qed.

End encoder.

(** A library of frames of two samples, that encodes a frame as its sum. *)
#[local] Instance sums : AmrwbLib unit Z := {|
  frameSize := 2;
  newAmrDecoder := tt;
  newAmrEncoder mode := mode;
  amrDecode d inp := (d, inr EOF);
  amrEncode e s := (e, [e; zsum s]);
  amrCloseDecoder d := d;
|}.

Lemma amrwb_encoder_stream_witness :
  exists x x', EncodeWith (NewFrameWriter [] 16000) 8 = Ok x /\
    putAll [[1; 2; 3; 4]; []; [5; 6; 7]; [8; 9]] x = Ok (x', [None; None; None; Some errShortFrame]) /\
    concat (got (aew x')) = [8; 3; 8; 7; 8; 11; 8; 7; 8; 17].
Proof.
  destruct (@amrwb_encoder_stream unit Z sums eq_refl 8 (NewFrameWriter [] 16000)
    [mkBlock [[1; 2]; [3; 4]] []; mkBlock [] []; mkBlock [[5; 6]] [7]; mkBlock [[8; 9]] []]) as (x & x' & H1 & H2 & H3 & _).
  - reflexivity.
  - intros k. reflexivity.
  - repeat constructor.
  - exists x, x'. split; [exact H1|]. split; [exact H2|exact H3].
Defined.
