(* ===== verification/LawChain.v ===== *)
(** * LawChain: a G.711 stream decoded and encoded again

    The chain that [DecodeBytes] of a G.711 codec makes over the PCM writer of
    [EncodeBytes] of the same codec: what comes out of it is what came in. *)

From Stdlib Require Import Ascii.
From stdpp Require Import base tactics numbers strings list sets.
From S2P Require Import Prelude GoStr Codecs CodecList G711 G711Props Writers FileWriter Resample AudioCodec WritersProps FileWriterProps CodecLaws AudioCodecProps.
From S2P Require Opus Amrwb G722.

#[local] Open Scope go_scope.

(** A byte decoded and encoded. *)
Definition recode (l : law) (v : Z) : Z := encoded l (G711Props.decode l v).

(** A-law gives the byte back; mu-law one that decodes to the same sample, since
    it has two zeros. *)
Lemma recode_alaw v : 0 <= v < 256 -> recode ALaw v = v.
Proof.
  intros Hv. pose proof (forallb_seqZ _ 256 codes_ok v Hv) as Hc. apply andb_true_iff in Hc as [Ha _].
  by apply Z.eqb_eq in Ha.
Qed.

Section chain.
Context {ST X OD OE AD AE GD GE : Type}.
Context `{FileOps X} `{Opus.OpusLib OD OE} `{Amrwb.AmrwbLib AD AE} `{G722.G722Lib GD GE} `{ResampleLib ST}.
Context (createFile : str -> X + error) (defaults : list ResampleOption) (dumpToFile : option Z) (cgo : bool)
  (spares : nat -> Z) (g722Dump : option Z).

(** One frame through the encoder of a G.711 codec. *)
Lemma law_encode_put {B : Type} `{WriterOps (list Z) B} l eb ec bb bc rate (w : B) s : pcm s ->
  exists eb' ec' bb' bc', wput s (EncLaw (OE := OE) (AE := AE) (GE := GE) (X := X) (mkLawEncoder l eb ec (mkByteEncoder rawFrame w rate bb bc))) =
    let! (w, e) := wput (encoded l <$> s) w in
    Ok (EncLaw (mkLawEncoder l eb' ec' (mkByteEncoder rawFrame w rate bb' bc')), e).
Proof.
  intros Hs. simpl. unfold writeEncoded. pose proof (resize_length (length s) eb ec) as Hl.
  destruct (resize _ eb _) as [b1 c1]. rewrite (EncodeTo_spec l b1 s Hs Hl). simpl.
  destruct (encodeFrame_raw bb bc (encoded l <$> s)) as [c2 ->]. simpl.
  exists (encoded l <$> s), c1, (encoded l <$> s), c2. by destruct (wput _ w) as [[w' e]|].
Qed.

(** One frame through its decoder, without a resampler. *)
Lemma law_decode_put {W : Type} `{WriterOps (list Z) W} l b c (w : W) bs : raw bs ->
  exists b' c', wput bs (DecodeBytes (Some (DecLaw (ST := ST) (X := X) (OD := OD) (AD := AD) (GD := GD) (mkLawDecoder l b c (Direct w))))) =
    let! (w, e) := wput (G711Props.decode l <$> bs) w in
    Ok (DecodeBytes (Some (DecLaw (mkLawDecoder l b' c' (Direct w)))), e).
Proof.
  intros Hbs. simpl. unfold writeDecoded. pose proof (resize_length (length bs) b c) as Hl.
  destruct (resize _ b _) as [b1 c1]. rewrite (DecodeTo_spec l b1 bs Hbs Hl). simpl.
  exists (G711Props.decode l <$> bs), c1. by destruct (wput _ w) as [[w' e]|].
Qed.

Lemma decode_pcm l bs : pcm (G711Props.decode l <$> bs).
Proof. apply Forall_fmap, Forall_true. intros v. apply i16_range. Qed.

#[local] Notation encoded_law := (encoding X OE AE GE (byteEncoder (sink (list Z)))).
#[local] Notation chain := (byteDecoder (decoding ST X OD AD GD encoded_law)).

(** The chain in a state, and the writer at its end. *)
Definition chainAt (l : law) (dbuf : list Z) (dcap : Z) (ebuf : list Z) (ecap : Z) (bbuf : list Z) (bcap : Z) (rate : Z)
    (s : sink (list Z)) : chain :=
  DecodeBytes (Some (DecLaw (mkLawDecoder l dbuf dcap (Direct (EncLaw (mkLawEncoder l ebuf ecap (mkByteEncoder rawFrame s rate bbuf bcap))))))).

Lemma chain_put l dbuf dcap ebuf ecap bbuf bcap rate s bs : raw bs ->
  exists dbuf' dcap' ebuf' ecap' bbuf' bcap',
    wput bs (chainAt l dbuf dcap ebuf ecap bbuf bcap rate s) =
      Ok (chainAt l dbuf' dcap' ebuf' ecap' bbuf' bcap' rate (mkSink (sinkRate s) (got s ++ [recode l <$> bs]) (closings s) (putErr s) (closeErr s)),
          putErr s (length (got s))).
Proof.
  intros Hbs. unfold chainAt.
  match goal with |- context [Direct ?w] => destruct (law_decode_put l dbuf dcap w bs Hbs) as (b1 & c1 & ->) end.
  destruct (law_encode_put l ebuf ecap bbuf bcap rate s _ (decode_pcm l bs)) as (b2 & c2 & b3 & c3 & ->). simpl.
  rewrite <- list_fmap_compose. by repeat eexists.
Qed.

Lemma chain_run l frames dbuf dcap ebuf ecap bbuf bcap rate s : Forall raw frames ->
  exists dbuf' dcap' ebuf' ecap' bbuf' bcap',
    putAll frames (chainAt l dbuf dcap ebuf ecap bbuf bcap rate s) =
      Ok (chainAt l dbuf' dcap' ebuf' ecap' bbuf' bcap' rate
            (mkSink (sinkRate s) (got s ++ ((fun f : list Z => recode l <$> f) <$> frames)) (closings s) (putErr s) (closeErr s)),
          putErr s <$> seq (length (got s)) (length frames)).
Proof.
  intros Hf. revert dbuf dcap ebuf ecap bbuf bcap s. induction Hf as [|f frames Hr _ IH]; intros; cbn [putAll].
  { rewrite app_nil_r. destruct s. by repeat eexists. }
  destruct (chain_put l dbuf dcap ebuf ecap bbuf bcap rate s f Hr) as (b1 & c1 & b2 & c2 & b3 & c3 & ->). cbn [obind].
  match goal with |- context [putAll frames (chainAt l _ _ _ _ _ _ _ ?s1)] =>
    destruct (IH b1 c1 b2 c2 b3 c3 s1) as (b1' & c1' & b2' & c2' & b3' & c3' & ->) end. cbn [obind].
  repeat eexists. simpl. rewrite <- app_assoc, length_app, Nat.add_1_r. done.
Qed.

(** The codec of [src/g711] for a law. *)
Definition codecOfLaw `{Constants} (l : law) : CodecType :=
  match l with ALaw => CodecList.ALaw | ULaw => CodecList.ULaw end.

Context `{Constants}.

(** C23: A G.711 stream that is decoded and encoded again by the same codec is not
    changed: each frame of bytes that is written comes out as one frame of the
    same length, of bytes that decode to the same samples; for A-law they are the
    same bytes.  The errors of the writer below are those that the writes
    return, one for each. *)
Theorem law_transcode (l : law) (c : CodecConfig) (ac : audioCodec) (s : sink (list Z)) (frames : list (list Z))
    (Hac : audioCodecFor (codecOfLaw l) c = Some ac) (Hframes : Forall raw frames) :
  exists (x : encoded_law) (d d' : chain) s',
    codecEncodeBytes createFile g722Dump ac s = Ok (Some x) /\
    codecDecodeBytes createFile defaults dumpToFile cgo spares g722Dump ac x = Ok d /\
    putAll frames d = Ok (d', putErr s <$> seq (length (got s)) (length frames)) /\
    (exists b1 c1 b2 c2 b3 c3, d' = chainAt l b1 c1 b2 c2 b3 c3 8000 s') /\
    Forall2 (fun inp out => raw out /\ length out = length inp /\
        (G711.Decode l out = G711.Decode l inp) /\ (l = ALaw -> out = inp))
      frames (drop (length (got s)) (got s')) /\ got s `prefix_of` got s'.
Proof.
  assert (made ac = CreateLaw l) as Hmade.
  { apply audioCodecFor_support in Hac as (i & _ & _ & Hm). destruct l; by injection Hm. }
  assert (SampleRate (config (codecInfo ac)) = 8000) as Hrate.
  { apply audioCodec_rate in Hac; [|destruct l; unfold allCodecs; set_solver]. by rewrite Hmade in Hac. }
  destruct (chain_run l frames [] 0 [] 0 [] 0 8000 s Hframes) as (b1 & c1 & b2 & c2 & b3 & c3 & Hrun).
  exists (EncLaw (mkLawEncoder l [] 0 (EncodeBytes rawFrame s 8000))), (chainAt l [] 0 [] 0 [] 0 8000 s).
  eexists _, (mkSink (sinkRate s) (got s ++ ((fun f : list Z => recode l <$> f) <$> frames)) (closings s) (putErr s) (closeErr s)).
  split_and!; [..|exact Hrun|by exists b1, c1, b2, c2, b3, c3| |by apply prefix_app_r].
  - unfold codecEncodeBytes. rewrite Hmade, Hrate. by destruct l.
  - unfold codecDecodeBytes. rewrite Hmade. by destruct l.
  - simpl. rewrite drop_app_length. clear Hrun. induction Hframes as [|f frames Hf _ IH]; constructor; [|done].
    assert (raw (recode l <$> f)) as Hr by (apply Forall_fmap, Forall_true; intros v; apply encoded_byte).
    split_and!; [done|by rewrite length_fmap| |].
    + rewrite !Decode_spec by done. f_equal. rewrite <- list_fmap_compose. apply list_fmap_ext.
      intros i v Hv. apply decode_encoded. exact (Forall_lookup_1 _ _ _ _ Hf Hv).
    + intros ->. rewrite <- (list_fmap_id f) at 2. apply list_fmap_ext. intros i v Hv.
      apply recode_alaw. exact (Forall_lookup_1 _ _ _ _ Hf Hv).
Qed.

End chain.

#[local] Instance rtpConstants : Constants := {|
  PayloadTypePCMU := 0; PayloadTypePCMA := 8; PayloadTypeG722 := 9; amrwbBest := 8;
|}.
Import Demo.

Lemma law_transcode_witness :
  exists x d d' s', 
    codecEncodeBytes createFile None (codecOf CodecList.ULaw noConfig) (NewFrameWriter [] 0) = Ok (Some x) /\
    codecDecodeBytes createFile [] None true (fun _ => 0) None (codecOf CodecList.ULaw noConfig) x = Ok d /\
    putAll [[0; 127]; [255]] d = Ok (d', [None; None]) /\
    (exists b1 c1 b2 c2 b3 c3, d' = chainAt ULaw b1 c1 b2 c2 b3 c3 8000 s') /\
    Forall2 (fun inp out => raw out /\ length out = length inp /\
        (G711.Decode ULaw out = G711.Decode ULaw inp) /\ (ULaw = ALaw -> out = inp))
      [[0; 127]; [255]] (drop 0 (got s')) /\ @nil (list Z) `prefix_of` got s'.
Proof.
  apply (law_transcode createFile [] None true (fun _ => 0) None ULaw noConfig (codecOf CodecList.ULaw noConfig)
    (NewFrameWriter [] 0) [[0; 127]; [255]]).
  - vm_compute. reflexivity.
  - repeat constructor; done.
Defined.
