(* ===== verification/SrtpSession.v ===== *)
(** * SrtpSession: an SRTP session over a connection, [src/srtp/srtp.go]

    pion's session is outside: the environment says what its calls return.  It
    gives its streams one after the other, so that a stream is its number.  The
    goroutines that call [AcceptStream] and [Close] share the list of streams to
    close, under [mu]; each critical section is one step. *)

From stdpp Require Import base tactics numbers strings list relations.
From S2P Require Import Prelude RtpTypes Session.

#[local] Open Scope go_scope.

(** ** [AcceptStream] and [Close] *)

(** Where a goroutine is. *)
Inductive pc : Type :=
| Accepting                                        (* in [s.s.AcceptStream()] *)
| Holding (k : nat) (ssrc : Z)                     (* before [s.mu.Lock()] *)
| Accepted (r : nat * Z + error)                   (* returned *)
| Closing                                          (* in [s.s.Close()] *)
| Taking (err : option error)                      (* before [s.mu.Lock()] *)
| CloseLoop (ks : list nat) (err : option error)   (* the loop over [streams] *)
| Closed (err : option error).                     (* returned *)

(** [streams] of the session; pion's streams, with how often each was closed. *)
Record config : Type := mkConfig {
  streams : list nat;
  made : nat;
  timesClosed : nat -> nat;
  routines : list pc;
}.

(** [NewSession] *)
Definition start : config := mkConfig [] 0 (fun _ => 0%nat) [].

Definition setRoutine (i : nat) (t : pc) (c : config) : config :=
  mkConfig (streams c) (made c) (timesClosed c) (<[i := t]> (routines c)).

Inductive step : config -> config -> Prop :=
(* calls *)
| StepCallAccept c :
    step c (mkConfig (streams c) (made c) (timesClosed c) (routines c ++ [Accepting]))
| StepCallClose c :
    step c (mkConfig (streams c) (made c) (timesClosed c) (routines c ++ [Closing]))
(* AcceptStream *)
| StepAccept c i ssrc :
    routines c !! i = Some Accepting ->
    step c (setRoutine i (Holding (made c) ssrc) (mkConfig (streams c) (S (made c)) (timesClosed c) (routines c)))
| StepAcceptError c i err :
    routines c !! i = Some Accepting ->
    step c (setRoutine i (Accepted (inr err)) c)
| StepAppend c i k ssrc :
    routines c !! i = Some (Holding k ssrc) ->
    step c (setRoutine i (Accepted (inl (k, ssrc))) (mkConfig (streams c ++ [k]) (made c) (timesClosed c) (routines c)))
(* Close *)
| StepClose c i err :
    routines c !! i = Some Closing ->
    step c (setRoutine i (Taking err) c)
| StepTake c i err :
    routines c !! i = Some (Taking err) ->
    step c (setRoutine i (CloseLoop (streams c) err) (mkConfig [] (made c) (timesClosed c) (routines c)))
| StepCloseOne c i k ks err :
    routines c !! i = Some (CloseLoop (k :: ks) err) ->
    step c (setRoutine i (CloseLoop ks err)
      (mkConfig (streams c) (made c) (upd (timesClosed c) k (S (timesClosed c k))) (routines c)))
| StepReturn c i err :
    routines c !! i = Some (CloseLoop [] err) ->
    step c (setRoutine i (Closed err) c).

Definition reachable (c : config) : Prop := rtc step start c.

(** ** Reading *)

Section readStream.
(** pion's [Packet.Unmarshal], whose payload is a part of the bytes. *)
Context (Unmarshal : list Z -> Packet + error).

(** [readStream.ReadRTP]: [r] is what pion's [Read] puts at the front of
    [payload], or its error.  The header and the contents of [payload] after the
    call, and the count or the error. *)
Definition ReadRTP (h : Header) (payload : list Z) (r : list Z + error) : outcome (Header * list Z * (Z + error)) :=
  match r with
  | inr err => Ok (h, payload, inr err)
  | inl bs =>
      let '(buf, n) := go_copy payload bs in
      let! read := go_slice buf 0 n in
      match Unmarshal read with
      | inr err => Ok (h, buf, inr err)
      | inl p =>
          let '(buf, n) := go_copy buf (Payload p) in
          Ok (header p, buf, inl n)
      end
  end.

End readStream.
