(* ===== verification/SrtpSessionProps.v ===== *)
(** * SrtpSessionProps: who closes the streams of an SRTP session *)

From stdpp Require Import base tactics numbers strings list relations.
From S2P Require Import Prelude RtpTypes Session SrtpSession.

#[local] Open Scope go_scope.

(** ** Every stream is in one place *)

Fixpoint occ (k : nat) (l : list nat) : Z :=
  match l with [] => 0 | j :: l => (if decide (j = k) then 1 else 0) + occ k l end.

Lemma occ_app k l l' : occ k (l ++ l') = occ k l + occ k l'.
Proof. induction l; simpl; lia. Qed.
Lemma occ_nonneg k l : 0 <= occ k l.
Proof. induction l; simpl; [lia|]. case_decide; lia. Qed.

(** How often a goroutine has the stream: one that it is about to add to the
    list, or that it is about to close. *)
Definition owns (k : nat) (t : pc) : Z :=
  match t with
  | Holding j _ => occ k [j]
  | CloseLoop ks _ => occ k ks
  | _ => 0
  end.

Definition owned (k : nat) (c : config) : Z := zsum (owns k <$> routines c).

(** Added up over the places where a stream can be. *)
Definition places (k : nat) (c : config) : Z :=
  owned k c + occ k (streams c) + Z.of_nat (timesClosed c k).

Lemma owns_nonneg k t : 0 <= owns k t.
Proof. destruct t; simpl; try lia; [case_decide; lia|apply occ_nonneg]. Qed.

Lemma owned_cons k t ts : zsum (owns k <$> t :: ts) = owns k t + zsum (owns k <$> ts).
Proof. done. Qed.

Lemma owned_nonneg k ts : 0 <= zsum (owns k <$> ts).
Proof. induction ts as [|t ts IH]; [done|]. rewrite owned_cons. pose proof (owns_nonneg k t). lia. Qed.

Lemma owned_insert k i t t' ts : ts !! i = Some t ->
  zsum (owns k <$> <[i := t']> ts) = zsum (owns k <$> ts) - owns k t + owns k t'.
Proof. intros Hi. rewrite list_fmap_insert. apply zsum_insert. by rewrite list_lookup_fmap, Hi. Qed.

Lemma owned_snoc k ts t : zsum (owns k <$> ts ++ [t]) = zsum (owns k <$> ts) + owns k t.
Proof. rewrite fmap_app, zsum_app. simpl. lia. Qed.

Definition exclusive (c : config) : Prop := forall k, places k c = if decide (k < made c)%nat then 1 else 0.

Lemma step_exclusive c c' : step c c' -> exclusive c -> exclusive c'.
Proof.
  intros Hs He k. specialize (He k). unfold places, owned in *.
  destruct Hs; cbn [routines streams timesClosed made setRoutine];
    rewrite ?owned_snoc; try (erewrite owned_insert by done); rewrite ?occ_app; cbn [owns occ]; try lia.
  - repeat case_decide; lia.
  - unfold upd. repeat case_decide; subst; lia.
Qed.

Lemma reachable_exclusive c : reachable c -> exclusive c.
Proof.
  intros Hr. assert (exclusive start) as H0 by (intros k; by destruct k).
  revert H0. induction Hr as [|c c1 c2 Hs _ IH]; [done|]. intros He. by apply IH, (step_exclusive c).
Qed.

(** C25: No stream of an SRTP session is closed twice, however the calls of
    [AcceptStream] and [Close] interleave; and every stream that was accepted is
    closed, or kept for the next [Close], or in the hands of one goroutine that
    will do the one or the other. *)
Theorem srtp_closed_once (c : config) (k : nat) (Hc : reachable c) (Hk : (k < made c)%nat) :
  (timesClosed c k <= 1)%nat /\
  (timesClosed c k = 1%nat \/ occ k (streams c) = 1 \/
     exists i t, routines c !! i = Some t /\ owns k t = 1).
Proof.
  pose proof (reachable_exclusive c Hc k) as He. rewrite decide_True in He by done. unfold places, owned in He.
  pose proof (owned_nonneg k (routines c)). pose proof (occ_nonneg k (streams c)). split; [lia|].
  destruct (decide (timesClosed c k = 1%nat)) as [?|?]; [by left|]. right.
  destruct (decide (occ k (streams c) = 1)) as [?|?]; [by left|]. right.
  assert (zsum (owns k <$> routines c) = 1) as Hsum by lia. clear -Hsum.
  induction (routines c) as [|t ts IH]; [done|]. rewrite owned_cons in Hsum.
  pose proof (owned_nonneg k ts) as Hn. pose proof (owns_nonneg k t) as Ht.
  destruct (decide (owns k t = 1)) as [?|?]; [by exists 0%nat, t|].
  destruct IH as (i & t' & Hi & Ho); [lia|]. by exists (S i), t'.
Qed.

(** ** What [Close] promises *)

(** The goroutine [i] will still take the list. *)
Definition willTake (i : nat) (c : config) : Prop :=
  routines c !! i = Some Closing \/ exists err, routines c !! i = Some (Taking err).

(** A stream that is in the list or beyond stays so, and leaves the list when
    the list is taken. *)
Definition settled (i k : nat) (c : config) : Prop :=
  (k < made c)%nat /\ Forall (fun t => match t with Holding j _ => j <> k | _ => True end) (routines c) /\
  (i < length (routines c))%nat /\
  (match routines c !! i with Some (Closing | Taking _ | CloseLoop _ _ | Closed _) => True | _ => False end) /\
  (willTake i c \/ occ k (streams c) = 0).

Lemma step_settled i k c c' : step c c' -> settled i k c -> settled i k c'.
Proof.
  intros Hs (Hk & Hh & Hi & Hp & Hw). unfold settled, willTake in *.
  destruct Hs as [c|c|c j ss Hj|c j err Hj|c j k' ss Hj|c j err Hj|c j err Hj|c j k' ks err Hj|c j err Hj]; simpl in *.
  1,2: rewrite length_app, lookup_app_l by done; simpl; split_and!; [lia| |lia|done|done];
    apply Forall_app; split; [done|by repeat constructor].
  all: rewrite length_insert; assert (Hj' := Hj); apply (Forall_lookup_1 _ _ _ _ Hh) in Hj';
    (split; [lia|]); (split; [apply Forall_insert; [done|]; simpl; try done; lia|]); (split; [done|]);
    destruct (decide (i = j)) as [<-|Hne];
    [rewrite list_lookup_insert_eq by done; rewrite Hj in *; simpl in *; try done|
     rewrite list_lookup_insert_ne by done; try done].
  all: try (split; [done|]); rewrite ?occ_app; simpl; try case_decide; try naive_solver lia.
Qed.

Lemma rtc_settled i k c c' : rtc step c c' -> settled i k c -> settled i k c'.
Proof. induction 1 as [|c c1 c2 Hs _ IH]; [done|]. intros Hc. by eapply IH, step_settled. Qed.

(** A goroutine that holds nothing. *)
Definition handsOff (t : pc) : Prop := match t with Holding _ _ | CloseLoop _ _ => False | _ => True end.

(** C24: What [Close] promises: when it returned, every stream that was out of
    [AcceptStream] before it was called has been closed, exactly once, as soon as
    the calls that run beside it are over; nothing that happens in between can
    make it miss one. *)
Theorem srtp_close_promise (c0 c : config) (k : nat) (err : option error)
    (H0 : reachable c0) (Hk : (k < made c0)%nat) (Hout : forall i ssrc, routines c0 !! i <> Some (Holding k ssrc))
    (Hrun : rtc step (mkConfig (streams c0) (made c0) (timesClosed c0) (routines c0 ++ [Closing])) c)
    (Hdone : routines c !! length (routines c0) = Some (Closed err))
    (Hrest : Forall handsOff (routines c)) :
  timesClosed c k = 1%nat /\ occ k (streams c) = 0.
Proof.
  set (c1 := mkConfig _ _ _ _) in Hrun.
  assert (settled (length (routines c0)) k c1) as Hset.
  { unfold settled, willTake. simpl. rewrite length_app, list_lookup_middle by done. simpl.
    split_and!; [done| |lia|done|by left; left]. apply Forall_app. split; [|by repeat constructor].
    apply Forall_lookup. intros i t Ht. destruct t; try done. intros ->. by eapply Hout. }
  apply (rtc_settled _ _ _ _ Hrun) in Hset as (Hk' & _ & _ & _ & Hw).
  assert (reachable c) as Hc.
  { unfold reachable. etrans; [exact H0|]. eapply rtc_l; [apply StepCallClose|exact Hrun]. }
  destruct Hw as [[Hw|[e Hw]]|Hocc]; [by rewrite Hw in Hdone..|].
  pose proof (reachable_exclusive c Hc k) as He. rewrite decide_True in He by done. unfold places, owned in He.
  assert (zsum (owns k <$> routines c) = 0) as Hz.
  { clear -Hrest. induction Hrest as [|t ts Ht _ IH]; [done|]. rewrite owned_cons, IH. by destruct t. }
  split; [lia|done].
Qed.

(** The gap that the comment in [AcceptStream] knows: a stream that pion
    accepted before [Close] and that is added to the list after [Close] took it is
    returned to the caller, and not closed. *)
Theorem srtp_accept_leaks :
  exists c, reachable c /\ routines c = [Accepted (inl (0%nat, 7)); Closed None] /\
    timesClosed c 0%nat = 0%nat /\ streams c = [0%nat].
Proof.
  eexists. split.
  - unfold reachable.
    eapply rtc_l; [apply StepCallAccept|]. eapply rtc_l; [apply StepCallClose|].
    eapply rtc_l; [apply (StepAccept _ 0 7); reflexivity|].
    eapply rtc_l; [apply (StepClose _ 1 None); reflexivity|].
    eapply rtc_l; [apply (StepTake _ 1 None); reflexivity|].
    eapply rtc_l; [apply (StepReturn _ 1 None); reflexivity|].
    eapply rtc_l; [apply (StepAppend _ 0 0 7); reflexivity|]. apply rtc_refl.
  - done.
Qed.

(** ** Witnesses *)

(** One goroutine accepts a stream. *)
Definition accepted1 : config := mkConfig [0%nat] 1 (fun _ => 0%nat) [Accepted (inl (0%nat, 7))].

Lemma accepted1_reachable : reachable accepted1.
Proof.
  unfold reachable. eapply rtc_l; [apply StepCallAccept|]. eapply rtc_l; [apply (StepAccept _ 0 7); reflexivity|].
  eapply rtc_l; [apply (StepAppend _ 0 0 7); reflexivity|]. apply rtc_refl.
Qed.

Lemma srtp_closed_once_witness : (timesClosed accepted1 0 <= 1)%nat.
Proof. apply (srtp_closed_once accepted1 0 accepted1_reachable). simpl. lia. Defined.

(** Another accepts a stream while the session is closed. *)
Definition closed1 : config :=
  mkConfig [] 1 (upd (fun _ => 0%nat) 0%nat 1%nat) [Accepted (inl (0%nat, 7)); Closed (Some EOF); Accepted (inr EOF)].

Lemma srtp_close_promise_witness : timesClosed closed1 0%nat = 1%nat /\ occ 0 (streams closed1) = 0.
Proof.
  apply (srtp_close_promise accepted1 closed1 0 (Some EOF)).
  - apply accepted1_reachable.
  - simpl. lia.
  - intros [|[|i]] ssrc; discriminate.
  - eapply rtc_l; [apply StepCallAccept|]. eapply rtc_l; [apply (StepClose _ 1 (Some EOF)); reflexivity|].
    eapply rtc_l; [apply (StepTake _ 1 (Some EOF)); reflexivity|].
    eapply rtc_l; [apply (StepAcceptError _ 2 EOF); reflexivity|].
    eapply rtc_l; [apply (StepCloseOne _ 1 0 [] (Some EOF)); reflexivity|].
    eapply rtc_l; [apply (StepReturn _ 1 (Some EOF)); reflexivity|]. apply rtc_refl.
  - reflexivity.
  - repeat constructor.
Defined.

(** ** [ReadRTP] *)

Section read.
Context (Unmarshal : list Z -> Packet + error).
(** The payload is a part of the bytes. *)
Hypothesis Unmarshal_part : forall bs p, Unmarshal bs = inl p -> zlen (Payload p) <= zlen bs.

(** A packet that fits the buffer is read whole: the header, and its payload at
    the front of the buffer; the rest of the buffer may hold what was read. *)
Theorem srtp_read_whole (h : Header) (payload bs : list Z) (p : Packet)
    (Hfits : zlen bs <= zlen payload) (Hp : Unmarshal bs = inl p) :
  exists buf, ReadRTP Unmarshal h payload (inl bs) = Ok (header p, buf, inl (zlen (Payload p))) /\
    take (length (Payload p)) buf = Payload p /\ length buf = length payload.
Proof.
  pose proof (Unmarshal_part _ _ Hp) as Hpart. unfold ReadRTP, go_copy, zlen in *.
  rewrite Nat.min_r by lia. rewrite go_slice_Ok by (unfold zlen; rewrite ?length_app, ?length_take, ?length_drop; lia).
  rewrite Z.sub_0_r, Nat2Z.id, drop_0, (take_ge bs), take_app_length by lia. cbn [obind]. rewrite Hp.
  rewrite length_app, length_drop, Nat.min_r, (take_ge (Payload p)) by lia.
  eexists. split; [done|]. rewrite take_app_length. split; [done|]. rewrite length_app, length_drop, length_app, length_drop. lia.
Qed.

End read.

(** Packets of one byte of header. *)
Definition tinyUnmarshal (bs : list Z) : Packet + error :=
  match bs with
  | [] => inr ErrShortBuffer
  | b :: bs => inl (mkPacket (mkHeader 2 false false b 0 0 0) bs)
  end.

Lemma srtp_read_whole_witness :
  exists buf, ReadRTP tinyUnmarshal (mkHeader 0 false false 0 0 0 0) [9; 9; 9; 9; 9] (inl [8; 1; 2; 3]) =
    Ok (mkHeader 2 false false 8 0 0 0, buf, inl 3) /\ take 3 buf = [1; 2; 3] /\ length buf = 5%nat.
Proof.
  apply (srtp_read_whole tinyUnmarshal) with (p := mkPacket (mkHeader 2 false false 8 0 0 0) [1; 2; 3]).
  - intros [|b bs] p Hp; [discriminate|]. injection Hp as <-. unfold zlen. simpl. lia.
  - unfold zlen. simpl. lia.
  - reflexivity.
Defined.
