(* ===== verification/RtpCodecsProps.v ===== *)
(** * RtpCodecsProps: a G.711 call over RTP *)

From Stdlib Require Import Ascii.
From stdpp Require Import base tactics numbers strings list sets.
From S2P Require Import Prelude RtpTypes SeqWriter SeqProps GoStr Codecs CodecList G711 G711Props Writers FileWriter Resample AudioCodec.
From S2P Require Opus Amrwb G722.
From S2P Require Import RtpCodecs WritersProps FileWriterProps CodecLaws AudioCodecProps LawChain.

#[local] Open Scope go_scope.

(** ** The timestamps of a stream that keeps its pace *)

(** [Round] and the division of [projectWallclockTS]: the nearest number of
    frames. *)
Lemma round_frames d k : 0 <= d < k * DefFrameDur -> k < 300000000 ->
  0 <= Z.quot (Round d DefFrameDur) DefFrameDur <= k.
Proof.
  change DefFrameDur with 20000000. intros Hd Hk. unfold Round. case_if; [lia|]. case_if; [lia|].
  rewrite Z.rem_mod_nonneg by lia. case_if; [rewrite Z.quot_div_nonneg by lia; lia|].
  assert (i64 (d + 20000000 - d mod 20000000) = d + 20000000 - d mod 20000000) as -> by (unfold i64; lia).
  case_if; [|lia]. rewrite Z.quot_div_nonneg by lia. lia.
Qed.

(** [k] frames are sent: the clock is not more than ten frames ahead. *)
Definition paced (clock : nat -> time) (n : nat) : Prop :=
  clock 1%nat <> zeroTime /\
  forall k, (0 < k < n)%nat -> 0 <= clock (2 * k)%nat - clock 1%nat < (Z.of_nat k + 10) * DefFrameDur.

(** The state of a stream at 8000 Hz after [k] packets. *)
Record streamAt (pt ssrc : Z) (k : nat) (r : rtpStream) : Prop := {
  at_writes : writes r = k;
  at_stream : stream r = mkStream pt false (48000 + 160 * Z.of_nat k);
  at_frame : frameTS (seqw r) = 160;
  at_header : SequenceNumber (h (seqw r)) = u16 (Z.of_nat k) /\ SSRC (h (seqw r)) = ssrc /\
    Version (h (seqw r)) = 2 /\ Padding (h (seqw r)) = false;
  at_anchor : anchorTime (seqw r) = (if decide (k = 0%nat) then zeroTime else clock r 1%nat);
  at_anchorTS : (0 < k)%nat -> anchorTS (seqw r) = 48000;
  at_max : maxTS (seqw r) = (if decide (k = 0%nat) then 48000 else 48000 + 160 * (Z.of_nat k - 1));
}.

(** The [k]-th packet. *)
Definition packetAt (pt ssrc : Z) (k : nat) (data : list Z) : Packet :=
  mkPacket (mkHeader 2 false false pt (u16 (Z.of_nat k)) (48000 + 160 * Z.of_nat k) ssrc) data.

Lemma CurTS_paced pt ssrc k n r : streamAt pt ssrc k r -> paced (clock r) n -> (k < n)%nat -> Z.of_nat n < 10000000 ->
  CurTS (seqw r) (48000 + 160 * Z.of_nat k) (clock r (2 * k)%nat) = 48000 + 160 * Z.of_nat k.
Proof.
  intros Hr [Hz Hp] Hk Hn. unfold CurTS. rewrite (at_frame _ _ _ _ Hr), (at_max _ _ _ _ Hr), (at_anchor _ _ _ _ Hr).
  case_decide as E; [subst; done|].
  assert ((0 <? i32 (48000 + 160 * (Z.of_nat k - 1) - (48000 + 160 * Z.of_nat k))) = false) as -> by (apply Z.ltb_ge; unfold i32; lia).
  unfold IsZero. destruct (clock r 1%nat =? 0) eqn:E0; [done|].
  unfold projectWallclockTS. rewrite (at_anchorTS _ _ _ _ Hr), (at_frame _ _ _ _ Hr), (at_anchor _ _ _ _ Hr), decide_False by lia.
  specialize (Hp k ltac:(lia)).
  assert (Sub (clock r (2 * k)%nat) (clock r 1%nat) = clock r (2 * k)%nat - clock r 1%nat) as ->.
  { unfold Sub, minDuration, maxDuration. change DefFrameDur with 20000000 in *. lia. }
  pose proof (round_frames _ _ Hp ltac:(lia)) as Hq. set (q := Z.quot _ _) in *. clearbody q.
  unfold rtpStreamTSResetFrames. case_if; [|done]. exfalso. unfold u32, i32 in *. lia.
Qed.

Lemma copyOf_id l : copyOf l = l.
Proof.
  unfold copyOf, go_copy. simpl. rewrite length_replicate, Nat.min_id, take_ge, drop_ge, app_nil_r; [done|..];
    rewrite ?length_replicate; lia.
Qed.

Lemma stream_put pt ssrc k n r data : streamAt pt ssrc k r -> paced (clock r) n -> (k < n)%nat -> Z.of_nat n < 10000000 ->
  werr r k = None ->
  exists r', wput data r = Ok (r', None) /\ streamAt pt ssrc (S k) r' /\ clock r' = clock r /\ werr r' = werr r /\
    wire r' = wire r ++ [packetAt pt ssrc k data].
Proof.
  intros Hr Hp Hk Hn He. pose proof (CurTS_paced _ _ _ _ _ Hr Hp Hk Hn) as Hts.
  destruct (at_header _ _ _ _ Hr) as (H1 & H2 & H3 & H4).
  cbn [wput rtpStream_ops]. rewrite (at_writes _ _ _ _ Hr), He. unfold SeqWriter.WriteRaw, WritePayload.
  rewrite (at_stream _ _ _ _ Hr). cbn [manual]. unfold beginPayload. cbn [ts]. rewrite Hts.
  unfold finishPayload, WriteEvent, eventHeader. cbn [typ SeqWriter.ts EvTimestamp EvPayload EvMarker EvType].
  rewrite H1, H2, H3, H4, (at_anchor _ _ _ _ Hr), (at_frame _ _ _ _ Hr), (at_max _ _ _ _ Hr).
  assert ((0 <? i32 (48000 + 160 * Z.of_nat k - (if decide (k = 0%nat) then 48000 else 48000 + 160 * (Z.of_nat k - 1)))) =
    (0 <? Z.of_nat k)) as Hmax by (case_decide; subst; [done|]; unfold i32; lia).
  rewrite Hmax. destruct Hp as [Hz Hp].
  assert (IsZero (if decide (k = 0%nat) then zeroTime else clock r 1%nat) = bool_decide (k = 0%nat)) as ->.
  { unfold IsZero. case_decide; subst; [done|]. rewrite bool_decide_eq_false_2 by done. by apply Z.eqb_neq. }
  case_bool_decide as Hk0; (eexists; split; [reflexivity|]); (split; [|split_and!; [done|done|]]).
  2,4: unfold bufferWriteRTP; by rewrite copyOf_id.
  all: constructor; cbn; try done; try (split_and!; [|done..]).
  all: repeat case_decide; simplify_eq; try done; try case_if; try lia.
  all: try (intros; by apply (at_anchorTS _ _ _ _ Hr); lia).
  all: try (unfold u16; lia).
  all: by unfold u32; f_equal; lia.
Qed.

(** ** A call *)

Section call.
Context {ST X OD OE AD AE GD GE : Type}.
Context `{FileOps X} `{Opus.OpusLib OD OE} `{Amrwb.AmrwbLib AD AE} `{G722.G722Lib GD GE} `{ResampleLib ST} `{Constants}.
Context (createFile : str -> X + error) (defaults : list ResampleOption) (dumpToFile : option Z) (cgo : bool)
  (spares : nat -> Z) (g722Dump : option Z).

#[local] Notation sending := (encoding X OE AE GE (byteEncoder rtpStream)).
#[local] Notation receiving := (rawHandler (byteDecoder (decoding ST X OD AD GD (sink (list Z))))).

(** The packets that the sending side has sent. *)
Definition wireOf (x : sending) : list Packet :=
  match x with EncLaw x => wire (encoded_ (lew x)) | _ => [] end.

(** The frames that the receiving side has given to its writer. *)
Definition framesOf (h : receiving) : list (list Z) :=
  match decoded_ (rw h) with
  | Some (DecLaw d) => match ldw d with Direct s => got s | _ => [] end
  | _ => []
  end.

Definition sendingAt (l : law) eb ec bb bc (r : rtpStream) : sending :=
  EncLaw (mkLawEncoder l eb ec (mkByteEncoder rawFrame r 8000 bb bc)).

Lemma sending_run l pt ssrc n frames k eb ec bb bc r :
  Forall pcm frames -> streamAt pt ssrc k r -> paced (clock r) n -> (k + length frames <= n)%nat -> Z.of_nat n < 10000000 ->
  (forall j, werr r j = None) ->
  exists eb' ec' bb' bc' r', putAll frames (sendingAt l eb ec bb bc r) = Ok (sendingAt l eb' ec' bb' bc' r', replicate (length frames) None) /\
    wire r' = wire r ++ imap (fun j f => packetAt pt ssrc (k + j) (encoded l <$> f)) frames.
Proof.
  intros Hf. revert k eb ec bb bc r. induction Hf as [|f frames Hp _ IH]; intros k eb ec bb bc r Hr Hpace Hk Hn He.
  { exists eb, ec, bb, bc, r. by rewrite app_nil_r. }
  cbn [putAll length replicate imap]. unfold sendingAt at 1.
  destruct (law_encode_put l eb ec bb bc 8000 r f Hp) as (eb1 & ec1 & bb1 & bc1 & ->).
  simpl in Hk. destruct (stream_put pt ssrc k n r (encoded l <$> f) Hr Hpace) as (r1 & -> & Hr1 & Hc1 & Hw1 & Hwire);
    [lia|lia|apply He|]. cbn [obind].
  destruct (IH (S k) eb1 ec1 bb1 bc1 r1 Hr1) as (eb2 & ec2 & bb2 & bc2 & r2 & Hrun & Hw2);
    [by rewrite Hc1|lia|lia|by rewrite Hw1|].
  fold (sendingAt l eb1 ec1 bb1 bc1 r1). rewrite Hrun. cbn [obind].
  exists eb2, ec2, bb2, bc2, r2. split; [done|]. rewrite Hw2, Hwire, <- app_assoc. f_equal. simpl.
  rewrite Nat.add_0_r. f_equal. apply imap_ext. intros i x _. simpl. by rewrite Nat.add_succ_r.
Qed.

Definition receivingAt (l : law) b c (s : sink (list Z)) pt : receiving :=
  HandlePayload (DecodeBytes (Some (DecLaw (mkLawDecoder l b c (Direct s))))) pt.

Lemma receiving_run l pt ps b c s : Forall (fun p => raw (Payload p)) ps -> (forall k, putErr s k = None) ->
  exists b' c' s', handleAll ps (receivingAt l b c s pt) = Ok (receivingAt l b' c' s' pt, replicate (length ps) None) /\
    got s' = got s ++ ((fun p => G711Props.decode l <$> Payload p) <$> ps).
Proof.
  intros Hps. revert b c s. induction Hps as [|p ps Hp _ IH]; intros b c s Hs.
  { exists b, c, s. by rewrite app_nil_r. }
  cbn [handleAll length replicate]. unfold receivingAt at 1. cbn [handleRTP rawHandler_ops rw].
  destruct (law_decode_put l b c s (Payload p) Hp) as (b1 & c1 & ->). cbn [wput sink_ops obind]. rewrite Hs.
  match goal with |- context [Direct ?s1] => destruct (IH b1 c1 s1 Hs) as (b2 & c2 & s2 & Hrun & Hg) end.
  unfold receivingAt in Hrun at 1. cbn [rtyp]. rewrite Hrun. cbn [obind].
  exists b2, c2, s2. split; [done|]. rewrite Hg. simpl. by rewrite <- app_assoc.
Qed.

(** C3: A G.711 call: PCM frames written with [EncodePCMWithCodec] to the automatic
    stream of a new [SeqWriter] become one packet each, numbered from 0, with
    timestamps from 48000 that advance by the 160 samples of a frame as long as
    the clock is not ten frames ahead; given to the handler of
    [DecodePCMWithCodec] they come out as frames of the same length, with every
    sample within the error of the law. *)
Theorem g711_call (l : law) (cc : CodecConfig) (i : CodecInfo) (pt ssrc : Z) (clock : nat -> time)
    (frames : list (list Z)) (s : sink (list Z))
    (Hcc : support (codecOfLaw l) cc = (i, true)) (Hframes : Forall pcm frames)
    (Hclock : paced clock (length frames)) (Hlen : Z.of_nat (length frames) < 10000000)
    (Hs : sinkRate s = 8000 /\ forall k, putErr s k = None) :
  exists r x x' h h', newRtpStream pt 8000 (NewSeqWriter 8000 ssrc) clock (fun _ => None) = Ok r /\
    EncodePCMWithCodec createFile g722Dump r (codecOfLaw l) cc = Ok (inl (Some x)) /\
    putAll frames x = Ok (x', replicate (length frames) None) /\
    (exists payloads, wireOf x' = imap (packetAt pt ssrc) payloads /\ length payloads = length frames) /\
    DecodePCMWithCodec createFile defaults dumpToFile cgo spares g722Dump s (codecOfLaw l) cc pt = Ok (inl h) /\
    handleAll (wireOf x') h = Ok (h', replicate (length frames) None) /\
    exists out, framesOf h' = got s ++ out /\
      Forall2 (Forall2 (fun a b => 32 * Z.abs (a - b) <= Z.abs a + 32 * floorOf l)) frames out.
Proof.
  destruct Hs as [Hrate Hok].
  assert (createOf (codecOfLaw l) cc = Some (CreateLaw l)) as Hcr by by destruct l.
  set (ac := NewAudioCodecFunc i (CreateLaw l)).
  assert (initCodec (codecOfLaw l) cc = Ok (inl ac)) as Hinit by (unfold initCodec; by rewrite Hcc, Hcr).
  assert (audioCodecFor (codecOfLaw l) cc = Some ac) as Hac by (unfold audioCodecFor; by rewrite Hcc, Hcr).
  assert (made ac = CreateLaw l) as Hmade by done.
  assert (SampleRate (config (codecInfo ac)) = 8000) as Hsr.
  { apply audioCodec_rate in Hac; [done|]. destruct l; unfold allCodecs; set_solver. }
  set (r0 := mkRtpStream (mkSeqWriter 8000 160 (mkHeader 2 false false 0 0 0 ssrc) true zeroTime 0 48000)
    (mkStream pt false 48000) clock (fun _ => None) 0 []).
  assert (streamAt pt ssrc 0 r0) as Hr0 by (constructor; try done; lia).
  destruct (sending_run l pt ssrc (length frames) frames 0 [] 0 [] 0 r0 Hframes Hr0 Hclock) as (eb & ec & bb & bc & r' & Hrun & Hwire);
    [lia|done|done|]. simpl in Hwire.
  exists r0, (sendingAt l [] 0 [] 0 r0), (sendingAt l eb ec bb bc r'), (receivingAt l [] 0 s pt).
  assert (Forall (fun p => raw (Payload p)) (wire r')) as Hraw.
  { rewrite Hwire. apply Forall_lookup. intros j p Hj. rewrite list_lookup_imap in Hj.
    destruct (frames !! j); [|done]. injection Hj as <-. apply encoded_bytes. }
  destruct (receiving_run l pt (wire r') [] 0 s Hraw Hok) as (b & c & s' & Hrecv & Hgot).
  exists (receivingAt l b c s' pt). split_and!.
  - unfold newRtpStream, NewStream. reflexivity.
  - unfold EncodePCMWithCodec. rewrite Hinit. cbn [obind]. unfold EncodePCM, codecEncodeBytes. rewrite Hmade, Hsr. by destruct l.
  - exact Hrun.
  - exists ((fun f : list Z => encoded l <$> f) <$> frames). rewrite length_fmap. split; [|done].
    change (wireOf _) with (wire r'). rewrite Hwire. by rewrite imap_fmap.
  - unfold DecodePCMWithCodec. rewrite Hinit. cbn [obind]. unfold DecodePCM, codecDecodeBytes. rewrite Hmade. simpl.
    rewrite lawDecode_eq. simpl. by rewrite Hrate.
  - change (wireOf _) with (wire r'). rewrite Hrecv. do 3 f_equal. by rewrite Hwire, length_imap.
  - eexists. split; [exact Hgot|]. rewrite Hwire. clear -Hframes.
    apply Forall2_same_length_lookup. split; [by rewrite length_fmap, length_imap|].
    intros j f out Hf Hout. rewrite list_lookup_fmap, list_lookup_imap, Hf in Hout. injection Hout as <-.
    pose proof (Forall_lookup_1 _ _ _ _ Hframes Hf) as Hp. simpl.
    clear Hf. induction Hp as [|v f Hv _ IH]; simpl; [constructor|]. constructor; [|exact IH].
    exact (decoded_near _ _ _ (laws_ok l) v Hv).
Qed.

End call.

(** A codec without a constructor: asking for audio of telephone events panics,
    although [initCodec] has an error for codecs that are not audio. *)
Theorem init_dtmf_panics `{Constants} (cc : CodecConfig) :
  initCodec CodecList.DTMF cc =
    if (negb (SampleRate cc =? 0)) && (Z.rem (SampleRate cc) 8000 =? 0) then Panic
    else Ok (inr (Errorf "no support for PCM codec")).
Proof. unfold initCodec. simpl. unfold supportDTMF. repeat case_if; try done; bool_cases; lia || done. Qed.

#[local] Instance rtpConstants : Constants := {|
  PayloadTypePCMU := 0; PayloadTypePCMA := 8; PayloadTypeG722 := 9; amrwbBest := 8;
|}.
Import Demo.

(** Frames of two samples sent at a steady 20 ms. *)
Definition steady (k : nat) : time := 1 + Z.of_nat (k / 2) * DefFrameDur.

Lemma steady_paced n : paced steady n.
Proof.
  split; [done|]. intros k Hk. unfold steady. rewrite (Nat.mul_comm 2), Nat.div_mul by lia.
  change (1 / 2)%nat with 0%nat. change DefFrameDur with 20000000. lia.
Qed.

Lemma g711_call_witness :
  exists r x x' h h', newRtpStream 8 8000 (NewSeqWriter 8000 77) steady (fun _ => None) = Ok r /\
    EncodePCMWithCodec createFile None r CodecList.ALaw noConfig = Ok (inl (Some x)) /\
    putAll [[100; -100]; [3000; 0]] x = Ok (x', [None; None]) /\
    (exists payloads, wireOf x' = imap (packetAt 8 77) payloads /\ length payloads = 2%nat) /\
    DecodePCMWithCodec createFile [] None true (fun _ => 0) None (NewFrameWriter [] 8000) CodecList.ALaw noConfig 8 = Ok (inl h) /\
    handleAll (wireOf x') h = Ok (h', [None; None]) /\
    exists out, framesOf h' = [] ++ out /\
      Forall2 (Forall2 (fun a b => 32 * Z.abs (a - b) <= Z.abs a + 32 * 11)) [[100; -100]; [3000; 0]] out.
Proof.
  apply (g711_call createFile [] None true (fun _ => 0) None ALaw noConfig
    (mkInfo ALawInfo (mkConfig 8000 0 []) 0) 8 77 steady [[100; -100]; [3000; 0]] (NewFrameWriter [] 8000)).
  - reflexivity.
  - repeat constructor; done.
  - apply steady_paced.
  - simpl. lia.
  - split; reflexivity.
Defined.
