(* ===== verification/CallSetup.v ===== *)
(** * CallSetup: from a session description to packets and back

    The composition of the negotiation of [Sdp] with the codecs of [CodecList],
    the chains of [AudioCodec] and the streams of [RtpCodecs]: what an
    application does with the codec that [SelectAudio] gave it. *)

From Stdlib Require Import Ascii.
From stdpp Require Import base tactics numbers strings list sets gmap.
From S2P Require Import Prelude RtpTypes.
From S2P Require SeqWriter Opus Amrwb G722.
From S2P Require Import GoStr Codecs CodecList CodecListProps Writers FileWriter Resample AudioCodec RtpCodecs.
From S2P Require Import WritersProps FileWriterProps ResampleProps CodecLaws AudioCodecProps.
From S2P Require RtpCodecsProps SdpProps.
From S2P Require Import Srtp Sdp.

#[local] Open Scope go_scope.

(** ** The codecs of a description *)

Section negotiated.
Context `{Constants} `{SrtpLib} `{SdpLib}.
(** The best mode is a mode of an int. *)
Hypothesis amrwbBest_int : 0 <= amrwbBest <= 9223372036854775807.

(** A world that only has codecs of the program. *)
Definition programOnly (w : world) : Prop := Forall (fun t => t ∈ allCodecs) (codecs w).

Lemma setByName_in (m : gmap str CodecType) cs name t :
  fold_left setByName cs m !! name = Some t -> t ∈ cs \/ m !! name = Some t.
Proof.
  revert m. induction cs as [|c cs IH]; intros m; simpl; [auto|]. intros [Ht|Ht]%IH; [left; by right|].
  unfold setByName in Ht. case_decide; [auto|]. apply lookup_insert_Some in Ht as [[_ <-]|[_ Ht]]; [left; left|auto].
Qed.

Lemma CodecByNameWith_in w s name t : CodecByNameWith w s name = Some t -> t ∈ codecs w.
Proof.
  unfold CodecByNameWith. case_match; [done|]. intros Ht.
  apply setByName_in in Ht as [?|Ht]; [done|by rewrite lookup_empty in Ht].
Qed.

Lemma codecByTypeFrom_in cs l l' t : codecByTypeFrom l cs = Ok l' -> Some t ∈ l' -> t ∈ cs \/ Some t ∈ l.
Proof.
  revert l. induction cs as [|c cs IH]; intros l; simpl; [intros [= ->]; auto|].
  destruct (setByType l c) as [l1|] eqn:Hset; simpl; [|done]. intros Hl Ht.
  destruct (IH l1 Hl Ht) as [?|Ht1]; [left; by right|].
  unfold setByType, go_set in Hset. destruct (RTPIsStatic (info c)); [|injection Hset as <-; auto].
  case_match; [done|]. injection Hset as <-. apply list_elem_of_lookup in Ht1 as [j Hj].
  apply list_lookup_insert_Some in Hj as [(_ & [= <-] & _)|[_ Hj]]; [left; left|right; by eapply list_elem_of_lookup_2].
Qed.

Lemma CodecByPayloadType_in w typ t : CodecByPayloadType w typ = Ok (Some t) -> t ∈ codecs w.
Proof.
  unfold CodecByPayloadType, codecByType. destruct (codecByTypeFrom _ _) as [l|] eqn:Hl; simpl; [|done].
  unfold go_index. case_match; [done|]. destruct (l !! _) as [x|] eqn:Hx; [|done]. intros [= ->].
  destruct (codecByTypeFrom_in _ _ _ _ Hl (list_elem_of_lookup_2 _ _ _ Hx)) as [?|Hn]; [done|].
  by apply elem_of_replicate in Hn as [? _].
Qed.

(** An audio codec that this side can use: of the program, with the information
    that it answers for its own configuration. *)
Record workable (c : Sdp.CodecInfo) (t : CodecType) : Prop := {
  wk_codec : Codec c = Some t;
  wk_program : t ∈ allCodecs;
  wk_audio : kindOf c = Audio;
  wk_supports : Supports t (config (Info c)) = (Info c, true);
}.

(** What a codec does not support has no information. *)
Lemma unsupported_info t cfg i : t ∈ allCodecs -> Supports t cfg = (i, false) -> i = noInfo.
Proof.
  intros Ht. revert t Ht cfg i. refine (proj1 (Forall_forall _ _) _).
  repeat constructor; intros cfg i; unfold Supports; simpl;
    unfold supportALaw, supportULaw, supportG722, supportOpus, supportAMRWB, supportDTMF, unsupported;
    repeat case_match; intros; simplify_eq; done.
Qed.

Lemma lookupCodec_workable w s ci c :
  programOnly w -> lookupCodec w s ci = Ok c -> kindOf c = Audio -> exists t, workable c t.
Proof.
  intros Hw. unfold lookupCodec.
  set (r := if decide (pName ci <> []) then _ else _). assert (forall t, r = Ok (Some t) -> t ∈ allCodecs) as Hr.
  { intros t Hrt. apply (proj1 (Forall_forall _ _) Hw). subst r. case_decide.
    - injection Hrt as Hrt. by eapply CodecByNameWith_in.
    - destruct (CodecByPayloadType w _) as [[x|]|] eqn:Hc; simpl in Hrt; [|by case_match|done].
      case_match; [|done]. injection Hrt as ->. by eapply CodecByPayloadType_in. }
  destruct r as [[t|]|]; simpl; [|intros [= <-]; done|done]. specialize (Hr t eq_refl).
  destruct (Supports t (pConfig ci)) as [i ok] eqn:Hs. intros [= <-] Hk. destruct ok.
  - exists t. split; [done..|]. apply (allCodecs_stable amrwbBest_int t Hr _ _ Hs).
  - apply unsupported_info in Hs as ->; [|done]. done.
Qed.

Lemma lookupCodecs_in w s cis cs c : lookupCodecs w s cis = Ok cs -> c ∈ cs -> exists ci, lookupCodec w s ci = Ok c.
Proof.
  revert cs. induction cis as [|ci cis IH]; intros cs; simpl; [intros [= <-] Hc; by apply not_elem_of_nil in Hc|].
  destruct (lookupCodec w s ci) as [c1|] eqn:Hc1; simpl; [|done].
  destruct (lookupCodecs w s cis) as [cs'|]; simpl; [|done]. intros [= <-] [->|Hc]%elem_of_cons; eauto.
Qed.

Lemma ParseMediaWith_workable w s m md c :
  programOnly w -> ParseMediaWith w s m = Ok (inl md) -> c ∈ AudioCodecs md -> exists t, workable c t.
Proof.
  intros Hw. unfold ParseMediaWith. destruct (parseAttributes _ _) as [[st|err]|]; simpl; [|done..].
  destruct (lookupCodecs w s _) as [cs|] eqn:Hcs; simpl; [|done]. intros [= <-]. simpl.
  intros [Hk Hc]%list_elem_of_filter. destruct (lookupCodecs_in _ _ _ _ _ Hcs Hc) as [ci Hci].
  by eapply lookupCodec_workable.
Qed.

Lemma bestAudio_in answer cs best p c : bestAudio answer cs best p = Some c -> c ∈ cs \/ best = Some c.
Proof.
  revert best p. induction cs as [|x cs IH]; intros best p; simpl; [auto|].
  destruct ((match best with None => true | Some _ => false end) || (p <? Priority (typeInfo (Info x)))).
  - destruct answer; [intros [= ->]; left; left|]. intros [?|[= ->]]%IH; left; [by right|left].
  - destruct answer; [auto|]. intros [?|?]%IH; [left; by right|auto].
Qed.

(** The codec that is selected can be used. *)
Lemma SelectAudio_workable w s m md answer a :
  programOnly w -> ParseMediaWith w s m = Ok (inl md) -> SelectAudio md answer = inl a -> exists t, workable (audioCodec a) t.
Proof.
  intros Hw Hm. unfold SelectAudio. destruct (bestAudio _ _ _ _) as [c|] eqn:Hb; [|done]. intros [= <-]. simpl.
  apply bestAudio_in in Hb as [Hb|Hb]; [|done]. by eapply ParseMediaWith_workable.
Qed.

(** The constructor of an audio codec, and the codec that it makes. *)
Lemma workable_audioCodec c t : workable c t ->
  exists ac, audioCodecFor t (config (Info c)) = Some ac /\ codecInfo ac = Info c /\
    initCodec t (config (Info c)) = Ok (inl ac).
Proof.
  intros [_ Ht Hk Hs]. apply Supports_support in Hs as (i & Hs & Hi).
  assert (createOf t (config (Info c)) <> None) as Hc.
  { assert (kind (typeInfo i) = Audio) as Hki by (unfold kindOf in Hk; rewrite Hi in Hk; unfold Defaults in Hk; by case_match).
    clear Hi. revert t Ht i Hs Hki. refine (proj1 (Forall_forall _ _) _).
    repeat constructor; intros i Hs Hki.
    2:{ simpl in Hs. unfold supportDTMF in Hs. repeat case_match; simplify_eq; done. }
    all: unfold createOf; repeat (case_decide; [done|]); done. }
  destruct (createOf t (config (Info c))) as [cr|] eqn:Hcr; [|done].
  exists (NewAudioCodecFunc i cr). unfold audioCodecFor, initCodec. rewrite Hs, Hcr. split_and!; [done| |done]. by rewrite Hi.
Qed.

End negotiated.

(** ** The packets of a stream *)

(** Packet number [j] of a stream. *)
Definition packetOk (pt ssrc : Z) (j : nat) (p : Packet) : Prop :=
  PayloadType (header p) = pt /\ SSRC (header p) = ssrc /\ SequenceNumber (header p) = u16 (Z.of_nat j) /\ raw (Payload p).

Definition packetsOk (pt ssrc : Z) (ps : list Packet) : Prop := forall j p, ps !! j = Some p -> packetOk pt ssrc j p.

(** How many of the first [n] packets the network took. *)
Definition accepted (net : nat -> option error) (n : nat) : nat := length (filter (fun k => net k = None) (seq 0 n)).

Record rtpGood (pt ssrc : Z) (net : nat -> option error) (r : rtpStream) : Prop := {
  rg_stream : SeqWriter.typ (stream r) = pt /\ SeqWriter.manual (stream r) = false;
  rg_ssrc : SSRC (SeqWriter.h (seqw r)) = ssrc;
  rg_next : SequenceNumber (SeqWriter.h (seqw r)) = u16 (zlen (wire r));
  rg_wire : packetsOk pt ssrc (wire r);
  rg_net : werr r = net;
  rg_sent : length (wire r) = accepted net (writes r);
}.

Lemma accepted_S net n : accepted net (S n) = (accepted net n + if net n then 0 else 1)%nat.
Proof.
  unfold accepted. rewrite seq_S, filter_app, length_app. f_equal. simpl. rewrite filter_cons.
  by destruct (net n).
Qed.

Lemma packetsOk_snoc pt ssrc ps p : packetsOk pt ssrc ps -> packetOk pt ssrc (length ps) p -> packetsOk pt ssrc (ps ++ [p]).
Proof.
  intros Hps Hp j q [Hq|[Hj Hq]]%lookup_app_Some; [by apply Hps|].
  apply list_lookup_singleton_Some in Hq as [Hj0 <-]. by replace j with (length ps) by lia.
Qed.

#[export] Instance rtpStream_serves pt ssrc net : Serves raw (rtpGood pt ssrc net).
Proof.
  split; [|intros r Hr; simpl; eauto].
  intros data r [[Ht Hm] Hs Hn Hw Hnet Hsent] Hraw. cbn [wput rtpStream_ops].
  unfold SeqWriter.WriteRaw, SeqWriter.WritePayload. rewrite Hm.
  unfold SeqWriter.finishPayload, SeqWriter.WriteEvent. cbn [SeqWriter.EvTimestamp SeqWriter.EvPayload].
  destruct (if IsZero _ then _ else _) as [aTime aTS].
  destruct (werr r (writes r)) as [e|] eqn:He; (do 2 eexists; split; [done|]); rewrite Hnet in He.
  - split; simpl; try done. by rewrite accepted_S, He, Nat.add_0_r.
  - split; simpl; try done.
    + rewrite Hn. unfold zlen. rewrite length_app. simpl. unfold u16. lia.
    + apply packetsOk_snoc; [done|]. rewrite RtpCodecsProps.copyOf_id. unfold packetOk. by rewrite <- Ht.
    + rewrite accepted_S, He, length_app. simpl. by rewrite Hsent.
Qed.

(** The same of a [MediaStreamOut], which is a writer of bytes at its rate. *)
#[export] Instance mediaStreamOut_serves pt ssrc net rate :
  Serves raw (fun s => rtpGood pt ssrc net (outStream s) /\ outRate s = rate).
Proof.
  split; cbn [wput wclose mediaStreamOut_ops].
  - intros data s [Hs Hr] Hraw. below_put data (outStream s) Hs. do 2 eexists. split; [done|by split].
  - intros s Hs. do 2 eexists. by split.
Qed.
#[export] Instance mediaStreamOut_hasRate pt ssrc net rate :
  HasRate rate (fun s => rtpGood pt ssrc net (outStream s) /\ outRate s = rate).
Proof. split. by intros s [_ <-]. Qed.

Lemma newRtpStream_good pt rate ssrc clock werr :
  exists r, newRtpStream pt rate (SeqWriter.NewSeqWriter rate ssrc) clock werr = Ok r /\ rtpGood pt ssrc werr r.
Proof.
  unfold newRtpStream, SeqWriter.NewStream. simpl. rewrite Z.eqb_refl. simpl. eexists. split; [done|].
  by split.
Qed.

(** ** Both ends of a call *)

(** A handler over a writer that serves. *)
Lemma handleAll_serves {W : Type} `{WriterOps (list Z) W} (good : W -> Prop) `{!Serves raw good} ps (h : rawHandler W) :
  good (rw h) -> Forall (fun p => raw (Payload p)) ps ->
  exists h' es h'', handleAll ps h = Ok (h', es) /\ length es = length ps /\ hclose h' = Ok h''.
Proof.
  intros Hh Hps. revert h Hh. induction Hps as [|p ps Hp _ IH]; intros h Hh.
  - destruct (serves_close (ok := raw) (rw h) Hh) as (w & e & Hc & _). exists h, [].
    eexists. split_and!; [done|done|]. simpl. by rewrite Hc.
  - cbn [handleAll handleRTP rawHandler_ops]. destruct (serves_put (Payload p) (rw h) Hh Hp) as (w & e & -> & Hw). cbn [obind].
    destruct (IH (HandlePayload w (rtyp h)) Hw) as (h' & es & h'' & -> & Hl & Hc). cbn [obind].
    exists h', (e :: es), h''. split_and!; [done|simpl; by rewrite Hl|done].
Qed.

Section call.
Context {X OD OE AD AE GD GE ST : Type} `{FileLaws X content closes}.
Context `{OpusLaws OD OE chans} `{AmrwbLaws AD AE} `{G722Laws GD GE decLow encLow} `{Constants} `{ResampleLaws ST}.
Context `{SrtpLib} `{SdpLib}.
Context (createFile : str -> X + error) (g722Dump : option Z) (Hcreate : g722Dump <> None -> canCreate createFile).
Context (defaults : list ResampleOption) (dumpToFile : option Z) (cgo : bool) (spares : nat -> Z).
Context (Hdumps : dumping defaults dumpToFile [] -> canCreate createFile).

#[local] Notation sending := (encoding X OE AE GE (byteEncoder rtpStream)).

(** The first writer of a [MultiWriter], beside a dump. *)
Definition main {W D : Type} (m : multiWriter (W + D)) : option W :=
  match multi m with inl w :: _ => Some w | _ => None end.

(** The stream at the end of the chain of an encoder, and its packets. *)
Definition streamBelow (x : sending) : option rtpStream :=
  encoded_ <$>
  match x with
  | EncLaw x => Some (lew x)
  | EncG722 x => Some (G722.gew x)
  | EncG722Dumped x => x ← main x; main (G722.gew x)
  | EncOpus x => Some (Opus.ew x)
  | EncAMRWB x => Some (Amrwb.aew x)
  end.

Lemma main_good {W D : Type} (good : W -> Prop) (good' : D -> Prop) (m : multiWriter (W + D)) w :
  multiGood (sumGood good good') m -> main m = Some w -> good w.
Proof. unfold main. intros [_ Hm] Hw. destruct (multi m) as [|[]]; simplify_eq. by inversion Hm. Qed.

Lemma streamBelow_good (good : rtpStream -> Prop) rate (x : sending) r :
  encodingGood (encLow := encLow) (good := encoderGood good rawFrame rate) (rate := rate) x -> streamBelow x = Some r -> good r.
Proof.
  unfold streamBelow. intros Hx (b & Hb & ->)%fmap_Some. destruct x as [x|x|x|x|x]; simpl in Hx, Hb.
  - simplify_eq. apply Hx.
  - simplify_eq. apply Hx.
  - apply bind_Some in Hb as (y & Hy & Hb). pose proof (main_good _ _ _ _ Hx Hy) as [Hg _].
    by destruct (main_good _ _ _ _ Hg Hb).
  - simplify_eq. apply Hx.
  - simplify_eq. apply Hx.
Qed.

(** The stream stays where it is. *)
Lemma main_put {V D : Type} `{WriterOps (list Z) V} `{WriterOps (list Z) D} f (m m' : multiWriter (V + D)) w e :
  main m = Some w -> wput f m = Ok (m', e) -> exists w' e', wput f w = Ok (w', e') /\ main m' = Some w'.
Proof.
  unfold main. destruct m as [[|[v|d] ws]]; simpl; [done| |done]. intros [= ->].
  destruct (wput f w) as [[w' e']|]; simpl; [|done].
  destruct (eachWriter _ ws) as [[ws' es]|]; simpl; [|done]. intros [= <- _]. eauto.
Qed.

Lemma g722_put {V : Type} `{WriterOps (list Z) V} f (x x' : G722.Encoder GE V) e :
  wput f x = Ok (x', e) -> exists bs e', wput bs (G722.gew x) = Ok (G722.gew x', e').
Proof.
  simpl. destruct (G722.g722Encode _ _ _) as [l out]. case_match; [done|].
  destruct (wput out (G722.gew x)) as [[w e']|] eqn:Hw; simpl; [|done]. intros [= <- _]. eauto.
Qed.

Lemma streamBelow_put f (x x' : sending) e :
  wput f x = Ok (x', e) -> is_Some (streamBelow x) -> is_Some (streamBelow x').
Proof.
  intros Hp Hx. unfold streamBelow in *. rewrite fmap_is_Some in *. cbn [wput encoding_ops] in Hp.
  destruct x as [x|x|x|x|x]; (destruct (wput f x) as [[y e']|] eqn:Hy; simpl in Hp; [|done]); injection Hp as <- <-; try done.
  destruct Hx as [b Hb]. apply bind_Some in Hb as (g & Hg & Hb).
  destruct (main_put f x y g _ Hg Hy) as (g' & e1 & Hg' & Hm). apply g722_put in Hg' as (bs & e2 & Hb').
  destruct (main_put bs _ _ b _ Hb Hb') as (b' & e3 & _ & Hb''). exists b'. simpl. by rewrite Hm.
Qed.

Lemma streamBelow_putAll fs (x x' : sending) es :
  putAll fs x = Ok (x', es) -> is_Some (streamBelow x) -> is_Some (streamBelow x').
Proof.
  revert x es. induction fs as [|f fs IH]; intros x es; cbn [putAll]; [by intros [= -> _]|].
  destruct (wput f x) as [[x1 e]|] eqn:Hx1; cbn [obind]; [|done].
  destruct (putAll fs x1) as [[x2 es']|] eqn:Hx2; cbn [obind]; [|done]. intros [= -> _] Hx.
  by eapply IH, streamBelow_put.
Qed.

Lemma streamBelow_encode c (r : rtpStream) x :
  codecEncodeBytes createFile g722Dump c r = Ok (Some x) -> is_Some (streamBelow x).
Proof.
  unfold codecEncodeBytes, encode. set (b := EncodeBytes _ _ _). destruct (made c) as [l| | |mode].
  - destruct (lawEncode l b); simpl; [|done]. intros [= <-]. eauto.
  - destruct g722Dump as [id|].
    + unfold G722.EncodeDumped, DumpWriterPCM16, DumpWriter. intros He.
      destruct (G722.Encode b) as [e|]; cbn [obind] in He; [|done].
      destruct (wrate b) as [rb|]; cbn [obind] in He; [|done].
      destruct (DumpFile _ rawFrame _ _ _) as [fb|]; cbn [obind] in He; [|done].
      destruct (wrate (G722.mkG722Encoder _ _ _ _)) as [re|]; cbn [obind] in He; [|done].
      destruct (DumpFile _ pcmFrame _ _ _) as [fe|]; cbn [obind] in He; [|done].
      injection He as <-. by eexists.
    + destruct (G722.Encode b); simpl; [|done]. intros [= <-]. eauto.
  - destruct (Opus.Encode b 1) as [[y|]|]; simpl; [|done..]. intros [= <-]. eauto.
  - destruct (Amrwb.EncodeWith b mode); simpl; [|done]. intros [= <-]. eauto.
Qed.

Lemma packetsOk_raw pt ssrc ps : packetsOk pt ssrc ps -> Forall (fun p => raw (Payload p)) ps.
Proof. intros Hps. apply Forall_lookup. intros j p Hj. by destruct (Hps j p Hj) as (_ & _ & _ & ?). Qed.

Context {W : Type} `{WriterOps (list Z) W} `{RateOps W} {good : W -> Prop} {rate : Z} `{!Serves pcm good} `{!HasRate rate good}.

(** C2: A call with the codec that was negotiated: whatever media description was
    read by a side whose codecs are those of the program, with a codec that
    [SelectAudio] chose in it, an application makes the stream of a new
    [SeqWriter] for its payload type and clock rate, and a PCM writer over it
    with [EncodePCMWithCodec], which has the sample rate of the codec; it takes
    all frames without a panic, and the packets on the wire are all those that
    the network did not refuse, have the payload type that was negotiated and are
    numbered from 0 without a gap.  Over any PCM writer at a rate at which the
    codec may decode (libopus supports it, for Opus; and where a resampler is
    needed it is that of the C library: a build with cgo and default options
    that do not choose the predictable one), the handler of
    [DecodePCMWithCodec] for the same codec takes those packets without a panic,
    in whatever order and however often they arrive, and may then be closed.  It
    is assumed that the libraries of the codecs and of the
    resampler keep their laws, and that the files of
    the dumps can be created if a dump is on. *)
Theorem negotiated_call (w : world) (s : option nat) (m : MediaDescription) (md : MediaDesc) (answer : bool) (a : AudioConfig)
    (ssrc : Z) (clock : nat -> time) (werr : nat -> option error) (frames : list (list Z)) (pw : W)
    (Hbest : 0 <= amrwbBest <= 9223372036854775807) (Hworld : programOnly w)
    (Hread : ParseMediaWith w s m = Ok (inl md)) (Hsel : SelectAudio md answer = inl a)
    (Hframes : Forall pcm frames) (Hpw : good pw) :
  let c := audioCodec a in
  exists t ac r x x' es r', Codec c = Some t /\ initCodec t (config (Info c)) = Ok (inl ac) /\
    newRtpStream (Type_ c) (RTPClockRate (Info c)) (SeqWriter.NewSeqWriter (RTPClockRate (Info c)) ssrc) clock werr = Ok r /\
    EncodePCMWithCodec createFile g722Dump r t (config (Info c)) = Ok (inl (Some x)) /\
    wrate x = Ok (SampleRate (config (Info c))) /\ putAll frames x = Ok (x', es) /\
    streamBelow x' = Some r' /\ length (wire r') = accepted werr (writes r') /\ packetsOk (Type_ c) ssrc (wire r') /\
    (decodable defaults cgo rate (made ac) -> exists h,
       DecodePCMWithCodec createFile defaults dumpToFile cgo spares g722Dump pw t (config (Info c)) (Type_ c) = Ok (inl h) /\
       forall arrived, arrived ⊆ wire r' ->
         exists h' es' h'', handleAll arrived h = Ok (h', es') /\ length es' = length arrived /\ hclose h' = Ok h'').
Proof.
  intros c. destruct (SelectAudio_workable Hbest w s m md answer a Hworld Hread Hsel) as [t Hwk].
  destruct (workable_audioCodec c t Hwk) as (ac & Hac & Hinfo & Hinit).
  destruct (newRtpStream_good (Type_ c) (RTPClockRate (Info c)) ssrc clock werr) as (r & Hr & Hgr).
  destruct (codecEncodeBytes_good createFile g722Dump Hcreate t _ ac r Hgr (wk_program c t Hwk) Hac) as (x & Hx & Hgx).
  rewrite Hinfo in Hgx. pose proof (has_rate x Hgx) as Hxrate.
  destruct (serves_putAll pcm _ frames x Hgx Hframes) as (x' & es & Hput & Hgx').
  destruct (streamBelow_putAll _ _ _ _ Hput (streamBelow_encode _ _ _ Hx)) as [r' Hr'].
  pose proof (streamBelow_good _ _ _ _ Hgx' Hr') as Hgr'. pose proof (packetsOk_raw _ _ _ (rg_wire _ _ _ _ Hgr')) as Hraw.
  exists t, ac, r, x, x', es, r'. split_and!; try done.
  - apply Hwk.
  - unfold EncodePCMWithCodec. rewrite Hinit. cbn [obind]. unfold EncodePCM. by rewrite Hx.
  - apply Hgr'.
  - apply Hgr'.
  - intros Hdec.
    destruct (decode_good createFile g722Dump Hcreate defaults dumpToFile cgo spares Hdumps (made ac) pw Hpw Hdec) as (d & Hd & Hgd).
    exists (HandlePayload (DecodeBytes (Some d)) (Type_ c)). split.
    { unfold DecodePCMWithCodec. rewrite Hinit. cbn [obind]. unfold DecodePCM, codecDecodeBytes. by rewrite Hd. }
    intros arrived Harr. apply (handleAll_serves (decoderGood (decodingGood (good := good) (rate := rate)))); [by eexists|].
    apply Forall_forall. intros p Hp. by apply (proj1 (Forall_forall _ _) Hraw), Harr.
Qed.

End call.

(** An offer with Opus, read by a side that knows it; the network refuses the
    first packet. *)
Import Demo SdpProps.Example.

Lemma offering_programOnly : programOnly offering.
Proof.
  change (Forall (fun t => t ∈ allCodecs) [ULaw; Opus; DTMF]). unfold allCodecs.
  repeat constructor.
Qed.

Definition offeredMedia : MediaDescription :=
  match OfferMediaWith (OfferCodecsWith true offering None) 5004 EncryptionNone (inl []) with
  | inl (_, m) => m
  | inr _ => mkMedia [] 0 [] [] [] None
  end.

Definition refusing (k : nat) : option error := if decide (k = 0%nat) then Some (Errorf "network is unreachable") else None.

Lemma negotiated_call_witness :
  exists md a, ParseMediaWith offering None offeredMedia = Ok (inl md) /\ SelectAudio md false = inl a /\
    Name (typeInfo (Info (audioCodec a))) = lit "opus" /\
  let c := audioCodec a in
  exists t r x x' es r' h, Codec c = Some t /\
    newRtpStream (Type_ c) (RTPClockRate (Info c)) (SeqWriter.NewSeqWriter (RTPClockRate (Info c)) 77) (fun k => 1 + Z.of_nat k)
      refusing = Ok r /\
    EncodePCMWithCodec createFile None r t (config (Info c)) = Ok (inl (Some x)) /\
    wrate x = Ok (SampleRate (config (Info c))) /\ putAll twoFrames x = Ok (x', es) /\
    streamBelow x' = Some r' /\ length (wire r') = accepted refusing (writes r') /\ packetsOk (Type_ c) 77 (wire r') /\
    DecodePCMWithCodec createFile [] None true (fun _ => 0) None (NewFrameWriter [] 24000) t (config (Info c)) (Type_ c) = Ok (inl h) /\
    forall arrived, arrived ⊆ wire r' ->
      exists h' es' h'', handleAll arrived h = Ok (h', es') /\ length es' = length arrived /\ hclose h' = Ok h''.
Proof.
  assert (match ParseMediaWith offering None offeredMedia with
          | Ok (inl md) => match SelectAudio md false with
                           | inl a => Name (typeInfo (Info (audioCodec a))) = lit "opus"
                           | inr _ => False
                           end
          | _ => False
          end) as Hopus by (vm_compute; reflexivity).
  destruct (ParseMediaWith offering None offeredMedia) as [[md|err]|] eqn:Hm; [|destruct Hopus..].
  destruct (SelectAudio md false) as [a|err] eqn:Ha; [|destruct Hopus].
  exists md, a. do 3 (split; [reflexivity || assumption|]).
  destruct (negotiated_call createFile None (fun _ => createFile_ok) [] None true (fun _ => 0) (fun _ => createFile_ok)
    (good := anySink 24000) (rate := 24000) offering None offeredMedia md false a 77 (fun k => 1 + Z.of_nat k) refusing
    twoFrames (NewFrameWriter [] 24000)) as (t & ac & r & x & x' & es & r' & H1 & _ & H2 & H3 & H4 & H5 & H6 & H7 & H8 & Hdec).
  - vm_compute. split; discriminate.
  - apply offering_programOnly.
  - exact Hm.
  - exact Ha.
  - apply twoFrames_pcm.
  - reflexivity.
  - destruct Hdec as (h & Hh).
    { split; [lia|split; [intros _; apply (bool_decide_unpack _); vm_compute; exact I|intros _; by split]]. }
    exists t, r, x, x', es, r', h.
    exact (conj H1 (conj H2 (conj H3 (conj H4 (conj H5 (conj H6 (conj H7 (conj H8 Hh)))))))).
Defined.
