(* ===== verification/Res.v ===== *)
(** * Res: embedded audio files, [src/res/embed.go]

    The Ogg Vorbis reader is outside: its sample rate and channels, and what its
    reads return, one after the other.  The sound files themselves are data. *)

From stdpp Require Import base tactics numbers strings list.
From S2P Require Import Prelude GoFloat.

#[local] Open Scope go_scope.

Definition SampleRate : Z := 48000.

Section ogg.
Context `{Conversions}.

(** [int16(buf[i] * 0x7fff)] *)
Definition toSample (f : float) : Z := toInt16 (fmul32 f (ofInt32 32767)).

Record oggReader : Type := mkOggReader {
  oggRate : Z;
  oggChannels : Z;
  oggReads : list (list float * option error);
}.

(** The first loop: the samples that were read; [None] when the reader gives no
    end. *)
Fixpoint readSamples (reads : list (list float * option error)) (samples : list Z) : option (outcome (list Z)) :=
  match reads with
  | [] => None
  | (fs, err) :: reads =>
      let samples := samples ++ (toSample <$> fs) in
      match err with
      | Some EOF => Some (Ok samples)
      | Some _ => Some Panic
      | None => readSamples reads samples
      end
  end.

(** The second loop; a turn takes a sample when frames have samples. *)
Fixpoint splitFrames (fuel : nat) (perFrame : Z) (samples : list Z) (frames : list (list Z)) : option (outcome (list (list Z))) :=
  if zlen samples <=? 0 then Some (Ok frames)
  else
    match fuel with
    | O => None
    | S fuel =>
        match (if perFrame <? zlen samples then go_slice samples 0 perFrame else Ok samples) with
        | Panic => Some Panic
        | Ok cur =>
            match go_slice samples (zlen cur) (zlen samples) with
            | Panic => Some Panic
            | Ok rest => splitFrames fuel perFrame rest (frames ++ [cur])
            end
        end
    end.

(** [ReadOggAudioFile], for a file that is one. *)
Definition ReadOggAudioFile (r : oggReader) (sampleRate channels : Z) : option (outcome (list (list Z))) :=
  let perFrame := Z.quot sampleRate DefFramesPerSec in
  if negb (oggRate r =? sampleRate) then Some Panic
  else if negb (oggChannels r =? channels) then Some Panic
  else
    match readSamples (oggReads r) [] with
    | None => None
    | Some Panic => Some Panic
    | Some (Ok samples) => splitFrames (length samples) perFrame samples []
    end.

(** ** The frames *)

(** A file read without errors is cut into frames of 20 ms, the last of which
    may be shorter, without losing a sample. *)
Lemma splitFrames_spec perFrame fuel samples frames :
  0 < perFrame -> (length samples <= fuel)%nat ->
  exists cut, splitFrames fuel perFrame samples frames = Some (Ok (frames ++ cut)) /\ concat cut = samples /\
    (forall i f, cut !! i = Some f -> (S i < length cut)%nat -> zlen f = perFrame) /\
    Forall (fun f => 0 < zlen f <= perFrame) cut.
Proof.
  intros Hp. revert samples frames. induction fuel as [|fuel IH]; intros samples frames Hl; cbn [splitFrames].
  - exists []. destruct samples; [|simpl in Hl; lia]. by rewrite app_nil_r.
  - pose proof (zlen_nonneg samples). case_if.
    { exists []. rewrite app_nil_r, (zlen_0 samples) by lia. by split_and!. }
    destruct (decide (perFrame < zlen samples)) as [Hlt|Hge].
    + rewrite (proj2 (Z.ltb_lt _ _) Hlt). rewrite go_slice_Ok by lia. rewrite Z.sub_0_r, drop_0.
      assert (zlen (take (Z.to_nat perFrame) samples) = perFrame) as Hc by (unfold zlen in *; rewrite length_take; lia).
      rewrite Hc, go_slice_Ok by lia. rewrite (take_ge (drop _ _)) by (rewrite length_drop; unfold zlen in *; lia).
      destruct (IH (drop (Z.to_nat perFrame) samples) (frames ++ [take (Z.to_nat perFrame) samples]))
        as (cut & -> & Hcat & Hfull & Hsz); [rewrite length_drop; unfold zlen in *; lia|].
      exists (take (Z.to_nat perFrame) samples :: cut). rewrite <- app_assoc. split; [done|].
      split; [simpl; by rewrite Hcat, take_drop|]. split; [|by constructor; [lia|]].
      intros [|i] f Hi Hn; [by injection Hi as <-|]. apply (Hfull i f Hi). simpl in Hn. lia.
    + assert ((perFrame <? zlen samples) = false) as -> by (apply Z.ltb_ge; lia).
      rewrite go_slice_Ok by lia. rewrite (drop_ge samples) by (unfold zlen; lia). rewrite take_nil.
      exists [samples]. split; [by destruct fuel|]. split; [apply app_nil_r|]. split; [|repeat constructor; lia].
      intros [|i] f Hi Hn; simpl in Hn; lia.
Qed.

End ogg.
